(** * DuMMForceFieldSubsystem: a shallow embedding and its verified properties

    The development follows [DuMMForceFieldSubsystem.cpp].  The first part
    embeds the data model and the operations of the force-field subsystem
    (class-tuple keys, van der Waals mixing rules, the molecule graph, the
    cluster tree, topology realization and the force kernel); the second part
    states and proves the properties.

    Conventions of the embedding.
    - C++ [int] is [Z]; the sentinel [-1] of the source is kept as it is.
      The sums that the source computes from an [int] argument of the client
      ([id+1], [bodyNum+1]) are taken in 32-bit [int]: a sum that does not
      fit is undefined behaviour in the source and aborts here.
    - [std::vector] is [list]; [v[i]] on an index outside the vector is
      undefined behaviour in the source and aborts here.
    - [Real] (a double) is idealised: rounding, overflow and underflow are
      ignored.  Values that the source can make non-finite (a division by
      zero, a default NaN) have type [XReal = option R], where [None] stands
      for a non-finite value; positions, transforms and the numeric arguments
      of the API are finite reals.
    - A failed [assert] aborts; a failed [SimTK_APIARGCHECK] throws, and the
      state as it was at the throw is kept.
    - [Abort] is the outcome of every run for which the embedding tells no
      result: a failed assertion, an index outside a vector, an [int] sum
      that overflows, and a recursion over the cluster tree that is deeper
      than the fuel (in the source it may not end at all). *)

From Stdlib Require Import String ZArith List Bool Reals Lra Lia.
From Stdlib Require Import Permutation DecimalString.
Import ListNotations.

Local Open Scope string_scope.
Local Open Scope list_scope.
Local Open Scope Z_scope.

(* ################################################################# *)
(** * Part I: the embedding *)

(* ================================================================= *)
(** ** Outcomes of a call *)

(** A call on a subsystem of type [S] returns a value, throws (API argument
    check) or aborts (assertion, out-of-range index, [int] overflow,
    recursion deeper than the fuel). *)
Inductive result (S A : Type) : Type :=
| Return (s : S) (a : A)
| Throw (s : S)
| Abort.
Arguments Return {S A} s a.
Arguments Throw {S A} s.
Arguments Abort {S A}.

Definition M (S A : Type) : Type := S -> result S A.

Definition ret {S A} (a : A) : M S A := fun s => Return s a.

Definition bind {S A B} (m : M S A) (f : A -> M S B) : M S B :=
  fun s => match m s with
           | Return s' a => f a s'
           | Throw s' => Throw s'
           | Abort => Abort
           end.

Declare Scope monad_scope.
Delimit Scope monad_scope with monad.
Notation "x <- c1 ;; c2" := (bind c1 (fun x => c2))
  (at level 61, c1 at next level, right associativity) : monad_scope.
Notation "c1 ;; c2" := (bind c1 (fun _ => c2))
  (at level 61, right associativity) : monad_scope.
Local Open Scope monad_scope.

Definition get {S} : M S S := fun s => Return s s.
Definition put {S} (s : S) : M S unit := fun _ => Return s tt.
Definition modify {S} (f : S -> S) : M S unit := fun s => Return (f s) tt.
Definition abort {S A} : M S A := fun _ => Abort.

(** [assert(b)] *)
Definition assert {S} (b : bool) : M S unit :=
  fun s => if b then Return s tt else Abort.

(** [SimTK_APIARGCHECK_ALWAYS(b, ...)] *)
Definition apiArgCheck {S} (b : bool) : M S unit :=
  fun s => if b then Return s tt else Throw s.

(** A value that must be there ([v[i]] inside the vector, a found key). *)
Definition must {S A} (o : option A) : M S A :=
  fun s => match o with Some a => Return s a | None => Abort end.

(** [INT_MAX] of a 32-bit [int]. *)
Definition INT_MAX : Z := 2147483647.

(** [a + b] on two [int]s: a sum outside [int] is undefined behaviour. *)
Definition intAdd {S} (a b : Z) : M S Z :=
  if (- INT_MAX - 1 <=? a + b) && (a + b <=? INT_MAX)
  then ret (a + b) else abort.

(** [for (x in l) body(x)] *)
Fixpoint forEach {S A} (l : list A) (body : A -> M S unit) : M S unit :=
  match l with
  | [] => ret tt
  | x :: l' => body x ;; forEach l' body
  end.

(** The indices [0 .. n-1] of a vector of size [n]. *)
Definition indices (n : nat) : list Z := map Z.of_nat (seq 0 n).

(* ================================================================= *)
(** ** Vectors indexed by [int] *)

(** [v[i]] *)
Definition at_ {A} (l : list A) (i : Z) : option A :=
  if i <? 0 then None else nth_error l (Z.to_nat i).

Fixpoint list_set {A} (l : list A) (n : nat) (x : A) : list A :=
  match l, n with
  | [], _ => []
  | _ :: l', O => x :: l'
  | y :: l', S n' => y :: list_set l' n' x
  end.

(** [v[i] = x]; [None] outside the vector. *)
Definition set_at {A} (l : list A) (i : Z) (x : A) : option (list A) :=
  if (0 <=? i) && (i <? Z.of_nat (length l))
  then Some (list_set l (Z.to_nat i) x) else None.

(** [f] applied in place to [v[i]]; the vector is left alone when [i] is
    outside it (the callers test the index first). *)
Fixpoint list_upd {A} (l : list A) (n : nat) (f : A -> A) : list A :=
  match l, n with
  | [], _ => []
  | y :: l', O => f y :: l'
  | y :: l', S n' => y :: list_upd l' n' f
  end.

Definition upd_at {A} (l : list A) (i : Z) (f : A -> A) : list A :=
  if i <? 0 then l else list_upd l (Z.to_nat i) f.

(** [v.resize(n)] with [d] the default-constructed element. *)
Definition resize {A} (n : Z) (d : A) (l : list A) : list A :=
  firstn (Z.to_nat n) l ++ repeat d (Z.to_nat n - length l).

Definition size {A} (l : list A) : Z := Z.of_nat (length l).

(* ================================================================= *)
(** ** Reals *)

Definition Rleb (a b : R) : bool := if Rle_dec a b then true else false.
Definition Rltb (a b : R) : bool := if Rlt_dec a b then true else false.
Definition Reqb (a b : R) : bool := if Req_dec_T a b then true else false.

(** A [Real] that may be non-finite. *)
Definition XReal : Type := option R.

Definition xlift2 (f : R -> R -> R) (a b : XReal) : XReal :=
  match a, b with
  | Some x, Some y => Some (f x y)
  | _, _ => None
  end.

Definition xadd : XReal -> XReal -> XReal := xlift2 Rplus.
Definition xsub : XReal -> XReal -> XReal := xlift2 Rminus.
Definition xmul : XReal -> XReal -> XReal := xlift2 Rmult.

(** [a / b]: not finite when [b] is zero. *)
Definition xdiv (a b : XReal) : XReal :=
  match a, b with
  | Some x, Some y => if Reqb y 0 then None else Some (x / y)%R
  | _, _ => None
  end.

(** [std::sqrt]: NaN on a negative argument. *)
Definition xsqrt (a : XReal) : XReal :=
  match a with
  | Some x => if Rltb x 0 then None else Some (sqrt x)
  | None => None
  end.

(** [std::pow(a, b)] for the real exponents this file uses (1/6 and 1/13):
    [pow(0, b)] is 0 for positive [b], 1 for [b = 0] and infinite for
    negative [b]; a negative base with such an exponent gives NaN. *)
Definition xpow (a b : XReal) : XReal :=
  match a, b with
  | Some x, Some y =>
      if Rltb 0 x then Some (Rpower x y)
      else if Reqb x 0 then
             (if Rltb 0 y then Some 0%R
              else if Reqb y 0 then Some 1%R else None)
      else None
  | _, _ => None
  end.

(** [std::pow(a, n)] for an [int] exponent [n >= 0]. *)
Definition xpowi (a : XReal) (n : nat) : XReal :=
  match a with Some x => Some (x ^ n)%R | None => None end.

Declare Scope xreal_scope.
Delimit Scope xreal_scope with X.
Bind Scope xreal_scope with XReal.
Notation "a + b" := (xadd a b) : xreal_scope.
Notation "a - b" := (xsub a b) : xreal_scope.
Notation "a * b" := (xmul a b) : xreal_scope.
Notation "a / b" := (xdiv a b) : xreal_scope.
Notation "# x" := (Some x%R : XReal) (at level 9, x at level 9, format "# x") : xreal_scope.

Definition Pi : R := PI.
Definition RadiansPerDegree : R := (Pi / 180)%R.

(** Convert energy from Kcal/mol to consistent units Da-A^2/ps^2. *)
Definition EnergyUnitsPerKcal : R := 418.4%R.

(** Coulomb's constant 1/(4*pi*e0) in consistent energy units. *)
Definition CoulombFac : R := (332.06371 * EnergyUnitsPerKcal)%R.

(* ================================================================= *)
(** ** Class tuples: [IntPair], [IntTriple], [IntQuad] *)

Record IntPair : Type := mkIntPair { ip0 : Z; ip1 : Z }.
Record IntTriple : Type := mkIntTriple { it0 : Z; it1 : Z; it2 : Z }.
Record IntQuad : Type := mkIntQuad { iq0 : Z; iq1 : Z; iq2 : Z; iq3 : Z }.

Definition IntPair_isValid (k : IntPair) : bool := (0 <=? ip0 k) && (0 <=? ip1 k).

(** canonical is low,high *)
Definition IntPair_canonicalize (k : IntPair) : IntPair :=
  if ip0 k >? ip1 k then mkIntPair (ip1 k) (ip0 k) else k.

(** [IntPair(i1, i2, canon)] *)
Definition IntPair_new (i1 i2 : Z) (canon : bool) : IntPair :=
  let k := mkIntPair i1 i2 in if canon then IntPair_canonicalize k else k.

(** [operator<] on valid pairs *)
Definition IntPair_lt (i1 i2 : IntPair) : bool :=
  if ip0 i1 <? ip0 i2 then true
  else if ip0 i1 >? ip0 i2 then false
  else ip1 i1 <? ip1 i2.

Definition IntTriple_isValid (k : IntTriple) : bool :=
  (0 <=? it0 k) && (0 <=? it1 k) && (0 <=? it2 k).

(** canonical has 1st number <= last number; middle stays put *)
Definition IntTriple_canonicalize (k : IntTriple) : IntTriple :=
  if it0 k >? it2 k then mkIntTriple (it2 k) (it1 k) (it0 k) else k.

Definition IntTriple_new (i1 i2 i3 : Z) (canon : bool) : IntTriple :=
  let k := mkIntTriple i1 i2 i3 in if canon then IntTriple_canonicalize k else k.

Definition IntTriple_lt (i1 i2 : IntTriple) : bool :=
  if it0 i1 <? it0 i2 then true
  else if it0 i1 >? it0 i2 then false
  else if it1 i1 <? it1 i2 then true
  else if it1 i1 >? it1 i2 then false
  else it2 i1 <? it2 i2.

Definition IntQuad_isValid (k : IntQuad) : bool :=
  (0 <=? iq0 k) && (0 <=? iq1 k) && (0 <=? iq2 k) && (0 <=? iq3 k).

(** canonical has 1st number <= last number; middle two must swap
    if the outside ones do *)
Definition IntQuad_canonicalize (k : IntQuad) : IntQuad :=
  if iq0 k >? iq3 k then mkIntQuad (iq3 k) (iq2 k) (iq1 k) (iq0 k) else k.

Definition IntQuad_new (i1 i2 i3 i4 : Z) (canon : bool) : IntQuad :=
  let k := mkIntQuad i1 i2 i3 i4 in if canon then IntQuad_canonicalize k else k.

Definition IntQuad_lt (i1 i2 : IntQuad) : bool :=
  if iq0 i1 <? iq0 i2 then true
  else if iq0 i1 >? iq0 i2 then false
  else if iq1 i1 <? iq1 i2 then true
  else if iq1 i1 >? iq1 i2 then false
  else if iq2 i1 <? iq2 i2 then true
  else if iq2 i1 >? iq2 i2 then false
  else iq3 i1 <? iq3 i2.

(* ================================================================= *)
(** ** Ordered containers: [std::map], [std::set], [std::sort] *)

Section Ordered.
Context {K : Type} (lt : K -> K -> bool).

(** Two keys are the same key when neither is less than the other. *)
Definition equivb (a b : K) : bool := negb (lt a b) && negb (lt b a).

(** [std::map<K,V>::find] *)
Fixpoint map_find {V} (k : K) (m : list (K * V)) : option V :=
  match m with
  | [] => None
  | (k', v) :: m' => if equivb k k' then Some v else map_find k m'
  end.

(** [std::map<K,V>::insert]: the map is left alone when it has the key
    already; the flag tells whether the entry went in.  (The order of the
    entries is not observed by [find].) *)
Definition map_insert {V} (k : K) (v : V) (m : list (K * V))
  : list (K * V) * bool :=
  match map_find k m with
  | Some _ => (m, false)
  | None => (m ++ [(k, v)], true)
  end.

(** Insertion into a sorted sequence, after the elements that are not
    greater. *)
Fixpoint sort_insert (x : K) (l : list K) : list K :=
  match l with
  | [] => [x]
  | y :: l' => if lt x y then x :: l else y :: sort_insert x l'
  end.

(** [std::sort(l.begin(), l.end())] under [operator<]. *)
Definition sort (l : list K) : list K := fold_right sort_insert [] l.
End Ordered.

(** [std::set<T>] ordered by an [int] key ([operator<] of [AtomPlacement]
    and of [ClusterPlacement] compares the ids only). *)
Section KeyedSet.
Context {T : Type} (key : T -> Z).

Definition set_lt (a b : T) : bool := key a <? key b.

(** [s.insert(x)]: the new set and whether [x] went in. *)
Fixpoint set_insert (x : T) (s : list T) : list T * bool :=
  match s with
  | [] => ([x], true)
  | y :: s' =>
      if set_lt x y then (x :: s, true)
      else if set_lt y x then
             let (s'', b) := set_insert x s' in (y :: s'', b)
      else (s, false)
  end.

(** [s.find(x)] for an [x] of key [k] *)
Fixpoint set_find (k : Z) (s : list T) : option T :=
  match s with
  | [] => None
  | y :: s' => if key y =? k then Some y else set_find k s'
  end.
End KeyedSet.

(** [std::set<int>] of atom numbers: only membership is observed. *)
Definition intset_mem (x : Z) (s : list Z) : bool := existsb (Z.eqb x) s.
Definition intset_insert (x : Z) (s : list Z) : list Z :=
  if intset_mem x s then s else x :: s.
Definition intset_insert_all (l : list Z) (s : list Z) : list Z :=
  fold_left (fun s x => intset_insert x s) l s.

(** [std::sort] on a vector of tuples: [operator<] asserts that both of its
    arguments are valid, and sorting two or more elements compares every one
    of them. *)
Definition sortChecked {S K} (isValid : K -> bool) (lt : K -> K -> bool)
    (l : list K) : M S (list K) :=
  assert ((length l <=? 1)%nat || forallb isValid l) ;;
  ret (sort lt l).

(* ================================================================= *)
(** ** Vdw combining functions *)

Definition arithmeticMean (a b : XReal) : XReal := (#0.5 * (a + b))%X.
Definition geometricMean (a b : XReal) : XReal := xsqrt (a * b)%X.
Definition harmonicMean (a b : XReal) : XReal := ((#2 * a * b) / (a + b))%X.

(** cubicMean = (a^3+b^3)/(a^2+b^2) *)
Definition cubicMean (a b : XReal) : XReal :=
  ((a * a * a + b * b * b) / (a * a + b * b))%X.

(** Harmonic mean of harmonic & geometric means *)
Definition hhgMean (a b : XReal) : XReal :=
  harmonicMean (harmonicMean a b) (geometricMean a b).

(** Each rule takes [(ri, rj, ei, ej)] and gives [(r, e)]. *)
Definition vdwCombineLorentzBerthelot (ri rj ei ej : XReal) : XReal * XReal :=
  (arithmeticMean ri rj, geometricMean ei ej).

Definition vdwCombineJorgensen (ri rj ei ej : XReal) : XReal * XReal :=
  (geometricMean ri rj, geometricMean ei ej).

Definition vdwCombineHalgrenHHG (ri rj ei ej : XReal) : XReal * XReal :=
  (cubicMean ri rj, hhgMean ei ej).

Definition oo6 : XReal := (#1 / #6)%X.
Definition oo13 : XReal := (#1 / #13)%X.

Definition vdwCombineWaldmanHagler (ri rj ei ej : XReal) : XReal * XReal :=
  let ri3 := (ri * ri * ri)%X in let ri6 := (ri3 * ri3)%X in
  let rj3 := (rj * rj * rj)%X in let rj6 := (rj3 * rj3)%X in
  let er6 := geometricMean (ei * ri6)%X (ej * rj6)%X in
  let r6 := arithmeticMean ri6 rj6 in
  (xpow r6 oo6, (er6 / r6)%X).

Definition vdwCombineKong (ri rj ei ej : XReal) : XReal * XReal :=
  let ri3 := (ri * ri * ri)%X in let ri6 := (ri3 * ri3)%X in
  let ri12 := (ri6 * ri6)%X in
  let rj3 := (rj * rj * rj)%X in let rj6 := (rj3 * rj3)%X in
  let rj12 := (rj6 * rj6)%X in
  let er6 := geometricMean (ei * ri6)%X (ej * rj6)%X in
  let eri12_13 := xpow (ei * ri12)%X oo13 in
  let erj12_13 := xpow (ej * rj12)%X oo13 in
  let er12_13 := arithmeticMean eri12_13 erj12_13 in
  let r6 := (xpowi er12_13 13 / er6)%X in
  (xpow r6 oo6, (er6 / r6)%X).

(** [applyMixingRule]: the rule is Waldman-Hagler; gives [(dmin, emin)]. *)
Definition applyMixingRule (ri rj ei ej : XReal) : XReal * XReal :=
  let (rmin, emin) := vdwCombineWaldmanHagler ri rj ei ej in
  ((#2 * rmin)%X, emin).

(* ================================================================= *)
(** ** Geometry: [Vec3], [Transform], [SpatialVec] *)

(** Modelled from the spec: SimTK's [Vec3], [Rotation], [Transform] and
    [SpatialVec] are declared outside this file.  A transform is a rotation
    matrix with a translation; [X * v] re-expresses and shifts a station,
    [X * Y] composes two placements, and a spatial vector is the pair
    (torque about the origin, force at the origin). *)
Record Vec3 : Type := mkVec3 { vx : R; vy : R; vz : R }.

Local Open Scope R_scope.

Definition vzero : Vec3 := mkVec3 0 0 0.
Definition vadd (a b : Vec3) : Vec3 :=
  mkVec3 (vx a + vx b) (vy a + vy b) (vz a + vz b).
Definition vsub (a b : Vec3) : Vec3 :=
  mkVec3 (vx a - vx b) (vy a - vy b) (vz a - vz b).
Definition vneg (a : Vec3) : Vec3 := mkVec3 (- vx a) (- vy a) (- vz a).
Definition vscale (s : R) (a : Vec3) : Vec3 :=
  mkVec3 (s * vx a) (s * vy a) (s * vz a).
(** [~a * b] *)
Definition vdot (a b : Vec3) : R := vx a * vx b + vy a * vy b + vz a * vz b.
(** [a % b] *)
Definition vcross (a b : Vec3) : Vec3 :=
  mkVec3 (vy a * vz b - vz a * vy b)
         (vz a * vx b - vx a * vz b)
         (vx a * vy b - vy a * vx b).
Definition normSqr (a : Vec3) : R := vdot a a.
Definition norm (a : Vec3) : R := sqrt (normSqr a).

Record Mat33 : Type := mkMat33 { row0 : Vec3; row1 : Vec3; row2 : Vec3 }.

Definition mident : Mat33 :=
  mkMat33 (mkVec3 1 0 0) (mkVec3 0 1 0) (mkVec3 0 0 1).
Definition mvmul (m : Mat33) (v : Vec3) : Vec3 :=
  mkVec3 (vdot (row0 m) v) (vdot (row1 m) v) (vdot (row2 m) v).
Definition mcol (m : Mat33) (j : nat) : Vec3 :=
  match j with
  | O => mkVec3 (vx (row0 m)) (vx (row1 m)) (vx (row2 m))
  | S O => mkVec3 (vy (row0 m)) (vy (row1 m)) (vy (row2 m))
  | _ => mkVec3 (vz (row0 m)) (vz (row1 m)) (vz (row2 m))
  end.
Definition mmul (a b : Mat33) : Mat33 :=
  let r (x : Vec3) :=
    mkVec3 (vdot x (mcol b 0)) (vdot x (mcol b 1)) (vdot x (mcol b 2)) in
  mkMat33 (r (row0 a)) (r (row1 a)) (r (row2 a)).

Record Transform : Type := mkTransform { X_R : Mat33; X_T : Vec3 }.

(** [Transform()] *)
Definition Transform_identity : Transform := mkTransform mident vzero.
(** [X * station] *)
Definition xform (X : Transform) (v : Vec3) : Vec3 :=
  vadd (X_T X) (mvmul (X_R X) v).
(** [X * Y] *)
Definition xcompose (X Y : Transform) : Transform :=
  mkTransform (mmul (X_R X) (X_R Y)) (xform X (X_T Y)).

Record SpatialVec : Type := mkSpatialVec { torque : Vec3; force : Vec3 }.

Definition sv_add (a b : SpatialVec) : SpatialVec :=
  mkSpatialVec (vadd (torque a) (torque b)) (vadd (force a) (force b)).
Definition sv_sub (a b : SpatialVec) : SpatialVec :=
  mkSpatialVec (vsub (torque a) (torque b)) (vsub (force a) (force b)).

Local Close Scope R_scope.

(** A vector with a non-finite component is [None]. *)
Definition XVec3 : Type := option Vec3.
Definition XSpatialVec : Type := option SpatialVec.

Definition omap2 {A B C} (f : A -> B -> C) (a : option A) (b : option B)
  : option C :=
  match a, b with
  | Some x, Some y => Some (f x y)
  | _, _ => None
  end.

(* ================================================================= *)
(** ** The data model *)

Record Element : Type := mkElement {
  atomicNumber : Z;
  mass : R;            (* in Daltons (Da, g/mol) *)
  symbol : string;
  elementName : string
}.

(** [Element()] *)
Definition Element_default : Element := mkElement (-1) (-1) "" "".
Definition Element_isValid (e : Element) : bool :=
  (atomicNumber e >? 0) && Rltb 0 (mass e).

Record AtomClass : Type := mkAtomClass {
  atomClassId : Z;
  className : string;
  element : Z;
  valence : Z;             (* # of direct bonds expected *)
  vdwRadius : R;           (* ri, Angstroms *)
  vdwWellDepth : R;        (* ei, Da-A^2/ps^2 *)
  vdwDij : list XReal;     (* A *)
  vdwEij : list XReal      (* Da-A^2/ps^2 *)
}.

(** [AtomClass()]; the constructor leaves [atomClassId] unset, and
    [isValid] is false whatever it holds because [element] is [-1]. *)
Definition AtomClass_default : AtomClass :=
  mkAtomClass (-1) "" (-1) (-1) (-1) (-1) [] [].
Definition AtomClass_isValid (c : AtomClass) : bool :=
  (0 <=? atomClassId c) && (element c >? 0) && (0 <=? valence c)
  && Rleb 0 (vdwRadius c) && Rleb 0 (vdwWellDepth c).
(** [AtomClass(id, nm, e, v, rad, wellKcal)] *)
Definition AtomClass_new (id : Z) (nm : string) (e v : Z) (rad wellKcal : R)
  : AtomClass :=
  mkAtomClass id nm e v rad (wellKcal * EnergyUnitsPerKcal)%R [] [].
Definition AtomClass_invalidateTopologicalCache (c : AtomClass) : AtomClass :=
  mkAtomClass (atomClassId c) (className c) (element c) (valence c)
              (vdwRadius c) (vdwWellDepth c) [] [].
Definition AtomClass_setVdw (c : AtomClass) (dij eij : list XReal) : AtomClass :=
  mkAtomClass (atomClassId c) (className c) (element c) (valence c)
              (vdwRadius c) (vdwWellDepth c) dij eij.

Record ChargedAtomType : Type := mkChargedAtomType {
  chargedAtomTypeId : Z;
  typeName : string;
  atomClass : Z;
  partialCharge : XReal   (* qi, in e (charge on proton) *)
}.

(** [ChargedAtomType()]: the charge is NaN. *)
Definition ChargedAtomType_default : ChargedAtomType :=
  mkChargedAtomType (-1) "" (-1) None.
Definition ChargedAtomType_isValid (t : ChargedAtomType) : bool :=
  (0 <=? chargedAtomTypeId t) && (0 <=? atomClass t).

Record BondStretch : Type := mkBondStretch {
  bs_k : R;   (* in energy units per A^2, i.e. Da/ps^2 *)
  bs_d0 : R   (* distance at which force is 0 (in A) *)
}.
Definition BondStretch_default : BondStretch := mkBondStretch (-1) (-1).
Definition BondStretch_isValid (b : BondStretch) : bool :=
  Rleb 0 (bs_k b) && Rleb 0 (bs_d0 b).
Definition BondStretch_new (stiffnessKcalPerASq len : R) : BondStretch :=
  mkBondStretch (stiffnessKcalPerASq * EnergyUnitsPerKcal)%R len.

Record BondBend : Type := mkBondBend {
  bb_k : R;       (* energy units per rad^2 *)
  bb_theta0 : R   (* unstressed angle in radians *)
}.
Definition BondBend_default : BondBend := mkBondBend (-1) (-1).
Definition BondBend_isValid (b : BondBend) : bool :=
  Rleb 0 (bb_k b) && (Rleb 0 (bb_theta0 b) && Rleb (bb_theta0 b) Pi).
Definition BondBend_new (stiffnessKcalPerRadSq angleDeg : R) : BondBend :=
  mkBondBend (stiffnessKcalPerRadSq * EnergyUnitsPerKcal)%R
             (angleDeg * RadiansPerDegree)%R.

Record TorsionTerm : Type := mkTorsionTerm {
  periodicity : Z;  (* 1=360, 2=180, 3=120, etc. *)
  amplitude : R;    (* energy units (Da-A^2/ps^2) *)
  tt_theta0 : R     (* radians *)
}.
Definition TorsionTerm_isValid (t : TorsionTerm) : bool :=
  (periodicity t >? 0) && Rleb 0 (amplitude t)
  && Rltb (- Pi) (tt_theta0 t) && Rleb (tt_theta0 t) Pi.
Definition TorsionTerm_new (n : Z) (amp th0 : R) : TorsionTerm :=
  mkTorsionTerm n (amp * EnergyUnitsPerKcal)%R (th0 * RadiansPerDegree)%R.
Definition TorsionTerm_energy (t : TorsionTerm) (theta : R) : R :=
  (amplitude t * (1 + cos (IZR (periodicity t) * theta - tt_theta0 t)))%R.
Definition TorsionTerm_torque (t : TorsionTerm) (theta : R) : R :=
  (IZR (periodicity t) * amplitude t
   * sin (IZR (periodicity t) * theta - tt_theta0 t))%R.

Record BondTorsion : Type := mkBondTorsion { terms : list TorsionTerm }.
Definition BondTorsion_empty : BondTorsion := mkBondTorsion [].
Definition BondTorsion_isValid (bt : BondTorsion) : bool :=
  negb (length (terms bt) =? 0)%nat.
Definition BondTorsion_hasTerm (bt : BondTorsion) (n : Z) : bool :=
  existsb (fun t => periodicity t =? n) (terms bt).

Record AtomPlacement : Type := mkAtomPlacement {
  ap_atomId : Z;
  ap_station : Vec3
}.
Definition AtomPlacement_isValid (a : AtomPlacement) : bool := 0 <=? ap_atomId a.

Record ClusterPlacement : Type := mkClusterPlacement {
  cp_clusterId : Z;
  cp_placement : Transform
}.
Definition ClusterPlacement_isValid (c : ClusterPlacement) : bool :=
  0 <=? cp_clusterId c.

Definition AtomArray : Type := list Z.
Definition AtomPlacementArray : Type := list AtomPlacement.
Definition AtomPlacementSet : Type := list AtomPlacement.
Definition ClusterPlacementSet : Type := list ClusterPlacement.

Record Atom : Type := mkAtom {
  atomId : Z;
  atom_chargedAtomTypeId : Z;
  bond12 : AtomArray;
  atom_bodyId : Z;
  station_B : XVec3;   (* atom's station fixed in body bodyId's frame *)
  bond13 : list IntPair;
  bond14 : list IntTriple;
  bond15 : list IntQuad;
  xbond12 : list Z;
  xbond13 : list IntPair;
  xbond14 : list IntTriple;
  xbond15 : list IntQuad;
  stretch : list BondStretch;  (* same length as cross-body 1-2 list *)
  bend : list BondBend;        (* same length as the cross-body 1-3 list *)
  torsion : list BondTorsion   (* same length as the cross-body 1-4 list *)
}.

(** [Atom()] *)
Definition Atom_default : Atom :=
  mkAtom (-1) (-1) [] (-1) None [] [] [] [] [] [] [] [] [] [].
(** [Atom(t, aId)] *)
Definition Atom_new (t aId : Z) : Atom :=
  mkAtom aId t [] (-1) None [] [] [] [] [] [] [] [] [] [].
Definition Atom_isValid (a : Atom) : bool :=
  (0 <=? atomId a) && (0 <=? atom_chargedAtomTypeId a).
Definition Atom_isAttachedToBody (a : Atom) : bool := 0 <=? atom_bodyId a.
Definition Atom_isBondedTo (a : Atom) (anum : Z) : bool :=
  existsb (fun x => x =? anum) (bond12 a).

Definition Atom_setBody (a : Atom) (bnum : Z) (s : XVec3) : Atom :=
  mkAtom (atomId a) (atom_chargedAtomTypeId a) (bond12 a) bnum s
         (bond13 a) (bond14 a) (bond15 a)
         (xbond12 a) (xbond13 a) (xbond14 a) (xbond15 a)
         (stretch a) (bend a) (torsion a).
Definition Atom_setBond12 (a : Atom) (l : AtomArray) : Atom :=
  mkAtom (atomId a) (atom_chargedAtomTypeId a) l (atom_bodyId a) (station_B a)
         (bond13 a) (bond14 a) (bond15 a)
         (xbond12 a) (xbond13 a) (xbond14 a) (xbond15 a)
         (stretch a) (bend a) (torsion a).
(** [bodyId = -1; station_B.setToNaN();] and every derived list cleared *)
Definition Atom_invalidateTopologicalCache (a : Atom) : Atom :=
  mkAtom (atomId a) (atom_chargedAtomTypeId a) (bond12 a) (-1) None
         [] [] [] [] [] [] [] [] [] [].

Definition Bond : Type := IntPair.
Definition Bond_isValid (b : Bond) : bool := IntPair_isValid b.

Record Cluster : Type := mkCluster {
  clusterId : Z;
  clusterName : string;
  directAtomPlacements : AtomPlacementSet;
  directClusterPlacements : ClusterPlacementSet;
  allAtomPlacements : AtomPlacementSet;
  parentClusters : ClusterPlacementSet;
  cl_bodyId : Z;
  placement_B : Transform;  (* cluster's placement fixed in the body frame *)
  cl_topologicalCacheValid : bool
}.

(** [Cluster(nm)]: not valid yet -- still need Id assigned *)
Definition Cluster_new (nm : string) : Cluster :=
  mkCluster (-1) nm [] [] [] [] (-1) Transform_identity false.
Definition Cluster_isValid (c : Cluster) : bool := 0 <=? clusterId c.
Definition Cluster_isAttachedToBody (c : Cluster) : bool := 0 <=? cl_bodyId c.
Definition Cluster_isTopLevelCluster (c : Cluster) : bool :=
  match parentClusters c with [] => true | _ => false end.
Definition Cluster_containsAtom (c : Cluster) (a : Z) : bool :=
  match set_find ap_atomId a (allAtomPlacements c) with
  | Some _ => true
  | None => false
  end.

Record Body : Type := mkBody {
  body_clusterId : Z;
  allAtoms : AtomPlacementArray
}.
Definition Body_default : Body := mkBody (-1) [].
Definition Body_isValid (b : Body) : bool := 0 <=? body_clusterId b.

Record DuMM : Type := mkDuMM {
  atoms : list Atom;
  bonds : list Bond;
  clusters : list Cluster;
  bodies : list Body;
  elements : list Element;
  atomClasses : list AtomClass;
  chargedAtomTypes : list ChargedAtomType;
  bondStretch : list (IntPair * BondStretch);
  bondBend : list (IntTriple * BondBend);
  bondTorsion : list (IntQuad * BondTorsion);
  vdwScale12 : R; coulombScale12 : R;
  vdwScale13 : R; coulombScale13 : R;
  vdwScale14 : R; coulombScale14 : R;
  vdwScale15 : R; coulombScale15 : R;
  topologicalCacheValid : bool
}.

(** Assignments to one member of the subsystem. *)
Definition set_atoms (x : list Atom) (mm : DuMM) : DuMM :=
  mkDuMM x (bonds mm) (clusters mm) (bodies mm) (elements mm) (atomClasses mm)
    (chargedAtomTypes mm) (bondStretch mm) (bondBend mm) (bondTorsion mm)
    (vdwScale12 mm) (coulombScale12 mm) (vdwScale13 mm) (coulombScale13 mm)
    (vdwScale14 mm) (coulombScale14 mm) (vdwScale15 mm) (coulombScale15 mm)
    (topologicalCacheValid mm).
Definition set_bonds (x : list Bond) (mm : DuMM) : DuMM :=
  mkDuMM (atoms mm) x (clusters mm) (bodies mm) (elements mm) (atomClasses mm)
    (chargedAtomTypes mm) (bondStretch mm) (bondBend mm) (bondTorsion mm)
    (vdwScale12 mm) (coulombScale12 mm) (vdwScale13 mm) (coulombScale13 mm)
    (vdwScale14 mm) (coulombScale14 mm) (vdwScale15 mm) (coulombScale15 mm)
    (topologicalCacheValid mm).
Definition set_clusters (x : list Cluster) (mm : DuMM) : DuMM :=
  mkDuMM (atoms mm) (bonds mm) x (bodies mm) (elements mm) (atomClasses mm)
    (chargedAtomTypes mm) (bondStretch mm) (bondBend mm) (bondTorsion mm)
    (vdwScale12 mm) (coulombScale12 mm) (vdwScale13 mm) (coulombScale13 mm)
    (vdwScale14 mm) (coulombScale14 mm) (vdwScale15 mm) (coulombScale15 mm)
    (topologicalCacheValid mm).
Definition set_bodies (x : list Body) (mm : DuMM) : DuMM :=
  mkDuMM (atoms mm) (bonds mm) (clusters mm) x (elements mm) (atomClasses mm)
    (chargedAtomTypes mm) (bondStretch mm) (bondBend mm) (bondTorsion mm)
    (vdwScale12 mm) (coulombScale12 mm) (vdwScale13 mm) (coulombScale13 mm)
    (vdwScale14 mm) (coulombScale14 mm) (vdwScale15 mm) (coulombScale15 mm)
    (topologicalCacheValid mm).
Definition set_atomClasses (x : list AtomClass) (mm : DuMM) : DuMM :=
  mkDuMM (atoms mm) (bonds mm) (clusters mm) (bodies mm) (elements mm) x
    (chargedAtomTypes mm) (bondStretch mm) (bondBend mm) (bondTorsion mm)
    (vdwScale12 mm) (coulombScale12 mm) (vdwScale13 mm) (coulombScale13 mm)
    (vdwScale14 mm) (coulombScale14 mm) (vdwScale15 mm) (coulombScale15 mm)
    (topologicalCacheValid mm).
Definition set_chargedAtomTypes (x : list ChargedAtomType) (mm : DuMM) : DuMM :=
  mkDuMM (atoms mm) (bonds mm) (clusters mm) (bodies mm) (elements mm)
    (atomClasses mm) x (bondStretch mm) (bondBend mm) (bondTorsion mm)
    (vdwScale12 mm) (coulombScale12 mm) (vdwScale13 mm) (coulombScale13 mm)
    (vdwScale14 mm) (coulombScale14 mm) (vdwScale15 mm) (coulombScale15 mm)
    (topologicalCacheValid mm).
Definition set_bondStretch (x : list (IntPair * BondStretch)) (mm : DuMM) : DuMM :=
  mkDuMM (atoms mm) (bonds mm) (clusters mm) (bodies mm) (elements mm)
    (atomClasses mm) (chargedAtomTypes mm) x (bondBend mm) (bondTorsion mm)
    (vdwScale12 mm) (coulombScale12 mm) (vdwScale13 mm) (coulombScale13 mm)
    (vdwScale14 mm) (coulombScale14 mm) (vdwScale15 mm) (coulombScale15 mm)
    (topologicalCacheValid mm).
Definition set_bondBend (x : list (IntTriple * BondBend)) (mm : DuMM) : DuMM :=
  mkDuMM (atoms mm) (bonds mm) (clusters mm) (bodies mm) (elements mm)
    (atomClasses mm) (chargedAtomTypes mm) (bondStretch mm) x (bondTorsion mm)
    (vdwScale12 mm) (coulombScale12 mm) (vdwScale13 mm) (coulombScale13 mm)
    (vdwScale14 mm) (coulombScale14 mm) (vdwScale15 mm) (coulombScale15 mm)
    (topologicalCacheValid mm).
Definition set_bondTorsion (x : list (IntQuad * BondTorsion)) (mm : DuMM) : DuMM :=
  mkDuMM (atoms mm) (bonds mm) (clusters mm) (bodies mm) (elements mm)
    (atomClasses mm) (chargedAtomTypes mm) (bondStretch mm) (bondBend mm) x
    (vdwScale12 mm) (coulombScale12 mm) (vdwScale13 mm) (coulombScale13 mm)
    (vdwScale14 mm) (coulombScale14 mm) (vdwScale15 mm) (coulombScale15 mm)
    (topologicalCacheValid mm).
Definition set_vdwScale12 (x : R) (mm : DuMM) : DuMM :=
  mkDuMM (atoms mm) (bonds mm) (clusters mm) (bodies mm) (elements mm)
    (atomClasses mm) (chargedAtomTypes mm) (bondStretch mm) (bondBend mm)
    (bondTorsion mm) x (coulombScale12 mm) (vdwScale13 mm) (coulombScale13 mm)
    (vdwScale14 mm) (coulombScale14 mm) (vdwScale15 mm) (coulombScale15 mm)
    (topologicalCacheValid mm).
Definition set_coulombScale12 (x : R) (mm : DuMM) : DuMM :=
  mkDuMM (atoms mm) (bonds mm) (clusters mm) (bodies mm) (elements mm)
    (atomClasses mm) (chargedAtomTypes mm) (bondStretch mm) (bondBend mm)
    (bondTorsion mm) (vdwScale12 mm) x (vdwScale13 mm) (coulombScale13 mm)
    (vdwScale14 mm) (coulombScale14 mm) (vdwScale15 mm) (coulombScale15 mm)
    (topologicalCacheValid mm).
Definition set_vdwScale13 (x : R) (mm : DuMM) : DuMM :=
  mkDuMM (atoms mm) (bonds mm) (clusters mm) (bodies mm) (elements mm)
    (atomClasses mm) (chargedAtomTypes mm) (bondStretch mm) (bondBend mm)
    (bondTorsion mm) (vdwScale12 mm) (coulombScale12 mm) x (coulombScale13 mm)
    (vdwScale14 mm) (coulombScale14 mm) (vdwScale15 mm) (coulombScale15 mm)
    (topologicalCacheValid mm).
Definition set_coulombScale13 (x : R) (mm : DuMM) : DuMM :=
  mkDuMM (atoms mm) (bonds mm) (clusters mm) (bodies mm) (elements mm)
    (atomClasses mm) (chargedAtomTypes mm) (bondStretch mm) (bondBend mm)
    (bondTorsion mm) (vdwScale12 mm) (coulombScale12 mm) (vdwScale13 mm) x
    (vdwScale14 mm) (coulombScale14 mm) (vdwScale15 mm) (coulombScale15 mm)
    (topologicalCacheValid mm).
Definition set_vdwScale14 (x : R) (mm : DuMM) : DuMM :=
  mkDuMM (atoms mm) (bonds mm) (clusters mm) (bodies mm) (elements mm)
    (atomClasses mm) (chargedAtomTypes mm) (bondStretch mm) (bondBend mm)
    (bondTorsion mm) (vdwScale12 mm) (coulombScale12 mm) (vdwScale13 mm)
    (coulombScale13 mm) x (coulombScale14 mm) (vdwScale15 mm) (coulombScale15
    mm) (topologicalCacheValid mm).
Definition set_coulombScale14 (x : R) (mm : DuMM) : DuMM :=
  mkDuMM (atoms mm) (bonds mm) (clusters mm) (bodies mm) (elements mm)
    (atomClasses mm) (chargedAtomTypes mm) (bondStretch mm) (bondBend mm)
    (bondTorsion mm) (vdwScale12 mm) (coulombScale12 mm) (vdwScale13 mm)
    (coulombScale13 mm) (vdwScale14 mm) x (vdwScale15 mm) (coulombScale15 mm)
    (topologicalCacheValid mm).
Definition set_vdwScale15 (x : R) (mm : DuMM) : DuMM :=
  mkDuMM (atoms mm) (bonds mm) (clusters mm) (bodies mm) (elements mm)
    (atomClasses mm) (chargedAtomTypes mm) (bondStretch mm) (bondBend mm)
    (bondTorsion mm) (vdwScale12 mm) (coulombScale12 mm) (vdwScale13 mm)
    (coulombScale13 mm) (vdwScale14 mm) (coulombScale14 mm) x (coulombScale15
    mm) (topologicalCacheValid mm).
Definition set_coulombScale15 (x : R) (mm : DuMM) : DuMM :=
  mkDuMM (atoms mm) (bonds mm) (clusters mm) (bodies mm) (elements mm)
    (atomClasses mm) (chargedAtomTypes mm) (bondStretch mm) (bondBend mm)
    (bondTorsion mm) (vdwScale12 mm) (coulombScale12 mm) (vdwScale13 mm)
    (coulombScale13 mm) (vdwScale14 mm) (coulombScale14 mm) (vdwScale15 mm) x
    (topologicalCacheValid mm).
Definition set_topologicalCacheValid (x : bool) (mm : DuMM) : DuMM :=
  mkDuMM (atoms mm) (bonds mm) (clusters mm) (bodies mm) (elements mm)
    (atomClasses mm) (chargedAtomTypes mm) (bondStretch mm) (bondBend mm)
    (bondTorsion mm) (vdwScale12 mm) (coulombScale12 mm) (vdwScale13 mm)
    (coulombScale13 mm) (vdwScale14 mm) (coulombScale14 mm) (vdwScale15 mm)
    (coulombScale15 mm) x.

(** Assignments to one member of a cluster. *)
Definition Cluster_set_clusterId (x : Z) (c : Cluster) : Cluster :=
  mkCluster x (clusterName c) (directAtomPlacements c)
    (directClusterPlacements c) (allAtomPlacements c) (parentClusters c)
    (cl_bodyId c) (placement_B c) (cl_topologicalCacheValid c).
Definition Cluster_set_directAtomPlacements (x : AtomPlacementSet) (c : Cluster) : Cluster :=
  mkCluster (clusterId c) (clusterName c) x (directClusterPlacements c)
    (allAtomPlacements c) (parentClusters c) (cl_bodyId c) (placement_B c)
    (cl_topologicalCacheValid c).
Definition Cluster_set_directClusterPlacements (x : ClusterPlacementSet) (c : Cluster) : Cluster :=
  mkCluster (clusterId c) (clusterName c) (directAtomPlacements c) x
    (allAtomPlacements c) (parentClusters c) (cl_bodyId c) (placement_B c)
    (cl_topologicalCacheValid c).
Definition Cluster_set_allAtomPlacements (x : AtomPlacementSet) (c : Cluster) : Cluster :=
  mkCluster (clusterId c) (clusterName c) (directAtomPlacements c)
    (directClusterPlacements c) x (parentClusters c) (cl_bodyId c)
    (placement_B c) (cl_topologicalCacheValid c).
Definition Cluster_set_parentClusters (x : ClusterPlacementSet) (c : Cluster) : Cluster :=
  mkCluster (clusterId c) (clusterName c) (directAtomPlacements c)
    (directClusterPlacements c) (allAtomPlacements c) x (cl_bodyId c)
    (placement_B c) (cl_topologicalCacheValid c).
Definition Cluster_set_cl_bodyId (x : Z) (c : Cluster) : Cluster :=
  mkCluster (clusterId c) (clusterName c) (directAtomPlacements c)
    (directClusterPlacements c) (allAtomPlacements c) (parentClusters c) x
    (placement_B c) (cl_topologicalCacheValid c).
Definition Cluster_set_placement_B (x : Transform) (c : Cluster) : Cluster :=
  mkCluster (clusterId c) (clusterName c) (directAtomPlacements c)
    (directClusterPlacements c) (allAtomPlacements c) (parentClusters c)
    (cl_bodyId c) x (cl_topologicalCacheValid c).
Definition Cluster_set_cl_topologicalCacheValid (x : bool) (c : Cluster) : Cluster :=
  mkCluster (clusterId c) (clusterName c) (directAtomPlacements c)
    (directClusterPlacements c) (allAtomPlacements c) (parentClusters c)
    (cl_bodyId c) (placement_B c) x.

(* ================================================================= *)
(** ** The subsystem: validity tests and element table *)

Definition isValidAt {A} (isValid : A -> bool) (l : list A) (i : Z) : bool :=
  (0 <=? i) && (i <? size l)
  && match at_ l i with Some x => isValid x | None => false end.

Definition isValidElement (mm : DuMM) (atomicNumber : Z) : bool :=
  (1 <=? atomicNumber) && (atomicNumber <? size (elements mm))
  && match at_ (elements mm) atomicNumber with
     | Some e => Element_isValid e
     | None => false
     end.
Definition isValidAtom (mm : DuMM) (atomNum : Z) : bool :=
  isValidAt Atom_isValid (atoms mm) atomNum.
Definition isValidBond (mm : DuMM) (bondNum : Z) : bool :=
  isValidAt Bond_isValid (bonds mm) bondNum.
Definition isValidCluster (mm : DuMM) (clusterId : Z) : bool :=
  isValidAt Cluster_isValid (clusters mm) clusterId.
Definition isValidBody (mm : DuMM) (bodyId : Z) : bool :=
  isValidAt Body_isValid (bodies mm) bodyId.
Definition isValidChargedAtomType (mm : DuMM) (typeNum : Z) : bool :=
  isValidAt ChargedAtomType_isValid (chargedAtomTypes mm) typeNum.
Definition isValidAtomClass (mm : DuMM) (classNum : Z) : bool :=
  isValidAt AtomClass_isValid (atomClasses mm) classNum.

(** The entries of [loadElements]: atomic number, symbol, name, mass.
    (The default colours are left out.) *)
Definition elementTable : list (Z * string * string * R) :=
  [ (1, "H", "Hydrogen", 1.008%R); (2, "He", "Helium", 4.003%R);
    (3, "Li", "Lithium", 6.941%R); (6, "C", "Carbon", 12.011%R);
    (7, "N", "Nitrogen", 14.007%R); (8, "O", "Oxygen", 15.999%R);
    (9, "F", "Fluorine", 18.998%R); (10, "Ne", "Neon", 20.180%R);
    (11, "Na", "Sodium", 22.990%R); (12, "Mg", "Magnesium", 24.305%R);
    (14, "Si", "Silicon", 28.086%R); (15, "P", "Phosphorus", 30.974%R);
    (16, "S", "Sulphur", 32.066%R); (17, "Cl", "Chlorine", 35.453%R);
    (18, "Ar", "Argon", 39.948%R); (19, "K", "Potassium", 39.098%R);
    (20, "Ca", "Calcium", 40.078%R); (26, "Fe", "Iron", 55.845%R);
    (29, "Cu", "Copper", 63.546%R); (30, "Zn", "Zinc", 65.390%R);
    (36, "Kr", "Krypton", 83.800%R); (47, "Ag", "Silver", 107.868%R);
    (53, "I", "Iodine", 126.904%R); (54, "Xe", "Xenon", 131.290%R);
    (79, "Au", "Gold", 196.967%R); (92, "U", "Uranium", 238.029%R) ].

(** [elements.resize(93)] and one assignment per entry. *)
Definition loadElements : list Element :=
  fold_left
    (fun els e => let '(n, sym, nm, m) := e in
                  list_set els (Z.to_nat n) (mkElement n m sym nm))
    elementTable (repeat Element_default 93).

(* ================================================================= *)
(** ** Access to atoms, clusters and bodies *)

Definition Sub (A : Type) : Type := M DuMM A.

(** [getAtom] / [updAtom] *)
Definition getAtom (atomId : Z) : Sub Atom :=
  mm <- get ;;
  assert (isValidAtom mm atomId) ;;
  must (at_ (atoms mm) atomId).

(** [getCluster] / [updCluster] *)
Definition getCluster (clusterId : Z) : Sub Cluster :=
  mm <- get ;;
  assert (isValidCluster mm clusterId) ;;
  must (at_ (clusters mm) clusterId).

(** [getBody] / [updBody] *)
Definition getBody (bodyId : Z) : Sub Body :=
  mm <- get ;;
  assert (isValidBody mm bodyId) ;;
  must (at_ (bodies mm) bodyId).

(** A write through a reference to [atoms[i]]. *)
Definition modAtom (i : Z) (f : Atom -> Atom) : Sub unit :=
  mm <- get ;;
  _ <- must (at_ (atoms mm) i) ;;
  modify (fun mm => set_atoms (upd_at (atoms mm) i f) mm).

(** A write through a reference to [clusters[i]]. *)
Definition modCluster (i : Z) (f : Cluster -> Cluster) : Sub unit :=
  mm <- get ;;
  _ <- must (at_ (clusters mm) i) ;;
  modify (fun mm => set_clusters (upd_at (clusters mm) i f) mm).

(** A write through a reference to [bodies[i]]. *)
Definition modBody (i : Z) (f : Body -> Body) : Sub unit :=
  mm <- get ;;
  _ <- must (at_ (bodies mm) i) ;;
  modify (fun mm => set_bodies (upd_at (bodies mm) i f) mm).

(** A write through a reference to [atomClasses[i]]. *)
Definition modAtomClass (i : Z) (f : AtomClass -> AtomClass) : Sub unit :=
  mm <- get ;;
  _ <- must (at_ (atomClasses mm) i) ;;
  modify (fun mm => set_atomClasses (upd_at (atomClasses mm) i f) mm).

(** A write through a reference to [chargedAtomTypes[i]]. *)
Definition modChargedAtomType (i : Z) (f : ChargedAtomType -> ChargedAtomType)
  : Sub unit :=
  mm <- get ;;
  _ <- must (at_ (chargedAtomTypes mm) i) ;;
  modify (fun mm =>
            set_chargedAtomTypes (upd_at (chargedAtomTypes mm) i f) mm).

(** [Atom::attachToBody] on [atoms[atomId]] *)
Definition Atom_attachToBody (atomId bnum : Z) (s : Vec3) : Sub unit :=
  mm <- get ;;
  a <- must (at_ (atoms mm) atomId) ;;
  assert (negb (Atom_isAttachedToBody a)) ;;
  modAtom atomId (fun a => Atom_setBody a bnum (Some s)).

(* ================================================================= *)
(** ** Clusters *)

(** [addCluster] *)
Definition addCluster (c : Cluster) : Sub Z :=
  mm <- get ;;
  let clusterId := size (clusters mm) in
  modify (fun mm => set_clusters (clusters mm ++ [c]) mm) ;;
  modCluster clusterId (Cluster_set_clusterId clusterId) ;;
  ret clusterId.

(** [Cluster::attachToBody] on [clusters[cid]].  The recursion goes down
    the tree of clusters; [fuel] bounds its depth, and a call that needs
    more aborts here.  (What is proved of the reachable states holds for
    every [fuel].) *)
Fixpoint Cluster_attachToBody (fuel : nat) (cid bnum : Z) (X_BR : Transform)
  : Sub unit :=
  match fuel with
  | O => abort
  | S fuel' =>
      mm <- get ;;
      c <- must (at_ (clusters mm) cid) ;;
      assert (negb (Cluster_isAttachedToBody c)) ;;
      modCluster cid (Cluster_set_cl_bodyId bnum) ;;
      modCluster cid (Cluster_set_placement_B X_BR) ;;
      forEach (directAtomPlacements c)
        (fun ap => _ <- getAtom (ap_atomId ap) ;;
                   Atom_attachToBody (ap_atomId ap) bnum
                                     (xform X_BR (ap_station ap))) ;;
      forEach (directClusterPlacements c)
        (fun cp => _ <- getCluster (cp_clusterId cp) ;;
                   Cluster_attachToBody fuel' (cp_clusterId cp) bnum
                     (xcompose X_BR (cp_placement cp)))
  end.

(** [Cluster::placeAtom] on [clusters[cid]] *)
Definition Cluster_placeAtom (cid atomId : Z) (station : Vec3) : Sub unit :=
  mm <- get ;;
  c <- must (at_ (clusters mm) cid) ;;
  assert (Cluster_isTopLevelCluster c) ;;
  a <- getAtom atomId ;;
  assert (negb (Atom_isAttachedToBody a)) ;;
  assert (negb (Cluster_containsAtom c atomId)) ;;
  assert (AtomPlacement_isValid (mkAtomPlacement atomId station)) ;;
  let (d, ok1) :=
    set_insert ap_atomId (mkAtomPlacement atomId station)
               (directAtomPlacements c) in
  assert ok1 ;;
  modCluster cid (Cluster_set_directAtomPlacements d) ;;
  let (al, ok2) :=
    set_insert ap_atomId (mkAtomPlacement atomId station)
               (allAtomPlacements c) in
  assert ok2 ;;
  modCluster cid (Cluster_set_allAtomPlacements al) ;;
  if Cluster_isAttachedToBody c
  then _ <- getAtom atomId ;;
       Atom_attachToBody atomId (cl_bodyId c) (xform (placement_B c) station)
  else ret tt.

(** [Cluster::containsCluster]: [None] when an index is outside the vector,
    a cluster is not valid, or the recursion is deeper than [fuel]. *)
Fixpoint Cluster_containsCluster (fuel : nat) (mm : DuMM) (cid target : Z)
  : option bool :=
  match fuel with
  | O => None
  | S fuel' =>
      match at_ (clusters mm) cid with
      | None => None
      | Some c =>
          match set_find cp_clusterId target (directClusterPlacements c) with
          | Some _ => Some true
          | None =>
              (fix scan (l : list ClusterPlacement) : option bool :=
                 match l with
                 | [] => Some false
                 | cp :: l' =>
                     if isValidCluster mm (cp_clusterId cp) then
                       match Cluster_containsCluster fuel' mm
                               (cp_clusterId cp) target with
                       | Some true => Some true
                       | Some false => scan l'
                       | None => None
                       end
                     else None
                 end) (directClusterPlacements c)
          end
      end
  end.

Definition containsCluster (fuel : nat) (cid target : Z) : Sub bool :=
  mm <- get ;;
  must (Cluster_containsCluster fuel mm cid target).

(** [Cluster::placeCluster] on [clusters[pid]] *)
Definition Cluster_placeCluster (fuel : nat) (pid childClusterId : Z)
    (placement : Transform) : Sub unit :=
  mm <- get ;;
  p <- must (at_ (clusters mm) pid) ;;
  assert (Cluster_isTopLevelCluster p) ;;
  child <- getCluster childClusterId ;;
  assert (negb (Cluster_isAttachedToBody child)) ;;
  has <- containsCluster fuel pid childClusterId ;;
  assert (negb has) ;;
  forEach (allAtomPlacements child)
    (fun ap =>
       assert (AtomPlacement_isValid
                 (mkAtomPlacement (ap_atomId ap) (xform placement (ap_station ap)))) ;;
       mm <- get ;;
       p <- must (at_ (clusters mm) pid) ;;
       let (al, ok) :=
         set_insert ap_atomId
           (mkAtomPlacement (ap_atomId ap) (xform placement (ap_station ap)))
           (allAtomPlacements p) in
       assert ok ;;
       modCluster pid (Cluster_set_allAtomPlacements al)) ;;
  (* noteNewChildCluster *)
  assert (ClusterPlacement_isValid (mkClusterPlacement childClusterId placement)) ;;
  mm <- get ;;
  p <- must (at_ (clusters mm) pid) ;;
  (let (dl, ok) :=
     set_insert cp_clusterId (mkClusterPlacement childClusterId placement)
                (directClusterPlacements p) in
   assert ok ;;
   modCluster pid (Cluster_set_directClusterPlacements dl)) ;;
  (* child.noteNewParentCluster *)
  assert (ClusterPlacement_isValid (mkClusterPlacement (clusterId p) placement)) ;;
  mm <- get ;;
  ch <- must (at_ (clusters mm) childClusterId) ;;
  (let (pl, ok) :=
     set_insert cp_clusterId (mkClusterPlacement (clusterId p) placement)
                (parentClusters ch) in
   assert ok ;;
   modCluster childClusterId (Cluster_set_parentClusters pl)) ;;
  if Cluster_isAttachedToBody p
  then Cluster_attachToBody fuel childClusterId (cl_bodyId p)
                            (xcompose (placement_B p) placement)
  else ret tt.

Definition createClusterNameForBody (bnum : Z) : string :=
  String.append "Body " (DecimalString.NilZero.string_of_int (Z.to_int bnum)).

(** [ensureBodyEntryExists] *)
Definition ensureBodyEntryExists (fuel : nat) (bodyNum : Z) : Sub unit :=
  mm <- get ;;
  (if bodyNum >=? size (bodies mm)
   then n <- intAdd bodyNum 1 ;;
        modify (fun mm => set_bodies (resize n Body_default (bodies mm)) mm)
   else ret tt) ;;
  mm <- get ;;
  b <- must (at_ (bodies mm) bodyNum) ;;
  if negb (Body_isValid b) then
    clusterId <- addCluster (Cluster_new (createClusterNameForBody bodyNum)) ;;
    Cluster_attachToBody fuel clusterId bodyNum Transform_identity ;;
    assert (Body_isValid (mkBody clusterId [])) ;;
    modBody bodyNum (fun _ => mkBody clusterId [])
  else ret tt.

(** The body's cluster: [updCluster(getBody(bodyNum).getClusterId())] *)
Definition bodyCluster (bodyNum : Z) : Sub Z :=
  b <- getBody bodyNum ;;
  assert (Body_isValid b) ;;
  _ <- getCluster (body_clusterId b) ;;
  ret (body_clusterId b).

(* ================================================================= *)
(** ** Construction and the definition calls *)

(** The members as the constructor sets them, before its [addCluster]. *)
Definition DuMM_members0 : DuMM :=
  mkDuMM [] [] [] [] loadElements [] [] [] [] []
         0%R 0%R 0%R 0%R 1%R 1%R 1%R 1%R false.

(** [DuMMForceFieldSubsystemRep()] *)
Definition DuMMForceFieldSubsystemRep_new : result DuMM unit :=
  (gid <- addCluster (Cluster_new "free atoms and groups") ;;
   assert (gid =? 0)) DuMM_members0.

Definition placeClusterInCluster_rep (fuel : nat)
    (childClusterId parentClusterId : Z) (placement : Transform) : Sub unit :=
  mm <- get ;;
  assert (isValidCluster mm childClusterId && isValidCluster mm parentClusterId) ;;
  _ <- getCluster parentClusterId ;;
  has <- containsCluster fuel parentClusterId childClusterId ;;
  assert (negb has) ;;
  _ <- getCluster parentClusterId ;;
  Cluster_placeCluster fuel parentClusterId childClusterId placement.

Definition attachClusterToBody_rep (fuel : nat) (clusterId bodyNum : Z)
    (tr : Transform) : Sub unit :=
  ensureBodyEntryExists fuel bodyNum ;;
  mm <- get ;;
  assert (isValidCluster mm clusterId && isValidBody mm bodyNum) ;;
  bc <- bodyCluster bodyNum ;;
  Cluster_placeCluster fuel bc clusterId tr.

Definition attachAtomToBody_rep (fuel : nat) (atomId bodyNum : Z)
    (station : Vec3) : Sub unit :=
  ensureBodyEntryExists fuel bodyNum ;;
  mm <- get ;;
  assert (isValidAtom mm atomId && isValidBody mm bodyNum) ;;
  bc <- bodyCluster bodyNum ;;
  Cluster_placeAtom bc atomId station.

Definition addAtom_rep (chargedAtomTypeId : Z) : Sub Z :=
  mm <- get ;;
  assert (isValidChargedAtomType mm chargedAtomTypeId) ;;
  let atomId := size (atoms mm) in
  assert (Atom_isValid (Atom_new chargedAtomTypeId atomId)) ;;
  modify (fun mm =>
            set_atoms (atoms mm ++ [Atom_new chargedAtomTypeId atomId]) mm) ;;
  ret atomId.

(** The first [i] with [bonds[i].atoms[0]==atom1 && bonds[i].atoms[1]==atom2]. *)
Fixpoint findBond (atom1 atom2 : Z) (l : list Bond) (i : Z) : option Z :=
  match l with
  | [] => None
  | b :: l' =>
      if (ip0 b =? atom1) && (ip1 b =? atom2) then Some i
      else findBond atom1 atom2 l' (i + 1)
  end.

Definition addBond_rep (atom1 atom2 : Z) : Sub Z :=
  mm <- get ;;
  assert (isValidAtom mm atom1 && isValidAtom mm atom2) ;;
  assert (negb (atom1 =? atom2)) ;;
  (* Ensure that atom1 < atom2 *)
  let (atom1, atom2) :=
    if atom1 >? atom2 then (atom2, atom1) else (atom1, atom2) in
  a1 <- must (at_ (atoms mm) atom1) ;;
  a2 <- must (at_ (atoms mm) atom2) ;;
  if Atom_isBondedTo a1 atom2 then
    assert (Atom_isBondedTo a2 atom1) ;;
    (* the search ends in assert(!"missing bond") *)
    must (findBond atom1 atom2 (bonds mm) 0)
  else
    assert (Bond_isValid (IntPair_new atom1 atom2 false)) ;;
    modify (fun mm =>
              set_bonds (bonds mm ++ [IntPair_new atom1 atom2 false]) mm) ;;
    modAtom atom1 (fun a => Atom_setBond12 a (bond12 a ++ [atom2])) ;;
    modAtom atom2 (fun a => Atom_setBond12 a (bond12 a ++ [atom1])) ;;
    mm <- get ;;
    ret (size (bonds mm) - 1).

Definition getChargedAtomTypeNum (atomId : Z) : Sub Z :=
  a <- getAtom atomId ;; ret (atom_chargedAtomTypeId a).

Definition getAtomClassNum (atomId : Z) : Sub Z :=
  t <- getChargedAtomTypeNum atomId ;;
  mm <- get ;;
  type <- must (at_ (chargedAtomTypes mm) t) ;;
  ret (atomClass type).

Definition getBondAtom (b which : Z) : Sub Z :=
  mm <- get ;;
  assert (isValidBond mm b && ((which =? 0) || (which =? 1))) ;;
  bd <- must (at_ (bonds mm) b) ;;
  ret (if which =? 0 then ip0 bd else ip1 bd).

Definition getBondStretch (class1 class2 : Z) : Sub BondStretch :=
  mm <- get ;;
  must (map_find IntPair_lt (IntPair_new class1 class2 true) (bondStretch mm)).

Definition getBondBend (class1 class2 class3 : Z) : Sub BondBend :=
  mm <- get ;;
  must (map_find IntTriple_lt (IntTriple_new class1 class2 class3 true)
                 (bondBend mm)).

Definition getBondTorsion (class1 class2 class3 class4 : Z) : Sub BondTorsion :=
  mm <- get ;;
  must (map_find IntQuad_lt (IntQuad_new class1 class2 class3 class4 true)
                 (bondTorsion mm)).

(** *** The public surface: [DuMMForceFieldSubsystem] *)

Definition defineAtomClass (atomClassId : Z) (atomClassName : string)
    (element valence : Z) (vdwRadius vdwWellDepth : R) : Sub unit :=
  mm <- get ;;
  apiArgCheck (0 <=? atomClassId) ;;
  apiArgCheck (isValidElement mm element) ;;
  apiArgCheck (0 <=? valence) ;;
  apiArgCheck (Rleb 0 vdwRadius) ;;
  apiArgCheck (Rleb 0 vdwWellDepth) ;;
  (if atomClassId >=? size (atomClasses mm)
   then n <- intAdd atomClassId 1 ;;
        modify (fun mm =>
                  set_atomClasses
                    (resize n AtomClass_default (atomClasses mm)) mm)
   else ret tt) ;;
  mm <- get ;;
  old <- must (at_ (atomClasses mm) atomClassId) ;;
  apiArgCheck (negb (AtomClass_isValid old)) ;;
  let c := AtomClass_new atomClassId atomClassName element valence
                         vdwRadius vdwWellDepth in
  assert (AtomClass_isValid c) ;;
  modAtomClass atomClassId (fun _ => c).

Definition defineChargedAtomType (chargedAtomTypeId : Z) (typeName : string)
    (atomClassId : Z) (partialCharge : R) : Sub unit :=
  mm <- get ;;
  apiArgCheck (0 <=? chargedAtomTypeId) ;;
  apiArgCheck (0 <=? atomClassId) ;;
  apiArgCheck (isValidAtomClass mm atomClassId) ;;
  (if chargedAtomTypeId >=? size (chargedAtomTypes mm)
   then n <- intAdd chargedAtomTypeId 1 ;;
        modify (fun mm =>
                  set_chargedAtomTypes
                    (resize n ChargedAtomType_default
                            (chargedAtomTypes mm)) mm)
   else ret tt) ;;
  mm <- get ;;
  old <- must (at_ (chargedAtomTypes mm) chargedAtomTypeId) ;;
  apiArgCheck (negb (ChargedAtomType_isValid old)) ;;
  let t := mkChargedAtomType chargedAtomTypeId typeName atomClassId
                             (Some partialCharge) in
  assert (ChargedAtomType_isValid t) ;;
  modChargedAtomType chargedAtomTypeId (fun _ => t).

Definition defineBondStretch (class1 class2 : Z)
    (stiffnessInKcalPerASq nominalLengthInA : R) : Sub unit :=
  mm <- get ;;
  apiArgCheck (isValidAtomClass mm class1) ;;
  apiArgCheck (isValidAtomClass mm class2) ;;
  apiArgCheck (Rleb 0 stiffnessInKcalPerASq) ;;
  apiArgCheck (Rleb 0 nominalLengthInA) ;;
  (* Canonicalize the pair to have lowest class # first *)
  let key := IntPair_new class1 class2 true in
  let bs := BondStretch_new stiffnessInKcalPerASq nominalLengthInA in
  assert (BondStretch_isValid bs) ;;
  let inserted := snd (map_insert IntPair_lt key bs (bondStretch mm)) in
  modify (fun mm =>
            set_bondStretch
              (fst (map_insert IntPair_lt key bs (bondStretch mm))) mm) ;;
  (* Throw an exception if this bond stretch term was already defined. *)
  apiArgCheck inserted.

Definition defineBondBend (class1 class2 class3 : Z)
    (stiffnessInKcalPerRadSq nominalAngleInDegrees : R) : Sub unit :=
  mm <- get ;;
  apiArgCheck (isValidAtomClass mm class1) ;;
  apiArgCheck (isValidAtomClass mm class2) ;;
  apiArgCheck (isValidAtomClass mm class3) ;;
  apiArgCheck (Rleb 0 stiffnessInKcalPerRadSq) ;;
  apiArgCheck (Rleb 0 nominalAngleInDegrees && Rleb nominalAngleInDegrees 180) ;;
  (* Canonicalize the triple to have lowest type # first *)
  let key := IntTriple_new class1 class2 class3 true in
  let bb := BondBend_new stiffnessInKcalPerRadSq nominalAngleInDegrees in
  assert (BondBend_isValid bb) ;;
  let inserted := snd (map_insert IntTriple_lt key bb (bondBend mm)) in
  modify (fun mm =>
            set_bondBend
              (fst (map_insert IntTriple_lt key bb (bondBend mm))) mm) ;;
  (* Throw an exception if this bond bend term was already defined. *)
  apiArgCheck inserted.

(** [bt.addTerm(TorsionTerm(n, amp, th0))] *)
Definition BondTorsion_addTerm (bt : BondTorsion) (n : Z) (amp th0 : R)
  : Sub BondTorsion :=
  let tt := TorsionTerm_new n amp th0 in
  assert (TorsionTerm_isValid tt) ;;
  assert (negb (BondTorsion_hasTerm bt (periodicity tt))) ;;
  ret (mkBondTorsion (terms bt ++ [tt])).

(** The three checks every supplied torsion term goes through. *)
Definition checkTorsionTerm (periodicity : Z) (ampInKcal phaseInDegrees : R)
  : Sub unit :=
  apiArgCheck ((1 <=? periodicity) && (periodicity <=? 6)) ;;
  apiArgCheck (Rleb 0 ampInKcal) ;;
  apiArgCheck (Rleb 0 phaseInDegrees && Rleb phaseInDegrees 180).

Definition defineBondTorsion (class1 class2 class3 class4 : Z)
    (periodicity1 : Z) (amp1InKcal phase1InDegrees : R)
    (periodicity2 : Z) (amp2InKcal phase2InDegrees : R)
    (periodicity3 : Z) (amp3InKcal phase3InDegrees : R) : Sub unit :=
  mm <- get ;;
  apiArgCheck (isValidAtomClass mm class1) ;;
  apiArgCheck (isValidAtomClass mm class2) ;;
  apiArgCheck (isValidAtomClass mm class3) ;;
  apiArgCheck (isValidAtomClass mm class4) ;;
  (* Canonicalize the quad to have lowest type # first *)
  let key := IntQuad_new class1 class2 class3 class4 true in
  let bt := BondTorsion_empty in (* no terms yet *)
  let gotOne := false in
  r1 <- (if negb (periodicity1 =? -1) then
           checkTorsionTerm periodicity1 amp1InKcal phase1InDegrees ;;
           apiArgCheck (negb (periodicity2 =? periodicity1)
                        && negb (periodicity3 =? periodicity1)) ;;
           bt <- BondTorsion_addTerm bt periodicity1 amp1InKcal phase1InDegrees ;;
           ret (bt, true)
         else ret (bt, gotOne)) ;;
  let (bt, gotOne) := r1 : BondTorsion * bool in
  r2 <- (if negb (periodicity2 =? -1) then
           checkTorsionTerm periodicity2 amp2InKcal phase2InDegrees ;;
           apiArgCheck (negb (periodicity3 =? periodicity2)) ;;
           bt <- BondTorsion_addTerm bt periodicity2 amp2InKcal phase2InDegrees ;;
           ret (bt, true)
         else ret (bt, gotOne)) ;;
  let (bt, gotOne) := r2 : BondTorsion * bool in
  r3 <- (if negb (periodicity3 =? -1) then
           checkTorsionTerm periodicity3 amp3InKcal phase3InDegrees ;;
           bt <- BondTorsion_addTerm bt periodicity3 amp3InKcal phase3InDegrees ;;
           ret (bt, true)
         else ret (bt, gotOne)) ;;
  let (bt, gotOne) := r3 : BondTorsion * bool in
  apiArgCheck gotOne ;;
  (* Now try to insert the allegedly new BondTorsion specification. *)
  mm <- get ;;
  let inserted := snd (map_insert IntQuad_lt key bt (bondTorsion mm)) in
  modify (fun mm =>
            set_bondTorsion
              (fst (map_insert IntQuad_lt key bt (bondTorsion mm))) mm) ;;
  (* Throw an exception if terms for this bond torsion were already defined. *)
  apiArgCheck inserted.

(** The overloads with one and with two terms. *)
Definition defineBondTorsion1 (class1 class2 class3 class4 : Z)
    (periodicity1 : Z) (amp1InKcal phase1InDegrees : R) : Sub unit :=
  defineBondTorsion class1 class2 class3 class4
    periodicity1 amp1InKcal phase1InDegrees (-1) 0%R 0%R (-1) 0%R 0%R.

Definition defineBondTorsion2 (class1 class2 class3 class4 : Z)
    (periodicity1 : Z) (amp1InKcal phase1InDegrees : R)
    (periodicity2 : Z) (amp2InKcal phase2InDegrees : R) : Sub unit :=
  defineBondTorsion class1 class2 class3 class4
    periodicity1 amp1InKcal phase1InDegrees
    periodicity2 amp2InKcal phase2InDegrees (-1) 0%R 0%R.

(** [setVdw12ScaleFactor] ... [setCoulomb15ScaleFactor]: one check, one
    assignment. *)
Definition setScaleFactor (set : R -> DuMM -> DuMM) (fac : R) : Sub unit :=
  apiArgCheck (Rleb 0 fac && Rleb fac 1) ;;
  modify (set fac).

Definition setVdw12ScaleFactor := setScaleFactor set_vdwScale12.
Definition setVdw13ScaleFactor := setScaleFactor set_vdwScale13.
Definition setVdw14ScaleFactor := setScaleFactor set_vdwScale14.
Definition setVdw15ScaleFactor := setScaleFactor set_vdwScale15.
Definition setCoulomb12ScaleFactor := setScaleFactor set_coulombScale12.
Definition setCoulomb13ScaleFactor := setScaleFactor set_coulombScale13.
Definition setCoulomb14ScaleFactor := setScaleFactor set_coulombScale14.
Definition setCoulomb15ScaleFactor := setScaleFactor set_coulombScale15.

Definition createCluster (groupName : string) : Sub Z :=
  addCluster (Cluster_new groupName).

Definition addAtom (chargedAtomType : Z) : Sub Z := addAtom_rep chargedAtomType.

Definition placeAtomInCluster (atomId clusterId : Z) (station : Vec3)
  : Sub unit :=
  mm <- get ;;
  apiArgCheck (isValidAtom mm atomId) ;;
  apiArgCheck (isValidCluster mm clusterId) ;;
  cluster <- getCluster clusterId ;;
  apiArgCheck (negb (Cluster_containsAtom cluster atomId)) ;;
  Cluster_placeAtom clusterId atomId station.

Definition placeClusterInCluster := placeClusterInCluster_rep.
Definition attachClusterToBody := attachClusterToBody_rep.
Definition attachAtomToBody := attachAtomToBody_rep.
Definition addBond (atom1 atom2 : Z) : Sub Z := addBond_rep atom1 atom2.

(* ================================================================= *)
(** ** Topology realization *)

Fixpoint foldM {S A B} (f : B -> A -> M S B) (l : list A) (b : B) : M S B :=
  match l with
  | [] => ret b
  | x :: l' => b' <- f b x ;; foldM f l' b'
  end.

Fixpoint mapM {S A B} (f : A -> M S B) (l : list A) : M S (list B) :=
  match l with
  | [] => ret []
  | x :: l' => y <- f x ;; ys <- mapM f l' ;; ret (y :: ys)
  end.

Fixpoint filterM {S A} (f : A -> M S bool) (l : list A) : M S (list A) :=
  match l with
  | [] => ret []
  | x :: l' => b <- f x ;; ys <- filterM f l' ;; ret (if b then x :: ys else ys)
  end.

Definition invalidateAllTopologicalCacheEntries : Sub unit :=
  modify (set_topologicalCacheValid false) ;;
  modify (fun mm =>
            set_atoms (map Atom_invalidateTopologicalCache (atoms mm)) mm) ;;
  modify (fun mm =>
            set_clusters (map (Cluster_set_cl_topologicalCacheValid false)
                              (clusters mm)) mm) ;;
  modify (fun mm =>
            set_bodies (map (fun b => mkBody (body_clusterId b) []) (bodies mm))
                       mm) ;;
  modify (fun mm =>
            set_atomClasses (map AtomClass_invalidateTopologicalCache
                                 (atomClasses mm)) mm).

(** The inner loop of the van der Waals table, [for (j=i; j<size; ++j)]:
    class [j] fills position [j-i] of the two rows of class [i]. *)
Definition vdwRowStep (classes : list AtomClass) (iclass : AtomClass) (i : Z)
    (rows : list XReal * list XReal) (j : Z)
  : Sub (list XReal * list XReal) :=
  jclass <- must (at_ classes j) ;;
  if AtomClass_isValid jclass then
    let (dmin, emin) :=
      applyMixingRule (Some (vdwRadius iclass)) (Some (vdwRadius jclass))
                      (Some (vdwWellDepth iclass)) (Some (vdwWellDepth jclass)) in
    d <- must (set_at (fst rows) (j - i) dmin) ;;
    e <- must (set_at (snd rows) (j - i) emin) ;;
    ret (d, e)
  else ret rows.

Definition realizeVdw (i : Z) : Sub unit :=
  mm <- get ;;
  iclass <- must (at_ (atomClasses mm) i) ;;
  if negb (AtomClass_isValid iclass) then ret tt
  else
    let n := size (atomClasses mm) in
    let dij := resize (n - i) None (vdwDij iclass) in
    let eij := resize (n - i) None (vdwEij iclass) in
    rows <- foldM (vdwRowStep (atomClasses mm) iclass i)
                  (map (fun k => i + k) (indices (Z.to_nat (n - i))))
                  (dij, eij) ;;
    modAtomClass i (fun c => AtomClass_setVdw c (fst rows) (snd rows)).

(** [Cluster::realizeTopologicalCache] on [clusters[cnum]] *)
Definition realizeCluster (cnum : Z) : Sub unit :=
  mm <- get ;;
  c <- must (at_ (clusters mm) cnum) ;;
  assert (Cluster_isValid c) ;; (* Shouldn't be any unused cluster numbers. *)
  if cl_topologicalCacheValid c then ret tt
  else modCluster cnum (Cluster_set_cl_topologicalCacheValid true).

(** [Body::realizeTopologicalCache] on [bodies[bnum]], for a valid body *)
Definition realizeBody (bnum : Z) : Sub unit :=
  mm <- get ;;
  b <- must (at_ (bodies mm) bnum) ;;
  if negb (Body_isValid b) then ret tt (* OK for these to be unused. *)
  else
    c <- getCluster (body_clusterId b) ;;
    modBody bnum (fun b => mkBody (body_clusterId b) (allAtomPlacements c)).

(** Assign body & station to every atom of body [bnum]. *)
Definition assignBodyAtoms (bnum : Z) : Sub unit :=
  mm <- get ;;
  b <- must (at_ (bodies mm) bnum) ;;
  if negb (Body_isValid b) then ret tt (* Unused body numbers are OK. *)
  else
    forEach (allAtoms b)
      (fun ap =>
         assert (AtomPlacement_isValid ap) ;;
         mm <- get ;;
         a <- must (at_ (atoms mm) (ap_atomId ap)) ;;
         assert (Atom_isValid a) ;;
         assert (atom_bodyId a =? -1) ;; (* Can only be on one body!! *)
         modAtom (ap_atomId ap)
                 (fun a => Atom_setBody a bnum (Some (ap_station ap)))).

(** One pass of [for (k...) { newAtom = a1x_12[k]; ... }]: every neighbour
    that is not yet in [allBondedSoFar] is recorded and a path to it is
    pushed on the list. *)
Definition extendPaths {C} (mk : Z -> C) (neighbours : list Z)
    (st : list Z * list C) : list Z * list C :=
  fold_left
    (fun st newAtom =>
       if intset_mem newAtom (fst st) then st (* there was already a shorter path *)
       else (intset_insert newAtom (fst st), snd st ++ [mk newAtom]))
    neighbours st.

(** Build one list from the previous one: each path [p] of the previous
    list is extended by the direct bonds of [atoms[from p]]. *)
Definition buildPaths {P C} (from : P -> Z) (mk : P -> Z -> C)
    (prev : list P) (allBondedSoFar : list Z) : Sub (list Z * list C) :=
  foldM (fun st p =>
           mm <- get ;;
           a1x <- must (at_ (atoms mm) (from p)) ;;
           ret (extendPaths (mk p) (bond12 a1x) st))
        prev (allBondedSoFar, []).

(** [atoms[i].bodyId] *)
Definition bodyOf (i : Z) : Sub Z :=
  mm <- get ;; a <- must (at_ (atoms mm) i) ;; ret (atom_bodyId a).

(** [atoms[i].bodyId != b || rest], evaluated left to right *)
Definition offBody (i b : Z) (rest : Sub bool) : Sub bool :=
  bi <- bodyOf i ;; if negb (bi =? b) then ret true else rest.

Definition Atom_setDerived (a : Atom)
    (b13 : list IntPair) (b14 : list IntTriple) (b15 : list IntQuad)
    (x12 : list Z) (x13 : list IntPair) (x14 : list IntTriple)
    (x15 : list IntQuad)
    (st : list BondStretch) (be : list BondBend) (to : list BondTorsion)
  : Atom :=
  mkAtom (atomId a) (atom_chargedAtomTypeId a) (bond12 a) (atom_bodyId a)
         (station_B a) b13 b14 b15 x12 x13 x14 x15 st be to.

(** The body of [for (anum...)] that chases the bonds of [atoms[anum]]. *)
Definition realizeAtomBonds (anum : Z) : Sub unit :=
  mm <- get ;;
  a <- must (at_ (atoms mm) anum) ;;
  (* Only the bond12 list should be filled in at the moment. *)
  modAtom anum (fun a => Atom_setBond12 a (sort Z.ltb (bond12 a))) ;;
  let b12 := sort Z.ltb (bond12 a) in
  (* Add this atom and its direct (1-2) bonds to the list of all bonded atoms. *)
  let allBondedSoFar := intset_insert_all b12 (intset_insert anum []) in
  (* build the bond13 list *)
  r13 <- buildPaths (fun b => b) (fun b c => IntPair_new b c false)
                    b12 allBondedSoFar ;;
  b13 <- sortChecked IntPair_isValid IntPair_lt (snd r13) ;;
  (* build the bond14 list *)
  r14 <- buildPaths ip1 (fun p c => IntTriple_new (ip0 p) (ip1 p) c false)
                    b13 (fst r13) ;;
  b14 <- sortChecked IntTriple_isValid IntTriple_lt (snd r14) ;;
  (* build the bond15 list: the source extends from [a.bond14[j][1]] *)
  r15 <- buildPaths it1
                    (fun t c => IntQuad_new (it0 t) (it1 t) (it2 t) c false)
                    b14 (fst r14) ;;
  b15 <- sortChecked IntQuad_isValid IntQuad_lt (snd r15) ;;
  (* Fill in the cross-body bond lists. *)
  let bid := atom_bodyId a in
  x12 <- filterM (fun j => offBody j bid (ret false)) b12 ;;
  x13 <- filterM (fun p => offBody (ip0 p) bid
                          (offBody (ip1 p) bid (ret false))) b13 ;;
  x14 <- filterM (fun t => offBody (it0 t) bid
                          (offBody (it1 t) bid
                          (offBody (it2 t) bid (ret false)))) b14 ;;
  x15 <- filterM (fun q => offBody (iq0 q) bid
                          (offBody (iq1 q) bid
                          (offBody (iq2 q) bid
                          (offBody (iq3 q) bid (ret false))))) b15 ;;
  (* Save a BondStretch entry for each 1-2 bond *)
  st <- mapM (fun j => c1 <- getAtomClassNum anum ;;
                       c2 <- getAtomClassNum j ;;
                       getBondStretch c1 c2) x12 ;;
  (* Save a BondBend entry for each 1-3 bond *)
  be <- mapM (fun p => c1 <- getAtomClassNum anum ;;
                       c2 <- getAtomClassNum (ip0 p) ;;
                       c3 <- getAtomClassNum (ip1 p) ;;
                       getBondBend c1 c2 c3) x13 ;;
  (* Save a BondTorsion entry for each 1-4 bond *)
  to <- mapM (fun t => c1 <- getAtomClassNum anum ;;
                       c2 <- getAtomClassNum (it0 t) ;;
                       c3 <- getAtomClassNum (it1 t) ;;
                       c4 <- getAtomClassNum (it2 t) ;;
                       getBondTorsion c1 c2 c3 c4) x14 ;;
  modAtom anum
    (fun a => Atom_setDerived a b13 b14 b15 x12 x13 x14 x15 st be to).

(** [for (i=0; i < (int)v.size(); ++i) body(i)] *)
Definition forIndices {A} (v : DuMM -> list A) (body : Z -> Sub unit)
  : Sub unit :=
  mm <- get ;; forEach (indices (length (v mm))) body.

Definition realizeConstruction : Sub unit :=
  mm <- get ;;
  if topologicalCacheValid mm then ret tt (* already got this far *)
  else
    invalidateAllTopologicalCacheEntries ;;
    (* force field *)
    forIndices atomClasses realizeVdw ;;
    (* molecule *)
    forIndices clusters realizeCluster ;;
    forIndices bodies realizeBody ;;
    forIndices atoms (fun anum => modAtom anum (fun a =>
                        Atom_setBody a (-1) (station_B a))) ;;
    forIndices bodies assignBodyAtoms ;;
    forIndices atoms (fun anum =>
                        mm <- get ;;
                        a <- must (at_ (atoms mm) anum) ;;
                        assert (0 <=? atom_bodyId a)) ;;
    (* need to chase bonds to fill in the bonded data *)
    forIndices atoms realizeAtomBonds ;;
    modify (set_topologicalCacheValid true).

(* ================================================================= *)
(** ** The calls a client can make, and the states they reach *)

Inductive call : Type :=
| DefineAtomClass (atomClassId : Z) (name : string) (element valence : Z)
                  (vdwRadius vdwWellDepth : R)
| DefineChargedAtomType (chargedAtomTypeId : Z) (name : string)
                        (atomClassId : Z) (partialCharge : R)
| DefineBondStretch (class1 class2 : Z) (stiffness length : R)
| DefineBondBend (class1 class2 class3 : Z) (stiffness angle : R)
| DefineBondTorsion (class1 class2 class3 class4 : Z)
                    (periodicity1 : Z) (amp1 phase1 : R)
                    (periodicity2 : Z) (amp2 phase2 : R)
                    (periodicity3 : Z) (amp3 phase3 : R)
| SetVdw12ScaleFactor (fac : R)
| SetVdw13ScaleFactor (fac : R)
| SetVdw14ScaleFactor (fac : R)
| SetVdw15ScaleFactor (fac : R)
| SetCoulomb12ScaleFactor (fac : R)
| SetCoulomb13ScaleFactor (fac : R)
| SetCoulomb14ScaleFactor (fac : R)
| SetCoulomb15ScaleFactor (fac : R)
| CreateCluster (groupName : string)
| AddAtom (chargedAtomType : Z)
| PlaceAtomInCluster (atomId clusterId : Z) (station : Vec3)
| PlaceClusterInCluster (childClusterId parentClusterId : Z)
                        (placement : Transform)
| AttachClusterToBody (clusterId bodyId : Z) (tr : Transform)
| AttachAtomToBody (atomId bodyId : Z) (station : Vec3)
| AddBond (atom1 atom2 : Z)
| RealizeConstruction.

(** A call that returns nothing is given the value 0. *)
Definition void (m : Sub unit) : Sub Z := m ;; ret 0.

Definition run (fuel : nat) (c : call) : Sub Z :=
  match c with
  | DefineAtomClass id nm e v r w => void (defineAtomClass id nm e v r w)
  | DefineChargedAtomType id nm c q => void (defineChargedAtomType id nm c q)
  | DefineBondStretch c1 c2 k d => void (defineBondStretch c1 c2 k d)
  | DefineBondBend c1 c2 c3 k a => void (defineBondBend c1 c2 c3 k a)
  | DefineBondTorsion c1 c2 c3 c4 n1 a1 p1 n2 a2 p2 n3 a3 p3 =>
      void (defineBondTorsion c1 c2 c3 c4 n1 a1 p1 n2 a2 p2 n3 a3 p3)
  | SetVdw12ScaleFactor f => void (setVdw12ScaleFactor f)
  | SetVdw13ScaleFactor f => void (setVdw13ScaleFactor f)
  | SetVdw14ScaleFactor f => void (setVdw14ScaleFactor f)
  | SetVdw15ScaleFactor f => void (setVdw15ScaleFactor f)
  | SetCoulomb12ScaleFactor f => void (setCoulomb12ScaleFactor f)
  | SetCoulomb13ScaleFactor f => void (setCoulomb13ScaleFactor f)
  | SetCoulomb14ScaleFactor f => void (setCoulomb14ScaleFactor f)
  | SetCoulomb15ScaleFactor f => void (setCoulomb15ScaleFactor f)
  | CreateCluster nm => createCluster nm
  | AddAtom t => addAtom t
  | PlaceAtomInCluster a c s => void (placeAtomInCluster a c s)
  | PlaceClusterInCluster ch p x => void (placeClusterInCluster fuel ch p x)
  | AttachClusterToBody c b x => void (attachClusterToBody fuel c b x)
  | AttachAtomToBody a b s => void (attachAtomToBody fuel a b s)
  | AddBond a1 a2 => addBond a1 a2
  | RealizeConstruction => void realizeConstruction
  end.

(** The states of a subsystem: as constructed, and after any call that
    returned or threw (the caller may catch the exception and go on),
    whatever depth the recursions over its cluster trees needed. *)
Inductive reachable : DuMM -> Prop :=
| reachable_new mm :
    DuMMForceFieldSubsystemRep_new = Return mm tt -> reachable mm
| reachable_return fuel c mm mm' v :
    reachable mm -> run fuel c mm = Return mm' v -> reachable mm'
| reachable_throw fuel c mm mm' :
    reachable mm -> run fuel c mm = Throw mm' -> reachable mm'.

(** Running a sequence of calls that all return. *)
Fixpoint runAll (fuel : nat) (cs : list call) (mm : DuMM) : option DuMM :=
  match cs with
  | [] => Some mm
  | c :: cs' =>
      match run fuel c mm with
      | Return mm' _ => runAll fuel cs' mm'
      | _ => None
      end
  end.

(* ================================================================= *)
(** ** Bend and torsion geometry *)

(** [std::atan2(y, x)] *)
Definition atan2 (y x : R) : R :=
  if Rltb 0 x then atan (y / x)
  else if Rltb x 0 then
         (if Rleb 0 y then atan (y / x) + PI else atan (y / x) - PI)%R
  else if Rltb 0 y then (PI / 2)%R
  else if Rltb y 0 then (- PI / 2)%R
  else 0%R.

Definition xvscale (s : XReal) (v : XVec3) : XVec3 :=
  match s, v with
  | Some s, Some v => Some (vscale s v)
  | _, _ => None
  end.

(** What [BondTorsion::periodic] leaves in its output arguments; [theta] is
    not written on the early return. *)
Record TorsionResult : Type := mkTorsionResult {
  tr_theta : option R;
  tr_pe : R;
  tr_rf : Vec3; tr_xf : Vec3; tr_yf : Vec3; tr_sf : Vec3
}.

(** What [BondBend::harmonic] leaves in its output arguments. *)
Record BendResult : Type := mkBendResult {
  br_theta : R;
  br_pe : R;
  br_cf : XVec3; br_rf : XVec3; br_sf : XVec3
}.

Section Geometry.
(** SimTK's [UnitVec3] is declared outside this file: [UnitVec3(v)]
    normalizes [v], and [u.perp()] is some unit vector perpendicular to
    [u].  Both are parameters here. *)
Variable UnitVec3_of : Vec3 -> Vec3.
Variable perp : Vec3 -> Vec3.

Local Open Scope R_scope.

(** [oov]: 0 when atoms x and y overlap, else 1/|xy|. *)
Definition torsion_oov (xy : Vec3) : R :=
  let vv := vdot xy xy in
  if Reqb vv 0 then 0 else 1 / sqrt vv.

(** The unit vector [v] along the axis, with its fallbacks. *)
Definition torsion_axis (r s xy : Vec3) : Vec3 :=
  if negb (Reqb (torsion_oov xy) 0) then vscale (torsion_oov xy) xy
  else if negb (Reqb (norm (vcross r s)) 0) then UnitVec3_of (vcross r s)
  else perp (UnitVec3_of r).

Definition BondTorsion_periodic (bt : BondTorsion) (rG xG yG sG : Vec3)
  : TorsionResult :=
  (* All vectors point along the r->x->y->s direction *)
  let r := vsub xG rG in
  let s := vsub sG yG in
  let xy := vsub yG xG in
  let oov := torsion_oov xy in
  let v := torsion_axis r s xy in
  (* Calculate plane normals. *)
  let t := vcross r v in
  let u := vcross v s in
  let tt := vdot t t in
  let uu := vdot u u in
  if Reqb tt 0 || Reqb uu 0 then
    mkTorsionResult None 0 vzero vzero vzero vzero
  else
    let txu := vcross t u in
    let ootu := 1 / sqrt (tt * uu) in
    let cth := vdot t u * ootu in
    let sth := vdot v txu * ootu in
    let theta := atan2 sth cth in
    let pe := fold_left (fun pe term => pe + TorsionTerm_energy term theta)
                        (terms bt) 0 in
    let torque :=
      fold_left (fun tq term => tq + TorsionTerm_torque term theta)
                (terms bt) 0 in
    let ry := vsub yG rG in  (* from r->y *)
    let xs := vsub sG xG in  (* from x->s *)
    let dedt := vscale (torque / tt) (vcross t v) in
    let dedu := vscale (- (torque / uu)) (vcross u v) in
    let rf := vcross dedt v in
    let sf := vcross dedu v in
    if Reqb oov 0 then
      (* No axis; this is just desperation. *)
      mkTorsionResult (Some theta) pe rf (vneg rf) (vneg sf) sf
    else
      mkTorsionResult (Some theta) pe rf
        (vscale oov (vadd (vcross ry dedt) (vcross dedu s)))
        (vscale oov (vadd (vcross dedt r) (vcross xs dedu)))
        sf.

Definition BondBend_harmonic (bb : BondBend) (cG rG sG : Vec3) : BendResult :=
  let r := vsub rG cG in
  let s := vsub sG cG in
  let rr := vdot r r in
  let ss := vdot s s in
  let rs := vdot r s in
  let rxs := vcross r s in
  let rxslen := norm rxs in
  let theta := atan2 rxslen rs in
  let bend := theta - bb_theta0 bb in
  let pe := bb_k bb * bend * bend in (* NOTE: no factor of 1/2 *)
  (* p is unit vector perpendicular to r and s *)
  let p := if negb (Reqb rxslen 0) then vscale (1 / rxslen) rxs
           else perp (UnitVec3_of r) in
  let ffac := -2 * bb_k bb * bend in
  let rf := xvscale (#ffac / #rr)%X (Some (vcross r p)) in
  let sf := xvscale (#ffac / #ss)%X (Some (vcross p s)) in
  let cf := option_map vneg (omap2 vadd rf sf) in
  mkBendResult theta pe cf rf sf.
End Geometry.

(* ================================================================= *)
(** ** The force kernel *)

(** The two scratch vectors of scale factors, [(vdwScale, coulombScale)]. *)
Definition Scratch : Type := (list R * list R)%type.

(** [vdwScale[ix]=v; coulombScale[ix]=c;] *)
Definition setScale (ix : Z) (v c : R) : M Scratch unit :=
  sc <- get ;;
  vs <- must (set_at (fst sc) ix v) ;;
  cs <- must (set_at (snd sc) ix c) ;;
  put (vs, cs).

(** We scale short range interactions but only for bonds which cross bodies. *)
Definition scaleBondedAtoms (mm : DuMM) (a : Atom) : M Scratch unit :=
  forEach (xbond12 a)
    (fun ix => setScale ix (vdwScale12 mm) (coulombScale12 mm)) ;;
  forEach (xbond13 a)
    (fun p => setScale (ip1 p) (vdwScale13 mm) (coulombScale13 mm)) ;;
  (if negb (Reqb (vdwScale14 mm) 1) || negb (Reqb (coulombScale14 mm) 1)
   then forEach (xbond14 a)
          (fun t => setScale (it2 t) (vdwScale14 mm) (coulombScale14 mm))
   else ret tt) ;;
  (if negb (Reqb (vdwScale15 mm) 1) || negb (Reqb (coulombScale15 mm) 1)
   then forEach (xbond15 a)
          (fun q => setScale (iq3 q) (vdwScale15 mm) (coulombScale15 mm))
   else ret tt).

Definition unscaleBondedAtoms (mm : DuMM) (a : Atom) : M Scratch unit :=
  forEach (xbond12 a) (fun ix => setScale ix 1%R 1%R) ;;
  forEach (xbond13 a) (fun p => setScale (ip1 p) 1%R 1%R) ;;
  (if negb (Reqb (vdwScale14 mm) 1) || negb (Reqb (coulombScale14 mm) 1)
   then forEach (xbond14 a) (fun t => setScale (it2 t) 1%R 1%R)
   else ret tt) ;;
  (if negb (Reqb (vdwScale15 mm) 1) || negb (Reqb (coulombScale15 mm) 1)
   then forEach (xbond15 a) (fun q => setScale (iq3 q) 1%R 1%R)
   else ret tt).

(** What [realizeDynamics] writes: the two accumulators of the multibody
    system and its own scratch vectors. *)
Record KState : Type := mkKState {
  pe : XReal;
  rigidBodyForces : list XSpatialVec;
  scratch : Scratch
}.

Definition Kernel (A : Type) : Type := M KState A.

Definition onScratch {A} (m : M Scratch A) : Kernel A :=
  fun k => match m (scratch k) with
           | Return sc a => Return (mkKState (pe k) (rigidBodyForces k) sc) a
           | Throw sc => Throw (mkKState (pe k) (rigidBodyForces k) sc)
           | Abort => Abort
           end.

(** [pe += e] *)
Definition addPe (e : XReal) : Kernel unit :=
  modify (fun k => mkKState (pe k + e)%X (rigidBodyForces k) (scratch k)).

(** [SpatialVec(station % f, f)] *)
Definition spatial (station f : XVec3) : XSpatialVec :=
  omap2 (fun s f => mkSpatialVec (vcross s f) f) station f.

(** [rigidBodyForces[b] += f] and [rigidBodyForces[b] -= f] *)
Definition accForce (op : SpatialVec -> SpatialVec -> SpatialVec) (b : Z)
    (f : XSpatialVec) : Kernel unit :=
  k <- get ;;
  old <- must (at_ (rigidBodyForces k) b) ;;
  l <- must (set_at (rigidBodyForces k) b (omap2 op old f)) ;;
  put (mkKState (pe k) l (scratch k)).
Definition addForce := accForce sv_add.
Definition subForce := accForce sv_sub.

(** The precomputed mixed parameter of two classes: must ask the
    lower-numbered atom class. *)
Definition mixedEntry (row : AtomClass -> list XReal)
    (a1cnum : Z) (a1class : AtomClass) (a2cnum : Z) (a2class : AtomClass)
  : option XReal :=
  if a1cnum <=? a2cnum then at_ (row a1class) (a2cnum - a1cnum)
  else at_ (row a2class) (a1cnum - a2cnum).

Section Kernel.
Variable UnitVec3_of : Vec3 -> Vec3.
Variable perp : Vec3 -> Vec3.
(** [matter.getBodyConfiguration(s, b)] *)
Variable getBodyConfiguration : Z -> Transform.
Variable mm : DuMM.

(** [X_GB.R()*a.station_B] and [X_GB.T() + station_G] of an atom. *)
Definition station_G (X_GB : Transform) (a : Atom) : XVec3 :=
  option_map (mvmul (X_R X_GB)) (station_B a).
Definition pos_G (X_GB : Transform) (a : Atom) : XVec3 :=
  option_map (vadd (X_T X_GB)) (station_G X_GB a).

(** Bond stretch (1-2) *)
Definition stretchTerm (b1 a1num : Z) (a1 : Atom) (a1Station_G a1Pos_G : XVec3)
    (b12 : Z) : Kernel unit :=
  a2num <- must (at_ (xbond12 a1) b12) ;;
  assert (negb (a2num =? a1num)) ;;
  if a2num <? a1num then ret tt (* don't process this bond this time *)
  else
    a2 <- must (at_ (atoms mm) a2num) ;;
    let b2 := atom_bodyId a2 in
    assert (negb (b2 =? b1)) ;;
    let X_GB2 := getBodyConfiguration (atom_bodyId a2) in
    let a2Station_G := station_G X_GB2 a2 in
    let a2Pos_G := pos_G X_GB2 a2 in
    let r := omap2 vsub a2Pos_G a1Pos_G in
    let d := option_map norm r in
    bs <- must (at_ (stretch a1) b12) ;;
    let x := (d - #(bs_d0 bs))%X in
    let eStretch := (#(bs_k bs) * x * x)%X in (* no factor of 1/2! *)
    let fStretch := (#(-2) * #(bs_k bs) * x)%X in
    let f2 := xvscale (fStretch / d)%X r in
    addPe eStretch ;;
    addForce b2 (spatial a2Station_G f2) ;;
    subForce b1 (spatial a1Station_G f2).

(** Bond bend (1-2-3) *)
Definition bendTerm (b1 a1num : Z) (a1 : Atom) (a1Station_G a1Pos_G : XVec3)
    (b13 : Z) : Kernel unit :=
  p <- must (at_ (xbond13 a1) b13) ;;
  let a2num := ip0 p in
  let a3num := ip1 p in
  assert (negb (a3num =? a1num)) ;;
  if a3num <? a1num then ret tt
  else
    a2 <- must (at_ (atoms mm) a2num) ;;
    a3 <- must (at_ (atoms mm) a3num) ;;
    let b2 := atom_bodyId a2 in
    let b3 := atom_bodyId a3 in
    assert (negb ((b2 =? b1) && (b3 =? b1))) ;;
    let X_GB2 := getBodyConfiguration b2 in
    let X_GB3 := getBodyConfiguration b3 in
    bb <- must (at_ (bend a1) b13) ;;
    (* atom 2 is the central one *)
    let res :=
      match pos_G X_GB2 a2, a1Pos_G, pos_G X_GB3 a3 with
      | Some c, Some r, Some s =>
          Some (BondBend_harmonic UnitVec3_of perp bb c r s)
      | _, _, _ => None
      end in
    let out (f : BendResult -> XVec3) : XVec3 :=
      match res with Some o => f o | None => None end in
    addPe (option_map br_pe res) ;;
    addForce b1 (spatial a1Station_G (out br_rf)) ;;
    addForce b2 (spatial (station_G X_GB2 a2) (out br_cf)) ;;
    addForce b3 (spatial (station_G X_GB3 a3) (out br_sf)).

(** Bond torsion (1-2-3-4) *)
Definition torsionTerm (b1 a1num : Z) (a1 : Atom)
    (a1Station_G a1Pos_G : XVec3) (b14 : Z) : Kernel unit :=
  t <- must (at_ (xbond14 a1) b14) ;;
  let a2num := it0 t in
  let a3num := it1 t in
  let a4num := it2 t in
  assert (negb (a4num =? a1num)) ;;
  if a4num <? a1num then ret tt
  else
    a2 <- must (at_ (atoms mm) a2num) ;;
    a3 <- must (at_ (atoms mm) a3num) ;;
    a4 <- must (at_ (atoms mm) a4num) ;;
    let b2 := atom_bodyId a2 in
    let b3 := atom_bodyId a3 in
    let b4 := atom_bodyId a4 in
    assert (negb ((b2 =? b1) && (b3 =? b1) && (b4 =? b1))) ;;
    let X_GB2 := getBodyConfiguration b2 in
    let X_GB3 := getBodyConfiguration b3 in
    let X_GB4 := getBodyConfiguration b4 in
    bt <- must (at_ (torsion a1) b14) ;;
    let res :=
      match a1Pos_G, pos_G X_GB2 a2, pos_G X_GB3 a3, pos_G X_GB4 a4 with
      | Some r, Some x, Some y, Some s =>
          Some (BondTorsion_periodic UnitVec3_of perp bt r x y s)
      | _, _, _, _ => None
      end in
    addPe (option_map tr_pe res) ;;
    addForce b1 (spatial a1Station_G (option_map tr_rf res)) ;;
    addForce b2 (spatial (station_G X_GB2 a2) (option_map tr_xf res)) ;;
    addForce b3 (spatial (station_G X_GB3 a3) (option_map tr_yf res)) ;;
    addForce b4 (spatial (station_G X_GB4 a4) (option_map tr_sf res)).

(** The body of the innermost loop: atom [a1] of body [b1] against the
    atom of placement [ap2] on body [b2]. *)
Definition nonbondedPair (b1 a1num a1cnum : Z) (a1class : AtomClass)
    (a1Station_G a1Pos_G : XVec3) (q1Fac : XReal)
    (b2 : Z) (X_GB2 : Transform) (ap2 : AtomPlacement) : Kernel unit :=
  let a2num := ap_atomId ap2 in
  assert (negb (a2num =? a1num)) ;;
  a2 <- must (at_ (atoms mm) a2num) ;;
  a2type <- must (at_ (chargedAtomTypes mm) (atom_chargedAtomTypeId a2)) ;;
  let a2cnum := atomClass a2type in
  a2class <- must (at_ (atomClasses mm) a2cnum) ;;
  let a2Station_G := station_G X_GB2 a2 in
  let a2Pos_G := pos_G X_GB2 a2 in
  let r := omap2 vsub a2Pos_G a1Pos_G in (* from a1 to a2 *)
  let d2 := option_map normSqr r in
  let ood := (#1 / xsqrt d2)%X in
  let ood2 := (ood * ood)%X in
  (* Coulomb. *)
  k <- get ;;
  cscale <- must (at_ (snd (scratch k)) a2num) ;;
  let qq := (#cscale * q1Fac * partialCharge a2type)%X in
  let eCoulomb := (qq * ood)%X in
  let fCoulomb := eCoulomb in
  (* van der Waals. *)
  dij <- must (mixedEntry vdwDij a1cnum a1class a2cnum a2class) ;;
  eij <- must (mixedEntry vdwEij a1cnum a1class a2cnum a2class) ;;
  let ddij2 := (dij * dij * ood2)%X in     (* (dmin_ij/d)^2 *)
  let ddij6 := (ddij2 * ddij2 * ddij2)%X in
  let ddij12 := (ddij6 * ddij6)%X in
  vscale_ <- must (at_ (fst (scratch k)) a2num) ;;
  let eijScale := (#vscale_ * eij)%X in
  let eVdw := (eijScale * (ddij12 - #2 * ddij6))%X in
  let fVdw := (#12 * eijScale * (ddij12 - ddij6))%X in
  let fj := xvscale ((fCoulomb + fVdw) * ood2)%X r in
  addPe (eCoulomb + eVdw)%X ;;
  addForce b2 (spatial a2Station_G fj) ;;
  subForce b1 (spatial a1Station_G fj).

(** The body of [for (i...)] over the atoms of body [b1]. *)
Definition atomDynamics (b1 : Z) (X_GB1 : Transform) (ap1 : AtomPlacement)
  : Kernel unit :=
  let a1num := ap_atomId ap1 in
  a1 <- must (at_ (atoms mm) a1num) ;;
  a1type <- must (at_ (chargedAtomTypes mm) (atom_chargedAtomTypeId a1)) ;;
  let a1cnum := atomClass a1type in
  a1class <- must (at_ (atomClasses mm) a1cnum) ;;
  let a1Station_G := station_G X_GB1 a1 in
  let a1Pos_G := pos_G X_GB1 a1 in
  let q1Fac := (#CoulombFac * partialCharge a1type)%X in
  forEach (indices (length (xbond12 a1)))
          (stretchTerm b1 a1num a1 a1Station_G a1Pos_G) ;;
  forEach (indices (length (xbond13 a1)))
          (bendTerm b1 a1num a1 a1Station_G a1Pos_G) ;;
  forEach (indices (length (xbond14 a1)))
          (torsionTerm b1 a1num a1 a1Station_G a1Pos_G) ;;
  onScratch (scaleBondedAtoms mm a1) ;;
  forEach (map (fun k => b1 + 1 + k)
               (indices (Z.to_nat (size (bodies mm) - (b1 + 1)))))
    (fun b2 =>
       let X_GB2 := getBodyConfiguration b2 in
       body2 <- must (at_ (bodies mm) b2) ;;
       forEach (allAtoms body2)
               (nonbondedPair b1 a1num a1cnum a1class a1Station_G a1Pos_G
                              q1Fac b2 X_GB2)) ;;
  onScratch (unscaleBondedAtoms mm a1).

(** [realizeDynamics]: from the accumulators as the system hands them
    over to the accumulators as the subsystem leaves them. *)
Definition realizeDynamics (pe0 : XReal) (forces0 : list XSpatialVec)
  : result KState unit :=
  (forEach (indices (length (bodies mm)))
     (fun b1 =>
        let X_GB1 := getBodyConfiguration b1 in
        body1 <- must (at_ (bodies mm) b1) ;;
        forEach (allAtoms body1) (atomDynamics b1 X_GB1)))
    (mkKState pe0 forces0
              (repeat 1%R (length (atoms mm)), repeat 1%R (length (atoms mm)))).
End Kernel.

(* ================================================================= *)
(** ** The pair interaction as the specification states it *)

(** Coulomb energy of two charges at distance [d], scaled. *)
Definition pairCoulombEnergy (scale q1 q2 d : R) : R :=
  (scale * CoulombFac * q1 * q2 / d)%R.

(** Lennard-Jones 12-6 energy at distance [d], scaled. *)
Definition pairVdwEnergy (scale eps dmin d : R) : R :=
  (scale * eps * ((dmin / d) ^ 12 - 2 * (dmin / d) ^ 6))%R.

(** The Lennard-Jones force factor, before the division by [d^2]. *)
Definition pairVdwForceFactor (scale eps dmin d : R) : R :=
  (12 * scale * eps * ((dmin / d) ^ 12 - (dmin / d) ^ 6))%R.

(** The force on the second atom of the pair, [r] pointing from the first
    atom to the second. *)
Definition pairForce (cscale vdwscale q1 q2 eps dmin : R) (r : Vec3) : Vec3 :=
  let d := norm r in
  vscale ((pairCoulombEnergy cscale q1 q2 d
           + pairVdwForceFactor vdwscale eps dmin d) / (d * d))%R r.

(* ================================================================= *)
(** ** Frames and invariants used by the proofs *)

(** A relation between the state before and the state after a call that is
    reflexive and transitive. *)
Class FrameRel {S : Type} (R : S -> S -> Prop) : Prop := {
  frame_refl : forall s, R s s;
  frame_trans : forall a b c, R a b -> R b c -> R a c
}.

(** [m] keeps [R] between the state it starts from and the state it returns
    or throws with. *)
Definition pres {S A} (R : S -> S -> Prop) (m : M S A) : Prop :=
  forall s, match m s with
            | Return s' _ => R s s'
            | Throw s' => R s s'
            | Abort => True
            end.

(** [m] only reads: a returned state is the state it started from. *)
Definition readonly {S A} (m : M S A) : Prop :=
  forall s s' a, m s = Return s' a -> s' = s.

(** Two atoms with the same identity and the same direct bonds, up to the
    order of the list. *)
Definition atom_frame (a a' : Atom) : Prop :=
  Permutation (bond12 a) (bond12 a') /\ Atom_isValid a = Atom_isValid a'.

(** What every call but [addAtom] and [addBond] keeps: no cluster goes
    away, the bonds stay, and the atoms keep their direct bonds. *)
Definition keeps_graph (s s' : DuMM) : Prop :=
  (length (clusters s) <= length (clusters s'))%nat
  /\ bonds s' = bonds s
  /\ Forall2 atom_frame (atoms s) (atoms s').

(** The molecule graph is well formed: every direct bond of an atom leads
    to another atom of the vector and is recorded once and on both sides, and
    the bond vector holds exactly these bonds, lower atom first. *)
Record graph_wf (mm : DuMM) : Prop := {
  wf_bond12 :
    forall i a j, at_ (atoms mm) i = Some a -> In j (bond12 a) ->
      j <> i /\ exists b, at_ (atoms mm) j = Some b /\ In i (bond12 b);
  wf_nodup :
    forall i a, at_ (atoms mm) i = Some a -> NoDup (bond12 a);
  wf_bonds :
    forall i j, In (mkIntPair i j) (bonds mm) <->
      (i < j /\ exists a, at_ (atoms mm) i = Some a /\ In j (bond12 a));
  wf_atoms_valid :
    forall i a, at_ (atoms mm) i = Some a -> Atom_isValid a = true
}.


(** The subsystem after [addBond] has recorded a new bond between the
    atoms [lo < hi]. *)
Definition withBond (lo hi : Z) (mm : DuMM) : DuMM :=
  set_atoms
    (upd_at (upd_at (atoms mm) lo (fun a => Atom_setBond12 a (bond12 a ++ [hi])))
            hi (fun a => Atom_setBond12 a (bond12 a ++ [lo])))
    (set_bonds (bonds mm ++ [mkIntPair lo hi]) mm).


(** The subsystem as the constructor leaves it. *)
Definition DuMM_new : DuMM :=
  set_clusters [Cluster_set_clusterId 0 (Cluster_new "free atoms and groups")]
               DuMM_members0.


(* ================================================================= *)
(** ** The arguments of [defineBondTorsion] as the specification reads them *)

(** A term is supplied when its periodicity is not [-1]. *)
Definition termSupplied (periodicity : Z) : Prop := periodicity <> -1.

(** A term is acceptable: periodicity in [1,6], amplitude not negative,
    phase in [0,180] degrees. *)
Definition termOk (periodicity : Z) (amp phase : R) : Prop :=
  1 <= periodicity <= 6 /\ (0 <= amp)%R /\ (0 <= phase <= 180)%R.

(** The terms that are supplied, in the order of the arguments. *)
Definition suppliedTerms (p1 : Z) (a1 ph1 : R) (p2 : Z) (a2 ph2 : R)
    (p3 : Z) (a3 ph3 : R) : list TorsionTerm :=
  (if p1 =? -1 then [] else [TorsionTerm_new p1 a1 ph1])
  ++ (if p2 =? -1 then [] else [TorsionTerm_new p2 a2 ph2])
  ++ (if p3 =? -1 then [] else [TorsionTerm_new p3 a3 ph3]).

(** What makes [defineBondTorsion] fail. *)
Definition torsionArgsBad (mm : DuMM) (c1 c2 c3 c4 : Z)
    (p1 : Z) (a1 ph1 : R) (p2 : Z) (a2 ph2 : R) (p3 : Z) (a3 ph3 : R)
  : Prop :=
  (* a class id that is not a defined atom class *)
  isValidAtomClass mm c1 = false \/ isValidAtomClass mm c2 = false
  \/ isValidAtomClass mm c3 = false \/ isValidAtomClass mm c4 = false
  (* a supplied term out of range *)
  \/ (termSupplied p1 /\ ~ termOk p1 a1 ph1)
  \/ (termSupplied p2 /\ ~ termOk p2 a2 ph2)
  \/ (termSupplied p3 /\ ~ termOk p3 a3 ph3)
  (* two supplied terms with the same periodicity *)
  \/ (termSupplied p1 /\ termSupplied p2 /\ p1 = p2)
  \/ (termSupplied p1 /\ termSupplied p3 /\ p1 = p3)
  \/ (termSupplied p2 /\ termSupplied p3 /\ p2 = p3)
  (* no term at all *)
  \/ (p1 = -1 /\ p2 = -1 /\ p3 = -1)
  (* a torsion for the same canonical class quad is there already *)
  \/ map_find IntQuad_lt (IntQuad_new c1 c2 c3 c4 true) (bondTorsion mm) <> None.


(* ================================================================= *)
(** ** A small molecule, used to run the calls on *)

(** The call [r] returned the value [v] and left the subsystem [mm]. *)
Definition returns {S A} (r : result S A) (mm : S) (v : A) : Prop :=
  match r with
  | Return s a => s = mm /\ a = v
  | _ => False
  end.

(** A chain of four atoms 0-1-2-3 of classes A-B-A-B; atoms 0 and 1 have a
    body each, atoms 2 and 3 share body 2.  The catalog holds the stretch,
    the bends and the torsion that the chain needs, and one more bend, for
    the class triple (B,A,A). *)
Definition demo_calls : list call :=
  [ DefineAtomClass 0 "A" 1 1 1%R 1%R;
    DefineAtomClass 1 "B" 6 4 2%R 1%R;
    DefineChargedAtomType 0 "a" 0 1%R;
    DefineChargedAtomType 1 "b" 1 (-1)%R;
    DefineBondStretch 0 1 1%R 1%R;
    DefineBondBend 0 1 0 1%R 90%R;
    DefineBondBend 1 0 1 2%R 90%R;
    DefineBondBend 1 0 0 3%R 90%R;
    DefineBondTorsion 0 1 0 1 1 1%R 0%R (-1) 0%R 0%R (-1) 0%R 0%R;
    AddAtom 0; AddAtom 1; AddAtom 0; AddAtom 1;
    AddBond 1 0; AddBond 1 2; AddBond 3 2;
    AttachAtomToBody 0 0 (mkVec3 0 0 0);
    AttachAtomToBody 1 1 (mkVec3 0 0 0);
    AttachAtomToBody 2 2 (mkVec3 0 0 0);
    AttachAtomToBody 3 2 (mkVec3 1 0 0) ].


(** Three classes and one torsion for the class quad (0,1,2,0), whose outer
    classes are equal. *)
Definition tie_calls : list call :=
  [ DefineAtomClass 0 "A" 1 1 1%R 1%R;
    DefineAtomClass 1 "B" 6 4 2%R 1%R;
    DefineAtomClass 2 "C" 8 2 1%R 1%R;
    DefineBondTorsion 0 1 2 0 1 1%R 0%R (-1) 0%R 0%R (-1) 0%R 0%R ].


(* ================================================================= *)
(** ** The derived lists as the specification reads them *)

(** [j] is a direct bond of [atoms[i]]. *)
Definition bonded (mm : DuMM) (i j : Z) : Prop :=
  exists a, at_ (atoms mm) i = Some a /\ In j (bond12 a).

(** The atoms reached by the 1-3, 1-4 and 1-5 paths of an atom: the last
    entries of its pairs, triples and quads. *)
Definition tails13 (a : Atom) : list Z := map ip1 (bond13 a).
Definition tails14 (a : Atom) : list Z := map it2 (bond14 a).
Definition tails15 (a : Atom) : list Z := map iq3 (bond15 a).

(** The number of lists among [bond12] and the tails of [bond13], [bond14]
    and [bond15] of [a] that hold the atom [b]. *)
Definition listsHolding (a : Atom) (b : Z) : nat :=
  length (filter (intset_mem b) [bond12 a; tails13 a; tails14 a; tails15 a]).

(** The class of an atom, [getAtomClassNum], as a partial function. *)
Definition classOf (mm : DuMM) (i : Z) : option Z :=
  match getAtomClassNum i mm with
  | Return _ c => Some c
  | _ => None
  end.

(** The entry of the bend catalog for a class triple, [getBondBend]. *)
Definition bendOf (mm : DuMM) (c1 c2 c3 : Z) : option BondBend :=
  map_find IntTriple_lt (IntTriple_new c1 c2 c3 true) (bondBend mm).

(** The reading of the bend parameters that puts the atom's own class in
    the middle of the key: for every cross-body path at index [n] of
    [xbond13], entry [n] of [bend] is the catalog entry for a class triple
    (x, class of a, y), whatever the outer classes [x] and [y] are. *)
Definition bendKeyedBySelf (mm : DuMM) (i : Z) (a : Atom) : Prop :=
  forall n p, at_ (xbond13 a) n = Some p ->
    exists c x y bb,
      classOf mm i = Some c
      /\ bendOf mm x c y = Some bb
      /\ at_ (bend a) n = Some bb.

(** What the source does: the key is (class of a, class of m, class of t),
    with the class of the middle atom [m] of the path in the middle. *)
Definition bendKeyedByMiddle (mm : DuMM) (i : Z) (a : Atom) : Prop :=
  forall n p, at_ (xbond13 a) n = Some p ->
    exists c cm ct bb,
      classOf mm i = Some c /\ classOf mm (ip0 p) = Some cm
      /\ classOf mm (ip1 p) = Some ct
      /\ bendOf mm c cm ct = Some bb
      /\ at_ (bend a) n = Some bb.

(** Two atoms with the same identity, type and body and the same direct
    bonds, up to the order of the list. *)
Definition atom_topo (a a' : Atom) : Prop :=
  Permutation (bond12 a) (bond12 a')
  /\ atomId a' = atomId a
  /\ atom_chargedAtomTypeId a' = atom_chargedAtomTypeId a
  /\ atom_bodyId a' = atom_bodyId a.

(** What the last loop of [realizeConstruction] keeps: the catalog, the
    charged atom types, and of each atom what [atom_topo] says. *)
Definition keeps_topo (s s' : DuMM) : Prop :=
  Forall2 atom_topo (atoms s) (atoms s')
  /\ chargedAtomTypes s' = chargedAtomTypes s
  /\ bondStretch s' = bondStretch s
  /\ bondBend s' = bondBend s
  /\ bondTorsion s' = bondTorsion s.

(** The derived lists of the atom [d] at index [i] are right for the graph
    of [mm]: the 1-3 tails are the atoms two bonds away and not nearer, the
    1-4 tails are the atoms one bond beyond a 1-3 tail and not nearer, there
    is no 1-5 path, every 1-3 path goes through a direct bond, the
    cross-body lists are taken from the full lists, and the bends are
    looked up with the class of the middle atom in the middle. *)
Record derived_ok (mm : DuMM) (i : Z) (d : Atom) : Prop := {
  dv_13 : forall b, In b (tails13 d) <->
            b <> i /\ ~ bonded mm i b /\ exists m, bonded mm i m /\ bonded mm m b;
  dv_14 : forall b, In b (tails14 d) <->
            b <> i /\ ~ bonded mm i b /\ ~ In b (tails13 d)
            /\ exists t, In t (tails13 d) /\ bonded mm t b;
  dv_15 : bond15 d = [];
  dv_nodup : NoDup (tails13 d ++ tails14 d);
  dv_path13 : forall p, In p (bond13 d) ->
                bonded mm i (ip0 p) /\ bonded mm (ip0 p) (ip1 p);
  dv_x12 : incl (xbond12 d) (bond12 d);
  dv_x13 : incl (xbond13 d) (bond13 d);
  dv_x14 : incl (xbond14 d) (bond14 d);
  dv_x15 : xbond15 d = [];
  dv_bend : bendKeyedByMiddle mm i d
}.


(** The scratch vectors have [n] entries and hold 1 at every index that is
    not in [T]. *)
Definition onesOutside (T : list Z) (n : nat) (sc : Scratch) : Prop :=
  length (fst sc) = n /\ length (snd sc) = n
  /\ (forall j x, ~ In j T -> at_ (fst sc) j = Some x -> x = 1%R)
  /\ (forall j x, ~ In j T -> at_ (snd sc) j = Some x -> x = 1%R).

(** The scratch vectors as [realizeDynamics] makes them. *)
Definition allOnes (n : nat) : Scratch := (repeat 1%R n, repeat 1%R n).


(** What every call but [realizeConstruction] keeps: the flag that says
    whether the derived data are valid. *)
Definition keeps_flag (s s' : DuMM) : Prop :=
  topologicalCacheValid s' = topologicalCacheValid s.


(** One atom class with van der Waals radius 0. *)
Definition zero_radius_calls : list call :=
  [ DefineAtomClass 0 "H" 1 1 0%R 1%R ].


(** What every call keeps of the clusters: a cluster stays at its index
    with its id and its name. *)
Definition keeps_ids (s s' : DuMM) : Prop :=
  forall j c, at_ (clusters s) j = Some c ->
    exists c', at_ (clusters s') j = Some c'
               /\ clusterId c' = clusterId c
               /\ clusterName c' = clusterName c.


(* ================================================================= *)
(** ** What the calls keep of the atoms *)

(** The states a client can reach from the state [mm0], by calls that
    return or throw. *)
Inductive reachable_from (mm0 : DuMM) : DuMM -> Prop :=
| from_here : reachable_from mm0 mm0
| from_return fuel c mm mm' v :
    reachable_from mm0 mm -> run fuel c mm = Return mm' v ->
    reachable_from mm0 mm'
| from_throw fuel c mm mm' :
    reachable_from mm0 mm -> run fuel c mm = Throw mm' ->
    reachable_from mm0 mm'.

(** The derived lists of two atoms are the same. *)
Definition same_derived (a a' : Atom) : Prop :=
  bond13 a' = bond13 a /\ bond14 a' = bond14 a /\ bond15 a' = bond15 a
  /\ xbond12 a' = xbond12 a /\ xbond13 a' = xbond13 a
  /\ xbond14 a' = xbond14 a /\ xbond15 a' = xbond15 a
  /\ stretch a' = stretch a /\ bend a' = bend a /\ torsion a' = torsion a.

(** What no call but [realizeConstruction] changes of an atom: its id and
    type, its derived lists, and its body and station once it has them. *)
Definition atom_stable (a a' : Atom) : Prop :=
  atomId a' = atomId a
  /\ atom_chargedAtomTypeId a' = atom_chargedAtomTypeId a
  /\ same_derived a a'
  /\ (0 <= atom_bodyId a ->
      atom_bodyId a' = atom_bodyId a /\ station_B a' = station_B a).

Definition keeps_atoms (s s' : DuMM) : Prop :=
  forall i a, at_ (atoms s) i = Some a ->
    exists a', at_ (atoms s') i = Some a' /\ atom_stable a a'.


(** [m] never throws: it returns or aborts. *)
Definition nothrow {S A} (m : M S A) : Prop :=
  forall s s', m s <> Throw s'.


(** The calls that test their arguments with [SimTK_APIARGCHECK]; the
    others are written with [assert] only. *)
Definition checksArguments (c : call) : bool :=
  match c with
  | CreateCluster _ | AddAtom _ | PlaceClusterInCluster _ _ _
  | AttachClusterToBody _ _ _ | AttachAtomToBody _ _ _ | AddBond _ _
  | RealizeConstruction => false
  | _ => true
  end.


(* ================================================================= *)
(** ** More of the derived lists *)

(** The entries of the stretch and torsion catalogs for a class tuple,
    [getBondStretch] and [getBondTorsion]. *)
Definition stretchOf (mm : DuMM) (c1 c2 : Z) : option BondStretch :=
  map_find IntPair_lt (IntPair_new c1 c2 true) (bondStretch mm).

Definition torsionOf (mm : DuMM) (c1 c2 c3 c4 : Z) : option BondTorsion :=
  map_find IntQuad_lt (IntQuad_new c1 c2 c3 c4 true) (bondTorsion mm).

(** The atom [j] is on a body other than [b]. *)
Definition onOtherBody (mm : DuMM) (b j : Z) : Prop :=
  exists x, at_ (atoms mm) j = Some x /\ atom_bodyId x <> b.

(** More of what the derived lists of the atom [d] at index [i] are for the
    graph of [mm]: every 1-4 path is a chain of three direct bonds; the
    cross-body lists hold exactly the paths with an atom on another body;
    and the stretch, bend and torsion vectors run parallel to the
    cross-body 1-2, 1-3 and 1-4 lists, the stretch and the torsion looked up
    under the classes of the atoms along the path. *)
Record derived_more (mm : DuMM) (i : Z) (d : Atom) : Prop := {
  dm_path14 : forall t, In t (bond14 d) ->
                bonded mm i (it0 t) /\ bonded mm (it0 t) (it1 t)
                /\ bonded mm (it1 t) (it2 t);
  dm_x12 : forall j, In j (xbond12 d) <->
             In j (bond12 d) /\ onOtherBody mm (atom_bodyId d) j;
  dm_x13 : forall p, In p (xbond13 d) <->
             In p (bond13 d)
             /\ (onOtherBody mm (atom_bodyId d) (ip0 p)
                 \/ onOtherBody mm (atom_bodyId d) (ip1 p));
  dm_x14 : forall t, In t (xbond14 d) <->
             In t (bond14 d)
             /\ (onOtherBody mm (atom_bodyId d) (it0 t)
                 \/ onOtherBody mm (atom_bodyId d) (it1 t)
                 \/ onOtherBody mm (atom_bodyId d) (it2 t));
  dm_stretch :
    Forall2 (fun j bs =>
               exists c cj, classOf mm i = Some c /\ classOf mm j = Some cj
                            /\ stretchOf mm c cj = Some bs)
            (xbond12 d) (stretch d);
  dm_bend_length : length (bend d) = length (xbond13 d);
  dm_torsion :
    Forall2 (fun t bt =>
               exists c c0 c1 c2,
                 classOf mm i = Some c /\ classOf mm (it0 t) = Some c0
                 /\ classOf mm (it1 t) = Some c1
                 /\ classOf mm (it2 t) = Some c2
                 /\ torsionOf mm c c0 c1 c2 = Some bt)
            (xbond14 d) (torsion d)
}.


(** A chain of five atoms 0-1-2-3-4 of one class, all on body 0. *)
Definition chain5_calls : list call :=
  [ DefineAtomClass 0 "A" 6 4 1%R 1%R;
    DefineChargedAtomType 0 "a" 0 0%R;
    AddAtom 0; AddAtom 0; AddAtom 0; AddAtom 0; AddAtom 0;
    AddBond 0 1; AddBond 1 2; AddBond 2 3; AddBond 3 4;
    AttachAtomToBody 0 0 (mkVec3 0 0 0);
    AttachAtomToBody 1 0 (mkVec3 1 0 0);
    AttachAtomToBody 2 0 (mkVec3 2 0 0);
    AttachAtomToBody 3 0 (mkVec3 3 0 0);
    AttachAtomToBody 4 0 (mkVec3 4 0 0) ].


(* ================================================================= *)
(** ** Atoms and their bodies *)

(** What the loops of [realizeConstruction] over the atoms keep: the
    bodies, the clusters and the number of atoms. *)
Definition keeps_bodies (s s' : DuMM) : Prop :=
  bodies s' = bodies s /\ clusters s' = clusters s
  /\ length (atoms s') = length (atoms s).

(** ... and, of each atom, its body and its station. *)
Definition keeps_place (s s' : DuMM) : Prop :=
  keeps_bodies s s'
  /\ forall j a, at_ (atoms s) j = Some a ->
       exists a', at_ (atoms s') j = Some a'
                  /\ atom_bodyId a' = atom_bodyId a
                  /\ station_B a' = station_B a.

(** The atoms carry the placements of the list [assigned] (each with the
    number of its body) and no other: an atom has no body, or the body and
    the station of one of the placements; and the atom of each placement has
    the body and the station of that placement. *)
Definition placed (assigned : list (Z * AtomPlacement)) (s : DuMM) : Prop :=
  (forall i a, at_ (atoms s) i = Some a ->
     atom_bodyId a = -1
     \/ exists st, In (atom_bodyId a, mkAtomPlacement i st) assigned
                   /\ station_B a = Some st)
  /\ (forall bnum ap, In (bnum, ap) assigned ->
        0 <= bnum
        /\ exists a, at_ (atoms s) (ap_atomId ap) = Some a
                     /\ atom_bodyId a = bnum
                     /\ station_B a = Some (ap_station ap)).


(* ================================================================= *)
(** ** Scale factors and bonds *)

(** The eight scale factors, in the order 1-2, 1-3, 1-4, 1-5, van der Waals
    before Coulomb. *)
Definition scalesOf (mm : DuMM) : list R :=
  [ vdwScale12 mm; coulombScale12 mm; vdwScale13 mm; coulombScale13 mm;
    vdwScale14 mm; coulombScale14 mm; vdwScale15 mm; coulombScale15 mm ].

(** The position in [scalesOf] that a call assigns, with the value. *)
Definition setsScale (c : call) : option (nat * R) :=
  match c with
  | SetVdw12ScaleFactor f => Some (0%nat, f)
  | SetCoulomb12ScaleFactor f => Some (1%nat, f)
  | SetVdw13ScaleFactor f => Some (2%nat, f)
  | SetCoulomb13ScaleFactor f => Some (3%nat, f)
  | SetVdw14ScaleFactor f => Some (4%nat, f)
  | SetCoulomb14ScaleFactor f => Some (5%nat, f)
  | SetVdw15ScaleFactor f => Some (6%nat, f)
  | SetCoulomb15ScaleFactor f => Some (7%nat, f)
  | _ => None
  end.

Definition keeps_scales (s s' : DuMM) : Prop := scalesOf s' = scalesOf s.

(** [getNAtoms] and [getNBonds] *)
Definition getNAtoms : Sub Z := mm <- get ;; ret (size (atoms mm)).
Definition getNBonds : Sub Z := mm <- get ;; ret (size (bonds mm)).


(* ================================================================= *)
(** ** The van der Waals table *)

(** Two atom classes that differ in their rows of the table at most. *)
Definition class_base (c c' : AtomClass) : Prop :=
  atomClassId c' = atomClassId c /\ className c' = className c
  /\ element c' = element c /\ valence c' = valence c
  /\ vdwRadius c' = vdwRadius c /\ vdwWellDepth c' = vdwWellDepth c.

(** The mixed parameters [(dmin, emin)] of two classes. *)
Definition mixOf (ci cj : AtomClass) : XReal * XReal :=
  applyMixingRule (Some (vdwRadius ci)) (Some (vdwRadius cj))
                  (Some (vdwWellDepth ci)) (Some (vdwWellDepth cj)).

(** The rows of the class [ci] at index [i] are right for the classes of
    [l]: they have one entry for each class from [i] on, and the entry for a
    defined class [j >= i] holds the mixed parameters of [i] and [j]. *)
Definition rows_ok (l : list AtomClass) (i : Z) (ci : AtomClass) : Prop :=
  size (vdwDij ci) = size l - i /\ size (vdwEij ci) = size l - i
  /\ forall j cj, i <= j -> at_ l j = Some cj -> AtomClass_isValid cj = true ->
       at_ (vdwDij ci) (j - i) = Some (fst (mixOf ci cj))
       /\ at_ (vdwEij ci) (j - i) = Some (snd (mixOf ci cj)).

Definition keeps_classes (s s' : DuMM) : Prop := atomClasses s' = atomClasses s.


(* ================================================================= *)
(** ** What an atom refers to *)

(** [getAtomElementNum] *)
Definition getAtomElementNum (atomId : Z) : Sub Z :=
  c <- getAtomClassNum atomId ;;
  mm <- get ;;
  cl <- must (at_ (atomClasses mm) c) ;;
  ret (element cl).

(** [getAtomMass] *)
Definition getAtomMass (atomId : Z) : Sub R :=
  n <- getAtomElementNum atomId ;;
  mm <- get ;;
  e <- must (at_ (elements mm) n) ;;
  ret (mass e).

(** [getAtomRadius] *)
Definition getAtomRadius (atomId : Z) : Sub R :=
  c <- getAtomClassNum atomId ;;
  mm <- get ;;
  cl <- must (at_ (atomClasses mm) c) ;;
  ret (vdwRadius cl).

(** [getAtomStationOnBody] *)
Definition getAtomStationOnBody (atomId : Z) : Sub XVec3 :=
  a <- getAtom atomId ;;
  assert (Atom_isAttachedToBody a) ;;
  a <- getAtom atomId ;;
  ret (station_B a).

(** [getAtomStationInCluster] *)
Definition getAtomStationInCluster (atomId clusterId : Z) : Sub Vec3 :=
  c <- getCluster clusterId ;;
  ap <- must (set_find ap_atomId atomId (allAtomPlacements c)) ;;
  ret (ap_station ap).

(** [getAtomBody] *)
Definition getAtomBody (atomId : Z) : Sub Z :=
  a <- getAtom atomId ;;
  assert (Atom_isAttachedToBody a) ;;
  a <- getAtom atomId ;;
  ret (atom_bodyId a).

(** Two atoms with the same id and the same charged atom type. *)
Definition atom_ref (a a' : Atom) : Prop :=
  atomId a' = atomId a
  /\ atom_chargedAtomTypeId a' = atom_chargedAtomTypeId a.

(** What every call but [addAtom], [defineAtomClass] and
    [defineChargedAtomType] keeps: the atoms with their ids and types, the
    charged atom types, the atom classes but for their van der Waals rows,
    and the elements. *)
Definition keeps_refs (s s' : DuMM) : Prop :=
  Forall2 atom_ref (atoms s) (atoms s')
  /\ chargedAtomTypes s' = chargedAtomTypes s
  /\ Forall2 class_base (atomClasses s) (atomClasses s')
  /\ elements s' = elements s.

(** Every reference of the subsystem leads somewhere: an atom is stored
    under its id and has a defined charged atom type; a defined charged atom
    type is stored under its id and has a defined atom class; a defined atom
    class is stored under its id and has an element of the table. *)
Record refs_ok (mm : DuMM) : Prop := {
  ro_atom :
    forall i a, at_ (atoms mm) i = Some a ->
      atomId a = i
      /\ isValidChargedAtomType mm (atom_chargedAtomTypeId a) = true;
  ro_type :
    forall k t, at_ (chargedAtomTypes mm) k = Some t ->
      ChargedAtomType_isValid t = true ->
      chargedAtomTypeId t = k /\ isValidAtomClass mm (atomClass t) = true;
  ro_class :
    forall k c, at_ (atomClasses mm) k = Some c ->
      AtomClass_isValid c = true ->
      atomClassId c = k /\ isValidElement mm (element c) = true
}.


(* ================================================================= *)
(** ** Bodies and their clusters *)

(** What no call changes of a cluster: its id, and its body and its
    placement on the body once it has them. *)
Definition cluster_stable (c c' : Cluster) : Prop :=
  clusterId c' = clusterId c
  /\ (0 <= cl_bodyId c ->
      cl_bodyId c' = cl_bodyId c /\ placement_B c' = placement_B c).

(** ... for every cluster, while the bodies keep their clusters. *)
Definition keeps_bc (s s' : DuMM) : Prop :=
  (forall j c, at_ (clusters s) j = Some c ->
     exists c', at_ (clusters s') j = Some c' /\ cluster_stable c c')
  /\ Forall2 (fun b b' => body_clusterId b' = body_clusterId b)
             (bodies s) (bodies s').

(** The cluster of every body in use is a cluster of the subsystem, and it
    is attached to that body without an offset. *)
Definition bodies_ok (mm : DuMM) : Prop :=
  forall k b, at_ (bodies mm) k = Some b -> Body_isValid b = true ->
    exists c, at_ (clusters mm) (body_clusterId b) = Some c
              /\ Cluster_isValid c = true
              /\ cl_bodyId c = k
              /\ placement_B c = Transform_identity.

(** Two atoms of one type and one new cluster, nothing attached. *)
Definition loose_calls : list call :=
  [ DefineAtomClass 0 "C" 6 4 1%R 1%R;
    DefineChargedAtomType 0 "c" 0 0%R;
    AddAtom 0; AddAtom 0;
    CreateCluster "ligand" ].


(* ================================================================= *)
(** ** Orders *)

(** What [std::map] and [std::sort] need of an [operator<], and that two
    keys that it does not tell apart are the same tuple. *)
Definition strict_order {K} (lt : K -> K -> bool) : Prop :=
  (forall a, lt a a = false)
  /\ (forall a b c, lt a b = true -> lt b c = true -> lt a c = true)
  /\ (forall a b, lt a b = false -> lt b a = false -> a = b).


(** What [Cluster::placeCluster] keeps until it attaches the child: the
    atoms and the bonds and, of each cluster, its id, the atoms that are
    placed in it directly, its body and its placement on the body. *)
Definition cluster_core (c c' : Cluster) : Prop :=
  clusterId c' = clusterId c
  /\ directAtomPlacements c' = directAtomPlacements c
  /\ cl_bodyId c' = cl_bodyId c
  /\ placement_B c' = placement_B c.

Definition keeps_core (s s' : DuMM) : Prop :=
  atoms s' = atoms s /\ bonds s' = bonds s
  /\ forall j c, at_ (clusters s) j = Some c ->
       exists c', at_ (clusters s') j = Some c' /\ cluster_core c c'.


(** ... and the first atom placed in the new cluster. *)
Definition ligand_calls : list call :=
  loose_calls ++ [ PlaceAtomInCluster 0 1 (mkVec3 1 2 3) ].


(* ================================================================= *)
(** ** A unit vector and a perpendicular, for the examples *)

(** SimTK's [UnitVec3(v)] and [u.perp()] are parameters of the kernel; the
    examples put a normalization and a perpendicular unit vector in their
    place. *)
Definition unitOf (v : Vec3) : Vec3 := vscale (1 / norm v)%R v.
Definition perpOf (u : Vec3) : Vec3 :=
  if Reqb (vx u) 0 && Reqb (vy u) 0 then mkVec3 1 0 0
  else unitOf (mkVec3 (- vy u)%R (vx u) 0).

(* ################################################################# *)
(** * Part II: properties *)

(* ================================================================= *)
(** ** Tests on reals *)

Lemma Rleb_true a b : (a <= b)%R -> Rleb a b = true.
Proof. intros H; unfold Rleb; destruct (Rle_dec a b); [reflexivity | contradiction]. Qed.

Lemma Rleb_false a b : (b < a)%R -> Rleb a b = false.
Proof. intros H; unfold Rleb; destruct (Rle_dec a b); [lra | reflexivity]. Qed.

Lemma Rltb_true a b : (a < b)%R -> Rltb a b = true.
Proof. intros H; unfold Rltb; destruct (Rlt_dec a b); [reflexivity | contradiction]. Qed.

Lemma Rltb_false a b : (b <= a)%R -> Rltb a b = false.
Proof. intros H; unfold Rltb; destruct (Rlt_dec a b); [lra | reflexivity]. Qed.

Lemma Reqb_true a b : a = b -> Reqb a b = true.
Proof. intros H; unfold Reqb; destruct (Req_dec_T a b); [reflexivity | contradiction]. Qed.

Lemma Reqb_false a b : a <> b -> Reqb a b = false.
Proof. intros H; unfold Reqb; destruct (Req_dec_T a b); [contradiction | reflexivity]. Qed.

Lemma Rleb_spec a b : Rleb a b = true <-> (a <= b)%R.
Proof. unfold Rleb; destruct (Rle_dec a b); split; intros; try easy. Qed.

Lemma Rltb_spec a b : Rltb a b = true <-> (a < b)%R.
Proof. unfold Rltb; destruct (Rlt_dec a b); split; intros; try easy. Qed.

Lemma Reqb_spec a b : Reqb a b = true <-> a = b.
Proof. unfold Reqb; destruct (Req_dec_T a b); split; intros; try easy. Qed.

(* ================================================================= *)
(** ** Canonical keys *)

Lemma IntPair_canonical_sym c1 c2 :
  IntPair_new c1 c2 true = IntPair_new c2 c1 true.
Proof.
  unfold IntPair_new, IntPair_canonicalize; simpl.
  destruct (Z.gtb_spec c1 c2), (Z.gtb_spec c2 c1); try reflexivity; try lia.
  f_equal; lia.
Qed.

Lemma IntTriple_canonical_sym c1 c2 c3 :
  IntTriple_new c1 c2 c3 true = IntTriple_new c3 c2 c1 true.
Proof.
  unfold IntTriple_new, IntTriple_canonicalize; simpl.
  destruct (Z.gtb_spec c1 c3), (Z.gtb_spec c3 c1); try reflexivity; try lia.
  f_equal; lia.
Qed.

(** The middle of a canonical triple is the middle of the triple. *)
Lemma IntTriple_canonical_middle c1 c2 c3 :
  it1 (IntTriple_new c1 c2 c3 true) = c2.
Proof.
  unfold IntTriple_new, IntTriple_canonicalize; simpl.
  destruct (c1 >? c3); reflexivity.
Qed.

(** A quad and its reverse have the same canonical key unless the outer
    ids tie and the inner ids differ. *)
Lemma IntQuad_canonical_sym c1 c2 c3 c4 :
  c1 <> c4 \/ c2 = c3 ->
  IntQuad_new c1 c2 c3 c4 true = IntQuad_new c4 c3 c2 c1 true.
Proof.
  intros H. unfold IntQuad_new, IntQuad_canonicalize; simpl.
  destruct (Z.gtb_spec c1 c4), (Z.gtb_spec c4 c1); try reflexivity; try lia.
  assert (c1 = c4) by lia. subst. destruct H; [lia | subst; reflexivity].
Qed.

Lemma getBondStretch_sym c1 c2 mm :
  getBondStretch c1 c2 mm = getBondStretch c2 c1 mm.
Proof. unfold getBondStretch, bind, get. now rewrite IntPair_canonical_sym. Qed.

Lemma getBondBend_sym c1 c2 c3 mm :
  getBondBend c1 c2 c3 mm = getBondBend c3 c2 c1 mm.
Proof. unfold getBondBend, bind, get. now rewrite IntTriple_canonical_sym. Qed.

Lemma getBondTorsion_sym c1 c2 c3 c4 mm :
  c1 <> c4 \/ c2 = c3 ->
  getBondTorsion c1 c2 c3 c4 mm = getBondTorsion c4 c3 c2 c1 mm.
Proof.
  intros H. unfold getBondTorsion, bind, get.
  now rewrite (IntQuad_canonical_sym _ _ _ _ H).
Qed.

(* ================================================================= *)
(** ** Mixing rules on a like pair *)

Lemma xdiv_some a b : b <> 0%R -> (#a / #b)%X = Some (a / b)%R.
Proof. intros H. unfold xdiv. now rewrite Reqb_false. Qed.

Lemma xsqrt_some a : (0 <= a)%R -> xsqrt (Some a) = Some (sqrt a).
Proof. intros H. unfold xsqrt. now rewrite Rltb_false. Qed.

Lemma xpow_pos a b : (0 < a)%R -> xpow (Some a) (Some b) = Some (Rpower a b).
Proof. intros H. unfold xpow. now rewrite Rltb_true. Qed.

Lemma oo6_val : oo6 = Some (1 / 6)%R.
Proof. unfold oo6. apply xdiv_some. lra. Qed.

Lemma oo13_val : oo13 = Some (1 / 13)%R.
Proof. unfold oo13. apply xdiv_some. lra. Qed.

Lemma Rpower_root (n : nat) (x : R) :
  (0 < x)%R -> (0 < n)%nat -> Rpower (x ^ n) (1 / INR n) = x.
Proof.
  intros Hx Hn.
  rewrite <- (Rpower_pow n x Hx), Rpower_mult.
  replace (INR n * (1 / INR n))%R with 1%R.
  - now apply Rpower_1.
  - field. apply not_0_INR. lia.
Qed.

Lemma Rpower_root_inv (n : nat) (x : R) :
  (0 < x)%R -> (0 < n)%nat -> (Rpower x (1 / INR n) ^ n)%R = x.
Proof.
  intros Hx Hn.
  rewrite <- Rpower_pow by (unfold Rpower; apply exp_pos).
  rewrite Rpower_mult.
  replace (1 / INR n * INR n)%R with 1%R.
  - now apply Rpower_1.
  - field. apply not_0_INR. lia.
Qed.

Lemma arithmeticMean_like a : arithmeticMean (Some a) (Some a) = Some a.
Proof. unfold arithmeticMean; simpl. f_equal. lra. Qed.

Lemma geometricMean_like a :
  (0 <= a)%R -> geometricMean (Some a) (Some a) = Some a.
Proof.
  intros H. unfold geometricMean; simpl.
  rewrite Rltb_false by nra. now rewrite sqrt_square.
Qed.

Lemma harmonicMean_like a :
  (0 < a)%R -> harmonicMean (Some a) (Some a) = Some a.
Proof.
  intros H. unfold harmonicMean; simpl.
  rewrite Reqb_false by lra. f_equal. field. lra.
Qed.

Lemma cubicMean_like a : (0 < a)%R -> cubicMean (Some a) (Some a) = Some a.
Proof.
  intros H. unfold cubicMean; simpl.
  rewrite Reqb_false by nra. f_equal. field. nra.
Qed.

Lemma WaldmanHagler_like r e :
  (0 < r)%R -> (0 <= e)%R ->
  vdwCombineWaldmanHagler (Some r) (Some r) (Some e) (Some e) = (Some r, Some e).
Proof.
  intros Hr He. unfold vdwCombineWaldmanHagler.
  assert (H6 : (0 < r ^ 6)%R) by (apply pow_lt; assumption).
  assert (Hr6 : (r * r * r * (r * r * r) = r ^ 6)%R) by ring.
  cbn [xmul xlift2]. rewrite Hr6, arithmeticMean_like, geometricMean_like by nra.
  rewrite oo6_val, xpow_pos by assumption.
  rewrite xdiv_some by lra.
  f_equal.
  - f_equal. replace 6%R with (INR 6) by (simpl; lra).
    apply Rpower_root; [assumption | lia].
  - f_equal. field. lra.
Qed.

Lemma Kong_like r e :
  (0 < r)%R -> (0 < e)%R ->
  vdwCombineKong (Some r) (Some r) (Some e) (Some e) = (Some r, Some e).
Proof.
  intros Hr He. unfold vdwCombineKong.
  assert (H6 : (0 < r ^ 6)%R) by (apply pow_lt; assumption).
  assert (H12 : (0 < r ^ 12)%R) by (apply pow_lt; assumption).
  assert (Hr6 : (r * r * r * (r * r * r) = r ^ 6)%R) by ring.
  assert (Hr12 : (r ^ 6 * r ^ 6 = r ^ 12)%R) by ring.
  cbn [xmul xlift2]. rewrite Hr6, Hr12, geometricMean_like by nra.
  rewrite oo13_val, xpow_pos by nra.
  rewrite arithmeticMean_like. cbn [xpowi].
  replace 13%R with (INR 13) by (simpl; lra).
  rewrite Rpower_root_inv by (try lia; nra).
  rewrite xdiv_some by nra.
  replace (e * r ^ 12 / (e * r ^ 6))%R with (r ^ 6)%R by (field; split; lra).
  rewrite oo6_val, xpow_pos by assumption.
  rewrite xdiv_some by lra.
  f_equal.
  - f_equal. replace 6%R with (INR 6) by (simpl; lra).
    apply Rpower_root; [assumption | lia].
  - f_equal. field. lra.
Qed.

(** For a positive radius and a positive well depth every rule maps the like
    pair [(r, r, e, e)] to [(r, e)], and [applyMixingRule] gives [dmin = 2r]. *)
Lemma mixing_like_pair_positive r e :
  (0 < r)%R -> (0 < e)%R ->
  vdwCombineLorentzBerthelot (Some r) (Some r) (Some e) (Some e) = (Some r, Some e)
  /\ vdwCombineJorgensen (Some r) (Some r) (Some e) (Some e) = (Some r, Some e)
  /\ vdwCombineHalgrenHHG (Some r) (Some r) (Some e) (Some e) = (Some r, Some e)
  /\ vdwCombineWaldmanHagler (Some r) (Some r) (Some e) (Some e) = (Some r, Some e)
  /\ vdwCombineKong (Some r) (Some r) (Some e) (Some e) = (Some r, Some e)
  /\ applyMixingRule (Some r) (Some r) (Some e) (Some e) = (Some (2 * r)%R, Some e).
Proof.
  intros Hr He. repeat split.
  - unfold vdwCombineLorentzBerthelot.
    now rewrite arithmeticMean_like, geometricMean_like by lra.
  - unfold vdwCombineJorgensen. now rewrite !geometricMean_like by lra.
  - unfold vdwCombineHalgrenHHG, hhgMean.
    rewrite cubicMean_like, harmonicMean_like, geometricMean_like by lra.
    now rewrite harmonicMean_like.
  - apply WaldmanHagler_like; lra.
  - now apply Kong_like.
  - unfold applyMixingRule. rewrite WaldmanHagler_like by lra. reflexivity.
Qed.

(** C5, at the radius the definition calls accept and the rules miss: for a
    class of radius 0 the Waldman-Hagler rule, which [applyMixingRule] uses,
    divides 0 by 0, so the like pair gets a well depth that is not a number
    (the stored [dmin] is still [2*0]); the Halgren-HHG and Kong rules lose
    the radius in the same way. *)
Theorem mixing_like_pair_zero_radius :
  vdwCombineWaldmanHagler (Some 0%R) (Some 0%R) (Some 1%R) (Some 1%R)
    = (Some 0%R, None)
  /\ applyMixingRule (Some 0%R) (Some 0%R) (Some 1%R) (Some 1%R)
    = (Some (2 * 0)%R, None)
  /\ fst (vdwCombineHalgrenHHG (Some 0%R) (Some 0%R) (Some 1%R) (Some 1%R)) = None
  /\ vdwCombineKong (Some 0%R) (Some 0%R) (Some 1%R) (Some 1%R) = (None, None).
Proof.
  assert (WH : vdwCombineWaldmanHagler (Some 0%R) (Some 0%R) (Some 1%R) (Some 1%R)
               = (Some 0%R, None)).
  { unfold vdwCombineWaldmanHagler, arithmeticMean, geometricMean.
    cbn [xmul xadd xlift2 xsqrt].
    replace (0 * 0 * 0 * (0 * 0 * 0))%R with 0%R by ring.
    replace (0.5 * (0 + 0))%R with 0%R by lra.
    replace (1 * 0 * (1 * 0))%R with 0%R by ring.
    rewrite Rltb_false by lra. rewrite oo6_val. unfold xpow, xdiv.
    rewrite Rltb_false, Reqb_true, Rltb_true by lra. reflexivity. }
  repeat split.
  - exact WH.
  - unfold applyMixingRule. rewrite WH. reflexivity.
  - unfold vdwCombineHalgrenHHG, cubicMean. cbn [fst xmul xadd xlift2].
    unfold xdiv. rewrite Reqb_true by ring. reflexivity.
  - unfold vdwCombineKong, arithmeticMean, geometricMean.
    cbn [xmul xadd xlift2 xsqrt].
    replace (0 * 0 * 0 * (0 * 0 * 0))%R with 0%R by ring.
    replace (0 * 0)%R with 0%R by ring.
    replace (1 * 0)%R with 0%R by ring.
    replace (0 * 0)%R with 0%R by ring.
    rewrite Rltb_false by lra. rewrite oo13_val. unfold xpow.
    rewrite Rltb_false, Reqb_true, Rltb_true by lra.
    cbn [xmul xadd xlift2 xpowi].
    unfold xdiv. rewrite sqrt_0, Reqb_true by reflexivity. reflexivity.
Qed.

(* ================================================================= *)
(** ** The periodic torsion kernel *)

Lemma vdot_self_nonneg v : (0 <= vdot v v)%R.
Proof. unfold vdot. nra. Qed.

Lemma norm_zero_iff v : norm v = 0%R <-> vdot v v = 0%R.
Proof.
  unfold norm, normSqr. split; intros H.
  - apply sqrt_eq_0; [apply vdot_self_nonneg | exact H].
  - rewrite H. apply sqrt_0.
Qed.

Lemma vsub_self v : vsub v v = vzero.
Proof. unfold vsub, vzero. f_equal; lra. Qed.

Lemma vneg_zero : vneg vzero = vzero.
Proof. unfold vneg, vzero; simpl. f_equal; lra. Qed.

Lemma vadd_cancel4 a b :
  vadd (vadd (vadd a (vneg a)) (vneg b)) b = vzero.
Proof. unfold vadd, vneg, vzero; simpl. f_equal; lra. Qed.

Lemma torsion_oov_overlap : torsion_oov vzero = 0%R.
Proof.
  unfold torsion_oov. rewrite Reqb_true; [reflexivity |].
  unfold vdot, vzero; simpl. lra.
Qed.

(** C8. In [BondTorsion::periodic], with [v] the axis the kernel picks,
    [t = r x v] and [u = v x s]: when [t] or [u] has zero norm the energy is
    0 and the four forces are exactly zero; and when the axis atoms x and y
    coincide the kernel returns [xf = -rf] and [yf = -sf], so the four forces
    sum exactly to zero. *)
Theorem periodic_degenerate_cases
    (UnitVec3_of perp : Vec3 -> Vec3) (bt : BondTorsion) (rG xG yG sG : Vec3) :
  let res := BondTorsion_periodic UnitVec3_of perp bt rG xG yG sG in
  let r := vsub xG rG in
  let s := vsub sG yG in
  let v := torsion_axis UnitVec3_of perp r s (vsub yG xG) in
  (norm (vcross r v) = 0%R \/ norm (vcross v s) = 0%R ->
   tr_pe res = 0%R /\ tr_rf res = vzero /\ tr_xf res = vzero
   /\ tr_yf res = vzero /\ tr_sf res = vzero)
  /\ (xG = yG ->
      tr_xf res = vneg (tr_rf res) /\ tr_yf res = vneg (tr_sf res)
      /\ vadd (vadd (vadd (tr_rf res) (tr_xf res)) (tr_yf res)) (tr_sf res)
         = vzero).
Proof.
  intros res r s v. subst res. unfold BondTorsion_periodic.
  fold r s v. split.
  - intros H.
    assert (E : Reqb (vdot (vcross r v) (vcross r v)) 0
                || Reqb (vdot (vcross v s) (vcross v s)) 0 = true).
    { apply orb_true_iff.
      destruct H as [H | H]; [left | right];
        apply Reqb_true, norm_zero_iff, H. }
    rewrite E. simpl. auto.
  - intros ->. rewrite vsub_self in *.
    destruct (Reqb (vdot (vcross r v) (vcross r v)) 0
              || Reqb (vdot (vcross v s) (vcross v s)) 0).
    + simpl. rewrite vneg_zero. repeat split.
      unfold vadd, vzero; simpl. f_equal; lra.
    + rewrite torsion_oov_overlap, Reqb_true by reflexivity. simpl.
      repeat split. apply vadd_cancel4.
Qed.

(* ================================================================= *)
(** ** Reasoning about calls *)

Lemma bind_Return {S A B} (m : M S A) (k : A -> M S B) s s1 a :
  m s = Return s1 a -> bind m k s = k a s1.
Proof. intros H. unfold bind. now rewrite H. Qed.

Lemma bind_inv {S A B} (m : M S A) (k : A -> M S B) s s' b :
  bind m k s = Return s' b ->
  exists s1 a, m s = Return s1 a /\ k a s1 = Return s' b.
Proof.
  unfold bind. destruct (m s) as [s1 a | s1 |]; intros H; try discriminate.
  now exists s1, a.
Qed.

Lemma assert_inv {S} (b : bool) (s s' : S) u :
  assert b s = Return s' u -> b = true /\ s' = s.
Proof. unfold assert. destruct b; intros H; inversion H; auto. Qed.

Lemma apiArgCheck_inv {S} (b : bool) (s s' : S) u :
  apiArgCheck b s = Return s' u -> b = true /\ s' = s.
Proof. unfold apiArgCheck. destruct b; intros H; inversion H; auto. Qed.

Lemma must_inv {S A} (o : option A) (s s' : S) a :
  must o s = Return s' a -> o = Some a /\ s' = s.
Proof. unfold must. destruct o; intros H; inversion H; auto. Qed.

Lemma get_inv {S} (s s' a : S) : get s = Return s' a -> a = s /\ s' = s.
Proof. unfold get. intros H; inversion H; auto. Qed.

Lemma ret_inv {S A} (x a : A) (s s' : S) :
  ret x s = Return s' a -> a = x /\ s' = s.
Proof. unfold ret. intros H; inversion H; auto. Qed.

Lemma modify_inv {S} (f : S -> S) (s s' : S) u :
  modify f s = Return s' u -> s' = f s.
Proof. unfold modify. intros H; inversion H; auto. Qed.

(** Taking a successful run apart, one step at a time. *)
Ltac inv_step H :=
  match type of H with
  | bind _ _ _ = Return _ _ =>
      let s1 := fresh "s" in
      let a := fresh "a" in
      let H1 := fresh "H" in
      apply bind_inv in H; destruct H as (s1 & a & H1 & H);
      inv_step H1
  | get _ = Return _ _ =>
      apply get_inv in H; destruct H as [? ?]; subst
  | ret _ _ = Return _ _ =>
      apply ret_inv in H; destruct H as [? ?]; subst
  | assert _ _ = Return _ _ =>
      apply assert_inv in H; destruct H as [H ?]; subst
  | apiArgCheck _ _ = Return _ _ =>
      apply apiArgCheck_inv in H; destruct H as [H ?]; subst
  | must _ _ = Return _ _ =>
      apply must_inv in H; destruct H as [H ?]; subst
  | modify _ _ = Return _ _ =>
      apply modify_inv in H; subst
  | _ => idtac
  end.

(* ================================================================= *)
(** ** Vectors *)

Lemma at_length {A} (l : list A) i x :
  at_ l i = Some x -> 0 <= i < size l.
Proof.
  unfold at_, size. destruct (Z.ltb_spec i 0); [discriminate |].
  intros H0. assert (Hn : nth_error l (Z.to_nat i) <> None) by congruence.
  apply nth_error_Some in Hn. lia.
Qed.

Lemma at_In {A} (l : list A) i x : at_ l i = Some x -> In x l.
Proof.
  unfold at_. destruct (i <? 0); [discriminate |]. apply nth_error_In.
Qed.

Lemma In_at {A} (l : list A) x : In x l -> exists i, at_ l i = Some x.
Proof.
  intros H. apply In_nth_error in H as [n Hn]. exists (Z.of_nat n).
  unfold at_. destruct (Z.ltb_spec (Z.of_nat n) 0); [lia |].
  now rewrite Nat2Z.id.
Qed.

Lemma list_set_length {A} (l : list A) n x : length (list_set l n x) = length l.
Proof. revert n; induction l; intros [|n]; simpl; auto. Qed.

Lemma list_set_nth_eq {A} (l : list A) n x :
  (n < length l)%nat -> nth_error (list_set l n x) n = Some x.
Proof.
  revert n; induction l; intros [|n] H; simpl in *; try lia; auto.
  apply IHl. lia.
Qed.

Lemma list_set_nth_neq {A} (l : list A) n m x :
  n <> m -> nth_error (list_set l n x) m = nth_error l m.
Proof.
  revert n m; induction l; intros [|n] [|m] H; simpl; auto; try congruence.
Qed.

Lemma set_at_inv {A} (l l' : list A) i x :
  set_at l i x = Some l' ->
  0 <= i < size l /\ length l' = length l
  /\ at_ l' i = Some x /\ forall j, j <> i -> at_ l' j = at_ l j.
Proof.
  unfold set_at, size.
  destruct (Z.leb_spec 0 i), (Z.ltb_spec i (Z.of_nat (length l)));
    simpl; try discriminate.
  intros H1; inversion H1; subst; clear H1. repeat split; try lia.
  - apply list_set_length.
  - unfold at_. destruct (Z.ltb_spec i 0); [lia |].
    apply list_set_nth_eq. lia.
  - intros j Hj. unfold at_. destruct (Z.ltb_spec j 0); [reflexivity |].
    apply list_set_nth_neq. lia.
Qed.

Lemma set_at_some {A} (l : list A) i x :
  0 <= i < size l -> set_at l i x = Some (list_set l (Z.to_nat i) x).
Proof.
  unfold set_at, size. intros H.
  destruct (Z.leb_spec 0 i), (Z.ltb_spec i (Z.of_nat (length l)));
    simpl; try lia; reflexivity.
Qed.

Lemma list_upd_length {A} (l : list A) n f : length (list_upd l n f) = length l.
Proof. revert n; induction l; intros [|n]; simpl; auto. Qed.

Lemma list_upd_nth_eq {A} (l : list A) n f :
  nth_error (list_upd l n f) n = option_map f (nth_error l n).
Proof. revert n; induction l; intros [|n]; simpl; auto. Qed.

Lemma list_upd_nth_neq {A} (l : list A) n m f :
  n <> m -> nth_error (list_upd l n f) m = nth_error l m.
Proof.
  revert n m; induction l; intros [|n] [|m] H; simpl; auto; try congruence.
Qed.

Lemma upd_at_length {A} (l : list A) i f : length (upd_at l i f) = length l.
Proof. unfold upd_at. destruct (i <? 0); auto using list_upd_length. Qed.

Lemma upd_at_eq {A} (l : list A) i f :
  at_ (upd_at l i f) i = option_map f (at_ l i).
Proof.
  unfold upd_at, at_. destruct (i <? 0); [reflexivity |].
  apply list_upd_nth_eq.
Qed.

Lemma upd_at_neq {A} (l : list A) i j f :
  j <> i -> at_ (upd_at l i f) j = at_ l j.
Proof.
  intros H. unfold upd_at, at_.
  destruct (Z.ltb_spec i 0); [reflexivity |].
  destruct (Z.ltb_spec j 0); [reflexivity |].
  apply list_upd_nth_neq. lia.
Qed.

(* ================================================================= *)
(** ** The non-bonded pair interaction *)

Lemma norm_nonzero_sq r : norm r <> 0%R -> (0 < normSqr r)%R.
Proof.
  intros H. unfold norm in H.
  destruct (Rle_lt_or_eq_dec 0 (normSqr r) (vdot_self_nonneg r)) as [Hlt | Heq].
  - exact Hlt.
  - exfalso. apply H. rewrite <- Heq. apply sqrt_0.
Qed.

Lemma norm_sq r : (norm r * norm r = normSqr r)%R.
Proof. unfold norm. apply sqrt_sqrt, vdot_self_nonneg. Qed.

Lemma accForce_at op b f k old :
  at_ (rigidBodyForces k) b = Some old ->
  exists l,
    accForce op b f k = Return (mkKState (pe k) l (scratch k)) tt
    /\ at_ l b = Some (omap2 op old f)
    /\ (forall j, j <> b -> at_ l j = at_ (rigidBodyForces k) j).
Proof.
  intros H. unfold accForce, bind, get, must, put. rewrite H.
  pose proof (at_length _ _ _ H) as Hb.
  rewrite (set_at_some _ _ _ Hb).
  eexists; split; [reflexivity |].
  destruct (set_at_inv _ _ _ _ (set_at_some _ _ (omap2 op old f) Hb))
    as (_ & _ & H1 & H2).
  split; assumption.
Qed.

(** C1. One pass of the innermost loop of [realizeDynamics], for atom a1 on
    body b1 at station [s1] and position [p1] (ground frame) with charge
    [q1], and atom a2 on body b2 with charge [q2], at distance [d > 0] along
    [r = pos(a2) - pos(a1)]: the potential energy grows by [e_C + e_V] with
    [e_C = coulombScale[a2]*K*q1*q2/d] and
    [e_V = vdwScale[a2]*eps*((dmin/d)^12 - 2*(dmin/d)^6)]; the accumulator of
    b2 grows by the spatial force of [f = ((f_C + f_V)/d^2)*r], where
    [f_C = e_C] and [f_V = 12*vdwScale[a2]*eps*((dmin/d)^12 - (dmin/d)^6)];
    the accumulator of b1 is decreased by the spatial force of the same [f],
    so its force part gets exactly [-f]. *)
Theorem nonbondedPair_energy_and_force
    (mm : DuMM) (b1 b2 a1num a1cnum : Z) (a1class : AtomClass)
    (s1 p1 : Vec3) (q1 : R) (X_GB2 : Transform) (ap2 : AtomPlacement)
    (a2 : Atom) (a2type : ChargedAtomType) (a2class : AtomClass)
    (s2 : Vec3) (q2 dmin eps cscale vdwscale E : R) (F1 F2 : SpatialVec)
    (k : KState) :
  ap_atomId ap2 <> a1num ->
  b1 <> b2 ->
  at_ (atoms mm) (ap_atomId ap2) = Some a2 ->
  station_B a2 = Some s2 ->
  at_ (chargedAtomTypes mm) (atom_chargedAtomTypeId a2) = Some a2type ->
  partialCharge a2type = Some q2 ->
  at_ (atomClasses mm) (atomClass a2type) = Some a2class ->
  mixedEntry vdwDij a1cnum a1class (atomClass a2type) a2class = Some (Some dmin) ->
  mixedEntry vdwEij a1cnum a1class (atomClass a2type) a2class = Some (Some eps) ->
  at_ (fst (scratch k)) (ap_atomId ap2) = Some vdwscale ->
  at_ (snd (scratch k)) (ap_atomId ap2) = Some cscale ->
  pe k = Some E ->
  at_ (rigidBodyForces k) b1 = Some (Some F1) ->
  at_ (rigidBodyForces k) b2 = Some (Some F2) ->
  let s2G := mvmul (X_R X_GB2) s2 in
  let r := vsub (vadd (X_T X_GB2) s2G) p1 in
  let d := norm r in
  d <> 0%R ->
  let e_C := pairCoulombEnergy cscale q1 q2 d in
  let e_V := pairVdwEnergy vdwscale eps dmin d in
  let f := pairForce cscale vdwscale q1 q2 eps dmin r in
  exists k',
    nonbondedPair mm b1 a1num a1cnum a1class (Some s1) (Some p1)
                  (Some (CoulombFac * q1)%R) b2 X_GB2 ap2 k = Return k' tt
    /\ pe k' = Some (E + (e_C + e_V))%R
    /\ at_ (rigidBodyForces k') b2
       = Some (Some (sv_add F2 (mkSpatialVec (vcross s2G f) f)))
    /\ at_ (rigidBodyForces k') b1
       = Some (Some (sv_sub F1 (mkSpatialVec (vcross s1 f) f)))
    /\ (forall F1', at_ (rigidBodyForces k') b1 = Some (Some F1') ->
                    force F1' = vadd (force F1) (vneg f))
    /\ scratch k' = scratch k.
Proof.
  intros Hne Hb Ha2 Hs2 Ht2 Hq2 Hc2 Hdij Heij Hvs Hcs Hpe HF1 HF2
         s2G r d Hd e_C e_V f.
  pose proof (norm_nonzero_sq r Hd) as Hd2.
  pose proof (norm_sq r) as Hsq. fold d in Hsq.
  assert (Hdpos : (0 < d)%R) by (apply sqrt_lt_R0; exact Hd2).
  unfold nonbondedPair.
  unfold bind at 1. unfold assert.
  destruct (Z.eqb_spec (ap_atomId ap2) a1num) as [Heq | _]; [contradiction |].
  cbn [negb].
  rewrite (bind_Return _ _ k k a2) by (unfold must; now rewrite Ha2).
  rewrite (bind_Return _ _ k k a2type) by (unfold must; now rewrite Ht2).
  rewrite (bind_Return _ _ k k a2class) by (unfold must; now rewrite Hc2).
  rewrite (bind_Return _ _ k k k) by reflexivity.
  rewrite (bind_Return _ _ k k cscale) by (unfold must; now rewrite Hcs).
  rewrite (bind_Return _ _ k k (Some dmin)) by (unfold must; now rewrite Hdij).
  rewrite (bind_Return _ _ k k (Some eps)) by (unfold must; now rewrite Heij).
  rewrite (bind_Return _ _ k k vdwscale) by (unfold must; now rewrite Hvs).
  unfold pos_G, station_G. rewrite Hs2, Hq2. cbn [option_map omap2].
  fold s2G. fold r.
  rewrite xsqrt_some by (left; exact Hd2).
  fold (norm r). fold d.
  rewrite xdiv_some by exact Hd.
  cbn [xmul xadd xsub xlift2 xvscale spatial omap2].
  set (fj := vscale _ r).
  assert (Hfj : fj = f).
  { subst fj f. unfold pairForce. fold d. f_equal.
    unfold pairCoulombEnergy, pairVdwForceFactor. field. exact Hd. }
  rewrite Hfj.
  match goal with |- context [addPe (Some ?e)] => set (eE := e) end.
  assert (HeE : eE = (e_C + e_V)%R).
  { subst eE. unfold e_C, e_V, pairCoulombEnergy, pairVdwEnergy.
    field. exact Hd. }
  set (k1 := mkKState (pe k + Some eE)%X (rigidBodyForces k) (scratch k)).
  rewrite (bind_Return _ _ k k1 tt) by reflexivity.
  destruct (accForce_at sv_add b2 (Some (mkSpatialVec (vcross s2G f) f)) k1 _ HF2)
    as (l2 & Hrun2 & Hl2 & Hl2').
  unfold addForce. rewrite (bind_Return _ _ _ _ _ Hrun2).
  set (k2 := mkKState (pe k1) l2 (scratch k1)).
  assert (HF1' : at_ (rigidBodyForces k2) b1 = Some (Some F1)).
  { simpl. rewrite Hl2' by exact Hb. exact HF1. }
  destruct (accForce_at sv_sub b1 (Some (mkSpatialVec (vcross s1 f) f)) k2 _ HF1')
    as (l1 & Hrun1 & Hl1 & Hl1').
  unfold subForce. rewrite Hrun1.
  eexists; split; [reflexivity |]. simpl.
  assert (Hb1 : at_ l1 b1 = Some (Some (sv_sub F1 (mkSpatialVec (vcross s1 f) f))))
    by exact Hl1.
  repeat split.
  - rewrite Hpe, HeE. reflexivity.
  - rewrite Hl1' by (intros Hc; apply Hb; now symmetry). exact Hl2.
  - exact Hb1.
  - intros F1' HF. rewrite Hb1 in HF. inversion HF; subst. simpl.
    unfold vsub, vadd, vneg; simpl. f_equal; lra.
Qed.

(* ================================================================= *)
(** ** Calls that keep a frame *)

Section Pres.
Context {S : Type} (R : S -> S -> Prop) `{FrameRel S R}.

Lemma pres_ret {A} (a : A) : pres R (ret a).
Proof. intros s. apply frame_refl. Qed.

Lemma pres_get : pres R get.
Proof. intros s. apply frame_refl. Qed.

Lemma pres_abort {A} : pres R (@abort S A).
Proof. intros s. exact I. Qed.

Lemma pres_assert b : pres R (assert b).
Proof. intros s. unfold assert. destruct b; [apply frame_refl | exact I]. Qed.

Lemma pres_apiArgCheck b : pres R (apiArgCheck b).
Proof. intros s. unfold apiArgCheck. destruct b; apply frame_refl. Qed.

Lemma pres_must {A} (o : option A) : pres R (must o).
Proof. intros s. unfold must. destruct o; [apply frame_refl | exact I]. Qed.

Lemma pres_modify f : (forall s, R s (f s)) -> pres R (modify f).
Proof. intros Hf s. apply Hf. Qed.

Lemma pres_bind {A B} (m : M S A) (k : A -> M S B) :
  pres R m -> (forall a, pres R (k a)) -> pres R (bind m k).
Proof.
  intros Hm Hk s. unfold bind. specialize (Hm s).
  destruct (m s) as [s1 a | s1 |]; auto.
  specialize (Hk a s1). destruct (k a s1); auto; eapply frame_trans; eauto.
Qed.

Lemma pres_forEach {A} (l : list A) (body : A -> M S unit) :
  (forall x, pres R (body x)) -> pres R (forEach l body).
Proof.
  intros Hb. induction l; simpl.
  - apply pres_ret.
  - apply pres_bind; auto.
Qed.

Lemma pres_foldM {A B} (f : B -> A -> M S B) (l : list A) (b : B) :
  (forall b x, pres R (f b x)) -> pres R (foldM f l b).
Proof.
  intros Hf. revert b. induction l; intros b; simpl.
  - apply pres_ret.
  - apply pres_bind; auto.
Qed.

Lemma pres_mapM {A B} (f : A -> M S B) (l : list A) :
  (forall x, pres R (f x)) -> pres R (mapM f l).
Proof.
  intros Hf. induction l; simpl.
  - apply pres_ret.
  - apply pres_bind; auto. intros y. apply pres_bind; auto.
    intros ys. apply pres_ret.
Qed.

Lemma pres_filterM {A} (f : A -> M S bool) (l : list A) :
  (forall x, pres R (f x)) -> pres R (filterM f l).
Proof.
  intros Hf. induction l; simpl.
  - apply pres_ret.
  - apply pres_bind; auto. intros y. apply pres_bind; auto.
    intros ys. apply pres_ret.
Qed.
End Pres.

(** The structure of a call, taken apart down to its writes. *)
Ltac frame_inst := solve [typeclasses eauto].

Ltac pres_step :=
  first
    [ assumption
    | apply pres_ret; frame_inst
    | apply pres_get; frame_inst
    | apply pres_abort
    | apply pres_assert; frame_inst
    | apply pres_apiArgCheck; frame_inst
    | apply pres_must; frame_inst
    | apply pres_bind; [frame_inst | | intros ?]
    | apply pres_forEach; [frame_inst | intros ?]
    | apply pres_foldM; [frame_inst | intros ? ?]
    | apply pres_mapM; [frame_inst | intros ?]
    | apply pres_filterM; [frame_inst | intros ?]
    | match goal with
      | |- pres _ (if ?b then _ else _) => destruct b
      | |- pres _ (let (_, _) := ?p in _) => destruct p
      | |- pres _ (match ?o with Some _ => _ | None => _ end) => destruct o
      end ].

Lemma readonly_pres {S A} (R : S -> S -> Prop) `{FrameRel S R} (m : M S A) :
  (forall s s', m s = Throw s' -> s' = s) -> readonly m -> pres R m.
Proof.
  intros Ht Hr s. destruct (m s) as [s' a | s' |] eqn:E; auto.
  - apply Hr in E. subst. apply frame_refl.
  - apply Ht in E. subst. apply frame_refl.
Qed.

(* ================================================================= *)
(** ** Sorting keeps the elements *)

Lemma sort_insert_perm {K} (lt : K -> K -> bool) x l :
  Permutation (x :: l) (sort_insert lt x l).
Proof.
  induction l as [|y l IH]; simpl.
  - apply Permutation_refl.
  - destruct (lt x y).
    + apply Permutation_refl.
    + eapply perm_trans; [apply perm_swap |]. now apply perm_skip.
Qed.

Lemma sort_perm {K} (lt : K -> K -> bool) l : Permutation l (sort lt l).
Proof.
  induction l as [|x l IH]; simpl.
  - apply perm_nil.
  - eapply perm_trans; [apply perm_skip, IH |]. apply sort_insert_perm.
Qed.

Lemma sort_In {K} (lt : K -> K -> bool) l x : In x (sort lt l) <-> In x l.
Proof.
  split; apply Permutation_in;
    [apply Permutation_sym |]; apply sort_perm.
Qed.

(* ================================================================= *)
(** ** What the calls keep of the molecule graph *)

Lemma atom_frame_refl a : atom_frame a a.
Proof. split; [apply Permutation_refl | reflexivity]. Qed.

Lemma atom_frame_trans a b c : atom_frame a b -> atom_frame b c -> atom_frame a c.
Proof.
  intros [H1 H2] [H3 H4]. split; [eapply perm_trans; eauto | congruence].
Qed.

Lemma atoms_frame_refl l : Forall2 atom_frame l l.
Proof. induction l; constructor; auto using atom_frame_refl. Qed.

Lemma atoms_frame_trans l1 l2 l3 :
  Forall2 atom_frame l1 l2 -> Forall2 atom_frame l2 l3 -> Forall2 atom_frame l1 l3.
Proof.
  intros H. revert l3. induction H; intros l3 H3; inversion H3; subst;
    constructor; eauto using atom_frame_trans.
Qed.

Lemma atoms_frame_list_upd l n f :
  (forall a, atom_frame a (f a)) -> Forall2 atom_frame l (list_upd l n f).
Proof.
  intros Hf. revert n. induction l; intros [|n]; simpl; constructor;
    auto using atom_frame_refl, atoms_frame_refl.
Qed.

Lemma atoms_frame_upd_at l i f :
  (forall a, atom_frame a (f a)) -> Forall2 atom_frame l (upd_at l i f).
Proof.
  intros Hf. unfold upd_at. destruct (i <? 0);
    auto using atoms_frame_refl, atoms_frame_list_upd.
Qed.

Lemma atoms_frame_map l f :
  (forall a, atom_frame a (f a)) -> Forall2 atom_frame l (map f l).
Proof. intros Hf. induction l; simpl; constructor; auto. Qed.

#[export] Instance keeps_graph_frame : FrameRel keeps_graph.
Proof.
  split.
  - intros s. repeat split; auto using atoms_frame_refl.
  - intros a b c (H1 & H2 & H3) (H4 & H5 & H6). repeat split.
    + lia.
    + congruence.
    + eapply atoms_frame_trans; eauto.
Qed.

Lemma Forall2_at {A B} (P : A -> B -> Prop) l l' i b :
  Forall2 P l l' -> at_ l' i = Some b -> exists a, at_ l i = Some a /\ P a b.
Proof.
  unfold at_. destruct (i <? 0); [discriminate |].
  generalize (Z.to_nat i). intros n H. revert n.
  induction H; intros [|n] Hn; simpl in *; try discriminate.
  - inversion Hn; subst. eauto.
  - eauto.
Qed.

Lemma Forall2_at_l {A B} (P : A -> B -> Prop) l l' i a :
  Forall2 P l l' -> at_ l i = Some a -> exists b, at_ l' i = Some b /\ P a b.
Proof.
  unfold at_. destruct (i <? 0); [discriminate |].
  generalize (Z.to_nat i). intros n H. revert n.
  induction H; intros [|n] Hn; simpl in *; try discriminate.
  - inversion Hn; subst. eauto.
  - eauto.
Qed.

(** A well-formed graph stays well formed across a call that keeps it. *)
Lemma keeps_graph_wf s s' : graph_wf s -> keeps_graph s s' -> graph_wf s'.
Proof.
  intros [W1 W2 W3 W4] (_ & Hb & Ha). split.
  - intros i a' j Hi Hj.
    destruct (Forall2_at _ _ _ _ _ Ha Hi) as (a & Hia & Hp & _).
    assert (Hj' : In j (bond12 a))
      by (eapply Permutation_in; [apply Permutation_sym, Hp | exact Hj]).
    destruct (W1 _ _ _ Hia Hj') as (Hne & b & Hjb & Hib).
    split; [exact Hne |].
    destruct (Forall2_at_l _ _ _ _ _ Ha Hjb) as (b' & Hjb' & Hq & _).
    exists b'. split; [exact Hjb' |]. eapply Permutation_in; eauto.
  - intros i a' Hi.
    destruct (Forall2_at _ _ _ _ _ Ha Hi) as (a & Hia & Hp & _).
    eapply Permutation_NoDup; [exact Hp | eauto].
  - intros i j. rewrite Hb, W3. split; intros (Hlt & a & Hi & Hj);
      (split; [exact Hlt |]).
    + destruct (Forall2_at_l _ _ _ _ _ Ha Hi) as (a' & Hia & Hp & _).
      exists a'. split; [exact Hia |]. eapply Permutation_in; eauto.
    + destruct (Forall2_at _ _ _ _ _ Ha Hi) as (a' & Hia & Hp & _).
      exists a'. split; [exact Hia |].
      eapply Permutation_in; [apply Permutation_sym |]; eauto.
  - intros i a' Hi.
    destruct (Forall2_at _ _ _ _ _ Ha Hi) as (a & Hia & _ & Hv).
    rewrite <- Hv. eauto.
Qed.

(** A write that keeps the graph. *)
Ltac keeps_write :=
  intros ?; unfold keeps_graph; cbn;
  repeat split;
  [ rewrite ?upd_at_length, ?length_app, ?length_map; lia
  | first
      [ apply atoms_frame_refl
      | apply atoms_frame_upd_at; intros ?; split; cbn;
        [ first [apply Permutation_refl | apply sort_perm] | reflexivity ]
      | apply atoms_frame_map; intros ?; split; cbn;
        [ apply Permutation_refl | reflexivity ] ] ].

Create HintDb ops discriminated.
#[export] Hint Unfold intAdd getAtom getCluster getBody modAtom modCluster modBody
  modAtomClass modChargedAtomType Atom_attachToBody addCluster
  Cluster_placeAtom containsCluster Cluster_placeCluster
  ensureBodyEntryExists bodyCluster getChargedAtomTypeNum getAtomClassNum
  getBondStretch getBondBend getBondTorsion BondTorsion_addTerm
  checkTorsionTerm setScaleFactor invalidateAllTopologicalCacheEntries
  vdwRowStep realizeVdw realizeCluster realizeBody assignBodyAtoms
  buildPaths bodyOf offBody sortChecked realizeAtomBonds forIndices
  defineAtomClass defineChargedAtomType defineBondStretch defineBondBend
  defineBondTorsion createCluster placeAtomInCluster
  placeClusterInCluster placeClusterInCluster_rep attachClusterToBody
  attachClusterToBody_rep attachAtomToBody attachAtomToBody_rep
  realizeConstruction void
  setVdw12ScaleFactor setVdw13ScaleFactor setVdw14ScaleFactor
  setVdw15ScaleFactor setCoulomb12ScaleFactor setCoulomb13ScaleFactor
  setCoulomb14ScaleFactor setCoulomb15ScaleFactor : ops.

Ltac keeps_auto :=
  repeat first
    [ pres_step
    | apply pres_modify; keeps_write
    | progress autounfold with ops ].

Lemma Cluster_attachToBody_keeps fuel :
  forall cid bnum X, pres keeps_graph (Cluster_attachToBody fuel cid bnum X).
Proof.
  induction fuel as [|fuel IH]; intros cid bnum X; simpl.
  - apply pres_abort.
  - pose proof (fun c b x => IH c b x) as IH'. keeps_auto. apply IH.
Qed.

Lemma run_keeps_graph fuel c :
  (forall t, c <> AddAtom t) -> (forall a b, c <> AddBond a b) ->
  pres keeps_graph (run fuel c).
Proof.
  intros H1 H2.
  pose proof Cluster_attachToBody_keeps as Hat.
  destruct c; try (exfalso; eapply H1; reflexivity);
    try (exfalso; eapply H2; reflexivity); clear H1 H2;
    unfold run; keeps_auto; try apply Hat.
Qed.

(* ================================================================= *)
(** ** [addAtom] and [addBond] *)

Lemma at_app_l {A} (l l' : list A) i :
  i < size l -> at_ (l ++ l') i = at_ l i.
Proof.
  unfold at_, size. intros H. destruct (Z.ltb_spec i 0); [reflexivity |].
  apply nth_error_app1. lia.
Qed.

Lemma at_app_last {A} (l : list A) x : at_ (l ++ [x]) (size l) = Some x.
Proof.
  unfold at_, size. destruct (Z.ltb_spec (Z.of_nat (length l)) 0); [lia |].
  rewrite Nat2Z.id, nth_error_app2 by lia. now rewrite Nat.sub_diag.
Qed.

Lemma at_app_inv {A} (l : list A) x i y :
  at_ (l ++ [x]) i = Some y ->
  (i < size l /\ at_ l i = Some y) \/ (i = size l /\ y = x).
Proof.
  intros H. pose proof (at_length _ _ _ H) as Hl.
  unfold size in Hl. rewrite length_app in Hl. simpl in Hl.
  destruct (Z.eq_dec i (size l)) as [-> | Hne].
  - right. rewrite at_app_last in H. split; congruence.
  - left. unfold size in *.
    assert (Hlt : i < size l) by (unfold size; lia).
    split; [exact Hlt |]. now rewrite at_app_l in H.
Qed.

Lemma isValidAt_inv {A} (v : A -> bool) l i :
  isValidAt v l i = true -> exists x, at_ l i = Some x /\ v x = true.
Proof.
  unfold isValidAt. intros H.
  apply andb_true_iff in H as [_ H]. destruct (at_ l i); [eauto | discriminate].
Qed.

Lemma isValidAt_intro {A} (v : A -> bool) l i x :
  at_ l i = Some x -> v x = true -> isValidAt v l i = true.
Proof.
  intros H Hv. pose proof (at_length _ _ _ H). unfold isValidAt.
  rewrite H, Hv.
  destruct (Z.leb_spec 0 i), (Z.ltb_spec i (size l)); simpl; try lia; reflexivity.
Qed.

Lemma addAtom_inv t mm mm' v :
  addAtom t mm = Return mm' v ->
  mm' = set_atoms (atoms mm ++ [Atom_new t (size (atoms mm))]) mm
  /\ v = size (atoms mm)
  /\ Atom_isValid (Atom_new t (size (atoms mm))) = true.
Proof.
  unfold addAtom, addAtom_rep. intros H. repeat inv_step H. auto.
Qed.

Lemma addAtom_no_throw t mm mm' : addAtom t mm <> Throw mm'.
Proof.
  unfold addAtom, addAtom_rep, bind, get, assert, modify, ret.
  destruct (isValidChargedAtomType mm t); [| discriminate].
  destruct (Atom_isValid _); discriminate.
Qed.

Lemma addAtom_wf t mm mm' v :
  graph_wf mm -> addAtom t mm = Return mm' v -> graph_wf mm'.
Proof.
  intros [W1 W2 W3 W4] H. apply addAtom_inv in H as (-> & _ & Hv).
  split; cbn.
  - intros i a j Hi Hj. apply at_app_inv in Hi as [[Hlt Hi] | [-> ->]].
    + destruct (W1 _ _ _ Hi Hj) as (Hne & b & Hb & Hib).
      split; [exact Hne |]. exists b. split; [| exact Hib].
      rewrite at_app_l; [exact Hb |]. apply (at_length _ _ _ Hb).
    + destruct Hj.
  - intros i a Hi. apply at_app_inv in Hi as [[Hlt Hi] | [-> ->]];
      [eauto | constructor].
  - intros i j. rewrite W3. split; intros (Hlt & a & Hi & Hj);
      (split; [exact Hlt |]).
    + exists a. split; [| exact Hj].
      rewrite at_app_l; [exact Hi |]. apply (at_length _ _ _ Hi).
    + apply at_app_inv in Hi as [[_ Hi] | [-> ->]]; [eauto | destruct Hj].
  - intros i a Hi. apply at_app_inv in Hi as [[_ Hi] | [-> ->]]; eauto.
Qed.

Lemma isBondedTo_In a x : Atom_isBondedTo a x = true <-> In x (bond12 a).
Proof.
  unfold Atom_isBondedTo. rewrite existsb_exists. split.
  - intros (y & Hy & E). apply Z.eqb_eq in E. now subst.
  - intros H. exists x. split; [exact H | apply Z.eqb_refl].
Qed.

Lemma isBondedTo_not_In a x : Atom_isBondedTo a x = false <-> ~ In x (bond12 a).
Proof.
  rewrite <- isBondedTo_In. destruct (Atom_isBondedTo a x); split; congruence.
Qed.

Lemma findBond_notin lo hi l i :
  ~ In (mkIntPair lo hi) l ->
  findBond lo hi (l ++ [mkIntPair lo hi]) i = Some (i + size l).
Proof.
  revert i. induction l as [|b l IH]; intros i Hn; simpl.
  - rewrite !Z.eqb_refl. simpl. f_equal. unfold size; simpl. lia.
  - destruct (Z.eqb_spec (ip0 b) lo), (Z.eqb_spec (ip1 b) hi); simpl;
      try (rewrite IH by (intros Hc; apply Hn; now right);
           unfold size; simpl length; f_equal; lia).
    exfalso. apply Hn. left. destruct b; simpl in *; congruence.
Qed.

Lemma findBond_in lo hi l i :
  In (mkIntPair lo hi) l ->
  exists v, findBond lo hi l i = Some v /\ i <= v
            /\ at_ l (v - i) = Some (mkIntPair lo hi).
Proof.
  revert i. induction l as [|b l IH]; intros i Hin; simpl; [destruct Hin |].
  destruct (Z.eqb_spec (ip0 b) lo), (Z.eqb_spec (ip1 b) hi); simpl.
  - exists i. rewrite Z.sub_diag. repeat split; try lia.
    unfold at_; simpl. destruct b; simpl in *; congruence.
  - destruct Hin as [-> | Hin]; [simpl in *; congruence |].
    destruct (IH (i + 1) Hin) as (v & Hv & Hle & Hat). exists v.
    repeat split; [exact Hv | lia |].
    revert Hat. unfold at_.
    destruct (Z.ltb_spec (v - (i + 1)) 0), (Z.ltb_spec (v - i) 0); try lia.
    replace (Z.to_nat (v - i)) with (S (Z.to_nat (v - (i + 1)))) by lia. auto.
  - destruct Hin as [-> | Hin]; [simpl in *; congruence |].
    destruct (IH (i + 1) Hin) as (v & Hv & Hle & Hat). exists v.
    repeat split; [exact Hv | lia |].
    revert Hat. unfold at_.
    destruct (Z.ltb_spec (v - (i + 1)) 0), (Z.ltb_spec (v - i) 0); try lia.
    replace (Z.to_nat (v - i)) with (S (Z.to_nat (v - (i + 1)))) by lia. auto.
  - destruct Hin as [-> | Hin]; [simpl in *; congruence |].
    destruct (IH (i + 1) Hin) as (v & Hv & Hle & Hat). exists v.
    repeat split; [exact Hv | lia |].
    revert Hat. unfold at_.
    destruct (Z.ltb_spec (v - (i + 1)) 0), (Z.ltb_spec (v - i) 0); try lia.
    replace (Z.to_nat (v - i)) with (S (Z.to_nat (v - (i + 1)))) by lia. auto.
Qed.

Lemma addBond_sym a b mm : addBond a b mm = addBond b a mm.
Proof.
  unfold addBond, addBond_rep, bind, get, assert.
  rewrite (andb_comm (isValidAtom mm a)), (Z.eqb_sym a b).
  destruct (isValidAtom mm b && isValidAtom mm a); [| reflexivity].
  destruct (Z.eqb_spec b a) as [-> | Hne]; [reflexivity |]. cbn [negb].
  destruct (Z.gtb_spec a b), (Z.gtb_spec b a); try lia; reflexivity.
Qed.

(** [addBond] on two atoms that are bonded already. *)
Lemma addBond_bonded lo hi mm A B idx :
  lo < hi ->
  at_ (atoms mm) lo = Some A -> at_ (atoms mm) hi = Some B ->
  Atom_isValid A = true -> Atom_isValid B = true ->
  Atom_isBondedTo A hi = true -> Atom_isBondedTo B lo = true ->
  findBond lo hi (bonds mm) 0 = Some idx ->
  addBond lo hi mm = Return mm idx.
Proof.
  intros Hlt HA HB HvA HvB HbA HbB Hf.
  unfold addBond, addBond_rep, bind, get, assert, must, isValidAtom.
  rewrite (isValidAt_intro _ _ _ _ HA HvA), (isValidAt_intro _ _ _ _ HB HvB).
  cbn [andb].
  destruct (Z.eqb_spec lo hi); [lia |]. cbn [negb].
  destruct (Z.gtb_spec lo hi); [lia |].
  rewrite HA, HB, HbA, HbB, Hf. reflexivity.
Qed.

(** [addBond] on two atoms that are not bonded yet. *)
Lemma addBond_fresh lo hi mm A B :
  lo < hi ->
  at_ (atoms mm) lo = Some A -> at_ (atoms mm) hi = Some B ->
  Atom_isValid A = true -> Atom_isValid B = true ->
  Atom_isBondedTo A hi = false ->
  addBond lo hi mm = Return (withBond lo hi mm) (size (bonds mm)).
Proof.
  intros Hlt HA HB HvA HvB HbA.
  pose proof (at_length _ _ _ HA) as HlA.
  unfold addBond, addBond_rep, bind, get, assert, must, isValidAtom.
  rewrite (isValidAt_intro _ _ _ _ HA HvA), (isValidAt_intro _ _ _ _ HB HvB).
  cbn [andb].
  destruct (Z.eqb_spec lo hi); [lia |]. cbn [negb].
  destruct (Z.gtb_spec lo hi); [lia |].
  rewrite HA, HB, HbA.
  unfold Bond_isValid, IntPair_isValid, IntPair_new. cbn [ip0 ip1].
  destruct (Z.leb_spec 0 lo); [| lia].
  destruct (Z.leb_spec 0 hi); [| lia]. cbn [andb].
  unfold modAtom, modify, bind, get, must, ret. cbn [atoms set_bonds].
  rewrite HA. cbn [atoms bonds set_atoms set_bonds].
  rewrite upd_at_neq, HB by lia.
  unfold withBond. cbn [atoms bonds set_atoms set_bonds]. f_equal.
  unfold size. rewrite length_app. cbn. lia.
Qed.

Lemma withBond_at lo hi mm i :
  lo <> hi ->
  at_ (atoms (withBond lo hi mm)) i
  = option_map
      (fun a => if i =? hi then Atom_setBond12 a (bond12 a ++ [lo])
                else if i =? lo then Atom_setBond12 a (bond12 a ++ [hi])
                else a)
      (at_ (atoms mm) i).
Proof.
  intros Hne. unfold withBond. cbn [atoms set_atoms].
  destruct (Z.eqb_spec i hi) as [-> | H1].
  - rewrite upd_at_eq, upd_at_neq by congruence. reflexivity.
  - rewrite upd_at_neq by exact H1.
    destruct (Z.eqb_spec i lo) as [-> | H2].
    + rewrite upd_at_eq. reflexivity.
    + rewrite upd_at_neq by exact H2. now destruct (at_ (atoms mm) i).
Qed.

Lemma withBond_at_inv lo hi mm i a' :
  lo <> hi -> at_ (atoms (withBond lo hi mm)) i = Some a' ->
  exists a, at_ (atoms mm) i = Some a
    /\ Atom_isValid a' = Atom_isValid a
    /\ forall j, In j (bond12 a') <->
         (In j (bond12 a) \/ (i = lo /\ j = hi) \/ (i = hi /\ j = lo)).
Proof.
  intros Hne H. rewrite withBond_at in H by exact Hne.
  destruct (at_ (atoms mm) i) as [a|]; [| discriminate].
  cbn in H. inversion H; subst; clear H. exists a. split; [reflexivity |].
  destruct (Z.eqb_spec i hi) as [-> | H1]; [| destruct (Z.eqb_spec i lo) as [-> | H2]];
    cbn; (split; [reflexivity |]); intros j; rewrite ?in_app_iff; cbn;
    intuition (try congruence; subst; auto).
Qed.

Lemma withBond_at_fwd lo hi mm i a :
  lo <> hi -> at_ (atoms mm) i = Some a ->
  exists a', at_ (atoms (withBond lo hi mm)) i = Some a'
    /\ Atom_isValid a' = Atom_isValid a
    /\ forall j, In j (bond12 a') <->
         (In j (bond12 a) \/ (i = lo /\ j = hi) \/ (i = hi /\ j = lo)).
Proof.
  intros Hne H.
  destruct (at_ (atoms (withBond lo hi mm)) i) as [a'|] eqn:E.
  - exists a'. split; [reflexivity |].
    destruct (withBond_at_inv _ _ _ _ _ Hne E) as (a0 & H0 & Hv & Hj).
    rewrite H in H0. inversion H0; subst. auto.
  - rewrite withBond_at, H in E by exact Hne. discriminate.
Qed.

Lemma withBond_wf lo hi mm A B :
  graph_wf mm -> lo < hi ->
  at_ (atoms mm) lo = Some A -> at_ (atoms mm) hi = Some B ->
  ~ In hi (bond12 A) ->
  graph_wf (withBond lo hi mm).
Proof.
  intros [W1 W2 W3 W4] Hlt HA HB Hn.
  assert (Hne : lo <> hi) by lia.
  assert (HnB : ~ In lo (bond12 B)).
  { intros Hc. destruct (W1 _ _ _ HB Hc) as (_ & b & Hb & Hin).
    rewrite HA in Hb. inversion Hb; subst. contradiction. }
  split.
  - intros i a' j Hi Hj.
    destruct (withBond_at_inv _ _ _ _ _ Hne Hi) as (a & Ha & _ & Hin).
    apply Hin in Hj. destruct Hj as [Hj | [[Ei Ej] | [Ei Ej]]]; subst.
    + destruct (W1 _ _ _ Ha Hj) as (Hji & b & Hb & Hib).
      split; [exact Hji |].
      destruct (withBond_at_fwd _ _ _ _ _ Hne Hb) as (b' & Hb' & _ & Hin').
      exists b'. split; [exact Hb' |]. apply Hin'. now left.
    + split; [lia |].
      destruct (withBond_at_fwd _ _ _ _ _ Hne HB) as (b' & Hb' & _ & Hin').
      exists b'. split; [exact Hb' |]. apply Hin'. right. right. auto.
    + split; [lia |].
      destruct (withBond_at_fwd _ _ _ _ _ Hne HA) as (b' & Hb' & _ & Hin').
      exists b'. split; [exact Hb' |]. apply Hin'. right. left. auto.
  - intros i a' Hi. rewrite withBond_at in Hi by exact Hne.
    destruct (at_ (atoms mm) i) as [a|] eqn:Ha; [| discriminate].
    cbn in Hi. inversion Hi; subst; clear Hi.
    pose proof (W2 _ _ Ha) as Hnd.
    destruct (Z.eqb_spec i hi) as [-> | H1];
      [| destruct (Z.eqb_spec i lo) as [-> | H2]]; cbn; auto.
    + rewrite HB in Ha. inversion Ha; subst.
      apply NoDup_app; [exact Hnd | repeat constructor; auto |].
      intros x Hx [<- | []]. contradiction.
    + rewrite HA in Ha. inversion Ha; subst.
      apply NoDup_app; [exact Hnd | repeat constructor; auto |].
      intros x Hx [<- | []]. contradiction.
  - intros i j. unfold withBond. cbn [bonds set_atoms set_bonds].
    fold (withBond lo hi mm). rewrite in_app_iff, W3. cbn [In]. split.
    + intros [(Hij & a & Ha & Hj) | [E | []]].
      * split; [exact Hij |].
        destruct (withBond_at_fwd _ _ _ _ _ Hne Ha) as (a' & Ha' & _ & Hin').
        exists a'. split; [exact Ha' |]. apply Hin'. now left.
      * inversion E; subst. split; [exact Hlt |].
        destruct (withBond_at_fwd _ _ _ _ _ Hne HA) as (a' & Ha' & _ & Hin').
        exists a'. split; [exact Ha' |]. apply Hin'. right. left. auto.
    + intros (Hij & a' & Ha' & Hj).
      destruct (withBond_at_inv _ _ _ _ _ Hne Ha') as (a & Ha & _ & Hin).
      apply Hin in Hj. destruct Hj as [Hj | [[Ei Ej] | [Ei Ej]]]; subst.
      * left. split; [exact Hij |]. eauto.
      * right. left. reflexivity.
      * lia.
  - intros i a' Hi.
    destruct (withBond_at_inv _ _ _ _ _ Hne Hi) as (a & Ha & Hv & _).
    rewrite Hv. eauto.
Qed.

Lemma addBond_no_throw a b mm mm' : addBond a b mm <> Throw mm'.
Proof.
  unfold addBond, addBond_rep, modAtom, modify, bind, get, assert, must, ret.
  destruct (isValidAtom mm a && isValidAtom mm b); [| discriminate].
  destruct (negb (a =? b)); [| discriminate].
  destruct (if a >? b then (b, a) else (a, b)) as [lo hi].
  destruct (at_ (atoms mm) lo) as [A|]; [| discriminate].
  destruct (at_ (atoms mm) hi) as [B|]; [| discriminate].
  destruct (Atom_isBondedTo A hi).
  - destruct (Atom_isBondedTo B lo); [| discriminate].
    destruct (findBond lo hi (bonds mm) 0); discriminate.
  - destruct (Bond_isValid _); [| discriminate].
    cbn [atoms set_bonds]. destruct (at_ (atoms mm) lo); [| discriminate].
    cbn [atoms set_atoms]. destruct (at_ _ hi); discriminate.
Qed.

Lemma addBond_inv_lt lo hi mm mm' v :
  lo < hi -> addBond lo hi mm = Return mm' v ->
  exists A B,
    at_ (atoms mm) lo = Some A /\ at_ (atoms mm) hi = Some B
    /\ Atom_isValid A = true /\ Atom_isValid B = true
    /\ ((Atom_isBondedTo A hi = true /\ Atom_isBondedTo B lo = true
         /\ mm' = mm /\ findBond lo hi (bonds mm) 0 = Some v)
        \/ (Atom_isBondedTo A hi = false
            /\ mm' = withBond lo hi mm /\ v = size (bonds mm))).
Proof.
  intros Hlt H.
  assert (Hv : isValidAtom mm lo = true /\ isValidAtom mm hi = true).
  { revert H. unfold addBond, addBond_rep, bind, get, assert.
    destruct (isValidAtom mm lo), (isValidAtom mm hi); cbn; auto; discriminate. }
  destruct Hv as [Hv1 Hv2].
  apply isValidAt_inv in Hv1 as (A & HA & HvA).
  apply isValidAt_inv in Hv2 as (B & HB & HvB).
  exists A, B. repeat (split; [assumption |]).
  destruct (Atom_isBondedTo A hi) eqn:EA.
  - left. split; [reflexivity |].
    revert H. unfold addBond, addBond_rep, bind, get, assert, must, isValidAtom.
    rewrite (isValidAt_intro _ _ _ _ HA HvA), (isValidAt_intro _ _ _ _ HB HvB).
    cbn [andb].
    destruct (Z.eqb_spec lo hi); [lia |]. cbn [negb].
    destruct (Z.gtb_spec lo hi); [lia |].
    rewrite HA, HB, EA.
    destruct (Atom_isBondedTo B lo); [| discriminate].
    destruct (findBond lo hi (bonds mm) 0); [| discriminate].
    intros E; inversion E; subst. auto.
  - right. split; [reflexivity |].
    rewrite (addBond_fresh lo hi mm A B) in H by assumption.
    inversion H; subst; auto.
Qed.

Lemma addBond_wf a b mm mm' v :
  graph_wf mm -> addBond a b mm = Return mm' v -> graph_wf mm'.
Proof.
  intros W H.
  assert (Hab : a <> b).
  { intros ->. revert H. unfold addBond, addBond_rep, bind, get, assert.
    rewrite Z.eqb_refl. destruct (_ && _); discriminate. }
  assert (Hlt : exists lo hi, lo < hi /\ addBond lo hi mm = Return mm' v).
  { destruct (Z.lt_ge_cases a b).
    - exists a, b. auto.
    - exists b, a. split; [lia |]. now rewrite addBond_sym. }
  destruct Hlt as (lo & hi & Hlt & H').
  destruct (addBond_inv_lt _ _ _ _ _ Hlt H')
    as (A & B & HA & HB & _ & _ & [(_ & _ & -> & _) | (Hf & -> & _)]).
  - exact W.
  - eapply withBond_wf; eauto. now apply isBondedTo_not_In.
Qed.

Lemma new_inv mm :
  DuMMForceFieldSubsystemRep_new = Return mm tt ->
  atoms mm = [] /\ bonds mm = []
  /\ clusters mm
     = [Cluster_set_clusterId 0 (Cluster_new "free atoms and groups")].
Proof.
  unfold DuMMForceFieldSubsystemRep_new. cbn. intros H. inversion H; subst.
  cbn. auto.
Qed.

(** Every state a client can reach has a well-formed molecule graph and at
    least the cluster the constructor made. *)
Lemma reachable_inv mm :
  reachable mm -> graph_wf mm /\ (1 <= length (clusters mm))%nat.
Proof.
  induction 1 as [mm Hnew | fuel c mm mm' v Hr [IHw IHc] Hrun
                  | fuel c mm mm' Hr [IHw IHc] Hrun].
  - apply new_inv in Hnew as (Ha & Hb & Hc). rewrite Hc. split; [| cbn; lia].
    split; rewrite ?Ha, ?Hb.
    + intros i a j Hi. unfold at_ in Hi. destruct (i <? 0); [discriminate |].
      now rewrite nth_error_nil in Hi.
    + intros i a Hi. unfold at_ in Hi. destruct (i <? 0); [discriminate |].
      now rewrite nth_error_nil in Hi.
    + intros i j. split; [intros [] |]. intros (_ & a & Hi & _).
      unfold at_ in Hi. destruct (i <? 0); [discriminate |].
      now rewrite nth_error_nil in Hi.
    + intros i a Hi. unfold at_ in Hi. destruct (i <? 0); [discriminate |].
      now rewrite nth_error_nil in Hi.
  - destruct c;
      try (assert (K : keeps_graph mm mm');
           [ match goal with
             | H : run ?f ?c _ = _ |- _ =>
                 let P := fresh in
                 assert (P : pres keeps_graph (run f c))
                   by (apply run_keeps_graph; discriminate);
                 specialize (P mm); rewrite H in P; exact P
             end
           | split; [eapply keeps_graph_wf; eauto | destruct K; lia] ]).
    + change (addAtom chargedAtomType mm = Return mm' v) in Hrun.
      split; [exact (addAtom_wf _ _ _ _ IHw Hrun) |].
      apply addAtom_inv in Hrun as (-> & _). cbn. exact IHc.
    + change (addBond atom1 atom2 mm = Return mm' v) in Hrun.
      split; [exact (addBond_wf _ _ _ _ _ IHw Hrun) |].
      assert (Hc : clusters mm' = clusters mm).
      { assert (Hlt : exists lo hi, lo < hi /\ addBond lo hi mm = Return mm' v).
        { destruct (Z.lt_ge_cases atom1 atom2).
          - exists atom1, atom2. auto.
          - destruct (Z.eq_dec atom1 atom2) as [-> | Hne].
            + exfalso. revert Hrun.
              unfold addBond, addBond_rep, bind, get, assert.
              rewrite Z.eqb_refl. destruct (_ && _); discriminate.
            + exists atom2, atom1. split; [lia |]. now rewrite addBond_sym. }
        destruct Hlt as (lo & hi & Hlt & H').
        destruct (addBond_inv_lt _ _ _ _ _ Hlt H')
          as (A & B & _ & _ & _ & _ & [(_ & _ & -> & _) | (_ & -> & _)]);
          reflexivity. }
      rewrite Hc. exact IHc.
  - destruct c;
      try (assert (K : keeps_graph mm mm');
           [ match goal with
             | H : run ?f ?c _ = _ |- _ =>
                 let P := fresh in
                 assert (P : pres keeps_graph (run f c))
                   by (apply run_keeps_graph; discriminate);
                 specialize (P mm); rewrite H in P; exact P
             end
           | split; [eapply keeps_graph_wf; eauto | destruct K; lia] ]).
    + exfalso. revert Hrun. unfold run. apply addAtom_no_throw.
    + exfalso. revert Hrun. unfold run. apply addBond_no_throw.
Qed.

(* ================================================================= *)
(** ** Cluster ids *)

Lemma list_upd_app_last {A} (l : list A) x f :
  list_upd (l ++ [x]) (length l) f = l ++ [f x].
Proof. induction l; simpl; congruence. Qed.

Lemma upd_at_app_last {A} (l : list A) x f :
  upd_at (l ++ [x]) (size l) f = l ++ [f x].
Proof.
  unfold upd_at, size. destruct (Z.ltb_spec (Z.of_nat (length l)) 0); [lia |].
  rewrite Nat2Z.id. apply list_upd_app_last.
Qed.

Lemma addCluster_total c mm :
  addCluster c mm
  = Return (set_clusters
              (clusters mm ++ [Cluster_set_clusterId (size (clusters mm)) c]) mm)
           (size (clusters mm)).
Proof.
  unfold addCluster, modCluster, modify, bind, get, must, ret.
  cbn [clusters set_clusters]. rewrite at_app_last.
  cbn [clusters set_clusters]. rewrite upd_at_app_last.
  destruct mm; reflexivity.
Qed.

Lemma new_is_DuMM_new : DuMMForceFieldSubsystemRep_new = Return DuMM_new tt.
Proof. reflexivity. Qed.

Lemma reachable_DuMM_new : reachable DuMM_new.
Proof. apply reachable_new, new_is_DuMM_new. Qed.

(** Clusters keep their ids. *)

#[export] Instance keeps_ids_frame : FrameRel keeps_ids.
Proof.
  split.
  - intros s j c H. eauto.
  - intros a b c H1 H2 j x Hx.
    destruct (H1 j x Hx) as (y & Hy & E1 & E2).
    destruct (H2 j y Hy) as (z & Hz & E3 & E4).
    exists z. repeat split; congruence.
Qed.

Lemma keeps_ids_same s s' : clusters s' = clusters s -> keeps_ids s s'.
Proof. intros E j c H. rewrite E. eauto. Qed.

Lemma keeps_ids_upd_at s i f :
  (forall c, clusterId (f c) = clusterId c
             /\ clusterName (f c) = clusterName c) ->
  keeps_ids s (set_clusters (upd_at (clusters s) i f) s).
Proof.
  intros Hf j c H. cbn.
  destruct (Z.eq_dec j i) as [-> | Hne].
  - rewrite upd_at_eq, H. cbn. exists (f c). split; [reflexivity | apply Hf].
  - rewrite upd_at_neq by exact Hne. eauto.
Qed.

Lemma at_map {A B} (f : A -> B) l i : at_ (map f l) i = option_map f (at_ l i).
Proof.
  unfold at_. destruct (i <? 0); [reflexivity |]. apply nth_error_map.
Qed.

Lemma keeps_ids_map s f :
  (forall c, clusterId (f c) = clusterId c
             /\ clusterName (f c) = clusterName c) ->
  keeps_ids s (set_clusters (map f (clusters s)) s).
Proof.
  intros Hf j c H. cbn. rewrite at_map, H. cbn.
  exists (f c). split; [reflexivity | apply Hf].
Qed.

Lemma addCluster_keeps_ids c : pres keeps_ids (addCluster c).
Proof.
  intros s. rewrite addCluster_total. intros j x Hx. cbn.
  rewrite at_app_l by (apply at_length in Hx; lia). eauto.
Qed.

Create HintDb ops_ids discriminated.
#[export] Hint Unfold intAdd getAtom getCluster getBody modAtom modCluster modBody
  modAtomClass modChargedAtomType Atom_attachToBody
  Cluster_placeAtom containsCluster Cluster_placeCluster
  ensureBodyEntryExists bodyCluster getChargedAtomTypeNum getAtomClassNum
  getBondStretch getBondBend getBondTorsion BondTorsion_addTerm
  checkTorsionTerm setScaleFactor invalidateAllTopologicalCacheEntries
  vdwRowStep realizeVdw realizeCluster realizeBody assignBodyAtoms
  buildPaths bodyOf offBody sortChecked realizeAtomBonds forIndices
  defineAtomClass defineChargedAtomType defineBondStretch defineBondBend
  defineBondTorsion createCluster placeAtomInCluster
  placeClusterInCluster placeClusterInCluster_rep attachClusterToBody
  attachClusterToBody_rep attachAtomToBody attachAtomToBody_rep
  realizeConstruction void addAtom addAtom_rep addBond addBond_rep
  setVdw12ScaleFactor setVdw13ScaleFactor setVdw14ScaleFactor
  setVdw15ScaleFactor setCoulomb12ScaleFactor setCoulomb13ScaleFactor
  setCoulomb14ScaleFactor setCoulomb15ScaleFactor : ops_ids.

(** A write that keeps the ids. *)
Ltac ids_write :=
  intros ?;
  first
    [ apply keeps_ids_same; reflexivity
    | apply keeps_ids_upd_at; intros ?; split; reflexivity
    | apply keeps_ids_map; intros ?; split; reflexivity ].

Ltac ids_auto :=
  repeat first
    [ apply addCluster_keeps_ids
    | pres_step
    | apply pres_modify; ids_write
    | progress autounfold with ops_ids ].

Lemma Cluster_attachToBody_keeps_ids fuel :
  forall cid bnum X, pres keeps_ids (Cluster_attachToBody fuel cid bnum X).
Proof.
  induction fuel as [|fuel IH]; intros cid bnum X; simpl.
  - apply pres_abort.
  - pose proof (fun c b x => IH c b x) as IH'. ids_auto. apply IH.
Qed.

Lemma run_keeps_ids fuel c : pres keeps_ids (run fuel c).
Proof.
  pose proof Cluster_attachToBody_keeps_ids as Hat.
  destruct c; unfold run; ids_auto; try apply Hat.
Qed.

(** The cluster that the constructor made is there in every state, under
    id 0 and with its name. *)
Lemma reachable_cluster_zero mm :
  reachable mm ->
  exists c, at_ (clusters mm) 0 = Some c
            /\ clusterId c = 0
            /\ clusterName c = "free atoms and groups".
Proof.
  induction 1 as [mm Hnew | fuel c mm mm' v Hr IH Hrun
                  | fuel c mm mm' Hr IH Hrun].
  - rewrite new_is_DuMM_new in Hnew. inversion Hnew; subst.
    eexists. split; [reflexivity |]. split; reflexivity.
  - destruct IH as (c0 & H0 & E1 & E2).
    pose proof (run_keeps_ids fuel c mm) as K. rewrite Hrun in K.
    destruct (K 0 c0 H0) as (c' & H' & E3 & E4).
    exists c'. repeat split; congruence.
  - destruct IH as (c0 & H0 & E1 & E2).
    pose proof (run_keeps_ids fuel c mm) as K. rewrite Hrun in K.
    destruct (K 0 c0 H0) as (c' & H' & E3 & E4).
    exists c'. repeat split; congruence.
Qed.

(** C10. The constructor makes the cluster "free atoms and groups" with id 0
    before any call, and that cluster is there under id 0 in every reachable
    state; [addCluster] always returns the number of clusters there were and
    appends the cluster under that id; hence in every reachable state
    [createCluster] returns an id that is at least 1, and the clusters that
    were there stay where they are. *)
Theorem cluster_zero_reserved :
  (DuMMForceFieldSubsystemRep_new = Return DuMM_new tt
   /\ clusters DuMM_new
      = [Cluster_set_clusterId 0 (Cluster_new "free atoms and groups")])
  /\ (forall mm, reachable mm ->
        exists c, at_ (clusters mm) 0 = Some c
                  /\ clusterId c = 0
                  /\ clusterName c = "free atoms and groups")
  /\ (forall c mm,
        exists mm', addCluster c mm = Return mm' (size (clusters mm))
          /\ clusters mm'
             = clusters mm ++ [Cluster_set_clusterId (size (clusters mm)) c])
  /\ (forall mm groupName mm' id,
        reachable mm -> createCluster groupName mm = Return mm' id ->
        1 <= id /\ id = size (clusters mm)
        /\ at_ (clusters mm') id
           = Some (Cluster_set_clusterId id (Cluster_new groupName))
        /\ (forall j, j < id -> at_ (clusters mm') j = at_ (clusters mm) j)).
Proof.
  split; [split; reflexivity |]. split; [exact reachable_cluster_zero |].
  split.
  - intros c mm. eexists. split; [apply addCluster_total | reflexivity].
  - intros mm groupName mm' id Hr H.
    unfold createCluster in H. rewrite addCluster_total in H.
    inversion H; subst; clear H.
    destruct (reachable_inv _ Hr) as [_ Hc].
    cbn [clusters set_clusters]. repeat split.
    + unfold size. lia.
    + apply at_app_last.
    + intros j Hj. now apply at_app_l.
Qed.

(** The theorem on a fresh subsystem: the first cluster a client creates
    gets id 1. *)
Lemma cluster_zero_reserved_witness :
  exists mm', createCluster "ligand" DuMM_new = Return mm' 1 /\ 1 <= 1.
Proof.
  destruct cluster_zero_reserved as (_ & _ & _ & H).
  eexists. split.
  - unfold createCluster. rewrite addCluster_total. reflexivity.
  - refine (proj1 (H DuMM_new "ligand" _ 1 reachable_DuMM_new _)).
    unfold createCluster. rewrite addCluster_total. reflexivity.
Defined.

(* ================================================================= *)
(** ** Bonds are stored once *)

Lemma count_occ_one l x :
  NoDup l -> In x l -> count_occ Z.eq_dec l x = 1%nat.
Proof.
  intros Hnd Hin.
  pose proof (proj1 (NoDup_count_occ Z.eq_dec l) Hnd x).
  pose proof (proj1 (count_occ_In Z.eq_dec l x) Hin). lia.
Qed.

(** C7. On a reachable subsystem and two distinct valid atoms [a] and [b]:
    [addBond(a,b)] returns the id of a bond stored as [(min a b, max a b)];
    afterwards each of the two atoms lists the other exactly once in its
    [bond12]; when the atoms were not bonded before, the bond is appended to
    the bond vector and each atom is appended to the other's [bond12]; and
    the duplicate call [addBond(b,a)] returns the same id and leaves the
    subsystem as it is. *)
Theorem addBond_canonical_once mm a b :
  reachable mm ->
  isValidAtom mm a = true -> isValidAtom mm b = true -> a <> b ->
  exists mm1 id A B A1 B1,
    addBond a b mm = Return mm1 id
    /\ at_ (bonds mm1) id = Some (mkIntPair (Z.min a b) (Z.max a b))
    /\ at_ (atoms mm) (Z.min a b) = Some A
    /\ at_ (atoms mm) (Z.max a b) = Some B
    /\ at_ (atoms mm1) (Z.min a b) = Some A1
    /\ at_ (atoms mm1) (Z.max a b) = Some B1
    /\ count_occ Z.eq_dec (bond12 A1) (Z.max a b) = 1%nat
    /\ count_occ Z.eq_dec (bond12 B1) (Z.min a b) = 1%nat
    /\ (~ In (Z.max a b) (bond12 A) ->
        bonds mm1 = bonds mm ++ [mkIntPair (Z.min a b) (Z.max a b)]
        /\ id = size (bonds mm)
        /\ bond12 A1 = bond12 A ++ [Z.max a b]
        /\ bond12 B1 = bond12 B ++ [Z.min a b])
    /\ addBond b a mm1 = Return mm1 id.
Proof.
  intros Hr Ha Hb Hab.
  destruct (reachable_inv _ Hr) as [W _].
  set (lo := Z.min a b). set (hi := Z.max a b).
  assert (Hlt : lo < hi) by (subst lo hi; lia).
  assert (Hcall : forall s, addBond a b s = addBond lo hi s
                            /\ addBond b a s = addBond lo hi s).
  { intros s. subst lo hi. destruct (Z.lt_ge_cases a b).
    - rewrite Z.min_l, Z.max_r by lia. split; [reflexivity | apply addBond_sym].
    - rewrite Z.min_r, Z.max_l by lia. split; [apply addBond_sym | reflexivity]. }
  assert (Hvlo : isValidAtom mm lo = true)
    by (subst lo; destruct (Z.min_spec a b) as [[_ ->] | [_ ->]]; assumption).
  assert (Hvhi : isValidAtom mm hi = true)
    by (subst hi; destruct (Z.max_spec a b) as [[_ ->] | [_ ->]]; assumption).
  apply isValidAt_inv in Hvlo as (A & HA & HvA).
  apply isValidAt_inv in Hvhi as (B & HB & HvB).
  destruct (Atom_isBondedTo A hi) eqn:EA.
  - (* the bond is there already *)
    pose proof (proj1 (isBondedTo_In _ _) EA) as HinA.
    destruct (wf_bond12 _ W _ _ _ HA HinA) as (_ & B' & HB' & HinB).
    rewrite HB in HB'. inversion HB'; subst B'; clear HB'.
    assert (Hin : In (mkIntPair lo hi) (bonds mm))
      by (apply (wf_bonds _ W); eauto).
    destruct (findBond_in lo hi (bonds mm) 0 Hin) as (idx & Hf & _ & Hat).
    rewrite Z.sub_0_r in Hat.
    assert (Hrun : addBond lo hi mm = Return mm idx).
    { apply (addBond_bonded lo hi mm A B); auto.
      now apply isBondedTo_In. }
    exists mm, idx, A, B, A, B.
    rewrite (proj1 (Hcall mm)), (proj2 (Hcall mm)).
    repeat (split; [first [assumption | reflexivity] |]).
    split; [apply count_occ_one; [eapply wf_nodup; eauto | exact HinA] |].
    split; [apply count_occ_one; [eapply wf_nodup; eauto | exact HinB] |].
    split; [intros Hc; contradiction | exact Hrun].
  - (* a new bond *)
    pose proof (proj1 (isBondedTo_not_In _ _) EA) as HnA.
    assert (HnB : ~ In lo (bond12 B)).
    { intros Hc. destruct (wf_bond12 _ W _ _ _ HB Hc) as (_ & A' & HA' & Hin).
      rewrite HA in HA'. inversion HA'; subst. contradiction. }
    assert (Hne : lo <> hi) by lia.
    pose proof (addBond_fresh lo hi mm A B Hlt HA HB HvA HvB EA) as Hrun.
    destruct (withBond_at_fwd lo hi mm lo A Hne HA) as (A1 & HA1 & HvA1 & HinA1).
    destruct (withBond_at_fwd lo hi mm hi B Hne HB) as (B1 & HB1 & HvB1 & HinB1).
    assert (EA1 : bond12 A1 = bond12 A ++ [hi]).
    { rewrite withBond_at, HA in HA1 by exact Hne. cbn in HA1.
      destruct (Z.eqb_spec lo hi); [lia |]. rewrite Z.eqb_refl in HA1.
      inversion HA1; subst. reflexivity. }
    assert (EB1 : bond12 B1 = bond12 B ++ [lo]).
    { rewrite withBond_at, HB in HB1 by exact Hne. cbn in HB1.
      rewrite Z.eqb_refl in HB1. inversion HB1; subst. reflexivity. }
    pose proof (withBond_wf lo hi mm A B W Hlt HA HB HnA) as W1.
    assert (Hnot : ~ In (mkIntPair lo hi) (bonds mm)).
    { intros Hc. apply (wf_bonds _ W) in Hc as (_ & A' & HA' & Hin).
      rewrite HA in HA'. inversion HA'; subst. contradiction. }
    exists (withBond lo hi mm), (size (bonds mm)), A, B, A1, B1.
    rewrite (proj1 (Hcall mm)), (proj2 (Hcall (withBond lo hi mm))).
    split; [exact Hrun |].
    split; [unfold withBond; cbn [bonds set_atoms set_bonds]; apply at_app_last |].
    repeat (split; [assumption |]).
    split; [apply count_occ_one; [eapply wf_nodup; eauto | apply HinA1; auto] |].
    split; [apply count_occ_one; [eapply wf_nodup; eauto | apply HinB1; auto] |].
    split.
    + intros _. repeat split; auto.
    + apply (addBond_bonded lo hi _ A1 B1); auto; try congruence.
      * apply isBondedTo_In, HinA1. auto.
      * apply isBondedTo_In, HinB1. auto.
      * unfold withBond. cbn [bonds set_atoms set_bonds].
        exact (findBond_notin lo hi (bonds mm) 0 Hnot).
Qed.

(* ================================================================= *)
(** ** Catalog maps *)

Lemma IntPair_equivb_eq a b : equivb IntPair_lt a b = true <-> a = b.
Proof.
  destruct a as [a0 a1], b as [b0 b1]. unfold equivb, IntPair_lt; cbn. split.
  - intros H.
    destruct (Z.ltb_spec a0 b0), (Z.gtb_spec a0 b0), (Z.ltb_spec b0 a0),
      (Z.gtb_spec b0 a0), (Z.ltb_spec a1 b1), (Z.ltb_spec b1 a1);
      cbn in H; try discriminate; try lia; f_equal; lia.
  - intros E; inversion E; subst.
    rewrite !Z.ltb_irrefl.
    destruct (Z.gtb_spec b0 b0); [lia | reflexivity].
Qed.

Lemma IntTriple_equivb_eq a b : equivb IntTriple_lt a b = true <-> a = b.
Proof.
  destruct a as [a0 a1 a2], b as [b0 b1 b2].
  unfold equivb, IntTriple_lt; cbn. split.
  - intros H.
    destruct (Z.ltb_spec a0 b0), (Z.gtb_spec a0 b0), (Z.ltb_spec b0 a0),
      (Z.gtb_spec b0 a0), (Z.ltb_spec a1 b1), (Z.gtb_spec a1 b1),
      (Z.ltb_spec b1 a1), (Z.gtb_spec b1 a1),
      (Z.ltb_spec a2 b2), (Z.ltb_spec b2 a2);
      cbn in H; try discriminate; try lia; f_equal; lia.
  - intros E; inversion E; subst.
    rewrite !Z.ltb_irrefl.
    destruct (Z.gtb_spec b0 b0), (Z.gtb_spec b1 b1); try lia; reflexivity.
Qed.

Lemma IntQuad_equivb_eq a b : equivb IntQuad_lt a b = true <-> a = b.
Proof.
  destruct a as [a0 a1 a2 a3], b as [b0 b1 b2 b3].
  unfold equivb, IntQuad_lt; cbn. split.
  - intros H.
    assert (a0 = b0).
    { destruct (Z.ltb_spec a0 b0), (Z.gtb_spec a0 b0), (Z.ltb_spec b0 a0),
        (Z.gtb_spec b0 a0); cbn in H; try discriminate; lia. }
    subst. rewrite !Z.ltb_irrefl in H.
    destruct (Z.gtb_spec b0 b0); [lia |].
    assert (a1 = b1).
    { destruct (Z.ltb_spec a1 b1), (Z.gtb_spec a1 b1), (Z.ltb_spec b1 a1),
        (Z.gtb_spec b1 a1); cbn in H; try discriminate; lia. }
    subst. rewrite !Z.ltb_irrefl in H.
    destruct (Z.gtb_spec b1 b1); [lia |].
    assert (a2 = b2).
    { destruct (Z.ltb_spec a2 b2), (Z.gtb_spec a2 b2), (Z.ltb_spec b2 a2),
        (Z.gtb_spec b2 a2); cbn in H; try discriminate; lia. }
    subst. rewrite !Z.ltb_irrefl in H.
    destruct (Z.gtb_spec b2 b2); [lia |].
    destruct (Z.ltb_spec a3 b3), (Z.ltb_spec b3 a3);
      cbn in H; try discriminate. f_equal; lia.
  - intros E; inversion E; subst.
    rewrite !Z.ltb_irrefl.
    destruct (Z.gtb_spec b0 b0), (Z.gtb_spec b1 b1), (Z.gtb_spec b2 b2);
      try lia; reflexivity.
Qed.

Section MapFacts.
Context {K V : Type} (lt : K -> K -> bool).
Hypothesis equiv_eq : forall a b, equivb lt a b = true <-> a = b.

Lemma map_find_app k m k' (v : V) :
  map_find lt k (m ++ [(k', v)])
  = match map_find lt k m with
    | Some x => Some x
    | None => if equivb lt k k' then Some v else None
    end.
Proof.
  induction m as [|[k0 v0] m IH]; cbn.
  - reflexivity.
  - destruct (equivb lt k k0); [reflexivity | exact IH].
Qed.

Lemma map_insert_new k (v : V) m :
  map_find lt k m = None ->
  map_insert lt k v m = (m ++ [(k, v)], true)
  /\ map_find lt k (m ++ [(k, v)]) = Some v
  /\ forall k', k' <> k ->
       map_find lt k' (m ++ [(k, v)]) = map_find lt k' m.
Proof.
  intros H. unfold map_insert. rewrite H. split; [reflexivity |]. split.
  - rewrite map_find_app, H.
    now rewrite (proj2 (equiv_eq k k) eq_refl).
  - intros k' Hne. rewrite map_find_app.
    destruct (map_find lt k' m); [reflexivity |].
    destruct (equivb lt k' k) eqn:E; [| reflexivity].
    apply equiv_eq in E. contradiction.
Qed.

Lemma map_insert_old k (v : V) m x :
  map_find lt k m = Some x -> map_insert lt k v m = (m, false).
Proof. intros H. unfold map_insert. now rewrite H. Qed.
End MapFacts.

(* ================================================================= *)
(** ** [defineBondTorsion] *)

Lemma termOk_dec p a ph : {termOk p a ph} + {~ termOk p a ph}.
Proof.
  unfold termOk.
  destruct (Z_le_dec 1 p), (Z_le_dec p 6), (Rle_dec 0 a), (Rle_dec 0 ph),
    (Rle_dec ph 180); try (right; intuition; fail).
  left. auto.
Qed.

Lemma checkTorsionTerm_ok p a ph (mm : DuMM) :
  termOk p a ph -> checkTorsionTerm p a ph mm = Return mm tt.
Proof.
  intros ((H1 & H2) & H3 & H4 & H5).
  unfold checkTorsionTerm, bind, apiArgCheck.
  destruct (Z.leb_spec 1 p), (Z.leb_spec p 6); try lia. cbn.
  now rewrite !Rleb_true by assumption.
Qed.

Lemma checkTorsionTerm_bad p a ph (mm : DuMM) :
  ~ termOk p a ph -> checkTorsionTerm p a ph mm = Throw mm.
Proof.
  intros Hn. unfold checkTorsionTerm, bind, apiArgCheck.
  destruct (Z.leb_spec 1 p), (Z.leb_spec p 6); cbn; try reflexivity.
  destruct (Rleb 0 a) eqn:E1; [| reflexivity].
  destruct (Rleb 0 ph) eqn:E2; [| reflexivity].
  destruct (Rleb ph 180) eqn:E3; [| reflexivity].
  exfalso. apply Hn. apply Rleb_spec in E1, E2, E3. unfold termOk. auto.
Qed.

Lemma TorsionTerm_new_valid p a ph :
  termOk p a ph -> TorsionTerm_isValid (TorsionTerm_new p a ph) = true.
Proof.
  intros ((H1 & H2) & H3 & H4 & H5).
  pose proof PI_RGT_0 as HPI.
  unfold TorsionTerm_isValid, TorsionTerm_new, EnergyUnitsPerKcal,
    RadiansPerDegree, Pi. cbn.
  destruct (Z.gtb_spec p 0); [| lia].
  rewrite Rleb_true by nra.
  rewrite Rltb_true by nra.
  rewrite Rleb_true by nra. reflexivity.
Qed.

Lemma addTerm_ok bt p a ph (mm : DuMM) :
  termOk p a ph -> BondTorsion_hasTerm bt p = false ->
  BondTorsion_addTerm bt p a ph mm
  = Return mm (mkBondTorsion (terms bt ++ [TorsionTerm_new p a ph])).
Proof.
  intros Hok Hh. unfold BondTorsion_addTerm, bind, assert, ret.
  rewrite (TorsionTerm_new_valid _ _ _ Hok). cbn [periodicity TorsionTerm_new].
  now rewrite Hh.
Qed.

(** One of the three blocks [if (periodicity != -1) { ... }]. *)
Lemma torsion_block p a ph (dup : bool) bt (g : bool) (mm : DuMM) :
  BondTorsion_hasTerm bt p = false ->
  let blk :=
    (if negb (p =? -1) then
       checkTorsionTerm p a ph ;;
       apiArgCheck dup ;;
       bt' <- BondTorsion_addTerm bt p a ph ;;
       ret (bt', true)
     else ret (bt, g)) in
  (p = -1 /\ blk mm = Return mm (bt, g))
  \/ (p <> -1 /\ termOk p a ph /\ dup = true
      /\ blk mm = Return mm
                    (mkBondTorsion (terms bt ++ [TorsionTerm_new p a ph]), true))
  \/ (p <> -1 /\ (~ termOk p a ph \/ dup = false) /\ blk mm = Throw mm).
Proof.
  intros Hh blk. subst blk.
  destruct (Z.eqb_spec p (-1)) as [-> | Hp]; cbn [negb].
  - left. auto.
  - right. destruct (termOk_dec p a ph) as [Hok | Hbad].
    + destruct dup.
      * left. repeat (split; [assumption || reflexivity |]).
        unfold bind at 1. rewrite (checkTorsionTerm_ok _ _ _ _ Hok).
        unfold bind at 1. cbn [apiArgCheck].
        unfold bind. rewrite (addTerm_ok _ _ _ _ _ Hok Hh). reflexivity.
      * right. split; [assumption |]. split; [now right |].
        unfold bind at 1. rewrite (checkTorsionTerm_ok _ _ _ _ Hok).
        reflexivity.
    + right. split; [assumption |]. split; [now left |].
      unfold bind at 1. now rewrite (checkTorsionTerm_bad _ _ _ _ Hbad).
Qed.

(** The last block has no test for a repeated periodicity. *)
Lemma torsion_block_last p a ph bt (g : bool) (mm : DuMM) :
  BondTorsion_hasTerm bt p = false ->
  let blk :=
    (if negb (p =? -1) then
       checkTorsionTerm p a ph ;;
       bt' <- BondTorsion_addTerm bt p a ph ;;
       ret (bt', true)
     else ret (bt, g)) in
  (p = -1 /\ blk mm = Return mm (bt, g))
  \/ (p <> -1 /\ termOk p a ph /\ True
      /\ blk mm = Return mm
                    (mkBondTorsion (terms bt ++ [TorsionTerm_new p a ph]), true))
  \/ (p <> -1 /\ (~ termOk p a ph \/ False) /\ blk mm = Throw mm).
Proof.
  intros Hh blk. subst blk.
  destruct (Z.eqb_spec p (-1)) as [-> | Hp]; cbn [negb].
  - left. auto.
  - right. destruct (termOk_dec p a ph) as [Hok | Hbad].
    + left. repeat (split; [assumption || exact I |]).
      unfold bind at 1. rewrite (checkTorsionTerm_ok _ _ _ _ Hok).
      unfold bind. rewrite (addTerm_ok _ _ _ _ _ Hok Hh). reflexivity.
    + right. split; [assumption |]. split; [now left |].
      unfold bind at 1. now rewrite (checkTorsionTerm_bad _ _ _ _ Hbad).
Qed.

Lemma set_bondTorsion_same mm : set_bondTorsion (bondTorsion mm) mm = mm.
Proof. destruct mm; reflexivity. Qed.

Lemma hasTerm_single p a ph q :
  q <> p ->
  BondTorsion_hasTerm (mkBondTorsion ([] ++ [TorsionTerm_new p a ph])) q = false.
Proof.
  intros H. unfold BondTorsion_hasTerm. cbn.
  destruct (Z.eqb_spec p q); [congruence | reflexivity].
Qed.

Lemma hasTerm_app bt p a ph q :
  q <> p -> BondTorsion_hasTerm bt q = false ->
  BondTorsion_hasTerm (mkBondTorsion (terms bt ++ [TorsionTerm_new p a ph])) q
  = false.
Proof.
  intros H Hb. unfold BondTorsion_hasTerm in *. cbn [terms].
  rewrite existsb_app, Hb. cbn.
  destruct (Z.eqb_spec p q); [congruence | reflexivity].
Qed.

(** The end of [defineBondTorsion], from the test on [gotOne]. *)
Lemma torsion_tail key (bt : BondTorsion) (g : bool) (mm : DuMM) r :
  (apiArgCheck g ;;
   mm0 <- get ;;
   (let inserted := snd (map_insert IntQuad_lt key bt (bondTorsion mm0)) in
    modify (fun mm1 =>
              set_bondTorsion
                (fst (map_insert IntQuad_lt key bt (bondTorsion mm1))) mm1) ;;
    apiArgCheck inserted)) mm = r ->
  (g = false /\ r = Throw mm)
  \/ (g = true /\ map_find IntQuad_lt key (bondTorsion mm) <> None
      /\ r = Throw mm)
  \/ (g = true /\ map_find IntQuad_lt key (bondTorsion mm) = None
      /\ r = Return (set_bondTorsion (bondTorsion mm ++ [(key, bt)]) mm) tt).
Proof.
  destruct g; [| intros <-; left; auto].
  unfold bind, get, modify, apiArgCheck, map_insert.
  destruct (map_find IntQuad_lt key (bondTorsion mm)) eqn:F; cbn [fst snd].
  - rewrite set_bondTorsion_same. intros <-. right. left.
    repeat split; congruence.
  - intros <-. right. right. auto.
Qed.

Ltac torsion_throw := intros <-; left; split; [tauto | reflexivity].

(** The outcome of [defineBondTorsion]: it throws, with the subsystem as it
    was, exactly on the bad arguments, and else returns with the new entry. *)
Lemma defineBondTorsion_outcome mm c1 c2 c3 c4 p1 a1 ph1 p2 a2 ph2 p3 a3 ph3 :
  let call := defineBondTorsion c1 c2 c3 c4 p1 a1 ph1 p2 a2 ph2 p3 a3 ph3 in
  let key := IntQuad_new c1 c2 c3 c4 true in
  let bt := mkBondTorsion (suppliedTerms p1 a1 ph1 p2 a2 ph2 p3 a3 ph3) in
  (torsionArgsBad mm c1 c2 c3 c4 p1 a1 ph1 p2 a2 ph2 p3 a3 ph3
   /\ call mm = Throw mm)
  \/ (~ torsionArgsBad mm c1 c2 c3 c4 p1 a1 ph1 p2 a2 ph2 p3 a3 ph3
      /\ call mm
         = Return (set_bondTorsion (bondTorsion mm ++ [(key, bt)]) mm) tt).
Proof.
  intros call key bt.
  cut (forall r, call mm = r ->
         (torsionArgsBad mm c1 c2 c3 c4 p1 a1 ph1 p2 a2 ph2 p3 a3 ph3
          /\ r = Throw mm)
         \/ (~ torsionArgsBad mm c1 c2 c3 c4 p1 a1 ph1 p2 a2 ph2 p3 a3 ph3
             /\ r = Return (set_bondTorsion (bondTorsion mm ++ [(key, bt)]) mm)
                           tt)).
  { intros Hc. exact (Hc _ eq_refl). }
  intros r. subst call. unfold defineBondTorsion.
  unfold torsionArgsBad, termSupplied.
  rewrite (bind_Return _ _ mm mm mm) by reflexivity.
  unfold bind at 1. unfold apiArgCheck at 1.
  destruct (isValidAtomClass mm c1) eqn:V1; [| torsion_throw].
  unfold bind at 1. unfold apiArgCheck at 1.
  destruct (isValidAtomClass mm c2) eqn:V2; [| torsion_throw].
  unfold bind at 1. unfold apiArgCheck at 1.
  destruct (isValidAtomClass mm c3) eqn:V3; [| torsion_throw].
  unfold bind at 1. unfold apiArgCheck at 1.
  destruct (isValidAtomClass mm c4) eqn:V4; [| torsion_throw].
  (* the first term *)
  unfold bind at 1.
  destruct (torsion_block p1 a1 ph1
              (negb (p2 =? p1) && negb (p3 =? p1)) BondTorsion_empty false mm
              eq_refl) as [(E1 & ->) | [(N1 & Ok1 & D1 & ->) | (N1 & B1 & ->)]].
  2: apply andb_true_iff in D1 as [D12 D13];
     apply negb_true_iff in D12, D13;
     apply Z.eqb_neq in D12, D13.
  3: { destruct B1 as [B1 | B1]; [torsion_throw |].
       apply andb_false_iff in B1 as [B1 | B1];
         apply negb_false_iff, Z.eqb_eq in B1; subst; torsion_throw. }
  - (* no first term *)
    unfold bind at 1.
    destruct (torsion_block p2 a2 ph2 (negb (p3 =? p2)) BondTorsion_empty
                false mm eq_refl)
      as [(E2 & ->) | [(N2 & Ok2 & D2 & ->) | (N2 & B2 & ->)]].
    3: { destruct B2 as [B2 | B2]; [torsion_throw |].
         apply negb_false_iff, Z.eqb_eq in B2; subst; torsion_throw. }
    + unfold bind at 1.
      destruct (torsion_block_last p3 a3 ph3 BondTorsion_empty false mm eq_refl)
        as [(E3 & ->) | [(N3 & Ok3 & _ & ->) | (N3 & B3 & ->)]].
      3: { destruct B3 as [B3 | []]; torsion_throw. }
      * intros Hr. apply torsion_tail in Hr as [[_ ->] | [[Hg _] | [Hg _]]];
          try discriminate. left. split; [tauto | reflexivity].
      * intros Hr. apply torsion_tail in Hr as [[Hg _] | [(_ & F & ->) | (_ & F & ->)]];
          try discriminate.
        -- left. split; [tauto | reflexivity].
        -- right. split.
           ++ intuition congruence.
           ++ subst bt key. unfold suppliedTerms. subst p1 p2. cbn [Z.eqb].
              destruct (Z.eqb_spec p3 (-1)); [congruence | reflexivity].
    + apply negb_true_iff, Z.eqb_neq in D2.
      unfold bind at 1.
      destruct (torsion_block_last p3 a3 ph3
                  (mkBondTorsion (terms BondTorsion_empty
                                  ++ [TorsionTerm_new p2 a2 ph2]))
                  true mm (hasTerm_single _ _ _ _ D2))
        as [(E3 & ->) | [(N3 & Ok3 & _ & ->) | (N3 & B3 & ->)]].
      3: { destruct B3 as [B3 | []]; torsion_throw. }
      * intros Hr. apply torsion_tail in Hr as [[Hg _] | [(_ & F & ->) | (_ & F & ->)]];
          try discriminate.
        -- left. split; [tauto | reflexivity].
        -- right. split.
           ++ intuition congruence.
           ++ subst bt key. unfold suppliedTerms. subst p1 p3. cbn [Z.eqb].
              destruct (Z.eqb_spec p2 (-1)); [congruence | reflexivity].
      * intros Hr. apply torsion_tail in Hr as [[Hg _] | [(_ & F & ->) | (_ & F & ->)]];
          try discriminate.
        -- left. split; [tauto | reflexivity].
        -- right. split.
           ++ intuition congruence.
           ++ subst bt key. unfold suppliedTerms. subst p1. cbn [Z.eqb].
              destruct (Z.eqb_spec p2 (-1)); [congruence |].
              destruct (Z.eqb_spec p3 (-1)); [congruence |].
              cbn. reflexivity.
  - (* a first term *)
    assert (H2 : BondTorsion_hasTerm
                   (mkBondTorsion (terms BondTorsion_empty
                                   ++ [TorsionTerm_new p1 a1 ph1])) p2 = false)
      by (apply hasTerm_single; exact D12).
    unfold bind at 1.
    destruct (torsion_block p2 a2 ph2 (negb (p3 =? p2)) _ true mm H2)
      as [(E2 & ->) | [(N2 & Ok2 & D2 & ->) | (N2 & B2 & ->)]].
    3: { destruct B2 as [B2 | B2]; [torsion_throw |].
         apply negb_false_iff, Z.eqb_eq in B2; subst; torsion_throw. }
    + assert (H3 : BondTorsion_hasTerm
                     (mkBondTorsion (terms BondTorsion_empty
                                     ++ [TorsionTerm_new p1 a1 ph1])) p3 = false)
        by (apply hasTerm_single; exact D13).
      unfold bind at 1.
      destruct (torsion_block_last p3 a3 ph3 _ true mm H3)
        as [(E3 & ->) | [(N3 & Ok3 & _ & ->) | (N3 & B3 & ->)]].
      3: { destruct B3 as [B3 | []]; torsion_throw. }
      * intros Hr. apply torsion_tail in Hr as [[Hg _] | [(_ & F & ->) | (_ & F & ->)]];
          try discriminate.
        -- left. split; [tauto | reflexivity].
        -- right. split.
           ++ intuition congruence.
           ++ subst bt key. unfold suppliedTerms. subst p2 p3. cbn [Z.eqb].
              destruct (Z.eqb_spec p1 (-1)); [congruence | reflexivity].
      * intros Hr. apply torsion_tail in Hr as [[Hg _] | [(_ & F & ->) | (_ & F & ->)]];
          try discriminate.
        -- left. split; [tauto | reflexivity].
        -- right. split.
           ++ intuition congruence.
           ++ subst bt key. unfold suppliedTerms. subst p2. cbn [Z.eqb].
              destruct (Z.eqb_spec p1 (-1)); [congruence |].
              destruct (Z.eqb_spec p3 (-1)); [congruence | reflexivity].
    + apply negb_true_iff, Z.eqb_neq in D2.
      assert (H3 : BondTorsion_hasTerm
                     (mkBondTorsion
                        (terms (mkBondTorsion (terms BondTorsion_empty
                                   ++ [TorsionTerm_new p1 a1 ph1]))
                         ++ [TorsionTerm_new p2 a2 ph2])) p3 = false)
        by (apply hasTerm_app; [exact D2 | apply hasTerm_single; exact D13]).
      unfold bind at 1.
      destruct (torsion_block_last p3 a3 ph3 _ true mm H3)
        as [(E3 & ->) | [(N3 & Ok3 & _ & ->) | (N3 & B3 & ->)]].
      3: { destruct B3 as [B3 | []]; torsion_throw. }
      * intros Hr. apply torsion_tail in Hr as [[Hg _] | [(_ & F & ->) | (_ & F & ->)]];
          try discriminate.
        -- left. split; [tauto | reflexivity].
        -- right. split.
           ++ intuition congruence.
           ++ subst bt key. unfold suppliedTerms. subst p3. cbn [Z.eqb].
              destruct (Z.eqb_spec p1 (-1)); [congruence |].
              destruct (Z.eqb_spec p2 (-1)); [congruence |].
              cbn. reflexivity.
      * intros Hr. apply torsion_tail in Hr as [[Hg _] | [(_ & F & ->) | (_ & F & ->)]];
          try discriminate.
        -- left. split; [tauto | reflexivity].
        -- right. split.
           ++ intuition congruence.
           ++ subst bt key. unfold suppliedTerms.
              destruct (Z.eqb_spec p1 (-1)); [congruence |].
              destruct (Z.eqb_spec p2 (-1)); [congruence |].
              destruct (Z.eqb_spec p3 (-1)); [congruence |].
              cbn. reflexivity.
Qed.

(** C9. [defineBondTorsion] throws if and only if a class id is not a
    defined atom class, a supplied term has its periodicity outside [1,6], a
    negative amplitude or a phase outside [0,180] degrees, two supplied terms
    share a periodicity, no term is supplied, or the canonical class quad has
    a torsion already; a throw leaves the subsystem (and so the torsion
    catalog) as it was; otherwise the call returns, the catalog holds under
    the canonical quad a [BondTorsion] with exactly the supplied terms (one
    to three of them), and every other entry is as before. *)
Theorem defineBondTorsion_fails_iff
    mm c1 c2 c3 c4 p1 a1 ph1 p2 a2 ph2 p3 a3 ph3 :
  let call := defineBondTorsion c1 c2 c3 c4 p1 a1 ph1 p2 a2 ph2 p3 a3 ph3 in
  let key := IntQuad_new c1 c2 c3 c4 true in
  let supplied := suppliedTerms p1 a1 ph1 p2 a2 ph2 p3 a3 ph3 in
  let bad := torsionArgsBad mm c1 c2 c3 c4 p1 a1 ph1 p2 a2 ph2 p3 a3 ph3 in
  ((exists mm', call mm = Throw mm') <-> bad)
  /\ (forall mm', call mm = Throw mm' ->
        mm' = mm /\ bondTorsion mm' = bondTorsion mm)
  /\ (~ bad ->
      exists mm',
        call mm = Return mm' tt
        /\ map_find IntQuad_lt key (bondTorsion mm')
           = Some (mkBondTorsion supplied)
        /\ (1 <= length supplied <= 3)%nat
        /\ (forall k, k <> key ->
              map_find IntQuad_lt k (bondTorsion mm')
              = map_find IntQuad_lt k (bondTorsion mm))).
Proof.
  intros call key supplied bad.
  destruct (defineBondTorsion_outcome mm c1 c2 c3 c4 p1 a1 ph1 p2 a2 ph2 p3 a3 ph3)
    as [[Hbad Hrun] | [Hok Hrun]]; fold call key supplied bad in Hrun, Hbad || fold call key supplied bad in Hrun, Hok.
  - split; [| split].
    + split; [intros _; exact Hbad | intros _; eauto].
    + intros mm' H. rewrite Hrun in H. inversion H; subst. auto.
    + intros Hn. contradiction.
  - split; [| split].
    + split; [intros [mm' H]; rewrite Hrun in H; discriminate | intros H; contradiction].
    + intros mm' H. rewrite Hrun in H. discriminate.
    + intros _. eexists. split; [exact Hrun |].
      cbn [bondTorsion set_bondTorsion].
      assert (F : map_find IntQuad_lt key (bondTorsion mm) = None).
      { destruct (map_find IntQuad_lt key (bondTorsion mm)) eqn:F; [| reflexivity].
        exfalso. apply Hok. unfold bad, torsionArgsBad. fold key.
        do 11 right. congruence. }
      destruct (map_insert_new IntQuad_lt IntQuad_equivb_eq key
                  (mkBondTorsion supplied) (bondTorsion mm) F) as (_ & H1 & H2).
      split; [exact H1 |]. split; [| exact H2].
      assert (Hs : ~ (p1 = -1 /\ p2 = -1 /\ p3 = -1)).
      { intros Hc. apply Hok. unfold bad, torsionArgsBad. do 10 right. now left. }
      subst supplied. unfold suppliedTerms.
      destruct (Z.eqb_spec p1 (-1)), (Z.eqb_spec p2 (-1)), (Z.eqb_spec p3 (-1));
        cbn; lia.
Qed.

(* ================================================================= *)
(** ** Building the lists of bond paths *)

Lemma intset_mem_In x s : intset_mem x s = true <-> In x s.
Proof.
  unfold intset_mem. rewrite existsb_exists. split.
  - intros (y & Hy & E). apply Z.eqb_eq in E. now subst.
  - intros H. exists x. split; [exact H | apply Z.eqb_refl].
Qed.

Lemma intset_mem_false x s : intset_mem x s = false <-> ~ In x s.
Proof.
  rewrite <- intset_mem_In. destruct (intset_mem x s); split; congruence.
Qed.

Lemma intset_insert_In x s y : In y (intset_insert x s) <-> y = x \/ In y s.
Proof.
  unfold intset_insert. destruct (intset_mem x s) eqn:E.
  - apply intset_mem_In in E. split; [auto | intros [-> | H]; auto].
  - simpl. split; intros [H | H]; auto.
Qed.

Lemma intset_insert_all_In l : forall s y,
  In y (intset_insert_all l s) <-> In y l \/ In y s.
Proof.
  unfold intset_insert_all.
  induction l as [| x l IH]; simpl; intros s y.
  - tauto.
  - rewrite IH, intset_insert_In. split; intros H; intuition auto.
Qed.

(** One pass over the direct bonds of an atom: the atoms that were not
    visited yet are visited now, and a path is pushed for each of them, in
    order and once. *)
Lemma extendPaths_spec {C} (mk : Z -> C) (nb : list Z) :
  forall (st : list Z * list C),
  exists news,
    snd (extendPaths mk nb st) = snd st ++ map mk news
    /\ NoDup news
    /\ (forall n, In n news <-> In n nb /\ ~ In n (fst st))
    /\ (forall n, In n (fst (extendPaths mk nb st))
                  <-> In n (fst st) \/ In n nb).
Proof.
  unfold extendPaths.
  induction nb as [| x nb IH]; simpl; intros st.
  - exists []. rewrite app_nil_r. simpl.
    split; [reflexivity |]. split; [constructor |]. split; intros n; tauto.
  - destruct (intset_mem x (fst st)) eqn:E.
    + apply intset_mem_In in E.
      destruct (IH st) as (news & H1 & H2 & H3 & H4).
      exists news. split; [exact H1 |]. split; [exact H2 |].
      split; intros n; [rewrite H3 | rewrite H4]; split.
      * tauto.
      * intros [[-> | H] Hn]; [contradiction | tauto].
      * tauto.
      * intros [H | [-> | H]]; auto.
    + apply intset_mem_false in E.
      destruct (IH (intset_insert x (fst st), snd st ++ [mk x]))
        as (news & H1 & H2 & H3 & H4).
      cbn [fst snd] in *.
      exists (x :: news). split; [| split; [| split]].
      * rewrite H1, <- app_assoc. reflexivity.
      * constructor; [| exact H2]. intros H. apply H3 in H.
        destruct H as [_ H]. apply H. apply intset_insert_In. now left.
      * intros n. simpl. rewrite H3, intset_insert_In. split.
        -- intros [<- | [H Hn]]; [tauto |]. split; [tauto |].
           intros Hc. apply Hn. now right.
        -- intros [[<- | H] Hn]; [now left |].
           destruct (Z.eq_dec n x) as [-> | Hne]; [now left |].
           right. split; [exact H |]. tauto.
      * intros n. rewrite H4, intset_insert_In. intuition congruence.
Qed.

Lemma map_tail_mk {P C} (mk : P -> Z -> C) (tl : C -> Z) p news :
  (forall p n, tl (mk p n) = n) -> map tl (map (mk p) news) = news.
Proof.
  intros Htl. rewrite map_map. rewrite <- (map_id news) at 2.
  apply map_ext. intros n. apply Htl.
Qed.

(** The loop that builds one list of paths from the previous one, with the
    set of visited atoms and the paths found so far as accumulators. *)
Lemma buildPaths_acc {P C} (from : P -> Z) (mk : P -> Z -> C) (tl : C -> Z) :
  (forall p n, tl (mk p n) = n) ->
  forall prev v acc s s' r,
    foldM (fun st p =>
             mm <- get ;;
             a1x <- must (at_ (atoms mm) (from p)) ;;
             ret (extendPaths (mk p) (bond12 a1x) st))
          prev (v, acc) s = Return s' r ->
    s' = s
    /\ exists added,
         snd r = acc ++ added
         /\ NoDup (map tl added)
         /\ (forall c, In c added ->
               exists p n, c = mk p n /\ In p prev
                           /\ bonded s (from p) n /\ ~ In n v)
         /\ (forall n, In n (fst r) <-> In n v \/ In n (map tl added))
         /\ (forall p n, In p prev -> bonded s (from p) n -> In n (fst r)).
Proof.
  intros Htl. induction prev as [| p prev IH]; intros v acc s s' r H.
  - simpl in H. inv_step H. split; [reflexivity |].
    exists []. rewrite app_nil_r. simpl.
    split; [reflexivity |]. split; [constructor |].
    split; [intros c [] |]. split; [tauto | intros p n []].
  - simpl in H. apply bind_inv in H as (s0 & st1 & H0 & H).
    apply bind_inv in H0 as (s1 & mm & Hg & H0). apply get_inv in Hg as [-> ->].
    apply bind_inv in H0 as (s2 & a0 & Hm & H0). apply must_inv in Hm as [Hm ->].
    apply ret_inv in H0 as [-> ->].
    destruct (extendPaths_spec (mk p) (bond12 a0) (v, acc))
      as (news & E1 & E2 & E3 & E4).
    destruct (extendPaths (mk p) (bond12 a0) (v, acc)) as [v1 acc1] eqn:EP.
    cbn [fst snd] in *.
    apply IH in H as (-> & added & A1 & A2 & A3 & A4 & A5).
    split; [reflexivity |].
    exists (map (mk p) news ++ added).
    split; [| split; [| split; [| split]]].
    + rewrite A1, E1, app_assoc. reflexivity.
    + rewrite map_app, (map_tail_mk mk tl p news Htl).
      apply NoDup_app; [exact E2 | exact A2 |].
      intros n Hn Hc. apply in_map_iff in Hc as (c & <- & Hc).
      destruct (A3 c Hc) as (q & m & -> & _ & _ & Hv). rewrite Htl in Hn.
      apply Hv, E4. right. now apply E3 in Hn.
    + intros c Hc. apply in_app_or in Hc as [Hc | Hc].
      * apply in_map_iff in Hc as (n & <- & Hn). apply E3 in Hn.
        exists p, n. split; [reflexivity |]. split; [now left |].
        split; [| tauto]. exists a0. tauto.
      * destruct (A3 c Hc) as (q & m & -> & Hq & Hb & Hv).
        exists q, m. split; [reflexivity |]. split; [now right |].
        split; [exact Hb |]. intros Hc'. apply Hv, E4. now left.
    + intros n. rewrite A4, E4, map_app, (map_tail_mk mk tl p news Htl),
        in_app_iff, E3.
      destruct (in_dec Z.eq_dec n v); tauto.
    + intros q n [<- | Hq] Hb.
      * apply A4. left. apply E4. right.
        destruct Hb as (a' & Ha' & Hn). congruence.
      * eapply A5; eauto.
Qed.

Lemma buildPaths_spec {P C} (from : P -> Z) (mk : P -> Z -> C) (tl : C -> Z) :
  (forall p n, tl (mk p n) = n) ->
  forall prev v s s' r,
    buildPaths from mk prev v s = Return s' r ->
    s' = s
    /\ NoDup (map tl (snd r))
    /\ (forall c, In c (snd r) ->
          exists p n, c = mk p n /\ In p prev /\ bonded s (from p) n)
    /\ (forall n, In n (map tl (snd r)) <->
                  ~ In n v /\ exists p, In p prev /\ bonded s (from p) n)
    /\ (forall n, In n (fst r) <-> In n v \/ In n (map tl (snd r))).
Proof.
  intros Htl prev v s s' r H. unfold buildPaths in H.
  apply (buildPaths_acc from mk tl Htl) in H
    as (-> & added & A1 & A2 & A3 & A4 & A5).
  simpl in A1. subst added.
  split; [reflexivity |]. split; [exact A2 |].
  split; [| split; [| exact A4]].
  - intros c Hc. destruct (A3 c Hc) as (p & n & -> & Hp & Hb & _). eauto.
  - intros n. split.
    + intros Hn. apply in_map_iff in Hn as (c & <- & Hc).
      destruct (A3 c Hc) as (p & m & -> & Hp & Hb & Hv).
      rewrite Htl. eauto.
    + intros (Hv & p & Hp & Hb).
      pose proof (A5 p n Hp Hb) as Hin. apply A4 in Hin. tauto.
Qed.

(* ================================================================= *)
(** ** Calls that only read *)

Lemma readonly_ret {S A} (a : A) : readonly (@ret S A a).
Proof. intros s s' x H. now apply ret_inv in H. Qed.

Lemma readonly_get {S} : readonly (@get S).
Proof. intros s s' x H. now apply get_inv in H. Qed.

Lemma readonly_assert {S} b : readonly (@assert S b).
Proof. intros s s' x H. now apply assert_inv in H. Qed.

Lemma readonly_must {S A} (o : option A) : readonly (@must S A o).
Proof. intros s s' x H. now apply must_inv in H. Qed.

Lemma readonly_bind {S A B} (m : M S A) (k : A -> M S B) :
  readonly m -> (forall a, readonly (k a)) -> readonly (bind m k).
Proof.
  intros Hm Hk s s' b H. apply bind_inv in H as (s1 & a & H1 & H2).
  apply Hm in H1. subst s1. now apply Hk in H2.
Qed.

Lemma readonly_if {S A} (b : bool) (m1 m2 : M S A) :
  readonly m1 -> readonly m2 -> readonly (if b then m1 else m2).
Proof. destruct b; auto. Qed.

Ltac readonly_auto :=
  repeat first
    [ apply readonly_ret | apply readonly_get | apply readonly_assert
    | apply readonly_must
    | apply readonly_bind; [| intros ?]
    | apply readonly_if
    | progress autounfold with ops ].

Lemma getAtomClassNum_readonly i : readonly (getAtomClassNum i).
Proof. readonly_auto. Qed.

Lemma getBondBend_readonly c1 c2 c3 : readonly (getBondBend c1 c2 c3).
Proof. readonly_auto. Qed.

Lemma getBondStretch_readonly c1 c2 : readonly (getBondStretch c1 c2).
Proof. readonly_auto. Qed.

Lemma getBondTorsion_readonly c1 c2 c3 c4 :
  readonly (getBondTorsion c1 c2 c3 c4).
Proof. readonly_auto. Qed.

Lemma offBody_readonly i b rest : readonly rest -> readonly (offBody i b rest).
Proof. intros H. readonly_auto. exact H. Qed.

Lemma filterM_inv {S A} (f : A -> M S bool) :
  (forall x, readonly (f x)) ->
  forall l s s' ys, filterM f l s = Return s' ys -> s' = s /\ incl ys l.
Proof.
  intros Hf. induction l as [| x l IH]; simpl; intros s s' ys H.
  - apply ret_inv in H as [-> ->]. split; [reflexivity | apply incl_refl].
  - apply bind_inv in H as (s1 & b & H1 & H).
    apply Hf in H1. subst s1.
    apply bind_inv in H as (s2 & zs & H2 & H).
    apply IH in H2 as [-> Hi]. apply ret_inv in H as [-> ->].
    split; [reflexivity |].
    destruct b; [apply incl_cons; [now left | now apply incl_tl] |
                 now apply incl_tl].
Qed.

Lemma mapM_inv {S A B} (f : A -> M S B) :
  (forall x, readonly (f x)) ->
  forall l s s' ys,
    mapM f l s = Return s' ys ->
    s' = s /\ Forall2 (fun x y => f x s = Return s y) l ys.
Proof.
  intros Hf. induction l as [| x l IH]; simpl; intros s s' ys H.
  - apply ret_inv in H as [-> ->]. split; [reflexivity | constructor].
  - apply bind_inv in H as (s1 & y & H1 & H).
    pose proof (Hf _ _ _ _ H1). subst s1.
    apply bind_inv in H as (s2 & zs & H2 & H).
    apply IH in H2 as [-> Hi]. apply ret_inv in H as [-> ->].
    split; [reflexivity |]. constructor; assumption.
Qed.

Lemma sortChecked_inv {S K} (v : K -> bool) (lt : K -> K -> bool) l
    (s s' : S) r :
  sortChecked v lt l s = Return s' r -> s' = s /\ r = sort lt l.
Proof.
  unfold sortChecked. intros H.
  apply bind_inv in H as (s1 & u & H1 & H).
  apply assert_inv in H1 as [_ ->]. apply ret_inv in H as [-> ->]. auto.
Qed.

(* ================================================================= *)
(** ** What the last loop of the realization keeps *)

Lemma atom_topo_refl a : atom_topo a a.
Proof. repeat split; apply Permutation_refl. Qed.

Lemma atom_topo_trans a b c : atom_topo a b -> atom_topo b c -> atom_topo a c.
Proof.
  intros (H1 & H2 & H3 & H4) (G1 & G2 & G3 & G4).
  repeat split; try congruence. eapply perm_trans; eauto.
Qed.

Lemma atoms_topo_refl l : Forall2 atom_topo l l.
Proof. induction l; constructor; auto using atom_topo_refl. Qed.

Lemma atoms_topo_trans l1 l2 l3 :
  Forall2 atom_topo l1 l2 -> Forall2 atom_topo l2 l3 -> Forall2 atom_topo l1 l3.
Proof.
  intros H. revert l3. induction H; intros l3 H3; inversion H3; subst;
    constructor; eauto using atom_topo_trans.
Qed.

Lemma atoms_topo_upd_at l i f :
  (forall a, atom_topo a (f a)) -> Forall2 atom_topo l (upd_at l i f).
Proof.
  intros Hf. unfold upd_at. destruct (i <? 0); [apply atoms_topo_refl |].
  generalize (Z.to_nat i). induction l; intros [| n]; simpl; constructor;
    auto using atom_topo_refl, atoms_topo_refl.
Qed.

#[export] Instance keeps_topo_frame : FrameRel keeps_topo.
Proof.
  split.
  - intros s. repeat split; auto using atoms_topo_refl.
  - intros a b c (H1 & H2 & H3 & H4 & H5) (G1 & G2 & G3 & G4 & G5).
    repeat split; try congruence. eapply atoms_topo_trans; eauto.
Qed.

Lemma bonded_topo s s' i j : keeps_topo s s' -> bonded s i j <-> bonded s' i j.
Proof.
  intros (Ha & _). split; intros (a & Hi & Hj).
  - destruct (Forall2_at_l _ _ _ _ _ Ha Hi) as (a' & Hi' & Hp & _).
    exists a'. split; [exact Hi' |]. eapply Permutation_in; eauto.
  - destruct (Forall2_at _ _ _ _ _ Ha Hi) as (a' & Hi' & Hp & _).
    exists a'. split; [exact Hi' |].
    eapply Permutation_in; [apply Permutation_sym |]; eauto.
Qed.

(** The class of an atom in closed form. *)
Lemma classOf_eq mm i :
  classOf mm i =
  match at_ (atoms mm) i with
  | Some a =>
      if Atom_isValid a
      then option_map atomClass
             (at_ (chargedAtomTypes mm) (atom_chargedAtomTypeId a))
      else None
  | None => None
  end.
Proof.
  unfold classOf, getAtomClassNum, getChargedAtomTypeNum, getAtom, bind, get,
    assert, must, ret, isValidAtom, isValidAt.
  destruct (at_ (atoms mm) i) as [a |] eqn:E.
  - pose proof (at_length _ _ _ E) as Hl.
    destruct (Z.leb_spec 0 i), (Z.ltb_spec i (size (atoms mm))); try lia.
    simpl. destruct (Atom_isValid a); [| reflexivity].
    destruct (at_ (chargedAtomTypes mm) (atom_chargedAtomTypeId a));
      reflexivity.
  - rewrite andb_false_r. reflexivity.
Qed.

Lemma getAtomClassNum_classOf i s s' c :
  getAtomClassNum i s = Return s' c -> classOf s i = Some c.
Proof. intros H. unfold classOf. now rewrite H. Qed.

Lemma Atom_isValid_topo a a' : atom_topo a a' -> Atom_isValid a' = Atom_isValid a.
Proof. intros (_ & H1 & H2 & _). unfold Atom_isValid. now rewrite H1, H2. Qed.

Lemma classOf_topo s s' i : keeps_topo s s' -> classOf s' i = classOf s i.
Proof.
  intros (Ha & Ht & _). rewrite !classOf_eq, Ht.
  destruct (at_ (atoms s) i) as [a |] eqn:E.
  - destruct (Forall2_at_l _ _ _ _ _ Ha E) as (a' & -> & Hp).
    rewrite (Atom_isValid_topo _ _ Hp).
    destruct Hp as (_ & _ & -> & _). reflexivity.
  - destruct (at_ (atoms s') i) as [a' |] eqn:E'; [| reflexivity].
    destruct (Forall2_at _ _ _ _ _ Ha E') as (a & Hc & _). congruence.
Qed.

Lemma bendOf_topo s s' c1 c2 c3 :
  keeps_topo s s' -> bendOf s' c1 c2 c3 = bendOf s c1 c2 c3.
Proof. intros (_ & _ & _ & H & _). unfold bendOf. now rewrite H. Qed.

(** The derived lists that are right for a graph are right for every
    subsystem with the same graph and catalog. *)
Lemma derived_ok_topo s s' i d :
  keeps_topo s s' -> derived_ok s i d -> derived_ok s' i d.
Proof.
  intros K [D1 D2 D3 D4 D5 D6 D7 D8 D9 D10].
  pose proof (fun x y => bonded_topo s s' x y K) as B.
  split; auto.
  - intros b. rewrite D1. rewrite B.
    split; intros (H1 & H2 & m & H3 & H4); (split; [exact H1 |]);
      (split; [exact H2 |]); exists m; split; apply B; assumption.
  - intros b. rewrite D2. rewrite B.
    split; intros (H1 & H2 & H3 & t & H4 & H5); repeat (split; [assumption |]);
      exists t; (split; [exact H4 |]); apply B; assumption.
  - intros p Hp. destruct (D5 p Hp). split; apply B; assumption.
  - intros n p Hp. destruct (D10 n p Hp) as (c & cm & ct & bb & H).
    exists c, cm, ct, bb.
    rewrite !(classOf_topo s s') by exact K.
    rewrite (bendOf_topo s s') by exact K. exact H.
Qed.

(* ================================================================= *)
(** ** The bond paths of one atom *)

Lemma modAtom_inv i f s s' u :
  modAtom i f s = Return s' u ->
  exists a, at_ (atoms s) i = Some a
            /\ s' = set_atoms (upd_at (atoms s) i f) s.
Proof.
  unfold modAtom. intros H.
  apply bind_inv in H as (s1 & mm & Hg & H). apply get_inv in Hg as [-> ->].
  apply bind_inv in H as (s2 & a & Hm & H). apply must_inv in Hm as [Hm ->].
  apply modify_inv in H. eauto.
Qed.

Lemma modAtom_topo i f s s' u :
  (forall a, atom_topo a (f a)) ->
  modAtom i f s = Return s' u ->
  keeps_topo s s'
  /\ (forall j, j <> i -> at_ (atoms s') j = at_ (atoms s) j)
  /\ at_ (atoms s') i = option_map f (at_ (atoms s) i).
Proof.
  intros Hf H. apply modAtom_inv in H as (a & Ha & ->). cbn.
  split; [| split].
  - repeat split. now apply atoms_topo_upd_at.
  - intros j Hj. now apply upd_at_neq.
  - apply upd_at_eq.
Qed.

Lemma In_map_sort {K B} (lt : K -> K -> bool) (f : K -> B) l x :
  In x (map f (sort lt l)) <-> In x (map f l).
Proof.
  split; apply Permutation_in, Permutation_map;
    [apply Permutation_sym |]; apply sort_perm.
Qed.

Lemma NoDup_map_sort {K B} (lt : K -> K -> bool) (f : K -> B) l :
  NoDup (map f l) -> NoDup (map f (sort lt l)).
Proof. apply Permutation_NoDup, Permutation_map, sort_perm. Qed.

(** The lookup of a bend, taken apart. *)
Lemma bend_lookup_inv i p s bb :
  (c1 <- getAtomClassNum i ;;
   c2 <- getAtomClassNum (ip0 p) ;;
   c3 <- getAtomClassNum (ip1 p) ;;
   getBondBend c1 c2 c3) s = Return s bb ->
  exists c cm ct,
    classOf s i = Some c /\ classOf s (ip0 p) = Some cm
    /\ classOf s (ip1 p) = Some ct /\ bendOf s c cm ct = Some bb.
Proof.
  intros H.
  apply bind_inv in H as (s1 & c & H1 & H).
  pose proof (getAtomClassNum_readonly _ _ _ _ H1). subst s1.
  apply bind_inv in H as (s1 & cm & H2 & H).
  pose proof (getAtomClassNum_readonly _ _ _ _ H2). subst s1.
  apply bind_inv in H as (s1 & ct & H3 & H).
  pose proof (getAtomClassNum_readonly _ _ _ _ H3). subst s1.
  unfold getBondBend in H.
  apply bind_inv in H as (s1 & mm & Hg & H). apply get_inv in Hg as [-> ->].
  apply must_inv in H as [H _].
  exists c, cm, ct.
  repeat split; try (eapply getAtomClassNum_classOf; eassumption). exact H.
Qed.


Lemma realizeAtomBonds_spec i s s' u :
  realizeAtomBonds i s = Return s' u ->
  keeps_topo s s'
  /\ (forall j, j <> i -> at_ (atoms s') j = at_ (atoms s) j)
  /\ exists d, at_ (atoms s') i = Some d /\ derived_ok s' i d.
Proof.
  unfold realizeAtomBonds. intros H.
  apply bind_inv in H as (s0 & mm & Hg & H). apply get_inv in Hg as [-> ->].
  apply bind_inv in H as (s0 & a & Ha & H). apply must_inv in Ha as [Ha ->].
  apply bind_inv in H as (s1 & u1 & Hsort & H).
  apply modAtom_topo in Hsort as (K1 & O1 & I1);
    [| intros x; repeat split; cbn; apply sort_perm].
  rewrite Ha in I1. cbn [option_map] in I1.
  cbv zeta in H.
  set (b12 := sort Z.ltb (bond12 a)) in *.
  apply bind_inv in H as (s2 & r13 & H13 & H).
  apply (buildPaths_spec (fun b => b) (fun b c => IntPair_new b c false) ip1)
    in H13 as (-> & N13 & P13 & T13 & V13); [| reflexivity].
  apply bind_inv in H as (s2 & b13 & S13 & H).
  apply sortChecked_inv in S13 as [-> ->].
  apply bind_inv in H as (s2 & r14 & H14 & H).
  apply (buildPaths_spec ip1 (fun p c => IntTriple_new (ip0 p) (ip1 p) c false)
                         it2)
    in H14 as (-> & N14 & P14 & T14 & V14); [| reflexivity].
  apply bind_inv in H as (s2 & b14 & S14 & H).
  apply sortChecked_inv in S14 as [-> ->].
  apply bind_inv in H as (s2 & r15 & H15 & H).
  apply (buildPaths_spec it1
           (fun t c => IntQuad_new (it0 t) (it1 t) (it2 t) c false) iq3)
    in H15 as (-> & N15 & P15 & T15 & V15); [| reflexivity].
  apply bind_inv in H as (s2 & b15 & S15 & H).
  apply sortChecked_inv in S15 as [-> ->].
  apply bind_inv in H as (s2 & x12 & X12 & H).
  apply filterM_inv in X12 as [-> X12];
    [| intros x; apply offBody_readonly, readonly_ret].
  apply bind_inv in H as (s2 & x13 & X13 & H).
  apply filterM_inv in X13 as [-> X13];
    [| intros x; repeat apply offBody_readonly; apply readonly_ret].
  apply bind_inv in H as (s2 & x14 & X14 & H).
  apply filterM_inv in X14 as [-> X14];
    [| intros x; repeat apply offBody_readonly; apply readonly_ret].
  apply bind_inv in H as (s2 & x15 & X15 & H).
  apply filterM_inv in X15 as [-> X15];
    [| intros x; repeat apply offBody_readonly; apply readonly_ret].
  apply bind_inv in H as (s2 & st & ST & H).
  apply mapM_inv in ST as [-> ST];
    [| intros x; pose proof getAtomClassNum_readonly;
       pose proof getBondStretch_readonly; readonly_auto; auto].
  apply bind_inv in H as (s2 & be & BE & H).
  apply mapM_inv in BE as [-> BE];
    [| intros x; pose proof getAtomClassNum_readonly;
       pose proof getBondBend_readonly; readonly_auto; auto].
  apply bind_inv in H as (s2 & to & TO & H).
  apply mapM_inv in TO as [-> TO];
    [| intros x; pose proof getAtomClassNum_readonly;
       pose proof getBondTorsion_readonly; readonly_auto; auto].
  apply modAtom_topo in H as (K2 & O2 & I2);
    [| intros x; repeat split; cbn; apply Permutation_refl].
  rewrite I1 in I2. cbn [option_map] in I2.
  split; [eapply frame_trans; eauto |].
  split; [intros j Hj; rewrite O2, O1 by exact Hj; reflexivity |].
  eexists. split; [exact I2 |].
  apply (derived_ok_topo s1 s' _ _ K2).
  set (s13 := sort IntPair_lt (snd r13)) in *.
  set (s14 := sort IntTriple_lt (snd r14)) in *.
  assert (Hb12 : forall p, In p b12 <-> bonded s1 i p).
  { intros p. unfold bonded. rewrite I1. split.
    - intros Hp. eexists. split; [reflexivity | exact Hp].
    - intros (a' & E & Hp). inversion E; subst a'. exact Hp. }
  assert (Hv0 : forall n, In n (intset_insert_all b12 (intset_insert i []))
                          <-> In n b12 \/ n = i).
  { intros n. rewrite intset_insert_all_In, intset_insert_In. simpl. tauto. }
  assert (Ht13 : forall n, In n (map ip1 s13) <-> In n (map ip1 (snd r13)))
    by (intros n; apply In_map_sort).
  assert (Ht14 : forall n, In n (map it2 s14) <-> In n (map it2 (snd r14)))
    by (intros n; apply In_map_sort).
  assert (Hex : forall b, (exists p, In p s13 /\ bonded s1 (ip1 p) b)
                          <-> exists t, In t (map ip1 s13) /\ bonded s1 t b).
  { intros b. split.
    - intros (p & Hp & Hb). exists (ip1 p). split; [now apply in_map | exact Hb].
    - intros (t & Ht & Hb). apply in_map_iff in Ht as (p & <- & Hp). eauto. }
  assert (H15 : snd r15 = []).
  { destruct (snd r15) as [| c l] eqn:E; [reflexivity | exfalso].
    assert (Hc : In (iq3 c) (map iq3 (c :: l))) by now left.
    apply T15 in Hc as (Hn & p & Hp & Hb).
    apply sort_In in Hp. destruct (P14 p Hp) as (q & m & -> & Hq & _).
    cbn in Hb. apply Hn, V14.
    destruct (in_dec Z.eq_dec (iq3 c) (fst r13)) as [Hi | Hi]; [now left |].
    right. apply T14. split; [exact Hi |]. exists q. split; assumption. }
  split; cbn [tails13 tails14 tails15 bond12 bond13 bond14 bond15 xbond12
              xbond13 xbond14 xbond15 bend Atom_setDerived Atom_setBond12].
  - intros b. rewrite Ht13, T13, Hv0. split.
    + intros (Hn & p & Hp & Hb). split; [tauto |].
      split; [rewrite <- Hb12; tauto |]. exists p. split; [now apply Hb12 | exact Hb].
    + intros (Hne & Hnb & m & Hm & Hb). split.
      * rewrite Hb12. tauto.
      * exists m. split; [now apply Hb12 | exact Hb].
  - intros b. rewrite Ht14, T14, V13, Hv0, Hex, <- Ht13, Hb12. tauto.
  - rewrite H15. reflexivity.
  - apply NoDup_app.
    + now apply NoDup_map_sort.
    + now apply NoDup_map_sort.
    + intros n H13' H14'. apply Ht14, T14 in H14' as (Hn & _).
      apply Hn, V13. right. now apply Ht13.
  - intros p Hp. apply sort_In in Hp.
    destruct (P13 p Hp) as (q & n & -> & Hq & Hb). cbn.
    split; [now apply Hb12 | exact Hb].
  - exact X12.
  - exact X13.
  - exact X14.
  - rewrite H15 in X15. cbn in X15. now apply incl_l_nil.
  - intros n p Hp.
    destruct (Forall2_at_l _ _ _ _ _ BE Hp) as (bb & Hbb & Hl).
    apply bend_lookup_inv in Hl as (c & cm & ct & H1 & H2 & H3 & H4).
    exists c, cm, ct, bb. auto.
Qed.

(* ================================================================= *)
(** ** The bond paths of every atom *)

(** A loop over the indices of a vector, with an invariant. *)
Lemma forEach_indices_inv {S} (Inv : nat -> S -> Prop) (body : Z -> M S unit) :
  forall n start s s',
    Inv start s ->
    (forall k s s', (start <= k < start + n)%nat -> Inv k s ->
                    body (Z.of_nat k) s = Return s' tt -> Inv (Datatypes.S k) s') ->
    forEach (map Z.of_nat (seq start n)) body s = Return s' tt ->
    Inv (start + n)%nat s'.
Proof.
  induction n as [| n IH]; intros start s s' H0 Hstep H; simpl in H.
  - apply ret_inv in H as [_ ->]. now rewrite Nat.add_0_r.
  - apply bind_inv in H as (s1 & [] & H1 & H).
    replace (start + Datatypes.S n)%nat with (Datatypes.S start + n)%nat by lia.
    apply (IH (Datatypes.S start) s1 s').
    + apply (Hstep start s s1); [lia | exact H0 | exact H1].
    + intros k t t' Hk. apply Hstep. lia.
    + exact H.
Qed.

Lemma keeps_topo_length s s' :
  keeps_topo s s' -> length (atoms s') = length (atoms s).
Proof. intros (H & _). symmetry. eapply Forall2_length; eauto. Qed.

Lemma realizeAllAtomBonds_spec s s' u :
  forIndices atoms realizeAtomBonds s = Return s' u ->
  keeps_topo s s'
  /\ forall i d, at_ (atoms s') i = Some d -> derived_ok s' i d.
Proof.
  unfold forIndices. intros H.
  apply bind_inv in H as (s0 & mm & Hg & H). apply get_inv in Hg as [-> ->].
  destruct u. unfold indices in H.
  apply (forEach_indices_inv
           (fun k sk => keeps_topo s sk
                        /\ forall i d, 0 <= i < Z.of_nat k ->
                             at_ (atoms sk) i = Some d -> derived_ok sk i d))
    in H.
  - destruct H as [K D]. split; [exact K |].
    intros i d Hd. apply D; [| exact Hd].
    apply at_length in Hd. unfold size in Hd.
    rewrite (keeps_topo_length _ _ K) in Hd. lia.
  - split; [apply frame_refl | intros i d Hi; lia].
  - intros k t t' Hk [K D] Hb.
    apply realizeAtomBonds_spec in Hb as (K' & O & d' & Hd' & D').
    split; [eapply frame_trans; eauto |].
    intros i d Hi Hd.
    destruct (Z.eq_dec i (Z.of_nat k)) as [-> | Hne].
    + rewrite Hd' in Hd. inversion Hd; subst. exact D'.
    + rewrite O in Hd by exact Hne.
      apply (derived_ok_topo t t' _ _ K'). apply D; [lia | exact Hd].
Qed.

(** After a realization that had work to do, the derived lists of every
    atom are right. *)
Lemma realizeConstruction_spec s s' u :
  topologicalCacheValid s = false ->
  realizeConstruction s = Return s' u ->
  forall i d, at_ (atoms s') i = Some d -> derived_ok s' i d.
Proof.
  intros Hf H. unfold realizeConstruction in H.
  apply bind_inv in H as (s0 & mm & Hg & H). apply get_inv in Hg as [-> ->].
  rewrite Hf in H.
  do 7 (apply bind_inv in H as (? & ? & _ & H)).
  apply bind_inv in H as (s7 & u7 & Hloop & H).
  apply modify_inv in H. subst s'.
  apply realizeAllAtomBonds_spec in Hloop as [_ D].
  intros i d Hd. cbn in Hd.
  apply (derived_ok_topo s7); [| now apply D].
  repeat split. apply atoms_topo_refl.
Qed.

(* ================================================================= *)
(** ** Before the first realization *)

#[export] Instance keeps_flag_frame : FrameRel keeps_flag.
Proof.
  split.
  - intros s. reflexivity.
  - intros a b c H1 H2. unfold keeps_flag in *. congruence.
Qed.

Ltac flag_auto :=
  repeat first
    [ pres_step
    | apply pres_modify; intros ?; reflexivity
    | progress autounfold with ops ].

Lemma Cluster_attachToBody_keeps_flag fuel :
  forall cid bnum X, pres keeps_flag (Cluster_attachToBody fuel cid bnum X).
Proof.
  induction fuel as [|fuel IH]; intros cid bnum X; simpl.
  - apply pres_abort.
  - pose proof (fun c b x => IH c b x) as IH'. flag_auto. apply IH.
Qed.

(** Only [realizeConstruction] writes the flag. *)
Lemma run_keeps_flag fuel c :
  c <> RealizeConstruction -> pres keeps_flag (run fuel c).
Proof.
  intros Hc.
  pose proof Cluster_attachToBody_keeps_flag as Hat.
  destruct c; try congruence; clear Hc; unfold run, addAtom, addAtom_rep,
    addBond, addBond_rep; flag_auto; try apply Hat.
Qed.

(** A subsystem that was never realized has the flag down. *)
Lemma unrealized_flag fuel cs : forall mm mm',
  ~ In RealizeConstruction cs ->
  topologicalCacheValid mm = false ->
  runAll fuel cs mm = Some mm' -> topologicalCacheValid mm' = false.
Proof.
  induction cs as [| c cs IH]; simpl; intros mm mm' Hn Hf H.
  - congruence.
  - destruct (run fuel c mm) as [s v | |] eqn:E; try discriminate.
    apply (IH s mm'); [tauto | | exact H].
    assert (Hc : c <> RealizeConstruction) by (intros ->; tauto).
    pose proof (run_keeps_flag fuel c Hc mm) as K. rewrite E in K.
    unfold keeps_flag in K. congruence.
Qed.

(** With the flag up, [realizeConstruction] returns at once. *)
Lemma realizeConstruction_valid fuel mm :
  topologicalCacheValid mm = true ->
  run fuel RealizeConstruction mm = Return mm 0.
Proof.
  intros H. unfold run, void, realizeConstruction, bind, get, ret.
  now rewrite H.
Qed.

(* ================================================================= *)
(** ** Shortest paths only, and from both ends *)

Lemma bonded_sym mm i j : graph_wf mm -> bonded mm i j -> bonded mm j i.
Proof.
  intros W (a & Hi & Hj). destruct (wf_bond12 mm W i a j Hi Hj) as (_ & b & Hb).
  exists b. exact Hb.
Qed.

Lemma bonded_neq mm i j : graph_wf mm -> bonded mm i j -> j <> i.
Proof.
  intros W (a & Hi & Hj). now destruct (wf_bond12 mm W i a j Hi Hj).
Qed.

Lemma bonded_range mm i j :
  graph_wf mm -> bonded mm i j -> 0 <= j < size (atoms mm).
Proof.
  intros W H. apply bonded_sym in H as (b & Hb & _); [| exact W].
  eapply at_length; eauto.
Qed.

Lemma bonded_at mm i a j :
  at_ (atoms mm) i = Some a -> bonded mm i j <-> In j (bond12 a).
Proof.
  intros Hi. unfold bonded. rewrite Hi. split.
  - intros (a' & E & H). inversion E; subst. exact H.
  - intros H. eauto.
Qed.

Lemma tails13_sym mm i j a b :
  graph_wf mm -> derived_ok mm i a -> derived_ok mm j b ->
  In j (tails13 a) -> In i (tails13 b).
Proof.
  intros W Da Db H. apply (dv_13 _ _ _ Da) in H as (Hne & Hnb & m & H1 & H2).
  apply (dv_13 _ _ _ Db). split; [congruence |]. split.
  - intros Hc. apply Hnb. now apply bonded_sym.
  - exists m. split; now apply bonded_sym.
Qed.

Lemma tails14_sym mm i j a b :
  graph_wf mm -> derived_ok mm i a -> derived_ok mm j b ->
  In j (tails14 a) -> In i (tails14 b).
Proof.
  intros W Da Db H.
  apply (dv_14 _ _ _ Da) in H as (Hne & Hnb & Hn13 & t & Ht & Htj).
  pose proof Ht as Ht'.
  apply (dv_13 _ _ _ Da) in Ht' as (Hti & Hnt & m & Him & Hmt).
  apply (dv_14 _ _ _ Db). split; [congruence |]. split; [| split].
  - intros Hc. apply Hnb. now apply bonded_sym.
  - intros Hc. apply Hn13. eapply tails13_sym; eauto.
  - exists m. split; [| now apply bonded_sym].
    apply (dv_13 _ _ _ Db). split; [| split].
    + intros ->. contradiction.
    + intros Hc. apply Hn13. apply (dv_13 _ _ _ Da).
      split; [exact Hne |]. split; [exact Hnb |].
      exists m. split; [exact Him | now apply bonded_sym].
    + exists t. split; now apply bonded_sym.
Qed.

(** A reachable subsystem after a realization that had work to do. *)
Lemma realized_state fuel mm mm' v :
  reachable mm -> topologicalCacheValid mm = false ->
  run fuel RealizeConstruction mm = Return mm' v ->
  graph_wf mm'
  /\ forall i d, at_ (atoms mm') i = Some d -> derived_ok mm' i d.
Proof.
  intros Hr Hf H. split.
  - apply reachable_inv. eapply reachable_return; eauto.
  - unfold run, void in H. apply bind_inv in H as (s1 & u & H & Hret).
    apply ret_inv in Hret as [_ ->].
    eapply realizeConstruction_spec; eauto.
Qed.

Lemma derived_lists_nodup mm i a :
  graph_wf mm -> at_ (atoms mm) i = Some a -> derived_ok mm i a ->
  NoDup (bond12 a ++ tails13 a ++ tails14 a ++ tails15 a).
Proof.
  intros W Hi D. unfold tails15. rewrite (dv_15 _ _ _ D). simpl.
  rewrite app_nil_r. apply NoDup_app.
  - eapply wf_nodup; eauto.
  - apply (dv_nodup _ _ _ D).
  - intros x H12 H. apply (bonded_at mm i a x Hi) in H12.
    apply in_app_or in H as [H | H].
    + apply (dv_13 _ _ _ D) in H. tauto.
    + apply (dv_14 _ _ _ D) in H. tauto.
Qed.

Lemma listsHolding_le_1 mm i a j :
  at_ (atoms mm) i = Some a -> derived_ok mm i a ->
  (listsHolding a j <= 1)%nat.
Proof.
  intros Hi D. unfold listsHolding, tails15. rewrite (dv_15 _ _ _ D).
  cbn [filter map intset_mem existsb].
  pose proof (dv_13 _ _ _ D j) as H13. pose proof (dv_14 _ _ _ D j) as H14.
  rewrite (bonded_at mm i a j Hi) in H13, H14.
  destruct (intset_mem j (bond12 a)) eqn:E12;
    destruct (intset_mem j (tails13 a)) eqn:E13;
    destruct (intset_mem j (tails14 a)) eqn:E14; cbn [length]; try lia;
    try apply intset_mem_In in E12; try apply intset_mem_In in E13;
    try apply intset_mem_In in E14; exfalso; tauto.
Qed.

(** The neighbour lists as a realization that had work to do (the cache
    was not valid) leaves them, on a reachable subsystem: for two different
    atoms [i] and [j]:
    [j] is in at most one of the four lists of neighbours of [i] (the
    direct bonds and the tails of the 1-3, 1-4 and 1-5 paths), and these
    lists together hold no atom twice; and [j] is a 1-k neighbour of
    [i] exactly when [i] is a 1-k neighbour of [j], for k from 2 to 5. *)
Theorem realized_paths_exclusive_symmetric fuel mm mm' v :
  reachable mm -> topologicalCacheValid mm = false ->
  run fuel RealizeConstruction mm = Return mm' v ->
  forall i j a b,
    at_ (atoms mm') i = Some a -> at_ (atoms mm') j = Some b -> i <> j ->
    (listsHolding a j <= 1)%nat
    /\ NoDup (bond12 a ++ tails13 a ++ tails14 a ++ tails15 a)
    /\ (In j (bond12 a) <-> In i (bond12 b))
    /\ (In j (tails13 a) <-> In i (tails13 b))
    /\ (In j (tails14 a) <-> In i (tails14 b))
    /\ (In j (tails15 a) <-> In i (tails15 b)).
Proof.
  intros Hr Hf H i j a b Hi Hj Hne.
  destruct (realized_state fuel mm mm' v Hr Hf H) as [W D].
  pose proof (D i a Hi) as Da. pose proof (D j b Hj) as Db.
  split; [eapply listsHolding_le_1; eauto |].
  split; [eapply derived_lists_nodup; eauto |].
  split; [| split; [| split]].
  - rewrite <- (bonded_at mm' i a j Hi), <- (bonded_at mm' j b i Hj).
    split; apply bonded_sym; exact W.
  - split; eapply tails13_sym; eauto.
  - split; eapply tails14_sym; eauto.
  - unfold tails15. rewrite (dv_15 _ _ _ Da), (dv_15 _ _ _ Db). simpl. tauto.
Qed.

(* ================================================================= *)
(** ** Bends are keyed by the middle atom *)

(** C3, as the source has it.  After a realization (one that had work to
    do) of a reachable subsystem, for every atom [i] and every cross-body
    1-3 path i-m-t at index [n] of [xbond13], the entry [n] of [bend] is
    the catalog entry for the class triple (class of i, class of m, class
    of t): the class in the middle of the key, which canonicalisation leaves
    in place, is the class of [m], the atom bonded to both [i] and [t]. *)
Theorem realized_bend_keyed_by_middle fuel mm mm' v :
  reachable mm -> topologicalCacheValid mm = false ->
  run fuel RealizeConstruction mm = Return mm' v ->
  forall i a, at_ (atoms mm') i = Some a ->
    bendKeyedByMiddle mm' i a
    /\ (forall p, In p (xbond13 a) ->
          bonded mm' i (ip0 p) /\ bonded mm' (ip0 p) (ip1 p))
    /\ (forall c cm ct, it1 (IntTriple_new c cm ct true) = cm).
Proof.
  intros Hr Hf H i a Hi.
  destruct (realized_state fuel mm mm' v Hr Hf H) as [W D].
  pose proof (D i a Hi) as Da.
  split; [apply (dv_bend _ _ _ Da) |]. split.
  - intros p Hp. apply (dv_path13 _ _ _ Da). now apply (dv_x13 _ _ _ Da).
  - intros c cm ct. apply IntTriple_canonical_middle.
Qed.

(* ================================================================= *)
(** ** Scaling and unscaling the bonded atoms *)

Lemma setScale_spec ix v c n (sc : Scratch) :
  0 <= ix < Z.of_nat n ->
  length (fst sc) = n -> length (snd sc) = n ->
  exists sc',
    setScale ix v c sc = Return sc' tt
    /\ length (fst sc') = n /\ length (snd sc') = n
    /\ at_ (fst sc') ix = Some v /\ at_ (snd sc') ix = Some c
    /\ (forall j, j <> ix -> at_ (fst sc') j = at_ (fst sc) j)
    /\ (forall j, j <> ix -> at_ (snd sc') j = at_ (snd sc) j).
Proof.
  intros Hix H1 H2. unfold setScale, bind, get, must, put.
  assert (R1 : 0 <= ix < size (fst sc)) by (unfold size; lia).
  assert (R2 : 0 <= ix < size (snd sc)) by (unfold size; lia).
  pose proof (set_at_some (fst sc) ix v R1) as E1.
  pose proof (set_at_some (snd sc) ix c R2) as E2.
  rewrite E1, E2. eexists. split; [reflexivity |]. cbn [fst snd].
  destruct (set_at_inv _ _ _ _ E1) as (_ & L1 & A1 & O1).
  destruct (set_at_inv _ _ _ _ E2) as (_ & L2 & A2 & O2).
  repeat split; try assumption; congruence.
Qed.

Lemma onesOutside_allOnes T n : onesOutside T n (allOnes n).
Proof.
  unfold onesOutside, allOnes. cbn [fst snd]. rewrite repeat_length.
  repeat split; intros j x _ H; apply at_In in H;
    now apply repeat_spec in H.
Qed.

Lemma onesOutside_nil n sc : onesOutside [] n sc -> sc = allOnes n.
Proof.
  intros (L1 & L2 & H1 & H2). destruct sc as [vs cs]. cbn [fst snd] in *.
  assert (F : forall l : list R,
             (forall j x, ~ In j [] -> at_ l j = Some x -> x = 1%R) ->
             l = repeat 1%R (length l)).
  { intros l H. apply Forall_eq_repeat. apply Forall_forall.
    intros x Hx. apply In_at in Hx as [j Hj]. symmetry. eapply H; eauto. }
  unfold allOnes. rewrite (F vs H1), (F cs H2), L1, L2.
  reflexivity.
Qed.

(** Scaling the atoms of a list keeps 1 wherever the list does not reach. *)
Lemma scale_list {A} (f : A -> Z) v c T n (l : list A) :
  forall sc,
    onesOutside T n sc ->
    (forall x, In x l -> 0 <= f x < Z.of_nat n /\ In (f x) T) ->
    exists sc',
      forEach l (fun x => setScale (f x) v c) sc = Return sc' tt
      /\ onesOutside T n sc'.
Proof.
  induction l as [| x l IH]; intros sc Hsc Hl; simpl.
  - exists sc. split; [reflexivity | exact Hsc].
  - destruct Hsc as (L1 & L2 & H1 & H2).
    destruct (Hl x (or_introl eq_refl)) as [Hr Hin].
    destruct (setScale_spec (f x) v c n sc Hr L1 L2)
      as (sc1 & E & L1' & L2' & _ & _ & O1 & O2).
    destruct (IH sc1) as (sc' & E' & Hsc').
    + repeat split; try assumption.
      * intros j y Hj Hy. rewrite O1 in Hy by congruence. eauto.
      * intros j y Hj Hy. rewrite O2 in Hy by congruence. eauto.
    + intros y Hy. apply Hl. now right.
    + exists sc'. split; [| exact Hsc'].
      now rewrite (bind_Return _ _ _ _ _ E).
Qed.

(** Unscaling the atoms of a list puts 1 back at each of them. *)
Lemma unscale_list {A} (f : A -> Z) T n (l : list A) :
  forall sc,
    onesOutside (map f l ++ T) n sc ->
    (forall x, In x l -> 0 <= f x < Z.of_nat n) ->
    exists sc',
      forEach l (fun x => setScale (f x) 1%R 1%R) sc = Return sc' tt
      /\ onesOutside T n sc'.
Proof.
  induction l as [| x l IH]; intros sc Hsc Hl; simpl.
  - exists sc. split; [reflexivity | exact Hsc].
  - destruct Hsc as (L1 & L2 & H1 & H2).
    destruct (setScale_spec (f x) 1%R 1%R n sc (Hl x (or_introl eq_refl)) L1 L2)
      as (sc1 & E & L1' & L2' & A1 & A2 & O1 & O2).
    destruct (IH sc1) as (sc' & E' & Hsc').
    + repeat split; try assumption.
      * intros j y Hj Hy. destruct (Z.eq_dec j (f x)) as [-> | Hne].
        -- congruence.
        -- rewrite O1 in Hy by exact Hne. apply (H1 j y); [| exact Hy].
           simpl. intros [Hc | Hc]; [congruence | contradiction].
      * intros j y Hj Hy. destruct (Z.eq_dec j (f x)) as [-> | Hne].
        -- congruence.
        -- rewrite O2 in Hy by exact Hne. apply (H2 j y); [| exact Hy].
           simpl. intros [Hc | Hc]; [congruence | contradiction].
    + intros y Hy. apply Hl. now right.
    + exists sc'. split; [| exact Hsc'].
      now rewrite (bind_Return _ _ _ _ _ E).
Qed.

(** The atoms that [scaleBondedAtoms] reaches, in the order in which
    [unscaleBondedAtoms] resets them. *)
Lemma scale_unscale_lists (mm : DuMM) (a : Atom) n :
  (forall x, In x (xbond12 a) -> 0 <= x < Z.of_nat n) ->
  (forall p, In p (xbond13 a) -> 0 <= ip1 p < Z.of_nat n) ->
  (forall t, In t (xbond14 a) -> 0 <= it2 t < Z.of_nat n) ->
  xbond15 a = [] ->
  (scaleBondedAtoms mm a ;; unscaleBondedAtoms mm a) (allOnes n)
  = Return (allOnes n) tt.
Proof.
  intros R12 R13 R14 E15.
  unfold scaleBondedAtoms, unscaleBondedAtoms. rewrite E15.
  set (c14 := negb (Reqb (vdwScale14 mm) 1) || negb (Reqb (coulombScale14 mm) 1)).
  set (l14 := if c14 then xbond14 a else []).
  assert (S14 : forall v c,
             (if c14 then forEach (xbond14 a) (fun t => setScale (it2 t) v c)
              else ret tt)
             = forEach l14 (fun t => setScale (it2 t) v c))
    by (intros v c; subst l14; destruct c14; reflexivity).
  assert (S15 : forall g : IntQuad -> M Scratch unit,
             (if negb (Reqb (vdwScale15 mm) 1)
                 || negb (Reqb (coulombScale15 mm) 1)
              then forEach [] g else ret tt) = ret tt)
    by (intros g;
        destruct (negb (Reqb (vdwScale15 mm) 1)
                  || negb (Reqb (coulombScale15 mm) 1)); reflexivity).
  rewrite !S14, !S15.
  set (T := map (fun ix : Z => ix) (xbond12 a)
            ++ map ip1 (xbond13 a) ++ map it2 l14 ++ []).
  assert (R14' : forall t, In t l14 -> 0 <= it2 t < Z.of_nat n).
  { intros t Ht. subst l14. destruct c14; [auto | destruct Ht]. }
  destruct (scale_list (fun ix : Z => ix) (vdwScale12 mm) (coulombScale12 mm)
              T n (xbond12 a) (allOnes n) (onesOutside_allOnes T n))
    as (sc1 & E1 & O1).
  { intros x Hx. split; [auto |]. subst T. apply in_or_app. left.
    apply in_map_iff. exists x. split; [reflexivity | exact Hx]. }
  destruct (scale_list ip1 (vdwScale13 mm) (coulombScale13 mm)
              T n (xbond13 a) sc1 O1) as (sc2 & E2 & O2).
  { intros x Hx. split; [auto |]. subst T. apply in_or_app. right.
    apply in_or_app. left. now apply in_map. }
  destruct (scale_list it2 (vdwScale14 mm) (coulombScale14 mm)
              T n l14 sc2 O2) as (sc3 & E3 & O3).
  { intros x Hx. split; [auto |]. subst T. apply in_or_app. right.
    apply in_or_app. right. apply in_or_app. left. now apply in_map. }
  destruct (unscale_list (fun ix : Z => ix) _ n (xbond12 a) sc3 O3 R12)
    as (sc4 & E4 & O4).
  destruct (unscale_list ip1 _ n (xbond13 a) sc4 O4 R13) as (sc5 & E5 & O5).
  destruct (unscale_list it2 _ n l14 sc5 O5 R14') as (sc6 & E6 & O6).
  apply onesOutside_nil in O6. subst sc6.
  unfold bind, ret. now rewrite E1, E2, E3, E4, E5, E6.
Qed.

(** C6. After a realization (one that had work to do) of a reachable
    subsystem, for every atom [a] and whatever the eight scale factors are
    (they are read from [factors]): [scaleBondedAtoms(a)] followed by
    [unscaleBondedAtoms(a)], on the scratch vectors that [realizeDynamics]
    makes (one entry per atom, all 1), returns, and both vectors are all 1
    again. *)
Theorem realized_scale_then_unscale fuel mm mm' v (factors : DuMM) :
  reachable mm -> topologicalCacheValid mm = false ->
  run fuel RealizeConstruction mm = Return mm' v ->
  forall i a, at_ (atoms mm') i = Some a ->
    (scaleBondedAtoms factors a ;; unscaleBondedAtoms factors a)
      (allOnes (length (atoms mm')))
    = Return (allOnes (length (atoms mm'))) tt.
Proof.
  intros Hr Hf H i a Hi.
  destruct (realized_state fuel mm mm' v Hr Hf H) as [W D].
  pose proof (D i a Hi) as Da.
  apply scale_unscale_lists.
  - intros x Hx. apply (dv_x12 _ _ _ Da) in Hx.
    apply (bonded_at mm' i a x Hi) in Hx.
    apply (bonded_range mm' i x W Hx).
  - intros p Hp. apply (dv_x13 _ _ _ Da), (dv_path13 _ _ _ Da) in Hp.
    destruct Hp as [_ Hp]. apply (bonded_range mm' _ _ W Hp).
  - intros t Ht. apply (dv_x14 _ _ _ Da) in Ht.
    assert (Hin : In (it2 t) (tails14 a)) by (unfold tails14; now apply in_map).
    apply (dv_14 _ _ _ Da) in Hin as (_ & _ & _ & t' & _ & Hb).
    apply (bonded_range mm' _ _ W Hb).
  - apply (dv_x15 _ _ _ Da).
Qed.

(* ================================================================= *)
(** ** Running calls on a concrete subsystem *)

Lemma returns_eq {S A} (r : result S A) mm v :
  returns r mm v -> r = Return mm v.
Proof. destruct r; simpl; intuition congruence. Qed.

Lemma returns_bind {S A B} (m : M S A) (k : A -> M S B) s s1 x s2 v :
  returns (m s) s1 x -> returns (k x s1) s2 v -> returns (bind m k s) s2 v.
Proof. unfold bind. intros H. apply returns_eq in H. rewrite H. auto. Qed.

Lemma returns_forEach_cons {S A} (x : A) l (body : A -> M S unit) s s1 s2 :
  returns (body x s) s1 tt -> returns (forEach l body s1) s2 tt ->
  returns (forEach (x :: l) body s) s2 tt.
Proof. intros. simpl. eapply returns_bind; eauto. Qed.

Lemma runAll_cons fuel c cs mm mm' v mm'' :
  returns (run fuel c mm) mm' v -> runAll fuel cs mm' = Some mm'' ->
  runAll fuel (c :: cs) mm = Some mm''.
Proof. intros H. apply returns_eq in H. simpl. rewrite H. auto. Qed.

Lemma runAll_reachable fuel cs : forall mm mm',
  reachable mm -> runAll fuel cs mm = Some mm' -> reachable mm'.
Proof.
  induction cs as [| c cs IH]; simpl; intros mm mm' Hr H.
  - congruence.
  - destruct (run fuel c mm) as [s v | |] eqn:E; try discriminate.
    eapply IH; [| exact H]. eapply reachable_return; eauto.
Qed.

(** Evaluation that leaves the operations on reals alone. *)
Ltac rlazy :=
  lazy - [Rle Rlt Rge Rgt Rplus Rmult Rminus Ropp Rinv Rdiv IZR PI sqrt
          Rpower cos sin atan exp ln Rle_dec Rlt_dec Req_dec_T].

Ltac rfact := rlazy; pose proof PI_RGT_0; lra.

(** Decide the comparison of two reals that the evaluation is stuck on. *)
Ltac rtest :=
  match goal with
  | |- context [Rle_dec ?a ?b] =>
      first
        [ let H := fresh in
          assert (H : (a <= b)%R) by rfact;
          destruct (Rle_dec a b); [clear H | contradiction]
        | let H := fresh in
          assert (H : ~ (a <= b)%R) by rfact;
          destruct (Rle_dec a b); [contradiction | clear H] ]
  | |- context [Rlt_dec ?a ?b] =>
      first
        [ let H := fresh in
          assert (H : (a < b)%R) by rfact;
          destruct (Rlt_dec a b); [clear H | contradiction]
        | let H := fresh in
          assert (H : ~ (a < b)%R) by rfact;
          destruct (Rlt_dec a b); [contradiction | clear H] ]
  | |- context [Req_dec_T ?a ?b] =>
      first
        [ let H := fresh in
          assert (H : (a = b)%R) by rfact;
          destruct (Req_dec_T a b); [clear H | contradiction]
        | let H := fresh in
          assert (H : ~ (a = b)%R) by rfact;
          destruct (Req_dec_T a b); [contradiction | clear H] ]
  end.

(** A call whose path depends on comparisons of reals: evaluate to the
    next comparison, decide it, go on. *)
Ltac run_head :=
  unfold returns;
  repeat (lazy head;
          lazymatch goal with |- _ /\ _ => fail | _ => idtac end;
          rtest);
  lazy head; rlazy; repeat (rtest; rlazy); split; reflexivity.

(** A call that compares no reals. *)
Ltac run_full := unfold returns; rlazy; split; reflexivity.

Ltac run_call := first [ run_full | run_head ].

Ltac run_calls := repeat (eapply runAll_cons; [ run_call | ]); reflexivity.

(** [realizeConstruction], phase by phase; the van der Waals table is the
    phase that compares reals. *)
Ltac run_realize :=
  unfold run, void, realizeConstruction;
  eapply returns_bind; [ eapply returns_bind; [ run_full | ] | run_full ];
  lazy beta iota delta [topologicalCacheValid];
  eapply returns_bind; [ run_full | ];
  eapply returns_bind;
  [ unfold forIndices; eapply returns_bind; [ run_full | ];
    lazy beta iota delta [atomClasses length indices seq map Z.of_nat
                          Pos.of_succ_nat Pos.succ];
    repeat (eapply returns_forEach_cons; [ run_head | ]); run_full | ];
  do 5 (eapply returns_bind; [ run_full | ]);
  run_full.

(** The calls of the small molecule all return, and so does its
    realization. *)
Lemma demo_runs :
  { mm : DuMM &
  { mm' : DuMM | runAll 2 demo_calls DuMM_new = Some mm
                 /\ returns (run 2 RealizeConstruction mm) mm' 0 } }.
Proof.
  eexists. eexists. split.
  - unfold demo_calls. run_calls.
  - run_realize.
Defined.

(* ================================================================= *)
(** ** The canonical quad when the outer classes are equal *)

(** C4, at the quads the canonical form misses.  The pair and triple keys do
    not depend on the direction ([getBondStretch_sym], [getBondBend_sym]),
    and neither does the quad key when its outer classes differ
    ([getBondTorsion_sym]).  With equal outer classes and different inner
    ones, [canonicalize] leaves both directions as they are: after
    [defineBondTorsion(0,1,2,0,...)], the torsion is found under (0,1,2,0)
    and the assertion of [getBondTorsion(0,2,1,0)] fails. *)
Theorem quad_key_reversal_tie :
  IntQuad_new 0 1 2 0 true = mkIntQuad 0 1 2 0
  /\ IntQuad_new 0 2 1 0 true = mkIntQuad 0 2 1 0
  /\ exists mm bt,
       runAll 2 tie_calls DuMM_new = Some mm
       /\ getBondTorsion 0 1 2 0 mm = Return mm bt
       /\ getBondTorsion 0 2 1 0 mm = Abort.
Proof.
  split; [reflexivity |]. split; [reflexivity |].
  eexists. eexists. split; [unfold tie_calls; run_calls |].
  split; rlazy; reflexivity.
Qed.

(* ================================================================= *)
(** ** A class of radius 0 *)

(** A class of radius 0 is accepted by [defineAtomClass], and the
    realization leaves its own row of the van der Waals table with a well
    depth that is not a number. *)
Lemma zero_radius_class_realized :
  exists mm mm' c,
    runAll 2 zero_radius_calls DuMM_new = Some mm
    /\ run 2 RealizeConstruction mm = Return mm' 0
    /\ at_ (atomClasses mm') 0 = Some c
    /\ vdwRadius c = 0%R
    /\ vdwDij c = [Some (2 * 0)%R]
    /\ vdwEij c = [None].
Proof.
  eexists. eexists. eexists.
  split; [unfold zero_radius_calls; run_calls |].
  split; [apply returns_eq; run_realize |].
  split; [rlazy; reflexivity |].
  repeat split.
Qed.

(* ================================================================= *)
(** ** The theorems at the small molecule *)

Lemma demo_reachable : reachable (projT1 demo_runs).
Proof.
  eapply runAll_reachable; [apply reachable_DuMM_new |].
  exact (proj1 (proj2_sig (projT2 demo_runs))).
Qed.

(** C7 on the small molecule: atoms 2 and 0 are not bonded; [addBond(2,0)]
    stores the bond (0,2) and [addBond(0,2)] then returns the same id. *)
Lemma addBond_canonical_once_witness :
  exists mm1 id,
    addBond 2 0 (projT1 demo_runs) = Return mm1 id
    /\ at_ (bonds mm1) id = Some (mkIntPair 0 2)
    /\ addBond 0 2 mm1 = Return mm1 id.
Proof.
  destruct (addBond_canonical_once (projT1 demo_runs) 2 0)
    as (mm1 & id & A & B & A1 & B1 & H1 & H2 & _ & _ & _ & _ & _ & _ & _ & H3).
  - exact demo_reachable.
  - rlazy. reflexivity.
  - rlazy. reflexivity.
  - lia.
  - exists mm1, id. repeat split; assumption.
Defined.

(** C9 on the small molecule: a torsion for the classes (B,A,B,A) is there
    already under its canonical quad, so the call throws; one term of
    periodicity 2 for the classes (A,A,A,A) is accepted and stored. *)
Lemma defineBondTorsion_fails_iff_witness :
  (exists mm',
     defineBondTorsion 1 0 1 0 1 1%R 0%R (-1) 0%R 0%R (-1) 0%R 0%R
                       (projT1 demo_runs) = Throw mm')
  /\ (exists mm',
        defineBondTorsion 0 0 0 0 2 1%R 0%R (-1) 0%R 0%R (-1) 0%R 0%R
                          (projT1 demo_runs) = Return mm' tt
        /\ map_find IntQuad_lt (mkIntQuad 0 0 0 0) (bondTorsion mm')
           = Some (mkBondTorsion [TorsionTerm_new 2 1%R 0%R])).
Proof.
  split.
  - apply (proj1 (defineBondTorsion_fails_iff (projT1 demo_runs)
                    1 0 1 0 1 1%R 0%R (-1) 0%R 0%R (-1) 0%R 0%R)).
    unfold torsionArgsBad. do 11 right. rlazy. intros E. discriminate E.
  - destruct (proj2 (proj2 (defineBondTorsion_fails_iff (projT1 demo_runs)
                    0 0 0 0 2 1%R 0%R (-1) 0%R 0%R (-1) 0%R 0%R)))
      as (mm' & H1 & H2 & _).
    + unfold torsionArgsBad, termSupplied, termOk.
      intros [H | [H | [H | [H | [H | [H | [H | [H | [H | [H | [H | H]]]]]]]]]]].
      1-4: revert H; rlazy; repeat rtest; intros E; discriminate E.
      * apply (proj2 H). repeat split; try lia; lra.
      * now apply (proj1 H).
      * now apply (proj1 H).
      * destruct H as (_ & _ & H). discriminate.
      * destruct H as (_ & _ & H). discriminate.
      * destruct H as (_ & H & _). now apply H.
      * destruct H as (H & _). discriminate.
      * apply H. rlazy. reflexivity.
    + exists mm'. split; [exact H1 | exact H2].
Defined.

(** C1 on the realized small molecule: atom 0 (body 0, at the origin, charge
    1) against atom 3 of body 2, with body 2 moved by 3 along x, the scale
    factors 1 and empty accumulators. *)
Lemma nonbondedPair_energy_and_force_witness :
  let mm := proj1_sig (projT2 demo_runs) in
  let X_GB2 := mkTransform mident (mkVec3 3 0 0) in
  let zero := mkSpatialVec vzero vzero in
  let k := mkKState (Some 0%R) (repeat (Some zero) 3)
                    (repeat 1%R 4, repeat 1%R 4) in
  exists a1class q2 dmin eps k',
    at_ (atomClasses mm) 0 = Some a1class
    /\ nonbondedPair mm 0 0 0 a1class (Some vzero) (Some vzero)
                     (Some (CoulombFac * 1)%R) 2 X_GB2
                     (mkAtomPlacement 3 (mkVec3 1 0 0)) k = Return k' tt
    /\ pe k' = Some (0 + (pairCoulombEnergy 1 1 q2 (norm (mkVec3 4 0 0))
                          + pairVdwEnergy 1 eps dmin (norm (mkVec3 4 0 0))))%R.
Proof.
  intros mm X_GB2 zero k.
  assert (Hr : vsub (vadd (X_T X_GB2) (mvmul (X_R X_GB2) (mkVec3 1 0 0))) vzero
               = mkVec3 4 0 0).
  { unfold vsub, vadd, mvmul, vdot, X_GB2, vzero, mident; cbn. f_equal; lra. }
  eexists ?[ac]. eexists. eexists. eexists.
  assert (Ha1 : at_ (atomClasses mm) 0 = Some ?ac) by (rlazy; reflexivity).
  lazymatch type of Ha1 with
  | _ = Some ?c =>
      edestruct (nonbondedPair_energy_and_force mm 0 2 0 0)
        with (a1class := c) (s1 := vzero) (p1 := vzero) (q1 := 1%R)
             (X_GB2 := X_GB2) (ap2 := mkAtomPlacement 3 (mkVec3 1 0 0))
             (k := k)
        as (k' & H1 & H2 & _)
  end.
  1-15: try (rlazy; reflexivity).
  - cbn. lia.
  - lia.
  - rewrite Hr. unfold norm. apply Rgt_not_eq, sqrt_lt_R0.
    unfold normSqr, vdot. cbn. lra.
  - exists k'. split; [| split; [exact H1 |]].
    + exact Ha1.
    + rewrite H2, Hr. reflexivity.
Defined.

(** On the small molecule: atom 3 is three bonds away from atom 0; each is
    in the 1-4 list of the other and in no other list. *)
Lemma realized_paths_exclusive_symmetric_witness :
  exists a b,
    at_ (atoms (proj1_sig (projT2 demo_runs))) 0 = Some a
    /\ at_ (atoms (proj1_sig (projT2 demo_runs))) 3 = Some b
    /\ (listsHolding a 3 <= 1)%nat
    /\ (In 3 (tails14 a) <-> In 0 (tails14 b))
    /\ In 3 (tails14 a).
Proof.
  eexists. eexists.
  split; [rlazy; reflexivity |]. split; [rlazy; reflexivity |].
  refine ((fun H => conj (proj1 H)
                      (conj (proj1 (proj2 (proj2 (proj2 (proj2 H))))) _)) _).
  - rlazy. auto.
  - apply (realized_paths_exclusive_symmetric
             2 (projT1 demo_runs) (proj1_sig (projT2 demo_runs)) 0).
    + exact demo_reachable.
    + rlazy. reflexivity.
    + apply returns_eq. exact (proj2 (proj2_sig (projT2 demo_runs))).
    + rlazy. reflexivity.
    + rlazy. reflexivity.
    + lia.
Defined.

(** C3 on the small molecule: atom 0 (class A) has the cross-body path
    0-1-2 of classes A-B-A, and its bend is the catalog entry for (A,B,A). *)
Lemma realized_bend_keyed_by_middle_witness :
  exists a,
    at_ (atoms (proj1_sig (projT2 demo_runs))) 0 = Some a
    /\ at_ (xbond13 a) 0 = Some (mkIntPair 1 2)
    /\ at_ (bend a) 0 = bendOf (proj1_sig (projT2 demo_runs)) 0 1 0.
Proof.
  eexists. split; [rlazy; reflexivity |]. split; [rlazy; reflexivity |].
  edestruct (realized_bend_keyed_by_middle
               2 (projT1 demo_runs) (proj1_sig (projT2 demo_runs)) 0)
    with (i := 0) as (Hb & _).
  - exact demo_reachable.
  - rlazy. reflexivity.
  - apply returns_eq. exact (proj2 (proj2_sig (projT2 demo_runs))).
  - rlazy. reflexivity.
  - destruct (Hb 0 (mkIntPair 1 2)) as (c & cm & ct & bb & H1 & H2 & H3 & H4 & H5);
      [rlazy; reflexivity |].
    assert (E1 : classOf (proj1_sig (projT2 demo_runs)) 0 = Some 0)
      by (rlazy; reflexivity).
    assert (E2 : classOf (proj1_sig (projT2 demo_runs)) 1 = Some 1)
      by (rlazy; reflexivity).
    assert (E3 : classOf (proj1_sig (projT2 demo_runs)) 2 = Some 0)
      by (rlazy; reflexivity).
    cbn [ip0 ip1] in H2, H3.
    rewrite E1 in H1. rewrite E2 in H2. rewrite E3 in H3.
    inversion H1; inversion H2; inversion H3; subst.
    rewrite H4. exact H5.
Defined.

(** C3 as it is stated fails on the small molecule: atom 0 has class A
    and the cross-body path 0-1-2; the catalog entries with A in the middle
    of the key are those for (B,A,B) and (A,A,B), and the bend that atom 0
    holds is neither of them (it is the entry for (A,B,A)). *)
Lemma bend_keyed_by_self_refuted :
  exists a,
    at_ (atoms (proj1_sig (projT2 demo_runs))) 0 = Some a
    /\ ~ bendKeyedBySelf (proj1_sig (projT2 demo_runs)) 0 a.
Proof.
  eexists. split; [rlazy; reflexivity |].
  intros H.
  destruct (H 0 (mkIntPair 1 2)) as (c & x & y & bb & H1 & H2 & H3);
    [rlazy; reflexivity |].
  assert (E1 : classOf (proj1_sig (projT2 demo_runs)) 0 = Some 0)
    by (rlazy; reflexivity).
  rewrite E1 in H1. inversion H1; subst c. clear H1 E1.
  unfold bendOf in H2.
  pose proof (IntTriple_canonical_middle x 0 y) as Hmid.
  set (key := IntTriple_new x 0 y true) in *. clearbody key.
  revert H3. rlazy. intros H3. inversion H3; subst bb. clear H3.
  revert H2.
  let l := constr:(bondBend (proj1_sig (projT2 demo_runs))) in
  let l' := eval lazy - [Rle Rlt Rge Rgt Rplus Rmult Rminus Ropp Rinv Rdiv
                         IZR PI sqrt Rpower cos sin atan exp ln Rle_dec
                         Rlt_dec Req_dec_T] in l in
  change l with l'.
  cbn [map_find].
  destruct (equivb IntTriple_lt key (mkIntTriple 0 1 0)) eqn:K1.
  { apply IntTriple_equivb_eq in K1. subst key. discriminate Hmid. }
  destruct (equivb IntTriple_lt key (mkIntTriple 1 0 1)) eqn:K2.
  { intros E. inversion E. lra. }
  destruct (equivb IntTriple_lt key (mkIntTriple 0 0 1)) eqn:K3.
  { intros E. inversion E. lra. }
  discriminate.
Qed.

(** C6 on the small molecule, for atom 0 and with the 1-4 scale factor of
    the van der Waals term set to 1/2. *)
Lemma realized_scale_then_unscale_witness :
  exists a,
    at_ (atoms (proj1_sig (projT2 demo_runs))) 0 = Some a
    /\ (let factors := set_vdwScale14 (1 / 2) (proj1_sig (projT2 demo_runs)) in
        scaleBondedAtoms factors a ;; unscaleBondedAtoms factors a)
         (allOnes 4)
       = Return (allOnes 4) tt.
Proof.
  eexists. split; [rlazy; reflexivity |].
  apply (realized_scale_then_unscale
           2 (projT1 demo_runs) (proj1_sig (projT2 demo_runs)) 0
           (set_vdwScale14 (1 / 2) (proj1_sig (projT2 demo_runs)))
           demo_reachable) with (i := 0).
  - rlazy. reflexivity.
  - apply returns_eq. exact (proj2 (proj2_sig (projT2 demo_runs))).
  - rlazy. reflexivity.
Defined.

(* ================================================================= *)
(** ** Atom classes and charged atom types *)

Lemma at_neg {A} (l : list A) j : j < 0 -> at_ l j = None.
Proof. intros H. unfold at_. destruct (Z.ltb_spec j 0); [reflexivity | lia]. Qed.

Lemma at_beyond {A} (l : list A) j : size l <= j -> at_ l j = None.
Proof.
  intros H. destruct (at_ l j) eqn:E; [| reflexivity].
  apply at_length in E. lia.
Qed.

(** [v.resize(n)] on a vector that is shorter than [n]. *)
Lemma at_resize_grow {A} (d : A) l n j :
  size l <= n ->
  at_ (resize n d l) j
  = if j <? size l then at_ l j
    else if j <? n then Some d else None.
Proof.
  unfold resize, size. intros Hn.
  rewrite firstn_all2 by lia.
  destruct (Z.ltb_spec j (Z.of_nat (length l))) as [Hj | Hj].
  - apply at_app_l. exact Hj.
  - unfold at_. destruct (Z.ltb_spec j 0); [lia |].
    rewrite nth_error_app2 by lia.
    destruct (Z.ltb_spec j n) as [Hjn | Hjn].
    + apply nth_error_repeat. lia.
    + apply nth_error_None. rewrite repeat_length. lia.
Qed.

Lemma size_resize {A} (d : A) l n : 0 <= n -> size (resize n d l) = n.
Proof.
  unfold resize, size. intros Hn.
  rewrite length_app, length_firstn, repeat_length. lia.
Qed.

(** The slot [id] of a vector of definitions after
    [if (id >= v.size()) v.resize(id+1); v[id] = c;]. *)
Lemma slot_define {A} (valid : A -> bool) (d c : A) l id :
  0 <= id -> valid d = false ->
  let l1 := if id >=? size l then resize (id + 1) d l else l in
  let l' := upd_at l1 id (fun _ => c) in
  (exists old, at_ l1 id = Some old
               /\ valid old = isValidAt valid l id)
  /\ at_ l' id = Some c
  /\ (forall j, j <> id -> isValidAt valid l' j = isValidAt valid l j)
  /\ (forall j x, j <> id -> at_ l j = Some x -> at_ l' j = Some x)
  /\ size l' = Z.max (size l) (id + 1).
Proof.
  intros Hid Hd l1 l'.
  assert (H1 : forall j, at_ l1 j
                         = if j <? size l then at_ l j
                           else if j <? id + 1 then Some d else None).
  { intros j. subst l1. destruct (Z.geb_spec id (size l)) as [Hge | Hlt].
    - apply at_resize_grow. lia.
    - destruct (Z.ltb_spec j (size l)); [reflexivity |].
      rewrite at_beyond by lia. destruct (Z.ltb_spec j (id + 1)); [lia | reflexivity]. }
  assert (S1 : size l1 = Z.max (size l) (id + 1)).
  { subst l1. destruct (Z.geb_spec id (size l)).
    - rewrite size_resize by lia. lia.
    - lia. }
  assert (S' : size l' = Z.max (size l) (id + 1)).
  { subst l'. unfold size in *. rewrite upd_at_length. exact S1. }
  split; [| split; [| split; [| split]]].
  - rewrite H1. unfold isValidAt.
    destruct (Z.leb_spec 0 id); [| lia]. cbn [andb].
    destruct (Z.ltb_spec id (size l)) as [Hlt | Hge].
    + destruct (at_ l id) eqn:E; [eauto |].
      pose proof (at_beyond l id). unfold at_ in E.
      destruct (Z.ltb_spec id 0); [lia |].
      apply nth_error_None in E. unfold size in Hlt. lia.
    + destruct (Z.ltb_spec id (id + 1)); [| lia]. cbn [andb]. eauto.
  - subst l'. rewrite upd_at_eq, H1.
    destruct (Z.ltb_spec id (size l)) as [Hlt | Hge].
    + destruct (at_ l id) eqn:E; [reflexivity |].
      unfold at_ in E. destruct (Z.ltb_spec id 0); [lia |].
      apply nth_error_None in E. unfold size in Hlt. lia.
    + destruct (Z.ltb_spec id (id + 1)); [reflexivity | lia].
  - intros j Hj. unfold isValidAt. rewrite S'. subst l'.
    rewrite upd_at_neq, H1 by exact Hj.
    destruct (Z.leb_spec 0 j); [| reflexivity]. cbn [andb].
    destruct (Z.ltb_spec j (size l)) as [Hlt | Hge].
    + destruct (Z.ltb_spec j (Z.max (size l) (id + 1))); [reflexivity | lia].
    + cbn [andb]. destruct (Z.ltb_spec j (id + 1)).
      * rewrite Hd. apply andb_false_r.
      * apply andb_false_r.
  - intros j x Hj Hx. subst l'. rewrite upd_at_neq, H1 by exact Hj.
    pose proof (at_length _ _ _ Hx).
    destruct (Z.ltb_spec j (size l)); [exact Hx | lia].
  - exact S'.
Qed.

Lemma isValidElement_pos mm e : isValidElement mm e = true -> 0 < e.
Proof.
  unfold isValidElement. intros H.
  apply andb_true_iff in H as [H _]. apply andb_true_iff in H as [H _].
  apply Z.leb_le in H. lia.
Qed.

Lemma AtomClass_new_valid id nm e v r w :
  0 <= id -> 0 < e -> 0 <= v -> (0 <= r)%R -> (0 <= w)%R ->
  AtomClass_isValid (AtomClass_new id nm e v r w) = true.
Proof.
  intros Hid He Hv Hr Hw.
  unfold AtomClass_isValid, AtomClass_new, EnergyUnitsPerKcal. cbn.
  destruct (Z.leb_spec 0 id), (Z.gtb_spec e 0), (Z.leb_spec 0 v); try lia.
  rewrite !Rleb_true by nra. reflexivity.
Qed.

Lemma intAdd_fits {S} (a b : Z) (s : S) :
  - INT_MAX - 1 <= a + b <= INT_MAX -> intAdd a b s = Return s (a + b).
Proof.
  intros H. unfold intAdd.
  destruct (Z.leb_spec (- INT_MAX - 1) (a + b)), (Z.leb_spec (a + b) INT_MAX);
    try lia. reflexivity.
Qed.

Lemma intAdd_overflow {S} (a b : Z) (s : S) :
  INT_MAX < a + b -> intAdd a b s = Abort.
Proof.
  intros H. unfold intAdd.
  destruct (Z.leb_spec (a + b) INT_MAX); [lia |].
  now rewrite andb_false_r.
Qed.

(** The outcome of [defineAtomClass]: a throw, the overflow of [id+1], or
    the new class. *)
Lemma defineAtomClass_cases mm id nm e v r w :
  ((id < 0 \/ isValidElement mm e = false \/ v < 0
    \/ (r < 0)%R \/ (w < 0)%R \/ isValidAtomClass mm id = true)
   /\ defineAtomClass id nm e v r w mm = Throw mm)
  \/ (0 <= id /\ isValidElement mm e = true /\ 0 <= v
      /\ (0 <= r)%R /\ (0 <= w)%R /\ isValidAtomClass mm id = false
      /\ ((INT_MAX <= id /\ defineAtomClass id nm e v r w mm = Abort)
          \/ defineAtomClass id nm e v r w mm
             = Return
                 (set_atomClasses
                    (upd_at (if id >=? size (atomClasses mm)
                             then resize (id + 1) AtomClass_default
                                         (atomClasses mm)
                             else atomClasses mm)
                            id (fun _ => AtomClass_new id nm e v r w)) mm) tt)).
Proof.
  remember (defineAtomClass id nm e v r w mm) as res eqn:Hres.
  unfold defineAtomClass in Hres.
  unfold bind at 1 in Hres. unfold get at 1 in Hres.
  unfold bind at 1 in Hres. unfold apiArgCheck at 1 in Hres.
  destruct (Z.leb_spec 0 id) as [Hid | Hid];
    [| left; split; [left; lia | exact Hres]].
  unfold bind at 1 in Hres. unfold apiArgCheck at 1 in Hres.
  destruct (isValidElement mm e) eqn:Ee; [| left; auto].
  unfold bind at 1 in Hres. unfold apiArgCheck at 1 in Hres.
  destruct (Z.leb_spec 0 v) as [Hv | Hv];
    [| left; split; [right; right; left; lia | exact Hres]].
  unfold bind at 1 in Hres. unfold apiArgCheck at 1 in Hres.
  destruct (Rle_dec 0 r) as [Hr | Hr];
    [rewrite (Rleb_true _ _ Hr) in Hres
    | rewrite Rleb_false in Hres by lra; left; split;
      [do 3 right; left; lra | exact Hres]].
  unfold bind at 1 in Hres. unfold apiArgCheck at 1 in Hres.
  destruct (Rle_dec 0 w) as [Hw | Hw];
    [rewrite (Rleb_true _ _ Hw) in Hres
    | rewrite Rleb_false in Hres by lra; left; split;
      [do 4 right; left; lra | exact Hres]].
  destruct (Z_lt_le_dec INT_MAX (id + 1)) as [Hov | Hfit];
    [destruct (Z.geb_spec id (size (atomClasses mm))) as [Hge | Hlt] |].
  - (* the vector must grow, and [id+1] is no [int] *)
    right.
    assert (Ev : isValidAtomClass mm id = false).
    { unfold isValidAtomClass, isValidAt.
      destruct (Z.ltb_spec id (size (atomClasses mm))); [lia |].
      now rewrite andb_false_r. }
    do 6 (split; [first [assumption | reflexivity] |]).
    left. split; [lia |]. rewrite Hres.
    unfold bind at 1. unfold bind at 1.
    now rewrite (intAdd_overflow _ _ _ Hov).
  - (* no growth: the sum is not taken *)
    destruct (slot_define AtomClass_isValid AtomClass_default
                (AtomClass_new id nm e v r w) (atomClasses mm) id Hid eq_refl)
      as ((old & Hold & Hvalid) & Hat & _).
    fold (isValidAtomClass mm id) in Hvalid.
    destruct (Z.geb_spec id (size (atomClasses mm))) as [Hge | _]; [lia |].
    unfold bind at 1 in Hres. unfold ret at 1 in Hres.
    unfold bind at 1 in Hres. unfold get at 1 in Hres.
    unfold bind at 1 in Hres. unfold must at 1 in Hres. rewrite Hold in Hres.
    unfold bind at 1 in Hres. unfold apiArgCheck at 1 in Hres.
    rewrite Hvalid in Hres.
    destruct (isValidAtomClass mm id) eqn:Ev.
    + cbn [negb] in Hres. left. split; [auto 10 | exact Hres].
    + cbn [negb] in Hres. right.
      pose proof (isValidElement_pos _ _ Ee) as He.
      do 6 (split; [first [assumption | reflexivity] |]).
      right.
      unfold bind at 1 in Hres. unfold assert at 1 in Hres.
      rewrite (AtomClass_new_valid id nm e v r w Hid He Hv Hr Hw) in Hres.
      unfold modAtomClass, bind, get, must, modify in Hres.
      rewrite Hold in Hres.
      rewrite Hres. destruct mm; reflexivity.
  - destruct (slot_define AtomClass_isValid AtomClass_default
                (AtomClass_new id nm e v r w) (atomClasses mm) id Hid eq_refl)
      as ((old & Hold & Hvalid) & Hat & _).
    fold (isValidAtomClass mm id) in Hvalid.
    set (l1 := if id >=? size (atomClasses mm)
               then resize (id + 1) AtomClass_default (atomClasses mm)
               else atomClasses mm) in *.
    assert (Hstep :
              (if id >=? size (atomClasses mm)
               then n <- intAdd id 1 ;;
                    modify (fun mm0 =>
                              set_atomClasses
                                (resize n AtomClass_default (atomClasses mm0)) mm0)
               else ret tt) mm
              = Return (set_atomClasses l1 mm) tt).
    { subst l1. destruct (id >=? size (atomClasses mm)).
      - unfold bind. rewrite intAdd_fits by (unfold INT_MAX in *; lia).
        reflexivity.
      - unfold ret. destruct mm; reflexivity. }
    rewrite (bind_Return _ _ _ _ _ Hstep) in Hres.
    unfold bind at 1 in Hres. unfold get at 1 in Hres.
    cbn [atomClasses set_atomClasses] in Hres.
    unfold bind at 1 in Hres. unfold must at 1 in Hres. rewrite Hold in Hres.
    unfold bind at 1 in Hres. unfold apiArgCheck at 1 in Hres.
    rewrite Hvalid in Hres.
    destruct (isValidAtomClass mm id) eqn:Ev.
    + cbn [negb] in Hres. left. split; [auto 10 |].
      rewrite Hres. f_equal. subst l1.
      destruct (Z.geb_spec id (size (atomClasses mm))) as [Hge | Hlt].
      * exfalso. unfold isValidAtomClass, isValidAt in Ev.
        destruct (Z.ltb_spec id (size (atomClasses mm))); [lia |].
        rewrite andb_false_r in Ev. discriminate.
      * destruct mm; reflexivity.
    + cbn [negb] in Hres. right.
      pose proof (isValidElement_pos _ _ Ee) as He.
      do 6 (split; [first [assumption | reflexivity] |]).
      right.
      unfold bind at 1 in Hres. unfold assert at 1 in Hres.
      rewrite (AtomClass_new_valid id nm e v r w Hid He Hv Hr Hw) in Hres.
      unfold modAtomClass, bind, get, must, modify in Hres.
      cbn [atomClasses set_atomClasses] in Hres. rewrite Hold in Hres.
      exact Hres.
Qed.

(** X3. [defineAtomClass] with an id below [INT_MAX] (the call computes
    [id+1] in [int] when it has to make room) never aborts.  It throws
    exactly when the id is negative, the element has no entry in the element
    table, the valence, the radius or the well depth is negative, or the id
    is that of a defined class; a throw leaves the subsystem as it was.
    When it returns, the class is stored under its id with the well depth
    converted from Kcal to energy units and with empty van der Waals rows,
    it is a defined class, the classes under other ids are as before (an id
    that the call had to make room for stays undefined), and the vector has
    grown just enough to hold the id. *)
Theorem defineAtomClass_outcome mm id nm e v r w :
  id < INT_MAX ->
  let call := defineAtomClass id nm e v r w in
  call mm <> Abort
  /\ ((exists mm', call mm = Throw mm')
      <-> (id < 0 \/ isValidElement mm e = false \/ v < 0
           \/ (r < 0)%R \/ (w < 0)%R \/ isValidAtomClass mm id = true))
  /\ (forall mm', call mm = Throw mm' -> mm' = mm)
  /\ (forall mm' u, call mm = Return mm' u ->
        at_ (atomClasses mm') id
        = Some (mkAtomClass id nm e v r (w * EnergyUnitsPerKcal) [] [])
        /\ isValidAtomClass mm' id = true
        /\ (forall j, j <> id ->
              isValidAtomClass mm' j = isValidAtomClass mm j)
        /\ (forall j c, j <> id -> at_ (atomClasses mm) j = Some c ->
              at_ (atomClasses mm') j = Some c)
        /\ size (atomClasses mm') = Z.max (size (atomClasses mm)) (id + 1)).
Proof.
  intros Hmax call.
  destruct (defineAtomClass_cases mm id nm e v r w) as [[Hbad Hrun] | Hok].
  - fold call in Hrun. rewrite Hrun. split; [discriminate |]. split; [| split].
    + split; [intros _; exact Hbad | eauto].
    + intros mm' H. inversion H; reflexivity.
    + intros mm' u H. discriminate.
  - destruct Hok as (Hid & Ee & Hv & Hr & Hw & Ev & [[Hov _] | Hrun]);
      [lia |].
    fold call in Hrun.
    rewrite Hrun. split; [discriminate |]. split; [| split].
    + split; [intros [mm' H]; discriminate |].
      intros [H | [H | [H | [H | [H | H]]]]]; try congruence; try lia; try lra.
    + intros mm' H. discriminate.
    + intros mm' u H. inversion H; subst mm'; clear H.
      destruct (slot_define AtomClass_isValid AtomClass_default
                  (AtomClass_new id nm e v r w) (atomClasses mm) id Hid eq_refl)
        as (_ & Hat & Hval & Hkeep & Hsize).
      cbn [atomClasses set_atomClasses]. unfold isValidAtomClass.
      cbn [atomClasses set_atomClasses].
      split; [exact Hat |]. split; [| split; [exact Hval | split; [exact Hkeep | exact Hsize]]].
      apply (isValidAt_intro _ _ _ _ Hat).
      apply AtomClass_new_valid; auto. eapply isValidElement_pos; eauto.
Qed.

(** The outcome of [defineChargedAtomType]: a throw, the overflow of
    [id+1], or the new type. *)
Lemma defineChargedAtomType_cases mm id nm c q :
  ((id < 0 \/ c < 0 \/ isValidAtomClass mm c = false
    \/ isValidChargedAtomType mm id = true)
   /\ defineChargedAtomType id nm c q mm = Throw mm)
  \/ (0 <= id /\ 0 <= c /\ isValidAtomClass mm c = true
      /\ isValidChargedAtomType mm id = false
      /\ ((INT_MAX <= id /\ defineChargedAtomType id nm c q mm = Abort)
          \/ defineChargedAtomType id nm c q mm
             = Return
                 (set_chargedAtomTypes
                    (upd_at (if id >=? size (chargedAtomTypes mm)
                             then resize (id + 1) ChargedAtomType_default
                                         (chargedAtomTypes mm)
                             else chargedAtomTypes mm)
                            id (fun _ => mkChargedAtomType id nm c (Some q)))
                    mm) tt)).
Proof.
  remember (defineChargedAtomType id nm c q mm) as res eqn:Hres.
  unfold defineChargedAtomType in Hres.
  unfold bind at 1 in Hres. unfold get at 1 in Hres.
  unfold bind at 1 in Hres. unfold apiArgCheck at 1 in Hres.
  destruct (Z.leb_spec 0 id) as [Hid | Hid];
    [| left; split; [left; lia | exact Hres]].
  unfold bind at 1 in Hres. unfold apiArgCheck at 1 in Hres.
  destruct (Z.leb_spec 0 c) as [Hc | Hc];
    [| left; split; [right; left; lia | exact Hres]].
  unfold bind at 1 in Hres. unfold apiArgCheck at 1 in Hres.
  destruct (isValidAtomClass mm c) eqn:Ec; [| left; auto].
  assert (Hnv : ChargedAtomType_isValid (mkChargedAtomType id nm c (Some q))
                = true).
  { unfold ChargedAtomType_isValid. cbn.
    destruct (Z.leb_spec 0 id), (Z.leb_spec 0 c); try lia; reflexivity. }
  destruct (Z_lt_le_dec INT_MAX (id + 1)) as [Hov | Hfit];
    [destruct (Z.geb_spec id (size (chargedAtomTypes mm))) as [Hge | Hlt] |].
  - (* the vector must grow, and [id+1] is no [int] *)
    right.
    assert (Ev : isValidChargedAtomType mm id = false).
    { unfold isValidChargedAtomType, isValidAt.
      destruct (Z.ltb_spec id (size (chargedAtomTypes mm))); [lia |].
      now rewrite andb_false_r. }
    do 4 (split; [first [assumption | reflexivity] |]).
    left. split; [lia |]. rewrite Hres.
    unfold bind at 1. unfold bind at 1.
    now rewrite (intAdd_overflow _ _ _ Hov).
  - (* no growth: the sum is not taken *)
    destruct (slot_define ChargedAtomType_isValid ChargedAtomType_default
                (mkChargedAtomType id nm c (Some q)) (chargedAtomTypes mm) id
                Hid eq_refl)
      as ((old & Hold & Hvalid) & Hat & _).
    fold (isValidChargedAtomType mm id) in Hvalid.
    destruct (Z.geb_spec id (size (chargedAtomTypes mm))) as [Hge | _]; [lia |].
    unfold bind at 1 in Hres. unfold ret at 1 in Hres.
    unfold bind at 1 in Hres. unfold get at 1 in Hres.
    unfold bind at 1 in Hres. unfold must at 1 in Hres. rewrite Hold in Hres.
    unfold bind at 1 in Hres. unfold apiArgCheck at 1 in Hres.
    rewrite Hvalid in Hres.
    destruct (isValidChargedAtomType mm id) eqn:Ev.
    + cbn [negb] in Hres. left. split; [auto 10 | exact Hres].
    + cbn [negb] in Hres. right.
      do 4 (split; [first [assumption | reflexivity] |]).
      right.
      unfold bind at 1 in Hres. unfold assert at 1 in Hres.
      rewrite Hnv in Hres.
      unfold modChargedAtomType, bind, get, must, modify in Hres.
      rewrite Hold in Hres.
      rewrite Hres. destruct mm; reflexivity.
  - destruct (slot_define ChargedAtomType_isValid ChargedAtomType_default
                (mkChargedAtomType id nm c (Some q)) (chargedAtomTypes mm) id
                Hid eq_refl)
      as ((old & Hold & Hvalid) & Hat & _).
    fold (isValidChargedAtomType mm id) in Hvalid.
    set (l1 := if id >=? size (chargedAtomTypes mm)
               then resize (id + 1) ChargedAtomType_default
                           (chargedAtomTypes mm)
               else chargedAtomTypes mm) in *.
    assert (Hstep :
              (if id >=? size (chargedAtomTypes mm)
               then n <- intAdd id 1 ;;
                    modify (fun mm0 =>
                              set_chargedAtomTypes
                                (resize n ChargedAtomType_default
                                        (chargedAtomTypes mm0)) mm0)
               else ret tt) mm
              = Return (set_chargedAtomTypes l1 mm) tt).
    { subst l1. destruct (id >=? size (chargedAtomTypes mm)).
      - unfold bind. rewrite intAdd_fits by (unfold INT_MAX in *; lia).
        reflexivity.
      - unfold ret. destruct mm; reflexivity. }
    rewrite (bind_Return _ _ _ _ _ Hstep) in Hres.
    unfold bind at 1 in Hres. unfold get at 1 in Hres.
    cbn [chargedAtomTypes set_chargedAtomTypes] in Hres.
    unfold bind at 1 in Hres. unfold must at 1 in Hres. rewrite Hold in Hres.
    unfold bind at 1 in Hres. unfold apiArgCheck at 1 in Hres.
    rewrite Hvalid in Hres.
    destruct (isValidChargedAtomType mm id) eqn:Ev.
    + cbn [negb] in Hres. left. split; [auto 10 |].
      rewrite Hres. f_equal. subst l1.
      destruct (Z.geb_spec id (size (chargedAtomTypes mm))) as [Hge | Hlt].
      * exfalso. unfold isValidChargedAtomType, isValidAt in Ev.
        destruct (Z.ltb_spec id (size (chargedAtomTypes mm))); [lia |].
        rewrite andb_false_r in Ev. discriminate.
      * destruct mm; reflexivity.
    + cbn [negb] in Hres. right.
      do 4 (split; [first [assumption | reflexivity] |]).
      right.
      unfold bind at 1 in Hres. unfold assert at 1 in Hres.
      rewrite Hnv in Hres.
      unfold modChargedAtomType, bind, get, must, modify in Hres.
      cbn [chargedAtomTypes set_chargedAtomTypes] in Hres. rewrite Hold in Hres.
      exact Hres.
Qed.

(** X4. [defineChargedAtomType] with a type id below [INT_MAX] (the call
    computes [id+1] in [int] when it has to make room) never aborts.  It
    throws exactly when the type id or the class id is negative, the class
    is not a defined atom class, or the type id is that of a defined type;
    a throw leaves the subsystem as it was.  When it returns, the type is
    stored under its id with its class and charge, it is a defined type, and
    the types under other ids are as before. *)
Theorem defineChargedAtomType_outcome mm id nm c q :
  id < INT_MAX ->
  let call := defineChargedAtomType id nm c q in
  call mm <> Abort
  /\ ((exists mm', call mm = Throw mm')
      <-> (id < 0 \/ c < 0 \/ isValidAtomClass mm c = false
           \/ isValidChargedAtomType mm id = true))
  /\ (forall mm', call mm = Throw mm' -> mm' = mm)
  /\ (forall mm' u, call mm = Return mm' u ->
        at_ (chargedAtomTypes mm') id
        = Some (mkChargedAtomType id nm c (Some q))
        /\ isValidChargedAtomType mm' id = true
        /\ (forall j, j <> id ->
              isValidChargedAtomType mm' j = isValidChargedAtomType mm j)
        /\ (forall j t, j <> id -> at_ (chargedAtomTypes mm) j = Some t ->
              at_ (chargedAtomTypes mm') j = Some t)
        /\ atomClasses mm' = atomClasses mm).
Proof.
  intros Hmax call.
  destruct (defineChargedAtomType_cases mm id nm c q) as [[Hbad Hrun] | Hok].
  - fold call in Hrun. rewrite Hrun. split; [discriminate |]. split; [| split].
    + split; [intros _; exact Hbad | eauto].
    + intros mm' H. inversion H; reflexivity.
    + intros mm' u H. discriminate.
  - destruct Hok as (Hid & Hc & Ec & Ev & [[Hov _] | Hrun]); [lia |].
    fold call in Hrun.
    rewrite Hrun. split; [discriminate |]. split; [| split].
    + split; [intros [mm' H]; discriminate |].
      intros [H | [H | [H | H]]]; try congruence; try lia.
    + intros mm' H. discriminate.
    + intros mm' u H. inversion H; subst mm'; clear H.
      destruct (slot_define ChargedAtomType_isValid ChargedAtomType_default
                  (mkChargedAtomType id nm c (Some q)) (chargedAtomTypes mm) id
                  Hid eq_refl)
        as (_ & Hat & Hval & Hkeep & Hsize).
      cbn [chargedAtomTypes set_chargedAtomTypes]. unfold isValidChargedAtomType.
      cbn [chargedAtomTypes set_chargedAtomTypes atomClasses].
      split; [exact Hat |]. split; [| split; [exact Hval | split; [exact Hkeep | reflexivity]]].
      apply (isValidAt_intro _ _ _ _ Hat).
      unfold ChargedAtomType_isValid. cbn.
      destruct (Z.leb_spec 0 id), (Z.leb_spec 0 c); try lia; reflexivity.
Qed.

(** X3 on a fresh subsystem: the class 3 is defined first; the vector
    grows to four entries, and the entries the call made room for stay
    undefined. *)
Lemma defineAtomClass_outcome_witness :
  exists mm',
    defineAtomClass 3 "C" 6 4 1 1 DuMM_new = Return mm' tt
    /\ isValidAtomClass mm' 3 = true
    /\ isValidAtomClass mm' 2 = false
    /\ size (atomClasses mm') = 4.
Proof.
  assert (A : { mm' | defineAtomClass 3 "C" 6 4 1 1 DuMM_new = Return mm' tt })
    by (eexists; apply returns_eq; run_call).
  destruct A as [mm' H]. exists mm'. split; [exact H |].
  destruct (defineAtomClass_outcome DuMM_new 3 "C" 6 4 1 1)
    as (_ & _ & _ & R); [unfold INT_MAX; lia |].
  destruct (R mm' tt H) as (_ & V & O & _ & Sz).
  split; [exact V |]. split; [| exact Sz].
  rewrite O by lia. reflexivity.
Defined.

(** X4 on the small molecule: the type 3 is defined for the class 1; the
    type 2, which the call made room for, stays undefined. *)
Lemma defineChargedAtomType_outcome_witness :
  exists mm',
    defineChargedAtomType 3 "d" 1 1 (projT1 demo_runs) = Return mm' tt
    /\ isValidChargedAtomType mm' 3 = true
    /\ isValidChargedAtomType mm' 2 = false.
Proof.
  assert (A : { mm' | defineChargedAtomType 3 "d" 1 1 (projT1 demo_runs)
                      = Return mm' tt })
    by (eexists; apply returns_eq; run_call).
  destruct A as [mm' H]. exists mm'. split; [exact H |].
  destruct (defineChargedAtomType_outcome (projT1 demo_runs) 3 "d" 1 1)
    as (_ & _ & _ & R); [unfold INT_MAX; lia |].
  destruct (R mm' tt H) as (_ & V & O & _).
  split; [exact V |].
  rewrite O by lia. rlazy. reflexivity.
Defined.

(* ================================================================= *)
(** ** The stretch and bend catalogs *)

Lemma set_bondStretch_same mm : set_bondStretch (bondStretch mm) mm = mm.
Proof. destruct mm; reflexivity. Qed.

Lemma set_bondBend_same mm : set_bondBend (bondBend mm) mm = mm.
Proof. destruct mm; reflexivity. Qed.

Lemma BondStretch_new_valid k d :
  (0 <= k)%R -> (0 <= d)%R -> BondStretch_isValid (BondStretch_new k d) = true.
Proof.
  intros Hk Hd. unfold BondStretch_isValid, BondStretch_new, EnergyUnitsPerKcal.
  cbn. rewrite !Rleb_true by nra. reflexivity.
Qed.

Lemma BondBend_new_valid k a :
  (0 <= k)%R -> (0 <= a <= 180)%R -> BondBend_isValid (BondBend_new k a) = true.
Proof.
  intros Hk Ha. pose proof PI_RGT_0 as HPI.
  unfold BondBend_isValid, BondBend_new, EnergyUnitsPerKcal, RadiansPerDegree, Pi.
  cbn. rewrite !Rleb_true by nra. reflexivity.
Qed.

(** The outcome of [defineBondStretch]: a throw with the subsystem as it was,
    or a return with the new entry appended. *)
Lemma defineBondStretch_cases mm c1 c2 k d :
  let key := IntPair_new c1 c2 true in
  ((isValidAtomClass mm c1 = false \/ isValidAtomClass mm c2 = false
    \/ (k < 0)%R \/ (d < 0)%R
    \/ map_find IntPair_lt key (bondStretch mm) <> None)
   /\ defineBondStretch c1 c2 k d mm = Throw mm)
  \/ (isValidAtomClass mm c1 = true /\ isValidAtomClass mm c2 = true
      /\ (0 <= k)%R /\ (0 <= d)%R
      /\ map_find IntPair_lt key (bondStretch mm) = None
      /\ defineBondStretch c1 c2 k d mm
         = Return (set_bondStretch
                     (bondStretch mm ++ [(key, BondStretch_new k d)]) mm) tt).
Proof.
  intros key. unfold defineBondStretch, bind, get, apiArgCheck, assert, modify.
  destruct (isValidAtomClass mm c1) eqn:E1; [| left; auto].
  destruct (isValidAtomClass mm c2) eqn:E2; [| left; auto].
  destruct (Rle_dec 0 k) as [Hk | Hk];
    [rewrite (Rleb_true _ _ Hk) | rewrite Rleb_false by lra; left; split; auto; right; right; left; lra].
  destruct (Rle_dec 0 d) as [Hd | Hd];
    [rewrite (Rleb_true _ _ Hd) | rewrite Rleb_false by lra; left; split; auto; do 3 right; left; lra].
  rewrite (BondStretch_new_valid _ _ Hk Hd). fold key.
  unfold map_insert.
  destruct (map_find IntPair_lt key (bondStretch mm)) eqn:F; cbn [fst snd].
  - rewrite set_bondStretch_same. left. split; [| reflexivity].
    do 4 right. congruence.
  - right. auto 10.
Qed.

Lemma defineBondBend_cases mm c1 c2 c3 k a :
  let key := IntTriple_new c1 c2 c3 true in
  ((isValidAtomClass mm c1 = false \/ isValidAtomClass mm c2 = false
    \/ isValidAtomClass mm c3 = false
    \/ (k < 0)%R \/ (a < 0)%R \/ (180 < a)%R
    \/ map_find IntTriple_lt key (bondBend mm) <> None)
   /\ defineBondBend c1 c2 c3 k a mm = Throw mm)
  \/ (isValidAtomClass mm c1 = true /\ isValidAtomClass mm c2 = true
      /\ isValidAtomClass mm c3 = true
      /\ (0 <= k)%R /\ (0 <= a <= 180)%R
      /\ map_find IntTriple_lt key (bondBend mm) = None
      /\ defineBondBend c1 c2 c3 k a mm
         = Return (set_bondBend
                     (bondBend mm ++ [(key, BondBend_new k a)]) mm) tt).
Proof.
  intros key. unfold defineBondBend, bind, get, apiArgCheck, assert, modify.
  destruct (isValidAtomClass mm c1) eqn:E1; [| left; auto].
  destruct (isValidAtomClass mm c2) eqn:E2; [| left; auto].
  destruct (isValidAtomClass mm c3) eqn:E3; [| left; auto].
  destruct (Rle_dec 0 k) as [Hk | Hk];
    [rewrite (Rleb_true _ _ Hk) | rewrite Rleb_false by lra; left; split; auto; do 3 right; left; lra].
  destruct (Rle_dec 0 a) as [Ha | Ha];
    [rewrite (Rleb_true _ _ Ha) | rewrite Rleb_false by lra; left; split; auto; do 4 right; left; lra].
  destruct (Rle_dec a 180) as [Hb | Hb];
    [rewrite (Rleb_true _ _ Hb) | rewrite Rleb_false by lra; left; split; auto; do 5 right; left; lra].
  cbn [andb].
  rewrite (BondBend_new_valid _ _ Hk (conj Ha Hb)). fold key.
  unfold map_insert.
  destruct (map_find IntTriple_lt key (bondBend mm)) eqn:F; cbn [fst snd].
  - rewrite set_bondBend_same. left. split; [| reflexivity].
    do 6 right. congruence.
  - right. auto 10.
Qed.

(** X1. [defineBondStretch] never aborts.  It throws exactly when one of
    the two classes is not a defined atom class, the stiffness or the
    nominal length is negative, or the catalog has an entry for the class
    pair already (in either order); a throw leaves the subsystem as it was.
    When it returns, [getBondStretch] finds the new entry under the two
    classes in either order, with the stiffness converted from Kcal to
    energy units, and every other entry of the catalog is as before. *)
Theorem defineBondStretch_outcome mm c1 c2 k d :
  let call := defineBondStretch c1 c2 k d in
  let key := IntPair_new c1 c2 true in
  call mm <> Abort
  /\ ((exists mm', call mm = Throw mm')
      <-> (isValidAtomClass mm c1 = false \/ isValidAtomClass mm c2 = false
           \/ (k < 0)%R \/ (d < 0)%R
           \/ (exists bs, getBondStretch c1 c2 mm = Return mm bs)
           \/ (exists bs, getBondStretch c2 c1 mm = Return mm bs)))
  /\ (forall mm', call mm = Throw mm' -> mm' = mm)
  /\ (forall mm' u, call mm = Return mm' u ->
        getBondStretch c1 c2 mm'
        = Return mm' (mkBondStretch (k * EnergyUnitsPerKcal) d)
        /\ getBondStretch c2 c1 mm'
           = Return mm' (mkBondStretch (k * EnergyUnitsPerKcal) d)
        /\ (forall k', k' <> key ->
              map_find IntPair_lt k' (bondStretch mm')
              = map_find IntPair_lt k' (bondStretch mm))).
Proof.
  intros call key.
  assert (G : forall s x y,
             (exists bs, getBondStretch x y s = Return s bs)
             <-> map_find IntPair_lt (IntPair_new x y true) (bondStretch s) <> None).
  { intros s x y. unfold getBondStretch, bind, get, must.
    destruct (map_find _ _ _); split.
    - discriminate.
    - eauto.
    - intros [bs H]. discriminate.
    - congruence. }
  assert (Ksym : IntPair_new c2 c1 true = key)
    by (symmetry; apply IntPair_canonical_sym).
  destruct (defineBondStretch_cases mm c1 c2 k d) as [[Hbad Hrun] | Hok];
    fold key in Hbad || fold key in Hok.
  - fold call in Hrun. rewrite Hrun. split; [discriminate |]. split; [| split].
    + split; [intros _ | eauto].
      destruct Hbad as [H | [H | [H | [H | H]]]]; auto.
      do 4 right. left. apply G. exact H.
    + intros mm' H. inversion H; reflexivity.
    + intros mm' u H. discriminate.
  - destruct Hok as (E1 & E2 & Hk & Hd & F & Hrun). fold call in Hrun.
    rewrite Hrun. split; [discriminate |]. split; [| split].
    + split; [intros [mm' H]; discriminate |].
      intros [H | [H | [H | [H | [H | H]]]]]; try congruence; try lra.
      * apply G in H. fold key in H. contradiction.
      * apply G in H. rewrite Ksym in H. contradiction.
    + intros mm' H. discriminate.
    + intros mm' u H. inversion H; subst mm'; clear H.
      destruct (map_insert_new IntPair_lt IntPair_equivb_eq key
                  (BondStretch_new k d) (bondStretch mm) F) as (_ & I1 & I2).
      unfold getBondStretch, bind, get, must. rewrite Ksym. fold key.
      cbn [bondStretch set_bondStretch]. rewrite I1.
      split; [reflexivity |]. split; [reflexivity | exact I2].
Qed.

(** X2. [defineBondBend] never aborts.  It throws exactly when one of the
    three classes is not a defined atom class, the stiffness is negative,
    the nominal angle is outside [0,180] degrees, or the catalog has an
    entry for the class triple already (as given or reversed); a throw
    leaves the subsystem as it was.  When it returns, [getBondBend] finds
    the new entry under the triple and under its reversal, with the
    stiffness in energy units and the angle in radians, and every other
    entry of the catalog is as before. *)
Theorem defineBondBend_outcome mm c1 c2 c3 k a :
  let call := defineBondBend c1 c2 c3 k a in
  let key := IntTriple_new c1 c2 c3 true in
  call mm <> Abort
  /\ ((exists mm', call mm = Throw mm')
      <-> (isValidAtomClass mm c1 = false \/ isValidAtomClass mm c2 = false
           \/ isValidAtomClass mm c3 = false
           \/ (k < 0)%R \/ (a < 0)%R \/ (180 < a)%R
           \/ (exists bb, getBondBend c1 c2 c3 mm = Return mm bb)
           \/ (exists bb, getBondBend c3 c2 c1 mm = Return mm bb)))
  /\ (forall mm', call mm = Throw mm' -> mm' = mm)
  /\ (forall mm' u, call mm = Return mm' u ->
        getBondBend c1 c2 c3 mm'
        = Return mm' (mkBondBend (k * EnergyUnitsPerKcal) (a * RadiansPerDegree))
        /\ getBondBend c3 c2 c1 mm'
           = Return mm' (mkBondBend (k * EnergyUnitsPerKcal) (a * RadiansPerDegree))
        /\ (forall k', k' <> key ->
              map_find IntTriple_lt k' (bondBend mm')
              = map_find IntTriple_lt k' (bondBend mm))).
Proof.
  intros call key.
  assert (G : forall s x y z,
             (exists bb, getBondBend x y z s = Return s bb)
             <-> map_find IntTriple_lt (IntTriple_new x y z true) (bondBend s) <> None).
  { intros s x y z. unfold getBondBend, bind, get, must.
    destruct (map_find _ _ _); split.
    - discriminate.
    - eauto.
    - intros [bs H]. discriminate.
    - congruence. }
  assert (Ksym : IntTriple_new c3 c2 c1 true = key)
    by (symmetry; apply IntTriple_canonical_sym).
  destruct (defineBondBend_cases mm c1 c2 c3 k a) as [[Hbad Hrun] | Hok];
    fold key in Hbad || fold key in Hok.
  - fold call in Hrun. rewrite Hrun. split; [discriminate |]. split; [| split].
    + split; [intros _ | eauto].
      destruct Hbad as [H | [H | [H | [H | [H | [H | H]]]]]]; auto 10.
      do 6 right. left. apply G. exact H.
    + intros mm' H. inversion H; reflexivity.
    + intros mm' u H. discriminate.
  - destruct Hok as (E1 & E2 & E3 & Hk & Ha & F & Hrun). fold call in Hrun.
    rewrite Hrun. split; [discriminate |]. split; [| split].
    + split; [intros [mm' H]; discriminate |].
      intros [H | [H | [H | [H | [H | [H | [H | H]]]]]]]; try congruence; try lra.
      * apply G in H. fold key in H. contradiction.
      * apply G in H. rewrite Ksym in H. contradiction.
    + intros mm' H. discriminate.
    + intros mm' u H. inversion H; subst mm'; clear H.
      destruct (map_insert_new IntTriple_lt IntTriple_equivb_eq key
                  (BondBend_new k a) (bondBend mm) F) as (_ & I1 & I2).
      unfold getBondBend, bind, get, must. rewrite Ksym. fold key.
      cbn [bondBend set_bondBend]. rewrite I1.
      split; [reflexivity |]. split; [reflexivity | exact I2].
Qed.

(* ================================================================= *)
(** ** Calls that throw *)

Section NoThrow.
Context {S : Type}.

Lemma nothrow_ret {A} (a : A) : nothrow (@ret S A a).
Proof. intros s s'. discriminate. Qed.

Lemma nothrow_get : nothrow (@get S).
Proof. intros s s'. discriminate. Qed.

Lemma nothrow_abort {A} : nothrow (@abort S A).
Proof. intros s s'. discriminate. Qed.

Lemma nothrow_assert b : nothrow (@assert S b).
Proof. intros s s'. unfold assert. destruct b; discriminate. Qed.

Lemma nothrow_must {A} (o : option A) : nothrow (@must S A o).
Proof. intros s s'. unfold must. destruct o; discriminate. Qed.

Lemma nothrow_modify (f : S -> S) : nothrow (modify f).
Proof. intros s s'. discriminate. Qed.

Lemma nothrow_bind {A B} (m : M S A) (k : A -> M S B) :
  nothrow m -> (forall a, nothrow (k a)) -> nothrow (bind m k).
Proof.
  intros Hm Hk s s'. unfold bind. specialize (Hm s).
  destruct (m s) as [s1 a | s1 |]; [apply Hk | | discriminate].
  exfalso. eapply Hm. reflexivity.
Qed.

Lemma nothrow_forEach {A} (l : list A) (body : A -> M S unit) :
  (forall x, nothrow (body x)) -> nothrow (forEach l body).
Proof.
  intros Hb. induction l; simpl.
  - apply nothrow_ret.
  - apply nothrow_bind; auto.
Qed.

Lemma nothrow_foldM {A B} (f : B -> A -> M S B) (l : list A) (b : B) :
  (forall b x, nothrow (f b x)) -> nothrow (foldM f l b).
Proof.
  intros Hf. revert b. induction l; intros b; simpl.
  - apply nothrow_ret.
  - apply nothrow_bind; auto.
Qed.

Lemma nothrow_mapM {A B} (f : A -> M S B) (l : list A) :
  (forall x, nothrow (f x)) -> nothrow (mapM f l).
Proof.
  intros Hf. induction l; simpl.
  - apply nothrow_ret.
  - apply nothrow_bind; auto. intros y. apply nothrow_bind; auto.
    intros ys. apply nothrow_ret.
Qed.

Lemma nothrow_filterM {A} (f : A -> M S bool) (l : list A) :
  (forall x, nothrow (f x)) -> nothrow (filterM f l).
Proof.
  intros Hf. induction l; simpl.
  - apply nothrow_ret.
  - apply nothrow_bind; auto. intros y. apply nothrow_bind; auto.
    intros ys. apply nothrow_ret.
Qed.
End NoThrow.

Ltac nothrow_step :=
  first
    [ assumption
    | apply nothrow_ret
    | apply nothrow_get
    | apply nothrow_abort
    | apply nothrow_assert
    | apply nothrow_must
    | apply nothrow_modify
    | apply nothrow_bind; [| intros ?]
    | apply nothrow_forEach; intros ?
    | apply nothrow_foldM; intros ? ?
    | apply nothrow_mapM; intros ?
    | apply nothrow_filterM; intros ?
    | match goal with
      | |- nothrow (if ?b then _ else _) => destruct b
      | |- nothrow (let (_, _) := ?p in _) => destruct p
      | |- nothrow (match ?o with Some _ => _ | None => _ end) => destruct o
      end ].

Create HintDb ops_nothrow discriminated.
#[export] Hint Unfold intAdd getAtom getCluster getBody modAtom modCluster modBody
  modAtomClass modChargedAtomType Atom_attachToBody addCluster
  Cluster_placeAtom containsCluster Cluster_placeCluster
  ensureBodyEntryExists bodyCluster getChargedAtomTypeNum getAtomClassNum
  getBondStretch getBondBend getBondTorsion
  invalidateAllTopologicalCacheEntries
  vdwRowStep realizeVdw realizeCluster realizeBody assignBodyAtoms
  buildPaths bodyOf offBody sortChecked realizeAtomBonds forIndices
  createCluster
  placeClusterInCluster placeClusterInCluster_rep attachClusterToBody
  attachClusterToBody_rep attachAtomToBody attachAtomToBody_rep
  realizeConstruction void addAtom addAtom_rep addBond addBond_rep
  : ops_nothrow.

Ltac nothrow_auto :=
  repeat first [ nothrow_step | progress autounfold with ops_nothrow ].

Lemma Cluster_attachToBody_nothrow fuel :
  forall cid bnum X, nothrow (Cluster_attachToBody fuel cid bnum X).
Proof.
  induction fuel as [|fuel IH]; intros cid bnum X; simpl.
  - apply nothrow_abort.
  - pose proof (fun c b x => IH c b x) as IH'. nothrow_auto. apply IH.
Qed.

Lemma Cluster_placeAtom_nothrow cid a st : nothrow (Cluster_placeAtom cid a st).
Proof. nothrow_auto. Qed.

Lemma void_throw (m : Sub unit) mm mm' :
  void m mm = Throw mm' -> m mm = Throw mm'.
Proof.
  unfold void, bind, ret. destruct (m mm); intros H; congruence.
Qed.

(** The calls that are written with [assert] only. *)
Lemma run_nothrow fuel c :
  match c with
  | CreateCluster _ | AddAtom _ | PlaceClusterInCluster _ _ _
  | AttachClusterToBody _ _ _ | AttachAtomToBody _ _ _ | AddBond _ _
  | RealizeConstruction => nothrow (run fuel c)
  | _ => True
  end.
Proof.
  pose proof Cluster_attachToBody_nothrow as Hat.
  destruct c; try exact I; unfold run; nothrow_auto; try apply Hat.
Qed.

Lemma setScaleFactor_throw set fac mm mm' :
  setScaleFactor set fac mm = Throw mm' -> mm' = mm.
Proof.
  unfold setScaleFactor, bind, apiArgCheck, modify.
  destruct (_ && _); intros H; inversion H; reflexivity.
Qed.

Lemma placeAtomInCluster_throw a c st mm mm' :
  placeAtomInCluster a c st mm = Throw mm' -> mm' = mm.
Proof.
  unfold placeAtomInCluster.
  unfold bind at 1. unfold get at 1.
  unfold bind at 1. unfold apiArgCheck at 1.
  destruct (isValidAtom mm a); [| intros H; inversion H; reflexivity].
  unfold bind at 1. unfold apiArgCheck at 1.
  destruct (isValidCluster mm c); [| intros H; inversion H; reflexivity].
  unfold bind at 1. unfold getCluster, bind, get, assert, must.
  destruct (isValidCluster mm c); [| discriminate].
  destruct (at_ (clusters mm) c) as [cl |]; [| discriminate].
  unfold apiArgCheck.
  destruct (negb (Cluster_containsAtom cl a));
    [| intros H; inversion H; reflexivity].
  intros H. exfalso. exact (Cluster_placeAtom_nothrow c a st mm mm' H).
Qed.

(** A throw leaves the subsystem as it was, and comes from a call that
    tests its arguments. *)
Lemma run_throw_same fuel c mm mm' :
  run fuel c mm = Throw mm' -> mm' = mm /\ checksArguments c = true.
Proof.
  intros H. pose proof (run_nothrow fuel c) as N.
  destruct c as [id nm e v r w | id nm cl q | c1 c2 k d | c1 c2 c3 k a
                 | c1 c2 c3 c4 n1 a1 p1 n2 a2 p2 n3 a3 p3
                 | f | f | f | f | f | f | f | f | nm | t | a cl s | ch p x
                 | cl b x | a b s | a1 a2 | ];
    try (exfalso; exact (N mm mm' H)); clear N;
    (split; [| reflexivity]);
    unfold run in H; apply void_throw in H;
    try (eapply setScaleFactor_throw; exact H).
  - destruct (defineAtomClass_cases mm id nm e v r w)
      as [[_ E] | (_ & _ & _ & _ & _ & _ & [[_ E] | E])];
      rewrite E in H; inversion H; reflexivity.
  - destruct (defineChargedAtomType_cases mm id nm cl q)
      as [[_ E] | (_ & _ & _ & _ & [[_ E] | E])];
      rewrite E in H; inversion H; reflexivity.
  - destruct (defineBondStretch_cases mm c1 c2 k d)
      as [[_ E] | (_ & _ & _ & _ & _ & E)];
      rewrite E in H; inversion H; reflexivity.
  - destruct (defineBondBend_cases mm c1 c2 c3 k a)
      as [[_ E] | (_ & _ & _ & _ & _ & _ & E)];
      rewrite E in H; inversion H; reflexivity.
  - destruct (defineBondTorsion_outcome mm c1 c2 c3 c4
                n1 a1 p1 n2 a2 p2 n3 a3 p3) as [[_ E] | [_ E]];
      rewrite E in H; inversion H; reflexivity.
  - eapply placeAtomInCluster_throw; exact H.
Qed.

(** X5. A call that throws leaves the subsystem exactly as it was: every
    [SimTK_APIARGCHECK] comes before the first write, or follows a map
    insertion that did nothing.  Only the calls that test their arguments
    throw: [createCluster], [addAtom], [addBond], [placeClusterInCluster],
    [attachClusterToBody], [attachAtomToBody] and [realizeConstruction]
    never throw. *)
Theorem throw_leaves_subsystem_unchanged fuel c mm mm' :
  run fuel c mm = Throw mm' -> mm' = mm /\ checksArguments c = true.
Proof. apply run_throw_same. Qed.

(** X5 on the small molecule, at a throw that comes late: the stretch of
    the classes 0 and 1 is defined, so [defineBondStretch(1,0,...)] passes
    the tests of its arguments, tries the insertion, which does nothing, and
    throws; the subsystem is as it was. *)
Lemma throw_leaves_subsystem_unchanged_witness :
  run 2 (DefineBondStretch 1 0 5 5) (projT1 demo_runs)
  = Throw (projT1 demo_runs).
Proof.
  assert (H : { mm' | run 2 (DefineBondStretch 1 0 5 5) (projT1 demo_runs)
                      = Throw mm' })
    by (eexists; rlazy; repeat (rtest; rlazy); reflexivity).
  destruct H as [mm' H].
  destruct (throw_leaves_subsystem_unchanged _ _ _ _ H) as [E _].
  rewrite E in H. exact H.
Defined.

(* ================================================================= *)
(** ** After the first realization *)

Lemma atom_stable_refl a : atom_stable a a.
Proof. unfold atom_stable, same_derived. tauto. Qed.

Lemma atom_stable_trans a b c :
  atom_stable a b -> atom_stable b c -> atom_stable a c.
Proof.
  unfold atom_stable, same_derived.
  intros (H1 & H2 & H3 & H4) (K1 & K2 & K3 & K4).
  split; [congruence |]. split; [congruence |].
  split; [intuition congruence |].
  intros Hb. destruct (H4 Hb) as [E1 E2].
  destruct K4 as [E3 E4]; [lia |]. split; congruence.
Qed.

#[export] Instance keeps_atoms_frame : FrameRel keeps_atoms.
Proof.
  split.
  - intros s i a H. exists a. split; [exact H | apply atom_stable_refl].
  - intros a b c H1 H2 i x Hx.
    destruct (H1 i x Hx) as (y & Hy & S1).
    destruct (H2 i y Hy) as (z & Hz & S2).
    exists z. split; [exact Hz | eapply atom_stable_trans; eauto].
Qed.

Lemma keeps_atoms_same s s' : atoms s' = atoms s -> keeps_atoms s s'.
Proof.
  intros E i a H. rewrite E. exists a. split; [exact H | apply atom_stable_refl].
Qed.

Lemma keeps_atoms_upd_at s i f :
  (forall a, atom_stable a (f a)) ->
  keeps_atoms s (set_atoms (upd_at (atoms s) i f) s).
Proof.
  intros Hf j a H. cbn.
  destruct (Z.eq_dec j i) as [-> | Hne].
  - rewrite upd_at_eq, H. cbn. exists (f a). split; [reflexivity | apply Hf].
  - rewrite upd_at_neq by exact Hne. exists a.
    split; [exact H | apply atom_stable_refl].
Qed.

Lemma keeps_atoms_app s x : keeps_atoms s (set_atoms (atoms s ++ [x]) s).
Proof.
  intros j a H. cbn. rewrite at_app_l by (apply at_length in H; lia).
  exists a. split; [exact H | apply atom_stable_refl].
Qed.

(** [Atom::attachToBody] asserts that the atom has no body yet. *)
Lemma Atom_attachToBody_keeps_atoms i b st :
  pres keeps_atoms (Atom_attachToBody i b st).
Proof.
  intros s. unfold Atom_attachToBody, modAtom, bind, get, must, assert, modify.
  destruct (at_ (atoms s) i) as [a |] eqn:E; [| exact I].
  destruct (Atom_isAttachedToBody a) eqn:Eb; cbn; [exact I |].
  rewrite E. intros j x Hx. cbn.
  destruct (Z.eq_dec j i) as [-> | Hne].
  - rewrite upd_at_eq, Hx. cbn. eexists. split; [reflexivity |].
    rewrite E in Hx. inversion Hx; subst x.
    unfold atom_stable, same_derived. cbn.
    unfold Atom_isAttachedToBody in Eb. apply Z.leb_gt in Eb.
    repeat split; try reflexivity; lia.
  - rewrite upd_at_neq by exact Hne. exists x.
    split; [exact Hx | apply atom_stable_refl].
Qed.

Create HintDb ops_atoms discriminated.
#[export] Hint Unfold intAdd getAtom getCluster getBody modAtom modCluster modBody
  modAtomClass modChargedAtomType addCluster
  Cluster_placeAtom containsCluster Cluster_placeCluster
  ensureBodyEntryExists bodyCluster getChargedAtomTypeNum getAtomClassNum
  getBondStretch getBondBend getBondTorsion BondTorsion_addTerm
  checkTorsionTerm setScaleFactor
  defineAtomClass defineChargedAtomType defineBondStretch defineBondBend
  defineBondTorsion createCluster placeAtomInCluster
  placeClusterInCluster placeClusterInCluster_rep attachClusterToBody
  attachClusterToBody_rep attachAtomToBody attachAtomToBody_rep
  void addAtom addAtom_rep addBond addBond_rep
  setVdw12ScaleFactor setVdw13ScaleFactor setVdw14ScaleFactor
  setVdw15ScaleFactor setCoulomb12ScaleFactor setCoulomb13ScaleFactor
  setCoulomb14ScaleFactor setCoulomb15ScaleFactor : ops_atoms.

(** A write that keeps the atoms. *)
Ltac atoms_write :=
  intros ?;
  first
    [ apply keeps_atoms_same; reflexivity
    | apply keeps_atoms_app
    | apply keeps_atoms_upd_at; intros ?;
      unfold atom_stable, same_derived; cbn; repeat split; reflexivity ].

Ltac atoms_auto :=
  repeat first
    [ apply Atom_attachToBody_keeps_atoms
    | pres_step
    | apply pres_modify; atoms_write
    | progress autounfold with ops_atoms ].

Lemma Cluster_attachToBody_keeps_atoms fuel :
  forall cid bnum X, pres keeps_atoms (Cluster_attachToBody fuel cid bnum X).
Proof.
  induction fuel as [|fuel IH]; intros cid bnum X; simpl.
  - apply pres_abort.
  - pose proof (fun c b x => IH c b x) as IH'. atoms_auto. apply IH.
Qed.

(** Only [realizeConstruction] rewrites what [atom_stable] tells of an
    atom. *)
Lemma run_keeps_atoms fuel c :
  c <> RealizeConstruction -> pres keeps_atoms (run fuel c).
Proof.
  intros Hc.
  pose proof Cluster_attachToBody_keeps_atoms as Hat.
  destruct c; try congruence; clear Hc; unfold run; atoms_auto; try apply Hat.
Qed.

Lemma realizeConstruction_sets_flag fuel mm mm' v :
  run fuel RealizeConstruction mm = Return mm' v ->
  topologicalCacheValid mm' = true.
Proof.
  unfold run, void. intros H.
  apply bind_inv in H as (s1 & u & H & Hret). apply ret_inv in Hret as [_ ->].
  unfold realizeConstruction in H.
  apply bind_inv in H as (s0 & x & Hg & H). apply get_inv in Hg as [-> ->].
  destruct (topologicalCacheValid mm) eqn:Ef.
  - apply ret_inv in H as [_ ->]. exact Ef.
  - do 8 (apply bind_inv in H as (? & ? & _ & H)).
    apply modify_inv in H. subst. reflexivity.
Qed.

Lemma call_eq_realize c : c = RealizeConstruction \/ c <> RealizeConstruction.
Proof. destruct c; (left; reflexivity) || (right; discriminate). Qed.

(** With the flag up, every call keeps the flag and the atoms. *)
Lemma valid_step fuel c mm :
  topologicalCacheValid mm = true ->
  match run fuel c mm with
  | Return mm' _ | Throw mm' =>
      topologicalCacheValid mm' = true /\ keeps_atoms mm mm'
  | Abort => True
  end.
Proof.
  intros Hf.
  destruct (call_eq_realize c) as [-> | Hc].
  - rewrite realizeConstruction_valid by exact Hf.
    split; [exact Hf | apply frame_refl].
  - pose proof (run_keeps_flag fuel c Hc mm) as K1.
    pose proof (run_keeps_atoms fuel c Hc mm) as K2.
    unfold keeps_flag in K1.
    destruct (run fuel c mm); cbn in *; auto; (split; [congruence | assumption]).
Qed.

Lemma realized_from fuel mm mm1 v mm2 :
  run fuel RealizeConstruction mm = Return mm1 v ->
  reachable_from mm1 mm2 ->
  topologicalCacheValid mm2 = true /\ keeps_atoms mm1 mm2.
Proof.
  intros H Hr. induction Hr as [| fuel' c s s' v' Hr [IH1 IH2] Hrun
                                | fuel' c s s' Hr [IH1 IH2] Hrun].
  - split; [eapply realizeConstruction_sets_flag; eauto | apply frame_refl].
  - pose proof (valid_step fuel' c s IH1) as K. rewrite Hrun in K.
    destruct K as [K1 K2]. split; [exact K1 | eapply frame_trans; eauto].
  - pose proof (valid_step fuel' c s IH1) as K. rewrite Hrun in K.
    destruct K as [K1 K2]. split; [exact K1 | eapply frame_trans; eauto].
Qed.

(** X6. Once [realizeConstruction] has returned, the flag
    [topologicalCacheValid] is up and no call ever takes it down again:
    whatever the client calls afterwards ([addAtom], [addBond], the
    definition calls, ...), whether the calls return or throw, the flag
    stays up, and [realizeConstruction] returns at once, leaving the
    subsystem as it is. *)
Theorem realized_flag_is_final fuel mm mm1 v mm2 :
  run fuel RealizeConstruction mm = Return mm1 v ->
  reachable_from mm1 mm2 ->
  topologicalCacheValid mm2 = true
  /\ forall fuel', run fuel' RealizeConstruction mm2 = Return mm2 0.
Proof.
  intros H Hr. destruct (realized_from _ _ _ _ _ H Hr) as [Hf _].
  split; [exact Hf |]. intros fuel'. now apply realizeConstruction_valid.
Qed.

(** X7. Once [realizeConstruction] has returned, the derived data of the
    atoms that were there are never written again: whatever the client calls
    afterwards, each such atom keeps its 1-3, 1-4 and 1-5 lists, its
    cross-body lists and its stretch, bend and torsion parameters, and, when
    it has a body, its body and station -- also when a later [addBond]
    gives it new direct bonds. *)
Theorem realized_lists_are_final fuel mm mm1 v mm2 i a :
  run fuel RealizeConstruction mm = Return mm1 v ->
  reachable_from mm1 mm2 ->
  at_ (atoms mm1) i = Some a ->
  exists a',
    at_ (atoms mm2) i = Some a'
    /\ bond13 a' = bond13 a /\ bond14 a' = bond14 a /\ bond15 a' = bond15 a
    /\ xbond12 a' = xbond12 a /\ xbond13 a' = xbond13 a
    /\ xbond14 a' = xbond14 a /\ xbond15 a' = xbond15 a
    /\ stretch a' = stretch a /\ bend a' = bend a /\ torsion a' = torsion a
    /\ (0 <= atom_bodyId a ->
        atom_bodyId a' = atom_bodyId a /\ station_B a' = station_B a).
Proof.
  intros H Hr Ha. destruct (realized_from _ _ _ _ _ H Hr) as [_ K].
  destruct (K i a Ha) as (a' & Ha' & _ & _ & D & B).
  exists a'. split; [exact Ha' |]. unfold same_derived in D.
  intuition.
Qed.

Lemma ensureBodyEntryExists_keeps_atoms fuel b :
  pres keeps_atoms (ensureBodyEntryExists fuel b).
Proof.
  pose proof Cluster_attachToBody_keeps_atoms as Hat.
  atoms_auto; try apply Hat.
Qed.

Lemma bodyCluster_keeps_atoms b : pres keeps_atoms (bodyCluster b).
Proof. atoms_auto. Qed.

(** X6 on the small molecule: after the realization a bond between the atoms
    0 and 3 is added, and realizing again changes nothing. *)
Lemma realized_flag_is_final_witness :
  exists mm2,
    run 2 (AddBond 0 3) (proj1_sig (projT2 demo_runs)) = Return mm2 3
    /\ run 2 RealizeConstruction mm2 = Return mm2 0.
Proof.
  assert (E : { mm2 | run 2 (AddBond 0 3) (proj1_sig (projT2 demo_runs))
                      = Return mm2 3 })
    by (eexists; rlazy; reflexivity).
  destruct E as [mm2 E]. exists mm2. split; [exact E |].
  refine (proj2 (realized_flag_is_final
                   2%nat (projT1 demo_runs) (proj1_sig (projT2 demo_runs)) 0 mm2
                   _ _) 2%nat).
  - apply returns_eq. exact (proj2 (proj2_sig (projT2 demo_runs))).
  - exact (from_return _ 2%nat (AddBond 0 3) _ mm2 3 (from_here _) E).
Defined.

(** X7 on the small molecule: after the realization the atoms 0 and 2 are
    bonded; atom 2 is then a direct bond of atom 0 and still the tail of its
    1-3 path. *)
Lemma realized_lists_are_final_witness :
  exists mm2 a',
    run 2 (AddBond 0 2) (proj1_sig (projT2 demo_runs)) = Return mm2 3
    /\ at_ (atoms mm2) 0 = Some a'
    /\ bond12 a' = [1; 2]
    /\ bond13 a' = [mkIntPair 1 2].
Proof.
  assert (E : { mm2 & { a0 |
                  run 2 (AddBond 0 2) (proj1_sig (projT2 demo_runs))
                  = Return mm2 3
                  /\ at_ (atoms mm2) 0 = Some a0
                  /\ bond12 a0 = [1; 2] } })
    by (eexists; eexists; split; [| split]; rlazy; reflexivity).
  destruct E as (mm2 & a0 & E & Ha0 & H12).
  assert (A : { a | at_ (atoms (proj1_sig (projT2 demo_runs))) 0 = Some a
                    /\ bond13 a = [mkIntPair 1 2] })
    by (eexists; split; rlazy; reflexivity).
  destruct A as [a [Ha H13]].
  destruct (realized_lists_are_final
              2%nat (projT1 demo_runs) (proj1_sig (projT2 demo_runs)) 0 mm2 0 a
              (returns_eq _ _ _ (proj2 (proj2_sig (projT2 demo_runs))))
              (from_return _ 2%nat (AddBond 0 2) _ mm2 3 (from_here _) E) Ha)
    as (a' & Ha' & E13 & _).
  exists mm2, a'. split; [exact E |]. split; [exact Ha' |].
  split; congruence.
Defined.


(* ================================================================= *)
(** ** Bend and torsion forces balance *)

Local Open Scope R_scope.

Lemma vec3_eq a b : vx a = vx b -> vy a = vy b -> vz a = vz b -> a = b.
Proof. destruct a, b; cbn; intros; subst; reflexivity. Qed.

(** The four forces of the torsion kernel on a real axis [v = o * xy], for
    any two gradients [dedt] and [dedu]: they sum to zero. *)
Lemma torsion_net_force (rG xG yG sG dedt dedu : Vec3) (o : R) :
  let r := vsub xG rG in
  let s := vsub sG yG in
  let v := vscale o (vsub yG xG) in
  let ry := vsub yG rG in
  let xs := vsub sG xG in
  vadd (vadd (vadd (vcross dedt v)
                   (vscale o (vadd (vcross ry dedt) (vcross dedu s))))
             (vscale o (vadd (vcross dedt r) (vcross xs dedu))))
       (vcross dedu v)
  = vzero.
Proof.
  destruct rG, xG, yG, sG, dedt, dedu. cbn.
  apply vec3_eq; cbn; ring.
Qed.

Ltac vec_ring :=
  unfold vadd, vsub, vneg, vcross, vscale, vdot, vzero; cbn;
  apply vec3_eq; cbn; ring.

(** The moment of four forces about the origin, from their moment about
    the second point. *)
Lemma moment_shift (rG xG yG sG rf xf yf sf : Vec3) :
  vadd (vadd (vadd (vcross rG rf) (vcross xG xf)) (vcross yG yf)) (vcross sG sf)
  = vadd (vcross xG (vadd (vadd (vadd rf xf) yf) sf))
         (vadd (vadd (vcross (vneg (vsub xG rG)) rf)
                     (vcross (vsub yG xG) yf))
               (vcross (vadd (vsub yG xG) (vsub sG yG)) sf)).
Proof. destruct rG, xG, yG, sG, rf, xf, yf, sf. vec_ring. Qed.

(** The part of the moment that comes from the first plane. *)
Lemma torsion_moment_t (r v : Vec3) (a : R) :
  let t := vcross r v in
  let dedt := vscale a (vcross t v) in
  vadd (vcross (vneg r) (vcross dedt v)) (vcross v (vcross dedt r))
  = vscale (- (a * vdot t t)) v.
Proof. destruct r, v. vec_ring. Qed.

(** The part that comes from the second plane. *)
Lemma torsion_moment_u (xy s : Vec3) (o b : R) :
  let v := vscale o xy in
  let u := vcross v s in
  let dedu := vscale (- b) (vcross u v) in
  vadd (vcross v (vcross (vadd xy s) dedu))
       (vcross (vadd xy s) (vcross dedu v))
  = vscale (b * vdot u u) v.
Proof. destruct xy, s. vec_ring. Qed.

Lemma moment_split (xy P Q : Vec3) (o : R) :
  vcross xy (vscale o (vadd P Q))
  = vadd (vcross (vscale o xy) P) (vcross (vscale o xy) Q).
Proof. destruct xy, P, Q. vec_ring. Qed.

Lemma vsub_chain (xG yG sG : Vec3) :
  vsub sG xG = vadd (vsub yG xG) (vsub sG yG).
Proof. destruct xG, yG, sG. vec_ring. Qed.

Lemma vadd_regroup (a1 a2 b1 b2 : Vec3) :
  vadd (vadd a1 (vadd a2 b1)) b2 = vadd (vadd a1 a2) (vadd b1 b2).
Proof. destruct a1, a2, b1, b2. vec_ring. Qed.

Lemma vcross_zero_r a : vcross a vzero = vzero.
Proof. destruct a. vec_ring. Qed.

Lemma vadd_zero_l a : vadd vzero a = a.
Proof. destruct a. vec_ring. Qed.

Lemma vscale_cancel (T x y : R) (v : Vec3) :
  x <> 0 -> y <> 0 ->
  vadd (vscale (- (T / x * x)) v) (vscale (T / y * y) v) = vzero.
Proof.
  intros Hx Hy. destruct v.
  unfold vadd, vscale, vzero; cbn. apply vec3_eq; cbn; field; repeat split; assumption.
Qed.

(** With the gradients of the kernel, they also have no moment. *)
Lemma torsion_net_torque (rG xG yG sG : Vec3) (o T : R) :
  let r := vsub xG rG in
  let s := vsub sG yG in
  let v := vscale o (vsub yG xG) in
  let t := vcross r v in
  let u := vcross v s in
  let ry := vsub yG rG in
  let xs := vsub sG xG in
  let dedt := vscale (T / vdot t t) (vcross t v) in
  let dedu := vscale (- (T / vdot u u)) (vcross u v) in
  vdot t t <> 0 -> vdot u u <> 0 ->
  vadd (vadd (vadd (vcross rG (vcross dedt v))
                   (vcross xG (vscale o (vadd (vcross ry dedt) (vcross dedu s)))))
             (vcross yG (vscale o (vadd (vcross dedt r) (vcross xs dedu)))))
       (vcross sG (vcross dedu v))
  = vzero.
Proof.
  intros r s v t u ry xs dedt dedu Ht Hu.
  rewrite moment_shift.
  pose proof (torsion_net_force rG xG yG sG dedt dedu o) as F.
  cbv zeta in F. fold r s v ry xs in F. rewrite F.
  rewrite vcross_zero_r, vadd_zero_l.
  fold r s. set (xy := vsub yG xG) in *.
  replace xs with (vadd xy s) by (symmetry; apply vsub_chain).
  rewrite moment_split. fold v.
  rewrite vadd_regroup.
  pose proof (torsion_moment_t r v (T / vdot t t)) as Mt.
  cbv zeta in Mt. fold t dedt in Mt. rewrite Mt.
  pose proof (torsion_moment_u xy s o (T / vdot u u)) as Mu.
  cbv zeta in Mu. fold v u dedu in Mu. rewrite Mu.
  apply vscale_cancel; assumption.
Qed.

Lemma vdot_self_zero v : vdot v v = 0 -> v = vzero.
Proof.
  destruct v as [a b c]. unfold vdot, vzero; cbn. intros H.
  assert (a = 0) by nra. assert (b = 0) by nra. assert (c = 0) by nra.
  subst. reflexivity.
Qed.

Lemma vsub_zero_eq a b : vsub a b = vzero -> a = b.
Proof.
  destruct a, b. unfold vsub, vzero; cbn. intros H. inversion H.
  f_equal; lra.
Qed.

Lemma torsion_oov_nonzero xy : xy <> vzero -> torsion_oov xy <> 0.
Proof.
  intros Hxy. unfold torsion_oov.
  assert (Hv : vdot xy xy <> 0) by (intros E; apply Hxy, vdot_self_zero, E).
  rewrite Reqb_false by exact Hv.
  pose proof (vdot_self_nonneg xy).
  assert (0 < sqrt (vdot xy xy)) by (apply sqrt_lt_R0; lra).
  apply Rgt_not_eq. apply Rdiv_lt_0_compat; lra.
Qed.

(** X9. The four forces that [BondTorsion::periodic] returns always sum to
    zero, whatever the positions and the terms; and when the axis atoms x
    and y do not coincide the forces have no moment either: the sum of the
    torques [p % f] over the four atoms is zero, so the torsion applies a
    pure internal load. *)
Theorem periodic_forces_balance
    (UnitVec3_of perp : Vec3 -> Vec3) (bt : BondTorsion) (rG xG yG sG : Vec3) :
  let res := BondTorsion_periodic UnitVec3_of perp bt rG xG yG sG in
  vadd (vadd (vadd (tr_rf res) (tr_xf res)) (tr_yf res)) (tr_sf res) = vzero
  /\ (xG <> yG ->
      vadd (vadd (vadd (vcross rG (tr_rf res)) (vcross xG (tr_xf res)))
                 (vcross yG (tr_yf res)))
           (vcross sG (tr_sf res))
      = vzero).
Proof.
  intros res. subst res. unfold BondTorsion_periodic.
  set (r := vsub xG rG). set (s := vsub sG yG). set (xy := vsub yG xG).
  set (v := torsion_axis UnitVec3_of perp r s xy).
  set (t := vcross r v). set (u := vcross v s).
  destruct (Reqb (vdot t t) 0 || Reqb (vdot u u) 0) eqn:Edeg.
  - cbn. split; [| intros _]; apply vec3_eq; cbn; ring.
  - apply orb_false_iff in Edeg as [Et Eu].
    assert (Ht : vdot t t <> 0)
      by (intros E; rewrite (Reqb_true _ _ E) in Et; discriminate).
    assert (Hu : vdot u u <> 0)
      by (intros E; rewrite (Reqb_true _ _ E) in Eu; discriminate).
    destruct (Reqb (torsion_oov xy) 0) eqn:Eo.
    + cbn. split; [apply vadd_cancel4 |].
      intros Hne. exfalso. apply Reqb_spec in Eo. revert Eo.
      apply torsion_oov_nonzero. intros E. apply Hne.
      symmetry. apply vsub_zero_eq. exact E.
    + assert (Ev : v = vscale (torsion_oov xy) xy).
      { subst v. unfold torsion_axis. now rewrite Eo. }
      cbn. subst t u. rewrite Ev in *. subst r s xy. split.
      * apply torsion_net_force.
      * intros _. apply torsion_net_torque; assumption.
Qed.

(** The two forces of the bend kernel on the outer atoms, for a normal
    [p = l * (r x s)] of any length: they are perpendicular to their bonds
    and have no moment about the central atom. *)
Lemma bend_forces_perp (r s : Vec3) (l f : R) :
  let p := vscale l (vcross r s) in
  vdot r r <> 0 -> vdot s s <> 0 ->
  let rf := vscale (f / vdot r r) (vcross r p) in
  let sf := vscale (f / vdot s s) (vcross p s) in
  vdot rf r = 0 /\ vdot sf s = 0
  /\ vadd (vcross r rf) (vcross s sf) = vzero.
Proof.
  destruct r as [r1 r2 r3], s as [s1 s2 s3].
  unfold vadd, vsub, vcross, vscale, vdot, vzero; cbn. intros Hr Hs.
  split; [field; assumption |]. split; [field; assumption |].
  apply vec3_eq; cbn; field; split; assumption.
Qed.

Lemma vcross_nonzero_l r s : vcross r s <> vzero -> vdot r r <> 0.
Proof.
  intros H E. apply H. apply vdot_self_zero in E. subst r.
  apply vec3_eq; cbn; ring.
Qed.

Lemma vcross_nonzero_r r s : vcross r s <> vzero -> vdot s s <> 0.
Proof.
  intros H E. apply H. apply vdot_self_zero in E. subst s.
  apply vec3_eq; cbn; ring.
Qed.

(** X10. [BondBend::harmonic] for three atoms that are not on one line (the
    cross product of the two bond vectors is not zero): the energy is
    [k * (theta - theta0)^2] with no factor 1/2; the three forces are
    finite, sum to zero and have no moment (the sum of the torques [p % f]
    over the three atoms is zero); and the forces on the two outer atoms are
    perpendicular to their bonds, so the bend does not stretch them. *)
Theorem harmonic_forces_balance
    (UnitVec3_of perp : Vec3 -> Vec3) (bb : BondBend) (cG rG sG : Vec3) :
  vcross (vsub rG cG) (vsub sG cG) <> vzero ->
  let res := BondBend_harmonic UnitVec3_of perp bb cG rG sG in
  br_pe res = bb_k bb * (br_theta res - bb_theta0 bb) ^ 2
  /\ exists cf rf sf,
       br_cf res = Some cf /\ br_rf res = Some rf /\ br_sf res = Some sf
       /\ vadd (vadd cf rf) sf = vzero
       /\ vadd (vadd (vcross cG cf) (vcross rG rf)) (vcross sG sf) = vzero
       /\ vdot rf (vsub rG cG) = 0
       /\ vdot sf (vsub sG cG) = 0.
Proof.
  intros Hx res. subst res. unfold BondBend_harmonic.
  set (r := vsub rG cG) in *. set (s := vsub sG cG) in *.
  pose proof (vcross_nonzero_l r s Hx) as Hr.
  pose proof (vcross_nonzero_r r s Hx) as Hs.
  assert (Hn : norm (vcross r s) <> 0).
  { intros E. apply norm_zero_iff in E. apply Hx, vdot_self_zero, E. }
  rewrite (Reqb_false _ _ Hn). cbn [negb br_pe br_theta br_cf br_rf br_sf].
  split; [ring |].
  rewrite !xdiv_some by assumption. cbn [xvscale omap2 option_map].
  set (f := -2 * bb_k bb * (atan2 (norm (vcross r s)) (vdot r s) - bb_theta0 bb)).
  destruct (bend_forces_perp r s (1 / norm (vcross r s)) f Hr Hs)
    as (P1 & P2 & P3).
  set (rf := vscale (f / vdot r r) (vcross r (vscale (1 / norm (vcross r s)) (vcross r s)))) in *.
  set (sf := vscale (f / vdot s s) (vcross (vscale (1 / norm (vcross r s)) (vcross r s)) s)) in *.
  exists (vneg (vadd rf sf)), rf, sf.
  repeat (split; [reflexivity |]).
  split; [apply vec3_eq; cbn; ring |].
  split; [| split; assumption].
  assert (E : vadd (vadd (vcross cG (vneg (vadd rf sf))) (vcross rG rf))
                   (vcross sG sf)
              = vadd (vcross r rf) (vcross s sf)).
  { subst r s. clearbody rf sf. destruct cG, rG, sG, rf, sf.
    apply vec3_eq; cbn; ring. }
  rewrite E. exact P3.
Qed.

(** X10 at a right angle: the central atom at the origin, the outer atoms
    on the first two axes. *)
Lemma harmonic_forces_balance_witness :
  let res := BondBend_harmonic (fun v => v) (fun v => v) (mkBondBend 1 0)
                               vzero (mkVec3 1 0 0) (mkVec3 0 1 0) in
  exists cf rf sf,
    br_cf res = Some cf /\ br_rf res = Some rf /\ br_sf res = Some sf
    /\ vadd (vadd cf rf) sf = vzero.
Proof.
  assert (Hx : vcross (vsub (mkVec3 1 0 0) vzero) (vsub (mkVec3 0 1 0) vzero)
               <> vzero).
  { intros E. apply (f_equal vz) in E. cbn in E. lra. }
  destruct (harmonic_forces_balance (fun v => v) (fun v => v) (mkBondBend 1 0)
              vzero (mkVec3 1 0 0) (mkVec3 0 1 0) Hx)
    as (_ & cf & rf & sf & H1 & H2 & H3 & H4 & _).
  exists cf, rf, sf. auto.
Defined.
Local Close Scope R_scope.

(* ================================================================= *)
(** ** The stretch term of the kernel *)

(** X11. One pass of the bond-stretch loop of [realizeDynamics], for atom a1
    on body b1 at station [s1] and position [p1] (ground frame), and the
    atom a2 at index [b12] of its cross-body 1-2 list, at distance [d > 0]
    along [r = pos(a2) - pos(a1)] and with stretch parameters [(k, d0)].
    When a2 has the lower number the pass does nothing, so that each bond is
    processed once, from its lower-numbered atom.  Otherwise the potential
    energy grows by [k * (d - d0)^2] (no factor 1/2), the accumulator of the
    body of a2 grows by the spatial force of [f = (-2 * k * (d - d0) / d) * r]
    and the accumulator of b1 is decreased by the spatial force of the same
    [f]; the scale factors are not touched. *)
Theorem stretchTerm_energy_and_force
    (getBodyConfiguration : Z -> Transform) (mm : DuMM)
    (b1 a1num : Z) (a1 : Atom) (s1 p1 : Vec3) (b12 a2num : Z)
    (a2 : Atom) (s2 : Vec3) (bs : BondStretch) (E : R) (F1 F2 : SpatialVec)
    (k : KState) :
  at_ (xbond12 a1) b12 = Some a2num ->
  a2num <> a1num ->
  (a2num < a1num ->
   stretchTerm getBodyConfiguration mm b1 a1num a1 (Some s1) (Some p1) b12 k
   = Return k tt)
  /\ (a1num < a2num ->
      at_ (atoms mm) a2num = Some a2 ->
      atom_bodyId a2 <> b1 ->
      station_B a2 = Some s2 ->
      at_ (stretch a1) b12 = Some bs ->
      pe k = Some E ->
      at_ (rigidBodyForces k) b1 = Some (Some F1) ->
      at_ (rigidBodyForces k) (atom_bodyId a2) = Some (Some F2) ->
      let X_GB2 := getBodyConfiguration (atom_bodyId a2) in
      let s2G := mvmul (X_R X_GB2) s2 in
      let r := vsub (vadd (X_T X_GB2) s2G) p1 in
      let d := norm r in
      d <> 0%R ->
      let x := (d - bs_d0 bs)%R in
      let f := vscale (-2 * bs_k bs * x / d)%R r in
      exists k',
        stretchTerm getBodyConfiguration mm b1 a1num a1 (Some s1) (Some p1) b12 k
        = Return k' tt
        /\ pe k' = Some (E + bs_k bs * x * x)%R
        /\ at_ (rigidBodyForces k') (atom_bodyId a2)
           = Some (Some (sv_add F2 (mkSpatialVec (vcross s2G f) f)))
        /\ at_ (rigidBodyForces k') b1
           = Some (Some (sv_sub F1 (mkSpatialVec (vcross s1 f) f)))
        /\ scratch k' = scratch k).
Proof.
  intros Hx Hne. split.
  - intros Hlt. unfold stretchTerm.
    rewrite (bind_Return _ _ k k a2num) by (unfold must; now rewrite Hx).
    unfold bind at 1. unfold assert.
    destruct (Z.eqb_spec a2num a1num) as [Heq | _]; [contradiction |].
    cbn [negb].
    destruct (Z.ltb_spec a2num a1num); [reflexivity | lia].
  - intros Hlt Ha2 Hb Hs2 Hbs Hpe HF1 HF2 X_GB2 s2G r d Hd x f.
    unfold stretchTerm.
    rewrite (bind_Return _ _ k k a2num) by (unfold must; now rewrite Hx).
    unfold bind at 1. unfold assert.
    destruct (Z.eqb_spec a2num a1num) as [Heq | _]; [contradiction |].
    cbn [negb].
    destruct (Z.ltb_spec a2num a1num); [lia |].
    rewrite (bind_Return _ _ k k a2) by (unfold must; now rewrite Ha2).
    unfold bind at 1. unfold assert.
    destruct (Z.eqb_spec (atom_bodyId a2) b1) as [Heq | _]; [contradiction |].
    cbn [negb].
    rewrite (bind_Return _ _ k k bs) by (unfold must; now rewrite Hbs).
    unfold pos_G, station_G. rewrite Hs2. cbn [option_map omap2].
    fold X_GB2. fold s2G. fold r. fold d.
    cbn [xsub xmul xlift2].
    rewrite xdiv_some by exact Hd.
    cbn [xvscale spatial omap2]. fold x.
    assert (Hf : vscale (-2 * bs_k bs * x / d)%R r = f) by reflexivity.
    rewrite Hf.
    set (k1 := mkKState (pe k + Some (bs_k bs * x * x)%R)%X
                        (rigidBodyForces k) (scratch k)).
    rewrite (bind_Return _ _ k k1 tt) by reflexivity.
    destruct (accForce_at sv_add (atom_bodyId a2)
                (Some (mkSpatialVec (vcross s2G f) f)) k1 _ HF2)
      as (l2 & Hrun2 & Hl2 & Hl2').
    unfold addForce. rewrite (bind_Return _ _ _ _ _ Hrun2).
    set (k2 := mkKState (pe k1) l2 (scratch k1)).
    assert (HF1' : at_ (rigidBodyForces k2) b1 = Some (Some F1)).
    { simpl. rewrite Hl2' by (intros Hc; apply Hb; now symmetry). exact HF1. }
    destruct (accForce_at sv_sub b1 (Some (mkSpatialVec (vcross s1 f) f)) k2 _ HF1')
      as (l1 & Hrun1 & Hl1 & Hl1').
    unfold subForce. rewrite Hrun1.
    eexists; split; [reflexivity |]. simpl.
    repeat split.
    + rewrite Hpe. reflexivity.
    + rewrite Hl1' by exact Hb. exact Hl2.
    + exact Hl1.
Qed.

(** X11 on the realized small molecule: atom 0 (body 0, at the origin)
    against atom 1, the only entry of its cross-body 1-2 list, with every
    body moved by 2 along x, and empty accumulators. *)
Lemma stretchTerm_energy_and_force_witness :
  let mm := proj1_sig (projT2 demo_runs) in
  let conf := fun _ : Z => mkTransform mident (mkVec3 2 0 0) in
  let zero := mkSpatialVec vzero vzero in
  let k := mkKState (Some 0%R) (repeat (Some zero) 3)
                    (repeat 1%R 4, repeat 1%R 4) in
  exists a1 bs k',
    at_ (atoms mm) 0 = Some a1
    /\ at_ (stretch a1) 0 = Some bs
    /\ stretchTerm conf mm 0 0 a1 (Some vzero) (Some vzero) 0 k = Return k' tt
    /\ pe k' = Some (0 + bs_k bs * (norm (mkVec3 2 0 0) - bs_d0 bs)
                         * (norm (mkVec3 2 0 0) - bs_d0 bs))%R.
Proof.
  intros mm conf zero k.
  assert (A : { a1 & { a2 & { bs |
                at_ (atoms mm) 0 = Some a1 /\ at_ (atoms mm) 1 = Some a2
                /\ at_ (stretch a1) 0 = Some bs
                /\ at_ (xbond12 a1) 0 = Some 1
                /\ atom_bodyId a2 = 1 /\ station_B a2 = Some vzero } } })
    by (do 3 eexists; repeat split; rlazy; reflexivity).
  destruct A as (a1 & a2 & bs & Ha1 & Ha2 & Hbs & Hx & Hb2 & Hs2).
  assert (Hr : vsub (vadd (X_T (conf (atom_bodyId a2)))
                          (mvmul (X_R (conf (atom_bodyId a2))) vzero)) vzero
               = mkVec3 2 0 0).
  { unfold vsub, vadd, mvmul, vdot, conf, vzero, mident; cbn. f_equal; lra. }
  destruct (stretchTerm_energy_and_force conf mm 0 0 a1 vzero vzero 0 1
              a2 vzero bs 0%R zero zero k Hx) as [_ H]; [lia |].
  destruct H as (k' & H1 & H2 & _).
  - lia.
  - exact Ha2.
  - rewrite Hb2. lia.
  - exact Hs2.
  - exact Hbs.
  - reflexivity.
  - reflexivity.
  - rewrite Hb2. reflexivity.
  - rewrite Hr. unfold norm. apply Rgt_not_eq, sqrt_lt_R0.
    unfold normSqr, vdot. cbn. lra.
  - exists a1, bs, k'. split; [exact Ha1 |]. split; [exact Hbs |].
    split; [exact H1 |]. rewrite H2, Hr. reflexivity.
Defined.

(* ================================================================= *)
(** ** Cross-body lists and bonded parameters *)

Lemma filterM_exact {S A} (f : A -> M S bool) :
  (forall x, readonly (f x)) ->
  forall l s s' ys,
    filterM f l s = Return s' ys ->
    s' = s
    /\ (forall x, In x l -> exists r, f x s = Return s r)
    /\ (forall x, In x ys <-> In x l /\ f x s = Return s true).
Proof.
  intros Hf. induction l as [| x l IH]; simpl; intros s s' ys H.
  - apply ret_inv in H as [-> ->]. split; [reflexivity |].
    split; [intros x [] |]. intros x. simpl. tauto.
  - apply bind_inv in H as (s1 & b & H1 & H).
    pose proof (Hf _ _ _ _ H1). subst s1.
    apply bind_inv in H as (s2 & zs & H2 & H).
    apply IH in H2 as (-> & Hall & Hin). apply ret_inv in H as [-> ->].
    split; [reflexivity |]. split.
    + intros y [<- | Hy]; [eauto | auto].
    + intros y. destruct b; simpl; rewrite ?Hin; split.
      * intros [<- | [Hy Hr]]; auto.
      * intros [[<- | Hy] Hr]; auto.
      * intros [Hy Hr]; auto.
      * intros [[<- | Hy] Hr]; [congruence | auto].
Qed.

Lemma off1 s b j r :
  offBody j b (ret false) s = Return s r ->
  (r = true <-> onOtherBody s b j).
Proof.
  unfold offBody, bodyOf, onOtherBody, bind, get, must, ret.
  destruct (at_ (atoms s) j) as [x |]; [| discriminate].
  destruct (Z.eqb_spec (atom_bodyId x) b) as [Hb | Hb]; cbn;
    intros H; inversion H; subst r; clear H.
  - split; [discriminate |].
    intros (y & E & Hy). inversion E; subst. contradiction.
  - split; [| reflexivity]. intros _. eauto.
Qed.

Lemma off2 s b j0 j1 r :
  offBody j0 b (offBody j1 b (ret false)) s = Return s r ->
  (r = true <-> onOtherBody s b j0 \/ onOtherBody s b j1).
Proof.
  unfold offBody at 1. unfold bodyOf, bind at 1 2, get, must at 1, ret at 1.
  unfold onOtherBody at 1.
  destruct (at_ (atoms s) j0) as [x |]; [| discriminate].
  unfold bind at 1.
  destruct (Z.eqb_spec (atom_bodyId x) b); cbn [negb].
  - intros H. apply off1 in H. rewrite H. split; [auto |].
    intros [(y & E & Hy) | H']; [| exact H'].
    inversion E; subst. contradiction.
  - unfold ret. intros H. inversion H; subst. split; [| reflexivity].
    intros _. left. eauto.
Qed.

Lemma off3 s b j0 j1 j2 r :
  offBody j0 b (offBody j1 b (offBody j2 b (ret false))) s = Return s r ->
  (r = true <->
   onOtherBody s b j0 \/ onOtherBody s b j1 \/ onOtherBody s b j2).
Proof.
  unfold offBody at 1. unfold bodyOf, bind at 1 2, get, must at 1, ret at 1.
  unfold onOtherBody at 1.
  destruct (at_ (atoms s) j0) as [x |]; [| discriminate].
  unfold bind at 1.
  destruct (Z.eqb_spec (atom_bodyId x) b); cbn [negb].
  - intros H. apply off2 in H. rewrite H. split; [auto |].
    intros [(y & E & Hy) | H']; [| exact H'].
    inversion E; subst. contradiction.
  - unfold ret. intros H. inversion H; subst. split; [| reflexivity].
    intros _. left. eauto.
Qed.

Lemma onOtherBody_topo s s' b j :
  keeps_topo s s' -> onOtherBody s b j <-> onOtherBody s' b j.
Proof.
  intros (Ha & _). split; intros (x & Hx & Hb).
  - destruct (Forall2_at_l _ _ _ _ _ Ha Hx) as (x' & Hx' & _ & _ & _ & E).
    exists x'. split; [exact Hx' | congruence].
  - destruct (Forall2_at _ _ _ _ _ Ha Hx) as (x' & Hx' & _ & _ & _ & E).
    exists x'. split; [exact Hx' | congruence].
Qed.

Lemma stretch_lookup_inv i j s bs :
  (c1 <- getAtomClassNum i ;;
   c2 <- getAtomClassNum j ;;
   getBondStretch c1 c2) s = Return s bs ->
  exists c cj,
    classOf s i = Some c /\ classOf s j = Some cj
    /\ stretchOf s c cj = Some bs.
Proof.
  intros H.
  apply bind_inv in H as (s1 & c & H1 & H).
  pose proof (getAtomClassNum_readonly _ _ _ _ H1). subst s1.
  apply bind_inv in H as (s1 & cj & H2 & H).
  pose proof (getAtomClassNum_readonly _ _ _ _ H2). subst s1.
  unfold getBondStretch in H.
  apply bind_inv in H as (s1 & mm & Hg & H). apply get_inv in Hg as [-> ->].
  apply must_inv in H as [H _].
  exists c, cj.
  repeat split; try (eapply getAtomClassNum_classOf; eassumption). exact H.
Qed.

Lemma torsion_lookup_inv i t s bt :
  (c1 <- getAtomClassNum i ;;
   c2 <- getAtomClassNum (it0 t) ;;
   c3 <- getAtomClassNum (it1 t) ;;
   c4 <- getAtomClassNum (it2 t) ;;
   getBondTorsion c1 c2 c3 c4) s = Return s bt ->
  exists c c0 c1 c2,
    classOf s i = Some c /\ classOf s (it0 t) = Some c0
    /\ classOf s (it1 t) = Some c1 /\ classOf s (it2 t) = Some c2
    /\ torsionOf s c c0 c1 c2 = Some bt.
Proof.
  intros H.
  apply bind_inv in H as (s1 & c & H1 & H).
  pose proof (getAtomClassNum_readonly _ _ _ _ H1). subst s1.
  apply bind_inv in H as (s1 & c0 & H2 & H).
  pose proof (getAtomClassNum_readonly _ _ _ _ H2). subst s1.
  apply bind_inv in H as (s1 & c1 & H3 & H).
  pose proof (getAtomClassNum_readonly _ _ _ _ H3). subst s1.
  apply bind_inv in H as (s1 & c2 & H4 & H).
  pose proof (getAtomClassNum_readonly _ _ _ _ H4). subst s1.
  unfold getBondTorsion in H.
  apply bind_inv in H as (s1 & mm & Hg & H). apply get_inv in Hg as [-> ->].
  apply must_inv in H as [H _].
  exists c, c0, c1, c2.
  repeat split; try (eapply getAtomClassNum_classOf; eassumption). exact H.
Qed.

Lemma Forall2_impl2 {A B} (P Q : A -> B -> Prop) l l' :
  (forall x y, P x y -> Q x y) -> Forall2 P l l' -> Forall2 Q l l'.
Proof. intros H F. induction F; constructor; auto. Qed.

Lemma derived_more_topo s s' i d :
  keeps_topo s s' -> derived_more s i d -> derived_more s' i d.
Proof.
  intros K [D1 D2 D3 D4 D5 D6 D7].
  pose proof (fun x y => bonded_topo s s' x y K) as B.
  pose proof (fun b j => onOtherBody_topo s s' b j K) as O.
  pose proof K as (_ & _ & Ks & _ & Kt).
  split; auto.
  - intros t Ht. destruct (D1 t Ht) as (H1 & H2 & H3).
    repeat split; apply B; assumption.
  - intros j. rewrite D2, O. reflexivity.
  - intros p. rewrite D3, !O. reflexivity.
  - intros t. rewrite D4, !O. reflexivity.
  - eapply Forall2_impl2; [| exact D5].
    intros j bs (c & cj & H1 & H2 & H3). exists c, cj.
    rewrite !(classOf_topo s s') by exact K.
    unfold stretchOf in *. rewrite Ks. auto.
  - eapply Forall2_impl2; [| exact D7].
    intros t bt (c & c0 & c1 & c2 & H1 & H2 & H3 & H4 & H5).
    exists c, c0, c1, c2.
    rewrite !(classOf_topo s s') by exact K.
    unfold torsionOf in *. rewrite Kt. auto.
Qed.

Lemma realizeAtomBonds_more i s s' u :
  realizeAtomBonds i s = Return s' u ->
  exists d, at_ (atoms s') i = Some d /\ derived_more s' i d.
Proof.
  unfold realizeAtomBonds. intros H.
  apply bind_inv in H as (s0 & mm & Hg & H). apply get_inv in Hg as [-> ->].
  apply bind_inv in H as (s0 & a & Ha & H). apply must_inv in Ha as [Ha ->].
  apply bind_inv in H as (s1 & u1 & Hsort & H).
  apply modAtom_topo in Hsort as (K1 & O1 & I1);
    [| intros x; repeat split; cbn; apply sort_perm].
  rewrite Ha in I1. cbn [option_map] in I1.
  cbv zeta in H.
  set (b12 := sort Z.ltb (bond12 a)) in *.
  apply bind_inv in H as (s2 & r13 & H13 & H).
  apply (buildPaths_spec (fun b => b) (fun b c => IntPair_new b c false) ip1)
    in H13 as (-> & N13 & P13 & T13 & V13); [| reflexivity].
  apply bind_inv in H as (s2 & b13 & S13 & H).
  apply sortChecked_inv in S13 as [-> ->].
  apply bind_inv in H as (s2 & r14 & H14 & H).
  apply (buildPaths_spec ip1 (fun p c => IntTriple_new (ip0 p) (ip1 p) c false)
                         it2)
    in H14 as (-> & N14 & P14 & T14 & V14); [| reflexivity].
  apply bind_inv in H as (s2 & b14 & S14 & H).
  apply sortChecked_inv in S14 as [-> ->].
  apply bind_inv in H as (s2 & r15 & H15 & H).
  apply (buildPaths_spec it1
           (fun t c => IntQuad_new (it0 t) (it1 t) (it2 t) c false) iq3)
    in H15 as (-> & N15 & P15 & T15 & V15); [| reflexivity].
  apply bind_inv in H as (s2 & b15 & S15 & H).
  apply sortChecked_inv in S15 as [-> ->].
  apply bind_inv in H as (s2 & x12 & X12 & H).
  apply filterM_exact in X12 as (-> & A12 & X12);
    [| intros x; apply offBody_readonly, readonly_ret].
  apply bind_inv in H as (s2 & x13 & X13 & H).
  apply filterM_exact in X13 as (-> & A13 & X13);
    [| intros x; repeat apply offBody_readonly; apply readonly_ret].
  apply bind_inv in H as (s2 & x14 & X14 & H).
  apply filterM_exact in X14 as (-> & A14 & X14);
    [| intros x; repeat apply offBody_readonly; apply readonly_ret].
  apply bind_inv in H as (s2 & x15 & X15 & H).
  apply filterM_inv in X15 as [-> X15];
    [| intros x; repeat apply offBody_readonly; apply readonly_ret].
  apply bind_inv in H as (s2 & st & ST & H).
  apply mapM_inv in ST as [-> ST];
    [| intros x; pose proof getAtomClassNum_readonly;
       pose proof getBondStretch_readonly; readonly_auto; auto].
  apply bind_inv in H as (s2 & be & BE & H).
  apply mapM_inv in BE as [-> BE];
    [| intros x; pose proof getAtomClassNum_readonly;
       pose proof getBondBend_readonly; readonly_auto; auto].
  apply bind_inv in H as (s2 & to & TO & H).
  apply mapM_inv in TO as [-> TO];
    [| intros x; pose proof getAtomClassNum_readonly;
       pose proof getBondTorsion_readonly; readonly_auto; auto].
  apply modAtom_topo in H as (K2 & O2 & I2);
    [| intros x; repeat split; cbn; apply Permutation_refl].
  rewrite I1 in I2. cbn [option_map] in I2.
  eexists. split; [exact I2 |].
  apply (derived_more_topo s1 s' _ _ K2).
  assert (Hb12 : forall p, In p b12 <-> bonded s1 i p).
  { intros p. unfold bonded. rewrite I1. split.
    - intros Hp. eexists. split; [reflexivity | exact Hp].
    - intros (a' & E & Hp). inversion E; subst a'. exact Hp. }
  split; cbn [bond12 bond13 bond14 xbond12 xbond13 xbond14 stretch bend torsion
              atom_bodyId Atom_setDerived Atom_setBond12].
  - intros t Ht. apply sort_In in Ht.
    destruct (P14 t Ht) as (p & n & -> & Hp & Hb). cbn.
    apply sort_In in Hp. destruct (P13 p Hp) as (q & m & -> & Hq & Hb'). cbn in *.
    split; [now apply Hb12 |]. split; assumption.
  - intros j. rewrite X12. split.
    + intros [Hj Hr]. split; [exact Hj |]. now apply (off1 _ _ _ _ Hr).
    + intros [Hj Ho]. split; [exact Hj |].
      destruct (A12 j Hj) as [r Hr]. apply (off1 _ _ _ _ Hr) in Ho.
      now subst r.
  - intros p. rewrite X13. split.
    + intros [Hj Hr]. split; [exact Hj |]. now apply (off2 _ _ _ _ _ Hr).
    + intros [Hj Ho]. split; [exact Hj |].
      destruct (A13 p Hj) as [r Hr]. apply (off2 _ _ _ _ _ Hr) in Ho.
      now subst r.
  - intros t. rewrite X14. split.
    + intros [Hj Hr]. split; [exact Hj |]. now apply (off3 _ _ _ _ _ _ Hr).
    + intros [Hj Ho]. split; [exact Hj |].
      destruct (A14 t Hj) as [r Hr]. apply (off3 _ _ _ _ _ _ Hr) in Ho.
      now subst r.
  - eapply Forall2_impl2; [| exact ST].
    intros j bs Hl. now apply stretch_lookup_inv.
  - symmetry. eapply Forall2_length; eauto.
  - eapply Forall2_impl2; [| exact TO].
    intros t bt Hl. now apply torsion_lookup_inv.
Qed.

Lemma realizeAllAtomBonds_more s s' u :
  forIndices atoms realizeAtomBonds s = Return s' u ->
  forall i d, at_ (atoms s') i = Some d -> derived_more s' i d.
Proof.
  unfold forIndices. intros H.
  apply bind_inv in H as (s0 & mm & Hg & H). apply get_inv in Hg as [-> ->].
  destruct u. unfold indices in H.
  apply (forEach_indices_inv
           (fun k sk => keeps_topo s sk
                        /\ forall i d, 0 <= i < Z.of_nat k ->
                             at_ (atoms sk) i = Some d -> derived_more sk i d))
    in H.
  - destruct H as [K D].
    intros i d Hd. apply D; [| exact Hd].
    apply at_length in Hd. unfold size in Hd.
    rewrite (keeps_topo_length _ _ K) in Hd. lia.
  - split; [apply frame_refl | intros i d Hi; lia].
  - intros k t t' Hk [K D] Hb.
    pose proof (realizeAtomBonds_more _ _ _ _ Hb) as (d' & Hd' & D').
    apply realizeAtomBonds_spec in Hb as (K' & O & _).
    split; [eapply frame_trans; eauto |].
    intros i d Hi Hd.
    destruct (Z.eq_dec i (Z.of_nat k)) as [-> | Hne].
    + rewrite Hd' in Hd. inversion Hd; subst. exact D'.
    + rewrite O in Hd by exact Hne.
      apply (derived_more_topo t t' _ _ K'). apply D; [lia | exact Hd].
Qed.

Lemma realizeConstruction_more s s' u :
  topologicalCacheValid s = false ->
  realizeConstruction s = Return s' u ->
  forall i d, at_ (atoms s') i = Some d -> derived_more s' i d.
Proof.
  intros Hf H. unfold realizeConstruction in H.
  apply bind_inv in H as (s0 & mm & Hg & H). apply get_inv in Hg as [-> ->].
  rewrite Hf in H.
  do 7 (apply bind_inv in H as (? & ? & _ & H)).
  apply bind_inv in H as (s7 & u7 & Hloop & H).
  apply modify_inv in H. subst s'.
  pose proof (realizeAllAtomBonds_more _ _ _ Hloop) as D.
  intros i d Hd. cbn in Hd.
  apply (derived_more_topo s7); [| now apply D].
  repeat split. apply atoms_topo_refl.
Qed.

Lemma realized_more fuel mm mm' v :
  topologicalCacheValid mm = false ->
  run fuel RealizeConstruction mm = Return mm' v ->
  forall i d, at_ (atoms mm') i = Some d -> derived_more mm' i d.
Proof.
  intros Hf H.
  unfold run, void in H. apply bind_inv in H as (s1 & u & H & Hret).
  apply ret_inv in Hret as [_ ->].
  eapply realizeConstruction_more; eauto.
Qed.

(* ================================================================= *)
(** ** The realized lists, beyond the claims *)

(** X12. After a realization that had work to do, no atom has a 1-5 path:
    [bond15] and [xbond15] are empty, whatever the molecule.  (The loop that
    builds [bond15] walks on from the middle atom [bond14[j][1]] of each 1-4
    path, and all the direct bonds of that atom are known by then.) *)
Theorem realized_no_15_paths fuel mm mm' v i a :
  topologicalCacheValid mm = false ->
  run fuel RealizeConstruction mm = Return mm' v ->
  at_ (atoms mm') i = Some a ->
  bond15 a = [] /\ xbond15 a = [].
Proof.
  intros Hf H Ha.
  unfold run, void in H. apply bind_inv in H as (s1 & u & H & Hret).
  apply ret_inv in Hret as [_ ->].
  pose proof (realizeConstruction_spec _ _ _ Hf H i a Ha) as D.
  split; [apply (dv_15 _ _ _ D) | apply (dv_x15 _ _ _ D)].
Qed.

(** X13. After a realization that had work to do, the 1-3 and 1-4 lists of
    an atom [i] are complete and made of direct bonds: every 1-3 path
    (m, t) has i-m and m-t bonded, every 1-4 path (m, n, t) has i-m, m-n and
    n-t bonded; the tails of the 1-3 paths are exactly the atoms two bonds
    away that are neither [i] nor bonded to [i]; and the tails of the 1-4
    paths are exactly the atoms bonded to a 1-3 tail that are neither [i],
    nor bonded to [i], nor 1-3 tails themselves. *)
Theorem realized_paths_complete fuel mm mm' v i a :
  topologicalCacheValid mm = false ->
  run fuel RealizeConstruction mm = Return mm' v ->
  at_ (atoms mm') i = Some a ->
  (forall p, In p (bond13 a) ->
     bonded mm' i (ip0 p) /\ bonded mm' (ip0 p) (ip1 p))
  /\ (forall t, In t (bond14 a) ->
        bonded mm' i (it0 t) /\ bonded mm' (it0 t) (it1 t)
        /\ bonded mm' (it1 t) (it2 t))
  /\ (forall j, In j (tails13 a) <->
        j <> i /\ ~ bonded mm' i j
        /\ exists m, bonded mm' i m /\ bonded mm' m j)
  /\ (forall j, In j (tails14 a) <->
        j <> i /\ ~ bonded mm' i j /\ ~ In j (tails13 a)
        /\ exists t, In t (tails13 a) /\ bonded mm' t j).
Proof.
  intros Hf H Ha.
  pose proof (realized_more _ _ _ _ Hf H i a Ha) as M.
  unfold run, void in H. apply bind_inv in H as (s1 & u & H & Hret).
  apply ret_inv in Hret as [_ ->].
  pose proof (realizeConstruction_spec _ _ _ Hf H i a Ha) as D.
  split; [apply (dv_path13 _ _ _ D) |].
  split; [apply (dm_path14 _ _ _ M) |].
  split; [apply (dv_13 _ _ _ D) | apply (dv_14 _ _ _ D)].
Qed.

(** X14. After a realization that had work to do, the cross-body lists of
    an atom on body [b] hold exactly the paths that leave the body: a direct
    bond is in [xbond12] iff the bonded atom is on another body, a 1-3 path
    is in [xbond13] iff its middle atom or its tail is on another body, and
    a 1-4 path is in [xbond14] iff one of its three atoms is. *)
Theorem realized_cross_body_lists fuel mm mm' v i a :
  topologicalCacheValid mm = false ->
  run fuel RealizeConstruction mm = Return mm' v ->
  at_ (atoms mm') i = Some a ->
  let b := atom_bodyId a in
  (forall j, In j (xbond12 a) <-> In j (bond12 a) /\ onOtherBody mm' b j)
  /\ (forall p, In p (xbond13 a) <->
        In p (bond13 a)
        /\ (onOtherBody mm' b (ip0 p) \/ onOtherBody mm' b (ip1 p)))
  /\ (forall t, In t (xbond14 a) <->
        In t (bond14 a)
        /\ (onOtherBody mm' b (it0 t) \/ onOtherBody mm' b (it1 t)
            \/ onOtherBody mm' b (it2 t))).
Proof.
  intros Hf H Ha b.
  pose proof (realized_more _ _ _ _ Hf H i a Ha) as M.
  split; [apply (dm_x12 _ _ _ M) |].
  split; [apply (dm_x13 _ _ _ M) | apply (dm_x14 _ _ _ M)].
Qed.

Lemma Forall2_at_both {A B} (P : A -> B -> Prop) l l' n x :
  Forall2 P l l' -> at_ l n = Some x ->
  exists y, at_ l' n = Some y /\ P x y.
Proof. intros F H. eapply Forall2_at_l; eauto. Qed.

(** X15. After a realization that had work to do, the parameter vectors of
    an atom [i] run parallel to its cross-body lists: [stretch], [bend] and
    [torsion] are as long as [xbond12], [xbond13] and [xbond14]; entry [n]
    of [stretch] is the catalog entry for the classes of [i] and of the
    atom [xbond12[n]]; and entry [n] of [torsion] is the catalog entry for
    the classes of [i] and of the three atoms of the path [xbond14[n]], in
    the order of the path.  So the lookups of the force kernel by the index
    of the path never miss. *)
Theorem realized_bonded_parameters fuel mm mm' v i a :
  topologicalCacheValid mm = false ->
  run fuel RealizeConstruction mm = Return mm' v ->
  at_ (atoms mm') i = Some a ->
  (length (stretch a) = length (xbond12 a)
   /\ length (bend a) = length (xbond13 a)
   /\ length (torsion a) = length (xbond14 a))
  /\ (forall n j, at_ (xbond12 a) n = Some j ->
        exists c cj bs,
          classOf mm' i = Some c /\ classOf mm' j = Some cj
          /\ stretchOf mm' c cj = Some bs
          /\ at_ (stretch a) n = Some bs)
  /\ (forall n t, at_ (xbond14 a) n = Some t ->
        exists c c0 c1 c2 bt,
          classOf mm' i = Some c /\ classOf mm' (it0 t) = Some c0
          /\ classOf mm' (it1 t) = Some c1 /\ classOf mm' (it2 t) = Some c2
          /\ torsionOf mm' c c0 c1 c2 = Some bt
          /\ at_ (torsion a) n = Some bt).
Proof.
  intros Hf H Ha.
  pose proof (realized_more _ _ _ _ Hf H i a Ha) as M.
  split; [| split].
  - split; [| split].
    + symmetry. eapply Forall2_length. apply (dm_stretch _ _ _ M).
    + apply (dm_bend_length _ _ _ M).
    + symmetry. eapply Forall2_length. apply (dm_torsion _ _ _ M).
  - intros n j Hj.
    destruct (Forall2_at_both _ _ _ _ _ (dm_stretch _ _ _ M) Hj)
      as (bs & Hbs & c & cj & H1 & H2 & H3).
    exists c, cj, bs. auto.
  - intros n t Ht.
    destruct (Forall2_at_both _ _ _ _ _ (dm_torsion _ _ _ M) Ht)
      as (bt & Hbt & c & c0 & c1 & c2 & H1 & H2 & H3 & H4 & H5).
    exists c, c0, c1, c2, bt. auto 10.
Qed.

(** The calls of the chain of five atoms all return, and so does its
    realization. *)
Lemma chain5_runs :
  { mm : DuMM &
  { mm' : DuMM | runAll 2 chain5_calls DuMM_new = Some mm
                 /\ returns (run 2 RealizeConstruction mm) mm' 0 } }.
Proof.
  eexists. eexists. split.
  - unfold chain5_calls. run_calls.
  - run_realize.
Defined.

(** X12 on the chain of five atoms: atom 0 has the 1-4 path (1,2,3), atom 4
    is bonded to atom 3, and yet atom 0 has no 1-5 path. *)
Lemma realized_no_15_paths_witness :
  exists a,
    at_ (atoms (proj1_sig (projT2 chain5_runs))) 0 = Some a
    /\ bond14 a = [mkIntTriple 1 2 3]
    /\ bonded (proj1_sig (projT2 chain5_runs)) 3 4
    /\ bond15 a = [].
Proof.
  assert (A : { a | at_ (atoms (proj1_sig (projT2 chain5_runs))) 0 = Some a
                    /\ bond14 a = [mkIntTriple 1 2 3] })
    by (eexists; split; rlazy; reflexivity).
  destruct A as [a [Ha H14]].
  exists a. split; [exact Ha |]. split; [exact H14 |]. split.
  - unfold bonded. eexists. split; [rlazy; reflexivity |]. rlazy. auto.
  - refine (proj1 (realized_no_15_paths
                     2%nat (projT1 chain5_runs) (proj1_sig (projT2 chain5_runs))
                     0 0 a _ _ Ha)).
    + rlazy. reflexivity.
    + apply returns_eq. exact (proj2 (proj2_sig (projT2 chain5_runs))).
Defined.

(** X13 on the small molecule: the 1-4 path of atom 0 is a chain of bonds. *)
Lemma realized_paths_complete_witness :
  exists a,
    at_ (atoms (proj1_sig (projT2 demo_runs))) 0 = Some a
    /\ In (mkIntTriple 1 2 3) (bond14 a)
    /\ bonded (proj1_sig (projT2 demo_runs)) 2 3.
Proof.
  assert (A : { a | at_ (atoms (proj1_sig (projT2 demo_runs))) 0 = Some a
                    /\ In (mkIntTriple 1 2 3) (bond14 a) })
    by (eexists; split; [rlazy; reflexivity | rlazy; left; reflexivity]).
  destruct A as [a [Ha H14]].
  exists a. split; [exact Ha |]. split; [exact H14 |].
  destruct (realized_paths_complete
              2%nat (projT1 demo_runs) (proj1_sig (projT2 demo_runs)) 0 0 a)
    as (_ & P14 & _).
  - rlazy. reflexivity.
  - apply returns_eq. exact (proj2 (proj2_sig (projT2 demo_runs))).
  - exact Ha.
  - exact (proj2 (proj2 (P14 _ H14))).
Defined.

(** X14 on the small molecule: atom 2 (body 2) is bonded to the atoms 1
    (body 1) and 3 (body 2); only atom 1 is in its cross-body list. *)
Lemma realized_cross_body_lists_witness :
  exists a,
    at_ (atoms (proj1_sig (projT2 demo_runs))) 2 = Some a
    /\ In 3 (bond12 a) /\ In 1 (xbond12 a) /\ ~ In 3 (xbond12 a).
Proof.
  assert (A : { a & { x1 & { x3 |
                at_ (atoms (proj1_sig (projT2 demo_runs))) 2 = Some a
                /\ atom_bodyId a = 2
                /\ bond12 a = [1; 3]
                /\ at_ (atoms (proj1_sig (projT2 demo_runs))) 1 = Some x1
                /\ atom_bodyId x1 = 1
                /\ at_ (atoms (proj1_sig (projT2 demo_runs))) 3 = Some x3
                /\ atom_bodyId x3 = 2 } } })
    by (do 3 eexists; repeat split; rlazy; reflexivity).
  destruct A as (a & x1 & x3 & Ha & Hb & H12 & Hx1 & Hb1 & Hx3 & Hb3).
  destruct (realized_cross_body_lists
              2%nat (projT1 demo_runs) (proj1_sig (projT2 demo_runs)) 0 2 a)
    as (X12 & _).
  - rlazy. reflexivity.
  - apply returns_eq. exact (proj2 (proj2_sig (projT2 demo_runs))).
  - exact Ha.
  - exists a. split; [exact Ha |]. rewrite H12.
    split; [simpl; auto |]. split.
    + apply X12. rewrite H12. split; [simpl; auto |].
      exists x1. split; [exact Hx1 |]. rewrite Hb, Hb1. lia.
    + intros Hc. apply X12 in Hc as (_ & x & Hx & Hne).
      rewrite Hx3 in Hx. inversion Hx; subst x. rewrite Hb, Hb3 in Hne. lia.
Defined.

(** X15 on the small molecule: the one stretch of atom 0 is the catalog
    entry for the classes 0 and 1. *)
Lemma realized_bonded_parameters_witness :
  exists a bs,
    at_ (atoms (proj1_sig (projT2 demo_runs))) 0 = Some a
    /\ at_ (stretch a) 0 = Some bs
    /\ stretchOf (proj1_sig (projT2 demo_runs)) 0 1 = Some bs.
Proof.
  assert (A : { a | at_ (atoms (proj1_sig (projT2 demo_runs))) 0 = Some a
                    /\ at_ (xbond12 a) 0 = Some 1 })
    by (eexists; split; rlazy; reflexivity).
  destruct A as [a [Ha Hx]].
  destruct (realized_bonded_parameters
              2%nat (projT1 demo_runs) (proj1_sig (projT2 demo_runs)) 0 0 a)
    as (_ & S & _).
  - rlazy. reflexivity.
  - apply returns_eq. exact (proj2 (proj2_sig (projT2 demo_runs))).
  - exact Ha.
  - destruct (S 0 1 Hx) as (c & cj & bs & H1 & H2 & H3 & H4).
    exists a, bs. split; [exact Ha |]. split; [exact H4 |].
    assert (E1 : classOf (proj1_sig (projT2 demo_runs)) 0 = Some 0)
      by (rlazy; reflexivity).
    assert (E2 : classOf (proj1_sig (projT2 demo_runs)) 1 = Some 1)
      by (rlazy; reflexivity).
    rewrite E1 in H1. rewrite E2 in H2.
    inversion H1; inversion H2; subst. exact H3.
Defined.

(* ================================================================= *)
(** ** Every atom on its body *)

Lemma forEach_prefix_inv {S A} (Inv : list A -> S -> Prop)
    (body : A -> M S unit) :
  (forall d x t t', Inv d t -> body x t = Return t' tt -> Inv (d ++ [x]) t') ->
  forall l done s s',
    Inv done s -> forEach l body s = Return s' tt -> Inv (done ++ l) s'.
Proof.
  intros Hstep. induction l as [| x l IH]; simpl; intros done s s' H0 H.
  - apply ret_inv in H as [_ ->]. now rewrite app_nil_r.
  - apply bind_inv in H as (s1 & [] & H1 & H).
    replace (done ++ x :: l) with ((done ++ [x]) ++ l)
      by (rewrite <- app_assoc; reflexivity).
    eapply IH; [| exact H]. eapply Hstep; eauto.
Qed.

#[export] Instance keeps_bodies_frame : FrameRel keeps_bodies.
Proof.
  split.
  - intros s. repeat split.
  - intros a b c (H1 & H2 & H3) (K1 & K2 & K3). repeat split; congruence.
Qed.

#[export] Instance keeps_place_frame : FrameRel keeps_place.
Proof.
  split.
  - intros s. split; [apply frame_refl |]. intros j a H. eauto.
  - intros a b c [H1 H2] [K1 K2]. split; [eapply frame_trans; eauto |].
    intros j x Hx.
    destruct (H2 j x Hx) as (y & Hy & E1 & E2).
    destruct (K2 j y Hy) as (z & Hz & E3 & E4).
    exists z. repeat split; congruence.
Qed.

Lemma keeps_place_upd_at s i f :
  (forall a, atom_bodyId (f a) = atom_bodyId a
             /\ station_B (f a) = station_B a) ->
  keeps_place s (set_atoms (upd_at (atoms s) i f) s).
Proof.
  intros Hf. split.
  - repeat split. cbn. apply upd_at_length.
  - intros j a H. cbn.
    destruct (Z.eq_dec j i) as [-> | Hne].
    + rewrite upd_at_eq, H. cbn. exists (f a). split; [reflexivity | apply Hf].
    + rewrite upd_at_neq by exact Hne. eauto.
Qed.

Ltac place_auto :=
  repeat first
    [ pres_step
    | apply pres_modify; intros ?; apply keeps_place_upd_at; intros ?;
      split; reflexivity
    | progress autounfold with ops ].

(** The loop that chases the bonds keeps the body and the station of every
    atom. *)
Lemma realizeAllAtomBonds_keeps_place :
  pres keeps_place (forIndices atoms realizeAtomBonds).
Proof. place_auto. Qed.

Lemma placed_equiv l l' s :
  (forall x, In x l <-> In x l') -> placed l s -> placed l' s.
Proof.
  intros E [A B]. split.
  - intros i a Ha. destruct (A i a Ha) as [H | (st & H1 & H2)]; [now left |].
    right. exists st. split; [now apply E | exact H2].
  - intros bnum ap H. apply B. now apply E.
Qed.

(** One pass of the inner loop of the assignment of bodies. *)
Lemma assign_step bnum ap assigned s s' :
  placed assigned s -> 0 <= bnum ->
  (assert (AtomPlacement_isValid ap) ;;
   mm <- get ;;
   a <- must (at_ (atoms mm) (ap_atomId ap)) ;;
   assert (Atom_isValid a) ;;
   assert (atom_bodyId a =? -1) ;;
   modAtom (ap_atomId ap)
           (fun a => Atom_setBody a bnum (Some (ap_station ap)))) s
  = Return s' tt ->
  placed ((bnum, ap) :: assigned) s' /\ keeps_bodies s s'.
Proof.
  intros [A B] Hb H.
  apply bind_inv in H as (s1 & u1 & H1 & H). apply assert_inv in H1 as [_ ->].
  apply bind_inv in H as (s1 & mm & Hg & H). apply get_inv in Hg as [-> ->].
  apply bind_inv in H as (s1 & a & Ha & H). apply must_inv in Ha as [Ha ->].
  apply bind_inv in H as (s1 & u2 & H2 & H). apply assert_inv in H2 as [_ ->].
  apply bind_inv in H as (s1 & u3 & H3 & H). apply assert_inv in H3 as [H3 ->].
  apply Z.eqb_eq in H3.
  apply modAtom_inv in H as (a0 & Ha0 & ->).
  split; [| repeat split; cbn; apply upd_at_length].
  split.
  - intros i x Hx. cbn in Hx.
    destruct (Z.eq_dec i (ap_atomId ap)) as [-> | Hne].
    + rewrite upd_at_eq, Ha in Hx. cbn in Hx. inversion Hx; subst x. cbn.
      right. exists (ap_station ap). split; [| reflexivity].
      left. destruct ap; reflexivity.
    + rewrite upd_at_neq in Hx by exact Hne.
      destruct (A i x Hx) as [H | (st & H1 & H2)]; [now left |].
      right. exists st. split; [now right | exact H2].
  - intros b' ap' [E | Hin].
    + inversion E; subst b' ap'. split; [exact Hb |]. cbn.
      rewrite upd_at_eq, Ha. cbn. eexists. split; [reflexivity |]. cbn. auto.
    + destruct (B b' ap' Hin) as (Hb' & x & Hx & E1 & E2).
      split; [exact Hb' |]. cbn.
      assert (Hne : ap_atomId ap' <> ap_atomId ap).
      { intros E. rewrite E, Ha in Hx. inversion Hx; subst x. lia. }
      rewrite upd_at_neq by exact Hne. eauto.
Qed.

Lemma assignBodyAtoms_spec k assigned s s' :
  placed assigned s -> 0 <= k ->
  assignBodyAtoms k s = Return s' tt ->
  exists assigned',
    placed assigned' s' /\ keeps_bodies s s'
    /\ forall bnum ap,
         In (bnum, ap) assigned' <->
         In (bnum, ap) assigned
         \/ (bnum = k /\ exists b, at_ (bodies s) k = Some b
                                   /\ Body_isValid b = true
                                   /\ In ap (allAtoms b)).
Proof.
  intros P Hk H. unfold assignBodyAtoms in H.
  apply bind_inv in H as (s1 & mm & Hg & H). apply get_inv in Hg as [-> ->].
  apply bind_inv in H as (s1 & b & Hb & H). apply must_inv in Hb as [Hb ->].
  destruct (Body_isValid b) eqn:Ev; cbn [negb] in H.
  - apply (forEach_prefix_inv
             (fun done t => placed (map (pair k) done ++ assigned) t
                            /\ keeps_bodies s t)) with (done := []) in H.
    + destruct H as [P' K]. cbn [app] in P'.
      exists (map (pair k) (allAtoms b) ++ assigned).
      split; [exact P' |]. split; [exact K |].
      intros bnum ap. rewrite in_app_iff, in_map_iff. split.
      * intros [(x & E & Hx) | Hin]; [| now left].
        inversion E; subst. right. split; [reflexivity |]. eauto.
      * intros [Hin | (-> & b' & Hb' & _ & Hin)]; [now right |].
        left. rewrite Hb in Hb'. inversion Hb'; subst b'. eauto.
    + intros d x t t' [Pd Kd] Hstep.
      apply (assign_step _ _ (map (pair k) d ++ assigned)) in Hstep
        as [P' K']; [| exact Pd | exact Hk].
      split; [| eapply frame_trans; eauto].
      eapply placed_equiv; [| exact P'].
      intros y. rewrite map_app. cbn. rewrite !in_app_iff. cbn. tauto.
    + split; [exact P | apply frame_refl].
  - apply ret_inv in H as [_ ->]. exists assigned.
    split; [exact P |]. split; [apply frame_refl |].
    intros bnum ap. split; [now left |].
    intros [Hin | (-> & b' & Hb' & Hv & _)]; [exact Hin |].
    rewrite Hb in Hb'. inversion Hb'; subst. congruence.
Qed.

(** The assignment of bodies, over all the bodies. *)
Lemma assignAllBodies_spec s s' :
  placed [] s ->
  forIndices bodies assignBodyAtoms s = Return s' tt ->
  exists assigned,
    placed assigned s' /\ keeps_bodies s s'
    /\ forall bnum ap,
         In (bnum, ap) assigned <->
         exists b, at_ (bodies s) bnum = Some b /\ Body_isValid b = true
                   /\ In ap (allAtoms b).
Proof.
  intros P H. unfold forIndices in H.
  apply bind_inv in H as (s0 & mm & Hg & H). apply get_inv in Hg as [-> ->].
  unfold indices in H.
  apply (forEach_indices_inv
           (fun k t =>
              exists assigned,
                placed assigned t /\ keeps_bodies s t
                /\ forall bnum ap,
                     In (bnum, ap) assigned <->
                     (0 <= bnum < Z.of_nat k
                      /\ exists b, at_ (bodies s) bnum = Some b
                                   /\ Body_isValid b = true
                                   /\ In ap (allAtoms b))))
    in H.
  - destruct H as (assigned & P' & K & C). exists assigned.
    split; [exact P' |]. split; [exact K |].
    intros bnum ap. rewrite C. cbn. split.
    + intros [_ Hx]. exact Hx.
    + intros (b & Hb & Hx). split; [| eauto].
      apply at_length in Hb. unfold size in Hb. lia.
  - exists []. split; [exact P |]. split; [apply frame_refl |].
    intros bnum ap. split; [intros [] | intros [Hc _]; lia].
  - intros k t t' Hk (assigned & Pt & Kt & Ct) Hstep.
    apply (assignBodyAtoms_spec _ assigned) in Hstep
      as (assigned' & P' & K' & C'); [| exact Pt | lia].
    exists assigned'. split; [exact P' |].
    split; [eapply frame_trans; eauto |].
    intros bnum ap. rewrite C', Ct.
    destruct Kt as (Kb & _). rewrite Kb. split.
    + intros [[Hr Hx] | (-> & Hx)]; (split; [lia | exact Hx]).
    + intros [Hr Hx].
      destruct (Z.eq_dec bnum (Z.of_nat k)) as [-> | Hne];
        [right; auto | left; split; [lia | exact Hx]].
Qed.

(** The loop that takes every atom off its body. *)
Lemma resetBodies_spec s s' :
  forIndices atoms (fun anum => modAtom anum (fun a =>
                      Atom_setBody a (-1) (station_B a))) s = Return s' tt ->
  keeps_bodies s s'
  /\ forall i a, at_ (atoms s') i = Some a -> atom_bodyId a = -1.
Proof.
  intros H. unfold forIndices in H.
  apply bind_inv in H as (s0 & mm & Hg & H). apply get_inv in Hg as [-> ->].
  unfold indices in H.
  apply (forEach_indices_inv
           (fun k t => keeps_bodies s t
                       /\ forall i a, i < Z.of_nat k ->
                            at_ (atoms t) i = Some a -> atom_bodyId a = -1))
    in H.
  - destruct H as [K A]. split; [exact K |].
    intros i a Ha. apply (A i a); [| exact Ha].
    apply at_length in Ha. destruct K as (_ & _ & L). unfold size in Ha. lia.
  - split; [apply frame_refl |]. intros i a Hi Ha.
    apply at_length in Ha. lia.
  - intros k t t' Hk [K A] Hstep.
    apply modAtom_inv in Hstep as (a0 & Ha0 & ->). split.
    + eapply frame_trans; [exact K |]. repeat split. cbn. apply upd_at_length.
    + intros i a Hi Ha. cbn in Ha.
      destruct (Z.eq_dec i (Z.of_nat k)) as [-> | Hne].
      * rewrite upd_at_eq, Ha0 in Ha. cbn in Ha. inversion Ha; subst a.
        reflexivity.
      * rewrite upd_at_neq in Ha by exact Hne. apply (A i a); [lia | exact Ha].
Qed.

(** The loop that asserts that every atom has a body. *)
Lemma checkBodies_spec s s' :
  forIndices atoms (fun anum =>
                      mm <- get ;;
                      a <- must (at_ (atoms mm) anum) ;;
                      assert (0 <=? atom_bodyId a)) s = Return s' tt ->
  s' = s /\ forall i a, at_ (atoms s) i = Some a -> 0 <= atom_bodyId a.
Proof.
  intros H. unfold forIndices in H.
  apply bind_inv in H as (s0 & mm & Hg & H). apply get_inv in Hg as [-> ->].
  unfold indices in H.
  apply (forEach_indices_inv
           (fun k t => t = s
                       /\ forall i a, i < Z.of_nat k ->
                            at_ (atoms s) i = Some a -> 0 <= atom_bodyId a))
    in H.
  - destruct H as [-> A]. split; [reflexivity |].
    intros i a Ha. apply (A i a); [| exact Ha].
    apply at_length in Ha. unfold size in Ha. lia.
  - split; [reflexivity |]. intros i a Hi Ha. apply at_length in Ha. lia.
  - intros k t t' Hk [-> A] Hstep.
    apply bind_inv in Hstep as (s1 & mm & Hg & Hstep).
    apply get_inv in Hg as [-> ->].
    apply bind_inv in Hstep as (s1 & a0 & Ha0 & Hstep).
    apply must_inv in Ha0 as [Ha0 ->].
    apply assert_inv in Hstep as [Hb ->]. apply Z.leb_le in Hb.
    split; [reflexivity |]. intros i a Hi Ha.
    destruct (Z.eq_dec i (Z.of_nat k)) as [-> | Hne].
    + rewrite Ha0 in Ha. inversion Ha; subst. exact Hb.
    + apply (A i a); [lia | exact Ha].
Qed.

(** The loop over the bodies that copies the atoms of the body's cluster. *)
Lemma realizeBodies_spec s s' :
  forIndices bodies realizeBody s = Return s' tt ->
  clusters s' = clusters s
  /\ forall bnum b, at_ (bodies s') bnum = Some b -> Body_isValid b = true ->
       exists c, at_ (clusters s') (body_clusterId b) = Some c
                 /\ Cluster_isValid c = true
                 /\ allAtoms b = allAtomPlacements c.
Proof.
  intros H. unfold forIndices in H.
  apply bind_inv in H as (s0 & mm & Hg & H). apply get_inv in Hg as [-> ->].
  unfold indices in H.
  apply (forEach_indices_inv
           (fun k t =>
              clusters t = clusters s
              /\ length (bodies t) = length (bodies s)
              /\ (forall bnum, Z.of_nat k <= bnum ->
                    at_ (bodies t) bnum = at_ (bodies s) bnum)
              /\ forall bnum b, bnum < Z.of_nat k ->
                   at_ (bodies t) bnum = Some b -> Body_isValid b = true ->
                   exists c, at_ (clusters s) (body_clusterId b) = Some c
                             /\ Cluster_isValid c = true
                             /\ allAtoms b = allAtomPlacements c))
    in H.
  - destruct H as (Kc & Kl & _ & A). split; [exact Kc |].
    intros bnum b Hb Hv. rewrite Kc. apply (A bnum b); [| exact Hb | exact Hv].
    apply at_length in Hb. unfold size in Hb. lia.
  - split; [reflexivity |]. split; [reflexivity |].
    split; [reflexivity |]. intros bnum b Hi Hb. apply at_length in Hb. lia.
  - intros k t t' Hk (Kc & Kl & Ku & A) Hstep.
    unfold realizeBody in Hstep.
    apply bind_inv in Hstep as (s1 & mm & Hg & Hstep).
    apply get_inv in Hg as [-> ->].
    apply bind_inv in Hstep as (s1 & b0 & Hb0 & Hstep).
    apply must_inv in Hb0 as [Hb0 ->].
    destruct (Body_isValid b0) eqn:Ev; cbn [negb] in Hstep.
    + apply bind_inv in Hstep as (s1 & c & Hc & Hstep).
      unfold getCluster in Hc.
      apply bind_inv in Hc as (s2 & mm & Hg & Hc). apply get_inv in Hg as [-> ->].
      apply bind_inv in Hc as (s2 & u & Hv & Hc).
      apply assert_inv in Hv as [Hv ->].
      apply must_inv in Hc as [Hc ->].
      apply isValidAt_inv in Hv as (c' & Hc' & Hcv).
      rewrite Hc in Hc'. inversion Hc'; subst c'.
      unfold modBody in Hstep.
      apply bind_inv in Hstep as (s1 & mm & Hg & Hstep).
      apply get_inv in Hg as [-> ->].
      apply bind_inv in Hstep as (s1 & b1 & Hb1 & Hstep).
      apply must_inv in Hb1 as [Hb1 ->].
      apply modify_inv in Hstep. subst t'. cbn.
      split; [exact Kc |]. split; [now rewrite upd_at_length |]. split.
      * intros bnum Hge. rewrite upd_at_neq by lia. apply Ku. lia.
      * intros bnum b Hlt Hb Hvb.
        destruct (Z.eq_dec bnum (Z.of_nat k)) as [-> | Hne].
        -- rewrite upd_at_eq, Hb0 in Hb. cbn in Hb. inversion Hb; subst b.
           cbn. exists c. rewrite <- Kc. auto.
        -- rewrite upd_at_neq in Hb by exact Hne.
           apply (A bnum b); [lia | exact Hb | exact Hvb].
    + apply ret_inv in Hstep as [_ ->].
      split; [exact Kc |]. split; [exact Kl |]. split.
      * intros bnum Hge. apply Ku. lia.
      * intros bnum b Hlt Hb Hvb.
        destruct (Z.eq_dec bnum (Z.of_nat k)) as [-> | Hne].
        -- rewrite Hb0 in Hb. inversion Hb; subst. congruence.
        -- apply (A bnum b); [lia | exact Hb | exact Hvb].
Qed.

(** X16. After a realization that had work to do, the atoms and the bodies
    agree.  Every atom has a body that is in use, and its station is
    finite and is that of a placement of the atom in the body's list
    [allAtoms]; and in the other direction, the atom of every placement in
    the list of a body in use has that body and the station of that
    placement (so no atom is placed twice: an atom can only be on one
    body).  The list of a body in use is the list of all the atoms of the
    body's cluster. *)
Theorem realized_atoms_on_bodies fuel mm mm' v :
  topologicalCacheValid mm = false ->
  run fuel RealizeConstruction mm = Return mm' v ->
  (forall i a, at_ (atoms mm') i = Some a ->
     exists b st,
       at_ (bodies mm') (atom_bodyId a) = Some b
       /\ Body_isValid b = true
       /\ station_B a = Some st
       /\ In (mkAtomPlacement i st) (allAtoms b))
  /\ (forall bnum b ap,
        at_ (bodies mm') bnum = Some b -> Body_isValid b = true ->
        In ap (allAtoms b) ->
        exists a, at_ (atoms mm') (ap_atomId ap) = Some a
                  /\ atom_bodyId a = bnum
                  /\ station_B a = Some (ap_station ap))
  /\ (forall bnum b,
        at_ (bodies mm') bnum = Some b -> Body_isValid b = true ->
        exists c, at_ (clusters mm') (body_clusterId b) = Some c
                  /\ Cluster_isValid c = true
                  /\ allAtoms b = allAtomPlacements c).
Proof.
  intros Hf H.
  unfold run, void in H. apply bind_inv in H as (s' & u & H & Hret).
  apply ret_inv in Hret as [_ ->].
  unfold realizeConstruction in H.
  apply bind_inv in H as (s0 & x & Hg & H). apply get_inv in Hg as [-> ->].
  rewrite Hf in H.
  do 3 (apply bind_inv in H as (? & ? & _ & H)).
  apply bind_inv in H as (s3 & [] & H3 & H).
  apply bind_inv in H as (s4 & [] & H4 & H).
  apply bind_inv in H as (s5 & [] & H5 & H).
  apply bind_inv in H as (s6 & [] & H6 & H).
  apply bind_inv in H as (s7 & [] & H7 & H).
  apply modify_inv in H. subst s'.
  apply realizeBodies_spec in H3 as [_ B3].
  apply resetBodies_spec in H4 as [K4 A4].
  assert (P4 : placed [] s4).
  { split; [intros i a Ha; left; eauto | intros bnum ap []]. }
  apply (assignAllBodies_spec _ _ P4) in H5 as (assigned & [PA PB] & K5 & C5).
  apply checkBodies_spec in H6 as [-> A6].
  pose proof (realizeAllAtomBonds_keeps_place s5) as K7. rewrite H7 in K7.
  destruct K7 as [K7 A7].
  assert (Eb : bodies s7 = bodies s3).
  { destruct K4 as (E4 & _), K5 as (E5 & _), K7 as (E7 & _). congruence. }
  assert (Eb4 : bodies s4 = bodies s3) by (destruct K4; assumption).
  assert (Ec : clusters s7 = clusters s3).
  { destruct K4 as (_ & E4 & _), K5 as (_ & E5 & _), K7 as (_ & E7 & _).
    congruence. }
  assert (L7 : length (atoms s7) = length (atoms s5))
    by (destruct K7 as (_ & _ & L); exact L).
  cbn [atoms bodies clusters set_topologicalCacheValid].
  rewrite Eb, Ec. split; [| split].
  - intros i a Ha.
    assert (Hi : exists a5, at_ (atoms s5) i = Some a5).
    { destruct (at_ (atoms s5) i) as [a5 |] eqn:E; [eauto |].
      apply at_length in Ha. unfold size in Ha. rewrite L7 in Ha.
      unfold at_ in E. destruct (Z.ltb_spec i 0); [lia |].
      apply nth_error_None in E. lia. }
    destruct Hi as (a5 & Ha5).
    destruct (A7 i a5 Ha5) as (a' & Ha' & E1 & E2).
    rewrite Ha in Ha'. inversion Ha'; subst a'.
    pose proof (A6 i a5 Ha5) as Hpos.
    destruct (PA i a5 Ha5) as [Hneg | (st & Hin & Hst)]; [lia |].
    apply C5 in Hin as (b & Hb & Hv & Hin). rewrite Eb4 in Hb.
    exists b, st. rewrite E1, E2. auto.
  - intros bnum b ap Hb Hv Hin.
    assert (Hin' : In (bnum, ap) assigned).
    { apply C5. exists b. rewrite Eb4. auto. }
    destruct (PB bnum ap Hin') as (_ & a5 & Ha5 & E1 & E2).
    destruct (A7 _ a5 Ha5) as (a' & Ha' & E3 & E4).
    exists a'. split; [exact Ha' |]. split; congruence.
  - intros bnum b Hb Hv. apply (B3 bnum b Hb Hv).
Qed.

(** X16 on the small molecule: body 2 lists the atoms 2 and 3, and atom 3
    has body 2 and the station of its placement. *)
Lemma realized_atoms_on_bodies_witness :
  exists b a,
    at_ (bodies (proj1_sig (projT2 demo_runs))) 2 = Some b
    /\ In (mkAtomPlacement 3 (mkVec3 1 0 0)) (allAtoms b)
    /\ at_ (atoms (proj1_sig (projT2 demo_runs))) 3 = Some a
    /\ atom_bodyId a = 2
    /\ station_B a = Some (mkVec3 1 0 0).
Proof.
  assert (A : { b | at_ (bodies (proj1_sig (projT2 demo_runs))) 2 = Some b
                    /\ Body_isValid b = true
                    /\ In (mkAtomPlacement 3 (mkVec3 1 0 0)) (allAtoms b) })
    by (eexists; split; [rlazy; reflexivity |];
        split; [rlazy; reflexivity | rlazy; auto]).
  destruct A as (b & Hb & Hv & Hin).
  destruct (realized_atoms_on_bodies
              2%nat (projT1 demo_runs) (proj1_sig (projT2 demo_runs)) 0)
    as (_ & P & _).
  - rlazy. reflexivity.
  - apply returns_eq. exact (proj2 (proj2_sig (projT2 demo_runs))).
  - destruct (P 2 b _ Hb Hv Hin) as (a & Ha & E1 & E2).
    exists b, a. auto.
Defined.

(* ================================================================= *)
(** ** The scale factors *)

#[export] Instance keeps_scales_frame : FrameRel keeps_scales.
Proof.
  split.
  - intros s. reflexivity.
  - intros a b c H1 H2. unfold keeps_scales in *. congruence.
Qed.

Ltac scales_auto :=
  repeat first
    [ pres_step
    | apply pres_modify; intros ?; reflexivity
    | progress autounfold with ops_atoms
    | progress autounfold with ops ].

Lemma Cluster_attachToBody_keeps_scales fuel :
  forall cid bnum X, pres keeps_scales (Cluster_attachToBody fuel cid bnum X).
Proof.
  induction fuel as [|fuel IH]; intros cid bnum X; simpl.
  - apply pres_abort.
  - pose proof (fun c b x => IH c b x) as IH'. scales_auto. apply IH.
Qed.

(** Only the eight setters write a scale factor. *)
Lemma run_keeps_scales fuel c :
  setsScale c = None -> pres keeps_scales (run fuel c).
Proof.
  intros Hc.
  pose proof Cluster_attachToBody_keeps_scales as Hat.
  destruct c; try discriminate; clear Hc; unfold run; scales_auto;
    try apply Hat.
Qed.

Lemma setScaleFactor_inv set fac mm mm' u :
  setScaleFactor set fac mm = Return mm' u ->
  mm' = set fac mm /\ (0 <= fac <= 1)%R.
Proof.
  unfold setScaleFactor. intros H.
  apply bind_inv in H as (s1 & u1 & H1 & H).
  apply apiArgCheck_inv in H1 as [H1 ->]. apply modify_inv in H.
  apply andb_true_iff in H1 as [Ha Hb]. apply Rleb_spec in Ha, Hb. auto.
Qed.

Lemma void_inv (m : Sub unit) mm mm' v :
  void m mm = Return mm' v -> m mm = Return mm' tt.
Proof.
  unfold void. intros H. apply bind_inv in H as (s1 & [] & H1 & H).
  apply ret_inv in H as [_ ->]. exact H1.
Qed.

(** What a call that returned did to the scale factors. *)
Lemma run_scales fuel c mm mm' v :
  run fuel c mm = Return mm' v ->
  match setsScale c with
  | Some (k, f) =>
      scalesOf mm' = list_set (scalesOf mm) k f /\ (0 <= f <= 1)%R
  | None => scalesOf mm' = scalesOf mm
  end.
Proof.
  intros H. destruct (setsScale c) as [[k f] |] eqn:E.
  - destruct c; try discriminate; cbn in E; inversion E; subst k f;
      unfold run in H; apply void_inv in H;
      apply setScaleFactor_inv in H as [-> Hr]; (split; [reflexivity | exact Hr]).
  - pose proof (run_keeps_scales fuel c E mm) as K. rewrite H in K. exact K.
Qed.

Lemma Forall_list_set {A} (P : A -> Prop) l k x :
  Forall P l -> P x -> Forall P (list_set l k x).
Proof.
  intros H Hx. revert k. induction H; intros [| k]; cbn; constructor; auto.
Qed.

(** X17. The eight scale factors are in [0,1] in every state a client can
    reach: the constructor sets the 1-2 and 1-3 factors to 0 and the 1-4 and
    1-5 factors to 1, each setter accepts a value of [0,1] only and assigns
    it to its own factor, and no other call writes a factor. *)
Theorem scale_factors_in_unit_interval :
  scalesOf DuMM_new = [0; 0; 0; 0; 1; 1; 1; 1]%R
  /\ (forall mm, reachable mm ->
        Forall (fun f => (0 <= f <= 1)%R) (scalesOf mm))
  /\ (forall fuel c mm mm' v,
        run fuel c mm = Return mm' v ->
        match setsScale c with
        | Some (k, f) =>
            scalesOf mm' = list_set (scalesOf mm) k f /\ (0 <= f <= 1)%R
        | None => scalesOf mm' = scalesOf mm
        end).
Proof.
  split; [reflexivity |]. split; [| exact run_scales].
  induction 1 as [mm Hnew | fuel c mm mm' v Hr IH Hrun
                  | fuel c mm mm' Hr IH Hrun].
  - rewrite new_is_DuMM_new in Hnew. inversion Hnew; subst mm.
    unfold scalesOf; cbn. repeat constructor; lra.
  - apply run_scales in Hrun.
    destruct (setsScale c) as [[k f] |]; [| now rewrite Hrun].
    destruct Hrun as [-> Hf]. now apply Forall_list_set.
  - apply run_throw_same in Hrun as [-> _]. exact IH.
Qed.

(* ================================================================= *)
(** ** The bond vector *)

Lemma addBond_lt_form a b mm mm' v :
  addBond a b mm = Return mm' v ->
  exists lo hi, lo < hi /\ addBond lo hi mm = Return mm' v.
Proof.
  intros H. destruct (Z.lt_trichotomy a b) as [Hlt | [-> | Hgt]].
  - exists a, b. auto.
  - exfalso. revert H. unfold addBond, addBond_rep, bind, get, assert.
    rewrite Z.eqb_refl. destruct (_ && _); discriminate.
  - exists b, a. split; [lia |]. now rewrite addBond_sym.
Qed.

(** No bond is stored twice. *)
Lemma reachable_bonds_nodup mm : reachable mm -> NoDup (bonds mm).
Proof.
  induction 1 as [mm Hnew | fuel c mm mm' v Hr IH Hrun
                  | fuel c mm mm' Hr IH Hrun].
  - apply new_inv in Hnew as (_ & -> & _). constructor.
  - destruct (reachable_inv _ Hr) as [W _].
    assert (Hk : (forall t, c <> AddAtom t) -> (forall a b, c <> AddBond a b) ->
                 bonds mm' = bonds mm).
    { intros H1 H2. pose proof (run_keeps_graph fuel c H1 H2 mm) as K.
      rewrite Hrun in K. destruct K as (_ & K & _). exact K. }
    destruct c; try (rewrite Hk by discriminate; exact IH).
    + change (addAtom chargedAtomType mm = Return mm' v) in Hrun.
      apply addAtom_inv in Hrun as (-> & _). exact IH.
    + change (addBond atom1 atom2 mm = Return mm' v) in Hrun.
      apply addBond_lt_form in Hrun as (lo & hi & Hlt & Hrun).
      destruct (addBond_inv_lt _ _ _ _ _ Hlt Hrun)
        as (A & B & HA & HB & _ & _ & [(_ & _ & -> & _) | (Hf & -> & _)]);
        [exact IH |].
      unfold withBond. cbn [bonds set_atoms set_bonds].
      apply NoDup_app; [exact IH | repeat constructor; intros [] |].
      intros p Hp [<- | []].
      apply (wf_bonds _ W) in Hp as (_ & A' & HA' & Hin).
      rewrite HA in HA'. inversion HA'; subst A'.
      apply isBondedTo_In in Hin. congruence.
  - apply run_throw_same in Hrun as [-> _]. exact IH.
Qed.

(** X18. In every state a client can reach, [getBondAtom] on a bond number
    [b] with [0 <= b < getNBonds()] returns two atoms [lo < hi] that are
    valid atoms and list each other in their [bond12]; two different bond
    numbers never hold the same pair of atoms; and outside this range, or
    with [which] other than 0 or 1, the call fails its assertion. *)
Theorem bonds_are_ordered_pairs mm :
  reachable mm ->
  (forall b, 0 <= b < size (bonds mm) ->
     exists lo hi,
       getBondAtom b 0 mm = Return mm lo
       /\ getBondAtom b 1 mm = Return mm hi
       /\ lo < hi
       /\ isValidAtom mm lo = true /\ isValidAtom mm hi = true
       /\ bonded mm lo hi /\ bonded mm hi lo)
  /\ (forall b b' x y,
        getBondAtom b 0 mm = Return mm x -> getBondAtom b 1 mm = Return mm y ->
        getBondAtom b' 0 mm = Return mm x -> getBondAtom b' 1 mm = Return mm y ->
        b = b')
  /\ (forall b which,
        ~ (0 <= b < size (bonds mm)) \/ (which <> 0 /\ which <> 1) ->
        getBondAtom b which mm = Abort).
Proof.
  intros Hr. destruct (reachable_inv _ Hr) as [W _].
  pose proof (reachable_bonds_nodup _ Hr) as Hnd.
  assert (Hval : forall b bd, at_ (bonds mm) b = Some bd ->
                   isValidBond mm b = true
                   /\ ip0 bd < ip1 bd
                   /\ isValidAtom mm (ip0 bd) = true
                   /\ isValidAtom mm (ip1 bd) = true
                   /\ bonded mm (ip0 bd) (ip1 bd)
                   /\ bonded mm (ip1 bd) (ip0 bd)).
  { intros b bd Hb. pose proof (at_In _ _ _ Hb) as Hin.
    destruct bd as [lo hi]. cbn.
    apply (wf_bonds _ W) in Hin as (Hlt & A & HA & Hhi).
    destruct (wf_bond12 _ W _ _ _ HA Hhi) as (_ & B & HB & Hlo).
    pose proof (at_length _ _ _ HA). pose proof (at_length _ _ _ HB).
    split; [| split; [exact Hlt |]].
    - apply (isValidAt_intro _ _ _ _ Hb).
      unfold Bond_isValid, IntPair_isValid. cbn.
      destruct (Z.leb_spec 0 lo), (Z.leb_spec 0 hi); try lia; reflexivity.
    - split; [apply (isValidAt_intro _ _ _ _ HA), (wf_atoms_valid _ W _ _ HA) |].
      split; [apply (isValidAt_intro _ _ _ _ HB), (wf_atoms_valid _ W _ _ HB) |].
      split; [exists A | exists B]; auto. }
  assert (Hget : forall b which x,
             getBondAtom b which mm = Return mm x ->
             exists bd, at_ (bonds mm) b = Some bd
                        /\ ((which = 0 /\ x = ip0 bd) \/ (which = 1 /\ x = ip1 bd))).
  { intros b which x H. unfold getBondAtom in H.
    apply bind_inv in H as (s1 & s & Hg & H). apply get_inv in Hg as [-> ->].
    apply bind_inv in H as (s1 & u & Ha & H). apply assert_inv in Ha as [Ha ->].
    apply bind_inv in H as (s1 & bd & Hb & H). apply must_inv in Hb as [Hb ->].
    apply ret_inv in H as [-> _].
    apply andb_true_iff in Ha as [_ Ha]. exists bd. split; [exact Hb |].
    destruct (Z.eqb_spec which 0) as [-> | Hne]; [left; auto |].
    cbn in Ha. apply Z.eqb_eq in Ha. right. auto. }
  split; [| split].
  - intros b Hb.
    assert (Hat : exists bd, at_ (bonds mm) b = Some bd).
    { destruct (at_ (bonds mm) b) as [bd |] eqn:E; [eauto |].
      unfold at_ in E. destruct (Z.ltb_spec b 0); [lia |].
      apply nth_error_None in E. unfold size in Hb. lia. }
    destruct Hat as (bd & Hbd).
    destruct (Hval b bd Hbd) as (Hv & Hlt & V0 & V1 & B0 & B1).
    exists (ip0 bd), (ip1 bd).
    unfold getBondAtom, bind, get, assert, must, ret. rewrite Hv, Hbd. cbn.
    auto 10.
  - intros b b' x y H0 H1 H0' H1'.
    destruct (Hget _ _ _ H0) as (bd & Hbd & [[_ E0] | [Hc _]]); [| lia].
    destruct (Hget _ _ _ H1) as (bd1 & Hbd1 & [[Hc _] | [_ E1]]); [lia |].
    destruct (Hget _ _ _ H0') as (bd' & Hbd' & [[_ E0'] | [Hc _]]); [| lia].
    destruct (Hget _ _ _ H1') as (bd1' & Hbd1' & [[Hc _] | [_ E1']]); [lia |].
    rewrite Hbd in Hbd1. inversion Hbd1; subst bd1.
    rewrite Hbd' in Hbd1'. inversion Hbd1'; subst bd1'.
    assert (E : bd = bd') by (destruct bd, bd'; cbn in *; congruence).
    subst bd'. unfold at_ in Hbd, Hbd'.
    destruct (Z.ltb_spec b 0); [discriminate |].
    destruct (Z.ltb_spec b' 0); [discriminate |].
    assert (Hn : Z.to_nat b = Z.to_nat b').
    { eapply (proj1 (NoDup_nth_error (bonds mm)) Hnd).
      - apply nth_error_Some. congruence.
      - congruence. }
    lia.
  - intros b which Hbad.
    destruct (getBondAtom b which mm) as [s x | s |] eqn:E; [| | reflexivity];
      exfalso.
    + assert (s = mm).
      { unfold getBondAtom in E.
        apply bind_inv in E as (s1 & s0 & Hg & E). apply get_inv in Hg as [-> ->].
        apply bind_inv in E as (s1 & u & Ha & E). apply assert_inv in Ha as [_ ->].
        apply bind_inv in E as (s1 & bd & Hb & E). apply must_inv in Hb as [_ ->].
        apply ret_inv in E as [_ ->]. reflexivity. }
      subst s. destruct (Hget _ _ _ E) as (bd & Hbd & Hw).
      pose proof (at_length _ _ _ Hbd). destruct Hbad as [Hb | [H0 H1]]; [lia |].
      destruct Hw as [[Hw _] | [Hw _]]; contradiction.
    + revert E. unfold getBondAtom, bind, get, assert, must, ret.
      destruct (_ && _); [| discriminate].
      destruct (at_ (bonds mm) b); discriminate.
Qed.

(** X18 on the small molecule: bond 2, made by [addBond(3, 2)], holds the
    atoms 2 and 3 in this order. *)
Lemma bonds_are_ordered_pairs_witness :
  exists lo hi,
    getBondAtom 2 0 (projT1 demo_runs) = Return (projT1 demo_runs) lo
    /\ getBondAtom 2 1 (projT1 demo_runs) = Return (projT1 demo_runs) hi
    /\ lo < hi.
Proof.
  destruct (proj1 (bonds_are_ordered_pairs (projT1 demo_runs) demo_reachable) 2)
    as (lo & hi & H0 & H1 & Hlt & _).
  - rlazy. split; [discriminate | reflexivity].
  - exists lo, hi. auto.
Defined.

(* ================================================================= *)
(** ** The combining rules are symmetric *)

Lemma xadd_comm (a b : XReal) : (a + b = b + a)%X.
Proof. destruct a, b; cbn; try reflexivity. f_equal. ring. Qed.

Lemma xmul_comm (a b : XReal) : (a * b = b * a)%X.
Proof. destruct a, b; cbn; try reflexivity. f_equal. ring. Qed.

Lemma arithmeticMean_sym a b : arithmeticMean a b = arithmeticMean b a.
Proof. unfold arithmeticMean. now rewrite (xadd_comm a b). Qed.

Lemma geometricMean_sym a b : geometricMean a b = geometricMean b a.
Proof. unfold geometricMean. now rewrite (xmul_comm a b). Qed.

Lemma harmonicMean_sym a b : harmonicMean a b = harmonicMean b a.
Proof.
  unfold harmonicMean. rewrite (xadd_comm a b). f_equal.
  destruct a, b; cbn; try reflexivity. f_equal. ring.
Qed.

Lemma cubicMean_sym a b : cubicMean a b = cubicMean b a.
Proof.
  unfold cubicMean.
  now rewrite (xadd_comm (a * a * a)%X), (xadd_comm (a * a)%X).
Qed.

Lemma hhgMean_sym a b : hhgMean a b = hhgMean b a.
Proof.
  unfold hhgMean. now rewrite (harmonicMean_sym a b), (geometricMean_sym a b).
Qed.

Local Open Scope R_scope.

(** [hhgMean = 4ab/(sqrt(a)+sqrt(b))^2] *)
Lemma hhgMean_closed_form a b :
  0 < a -> 0 < b ->
  hhgMean (Some a) (Some b) = Some (4 * a * b / (sqrt a + sqrt b) ^ 2).
Proof.
  intros Ha Hb.
  pose proof (sqrt_lt_R0 a Ha) as Hp. pose proof (sqrt_lt_R0 b Hb) as Hq.
  assert (Ea : a = sqrt a * sqrt a) by (symmetry; apply sqrt_sqrt; lra).
  assert (Eb : b = sqrt b * sqrt b) by (symmetry; apply sqrt_sqrt; lra).
  assert (Eab : sqrt (a * b) = sqrt a * sqrt b) by (apply sqrt_mult; lra).
  set (p := sqrt a) in *. set (q := sqrt b) in *.
  unfold hhgMean, harmonicMean, geometricMean.
  cbn [xmul xadd xlift2 xsqrt].
  assert (Hab : 0 < a * b) by (apply Rmult_lt_0_compat; assumption).
  rewrite Rltb_false by lra.
  rewrite xdiv_some by lra.
  cbn [xmul xadd xlift2].
  rewrite Eab.
  assert (Hpos : 0 < 2 * a * b / (a + b)).
  { apply Rdiv_lt_0_compat; nra. }
  rewrite xdiv_some by nra.
  f_equal. clear Hpos Hab Eab. clearbody p q. subst a b.
  assert (0 < p * p + q * q) by nra.
  assert (0 < p * q) by nra.
  field. repeat split; try nra.
Qed.

Local Close Scope R_scope.

Lemma WaldmanHagler_sym ri rj ei ej :
  vdwCombineWaldmanHagler ri rj ei ej = vdwCombineWaldmanHagler rj ri ej ei.
Proof.
  unfold vdwCombineWaldmanHagler. cbv zeta.
  now rewrite (geometricMean_sym (ei * _)%X),
    (arithmeticMean_sym (ri * ri * ri * _)%X).
Qed.

Lemma applyMixingRule_sym ri rj ei ej :
  applyMixingRule ri rj ei ej = applyMixingRule rj ri ej ei.
Proof. unfold applyMixingRule. now rewrite WaldmanHagler_sym. Qed.

(** X19. Each of the five combining rules, and [applyMixingRule], gives the
    same radius and well depth for the classes (i, j) as for (j, i) -- on
    every argument, finite or not -- so that the triangle [j >= i] of the
    van der Waals table is enough.  And for positive arguments [hhgMean] is
    the closed form of its comment, [4ab/(sqrt(a)+sqrt(b))^2]. *)
Theorem combining_rules_symmetric (ri rj ei ej : XReal) :
  vdwCombineLorentzBerthelot ri rj ei ej = vdwCombineLorentzBerthelot rj ri ej ei
  /\ vdwCombineJorgensen ri rj ei ej = vdwCombineJorgensen rj ri ej ei
  /\ vdwCombineHalgrenHHG ri rj ei ej = vdwCombineHalgrenHHG rj ri ej ei
  /\ vdwCombineWaldmanHagler ri rj ei ej = vdwCombineWaldmanHagler rj ri ej ei
  /\ vdwCombineKong ri rj ei ej = vdwCombineKong rj ri ej ei
  /\ applyMixingRule ri rj ei ej = applyMixingRule rj ri ej ei
  /\ (forall a b, (0 < a)%R -> (0 < b)%R ->
        hhgMean (Some a) (Some b)
        = Some (4 * a * b / (sqrt a + sqrt b) ^ 2)%R).
Proof.
  repeat split.
  - unfold vdwCombineLorentzBerthelot.
    now rewrite (arithmeticMean_sym ri), (geometricMean_sym ei).
  - unfold vdwCombineJorgensen.
    now rewrite (geometricMean_sym ri), (geometricMean_sym ei).
  - unfold vdwCombineHalgrenHHG.
    now rewrite (cubicMean_sym ri), (hhgMean_sym ei).
  - apply WaldmanHagler_sym.
  - unfold vdwCombineKong. cbv zeta.
    now rewrite (geometricMean_sym (ei * _)%X),
      (arithmeticMean_sym (xpow (ei * _)%X oo13)).
  - apply applyMixingRule_sym.
  - apply hhgMean_closed_form.
Qed.

(* ================================================================= *)
(** ** The van der Waals table *)

Lemma foldM_seq_inv {S B} (Inv : nat -> B -> S -> Prop)
    (f : B -> Z -> M S B) (g : nat -> Z) :
  forall n start b s s' b',
    Inv start b s ->
    (forall k b t b' t', (start <= k < start + n)%nat -> Inv k b t ->
                         f b (g k) t = Return t' b' -> Inv (Datatypes.S k) b' t') ->
    foldM f (map g (seq start n)) b s = Return s' b' ->
    Inv (start + n)%nat b' s'.
Proof.
  induction n as [| n IH]; intros start b s s' b' H0 Hstep H; simpl in H.
  - apply ret_inv in H as [-> ->]. now rewrite Nat.add_0_r.
  - apply bind_inv in H as (s1 & b1 & H1 & H).
    replace (start + Datatypes.S n)%nat with (Datatypes.S start + n)%nat by lia.
    apply (IH (Datatypes.S start) b1 s1 s' b').
    + apply (Hstep start b s b1 s1); [lia | exact H0 | exact H1].
    + intros k x t x' t' Hk. apply Hstep. lia.
    + exact H.
Qed.

Lemma Forall2_refl_gen {A} (P : A -> A -> Prop) l :
  (forall a, P a a) -> Forall2 P l l.
Proof. intros H. induction l; constructor; auto. Qed.

Lemma Forall2_upd_at_gen {A} (P : A -> A -> Prop) l i f :
  (forall a, P a a) -> (forall a, P a (f a)) -> Forall2 P l (upd_at l i f).
Proof.
  intros Hr Hf. unfold upd_at. destruct (i <? 0); [now apply Forall2_refl_gen |].
  generalize (Z.to_nat i). induction l; intros [| n]; simpl; constructor;
    auto using Forall2_refl_gen.
Qed.

Lemma Forall2_map_gen {A} (P : A -> A -> Prop) l f :
  (forall a, P a (f a)) -> Forall2 P l (map f l).
Proof. intros Hf. induction l; simpl; constructor; auto. Qed.

Lemma Forall2_trans_gen {A} (P : A -> A -> Prop) l1 l2 l3 :
  (forall a b c, P a b -> P b c -> P a c) ->
  Forall2 P l1 l2 -> Forall2 P l2 l3 -> Forall2 P l1 l3.
Proof.
  intros Ht H. revert l3. induction H; intros l3 H'; inversion H'; subst;
    constructor; eauto.
Qed.

Lemma class_base_refl c : class_base c c.
Proof. unfold class_base. tauto. Qed.

Lemma class_base_trans a b c :
  class_base a b -> class_base b c -> class_base a c.
Proof. unfold class_base. intuition congruence. Qed.

Lemma class_base_valid c c' :
  class_base c c' -> AtomClass_isValid c' = AtomClass_isValid c.
Proof.
  intros (H1 & _ & H3 & H4 & H5 & H6). unfold AtomClass_isValid.
  now rewrite H1, H3, H4, H5, H6.
Qed.

Lemma class_base_mix ci ci' cj cj' :
  class_base ci ci' -> class_base cj cj' -> mixOf ci' cj' = mixOf ci cj.
Proof.
  intros (_ & _ & _ & _ & H5 & H6) (_ & _ & _ & _ & K5 & K6).
  unfold mixOf. now rewrite H5, H6, K5, K6.
Qed.

(** The rows stay right when the classes they look at keep their base. *)
Lemma rows_ok_base l l' i ci :
  Forall2 class_base l l' -> rows_ok l i ci -> rows_ok l' i ci.
Proof.
  intros F (L1 & L2 & R). unfold rows_ok.
  assert (El : size l' = size l)
    by (unfold size; f_equal; symmetry; eapply Forall2_length; eauto).
  rewrite El. split; [exact L1 |]. split; [exact L2 |].
  intros j cj' Hj Hcj' Hv.
  destruct (Forall2_at _ _ _ _ _ F Hcj') as (cj & Hcj & Hb).
  rewrite (class_base_valid _ _ Hb) in Hv.
  rewrite (class_base_mix ci ci cj cj' (class_base_refl ci) Hb).
  apply (R j cj Hj Hcj Hv).
Qed.

(** The inner loop of the table, for the class [iclass] at index [i]. *)
Lemma vdwRow_spec (classes : list AtomClass) (iclass : AtomClass) (i : Z)
    (m : nat) dij eij (s s' : DuMM) rows :
  length dij = m -> length eij = m ->
  foldM (vdwRowStep classes iclass i)
        (map (fun k => i + k) (indices m)) (dij, eij) s = Return s' rows ->
  s' = s /\ length (fst rows) = m /\ length (snd rows) = m
  /\ forall k cj, (k < m)%nat ->
       at_ classes (i + Z.of_nat k) = Some cj -> AtomClass_isValid cj = true ->
       at_ (fst rows) (Z.of_nat k) = Some (fst (mixOf iclass cj))
       /\ at_ (snd rows) (Z.of_nat k) = Some (snd (mixOf iclass cj)).
Proof.
  intros Ld Le H. unfold indices in H. rewrite map_map in H.
  apply (foldM_seq_inv
           (fun k r t =>
              t = s /\ length (fst r) = m /\ length (snd r) = m
              /\ forall k' cj, (k' < k)%nat ->
                   at_ classes (i + Z.of_nat k') = Some cj ->
                   AtomClass_isValid cj = true ->
                   at_ (fst r) (Z.of_nat k') = Some (fst (mixOf iclass cj))
                   /\ at_ (snd r) (Z.of_nat k') = Some (snd (mixOf iclass cj))))
    in H.
  - exact H.
  - cbn [fst snd]. split; [reflexivity |]. split; [exact Ld |]. split; [exact Le |].
    intros q cj Hq. lia.
  - intros k r t r' t' Hk (-> & L1 & L2 & R) Hstep.
    unfold vdwRowStep in Hstep.
    apply bind_inv in Hstep as (s1 & jclass & Hj & Hstep).
    apply must_inv in Hj as [Hj ->].
    destruct (AtomClass_isValid jclass) eqn:Ev.
    + fold (mixOf iclass jclass) in Hstep.
      destruct (mixOf iclass jclass) as [dmin emin] eqn:Em.
      apply bind_inv in Hstep as (s1 & d & Hd & Hstep).
      apply must_inv in Hd as [Hd ->].
      apply bind_inv in Hstep as (s1 & e & He & Hstep).
      apply must_inv in He as [He ->].
      apply ret_inv in Hstep as [-> ->]. cbn [fst snd].
      replace (i + Z.of_nat k - i) with (Z.of_nat k) in Hd, He by lia.
      apply set_at_inv in Hd as (_ & Ld' & Hd1 & Hd2).
      apply set_at_inv in He as (_ & Le' & He1 & He2).
      split; [reflexivity |]. split; [congruence |]. split; [congruence |].
      intros k' cj Hk' Hcj Hv.
      destruct (Nat.eq_dec k' k) as [-> | Hne].
      * rewrite Hj in Hcj. inversion Hcj; subst cj. rewrite Em. cbn. auto.
      * rewrite Hd2, He2 by lia. apply R; [lia | exact Hcj | exact Hv].
    + apply ret_inv in Hstep as [-> ->].
      split; [reflexivity |]. split; [exact L1 |]. split; [exact L2 |].
      intros k' cj Hk' Hcj Hv.
      destruct (Nat.eq_dec k' k) as [-> | Hne].
      * rewrite Hj in Hcj. inversion Hcj; subst cj. congruence.
      * apply R; [lia | exact Hcj | exact Hv].
Qed.

Lemma length_resize {A} (d : A) l n :
  0 <= n -> length (resize n d l) = Z.to_nat n.
Proof.
  intros Hn. unfold resize. rewrite length_app, length_firstn, repeat_length. lia.
Qed.

(** One row of the table. *)
Lemma realizeVdw_spec i s s' :
  realizeVdw i s = Return s' tt ->
  Forall2 class_base (atomClasses s) (atomClasses s')
  /\ (forall j, j <> i -> at_ (atomClasses s') j = at_ (atomClasses s) j)
  /\ (forall ci, at_ (atomClasses s') i = Some ci ->
        AtomClass_isValid ci = true -> rows_ok (atomClasses s) i ci).
Proof.
  intros H. unfold realizeVdw in H.
  apply bind_inv in H as (s1 & mm & Hg & H). apply get_inv in Hg as [-> ->].
  apply bind_inv in H as (s1 & iclass & Hi & H). apply must_inv in Hi as [Hi ->].
  destruct (AtomClass_isValid iclass) eqn:Ev; cbn [negb] in H.
  - cbv zeta in H.
    apply bind_inv in H as (s1 & rows & Hrows & H).
    pose proof (at_length _ _ _ Hi) as Hr.
    set (m := Z.to_nat (size (atomClasses s) - i)) in *.
    apply (vdwRow_spec _ _ _ m) in Hrows as (-> & L1 & L2 & R);
      [| apply length_resize; lia | apply length_resize; lia].
    unfold modAtomClass in H.
    apply bind_inv in H as (s1 & mm & Hg & H). apply get_inv in Hg as [-> ->].
    apply bind_inv in H as (s1 & c0 & Hc0 & H). apply must_inv in Hc0 as [_ ->].
    apply modify_inv in H. subst s'. cbn [atomClasses set_atomClasses].
    split; [| split].
    + apply Forall2_upd_at_gen; [apply class_base_refl |].
      intros a. unfold class_base. cbn. tauto.
    + intros j Hj. now apply upd_at_neq.
    + intros ci Hci _. rewrite upd_at_eq, Hi in Hci. cbn in Hci.
      inversion Hci; subst ci. unfold rows_ok. cbn [vdwDij vdwEij AtomClass_setVdw].
      unfold size at 1 3. rewrite L1, L2. subst m.
      split; [lia |]. split; [lia |].
      intros j cj Hj Hcj Hv. pose proof (at_length _ _ _ Hcj) as Hjr.
      replace (j - i) with (Z.of_nat (Z.to_nat (j - i))) by lia.
      assert (E : mixOf (AtomClass_setVdw iclass (fst rows) (snd rows)) cj
                  = mixOf iclass cj) by reflexivity.
      rewrite E. apply R; [lia | | exact Hv].
      replace (i + Z.of_nat (Z.to_nat (j - i))) with j by lia. exact Hcj.
  - apply ret_inv in H as [_ ->].
    split; [apply Forall2_refl_gen, class_base_refl |].
    split; [reflexivity |].
    intros ci Hci Hv. rewrite Hi in Hci. inversion Hci; subst. congruence.
Qed.

(** The whole table. *)
Lemma realizeAllVdw_spec s s' :
  forIndices atomClasses realizeVdw s = Return s' tt ->
  Forall2 class_base (atomClasses s) (atomClasses s')
  /\ forall i ci, at_ (atomClasses s') i = Some ci ->
       AtomClass_isValid ci = true -> rows_ok (atomClasses s') i ci.
Proof.
  intros H. unfold forIndices in H.
  apply bind_inv in H as (s0 & mm & Hg & H). apply get_inv in Hg as [-> ->].
  unfold indices in H.
  apply (forEach_indices_inv
           (fun k t =>
              Forall2 class_base (atomClasses s) (atomClasses t)
              /\ forall i ci, i < Z.of_nat k ->
                   at_ (atomClasses t) i = Some ci ->
                   AtomClass_isValid ci = true ->
                   rows_ok (atomClasses t) i ci))
    in H.
  - destruct H as [F R]. split; [exact F |].
    intros i ci Hci Hv. apply R; [| exact Hci | exact Hv].
    apply at_length in Hci. unfold size in Hci.
    rewrite <- (Forall2_length F) in Hci. lia.
  - split; [apply Forall2_refl_gen, class_base_refl |].
    intros i ci Hi Hci. apply at_length in Hci. lia.
  - intros k t t' Hk [F R] Hstep.
    apply realizeVdw_spec in Hstep as (F' & O & N).
    split; [eapply Forall2_trans_gen; eauto using class_base_trans |].
    intros i ci Hi Hci Hv.
    apply (rows_ok_base (atomClasses t)); [exact F' |].
    destruct (Z.eq_dec i (Z.of_nat k)) as [-> | Hne].
    + apply N; assumption.
    + rewrite O in Hci by exact Hne. apply R; [lia | exact Hci | exact Hv].
Qed.

#[export] Instance keeps_classes_frame : FrameRel keeps_classes.
Proof.
  split.
  - intros s. reflexivity.
  - intros a b c H1 H2. unfold keeps_classes in *. congruence.
Qed.

Ltac classes_auto :=
  repeat first
    [ pres_step
    | apply pres_modify; intros ?; reflexivity
    | progress autounfold with ops ].

(** The later phases of the realization leave the classes alone. *)
Lemma realize_tail_keeps_classes :
  pres keeps_classes
    (forIndices clusters realizeCluster ;;
     forIndices bodies realizeBody ;;
     forIndices atoms (fun anum => modAtom anum (fun a =>
                         Atom_setBody a (-1) (station_B a))) ;;
     forIndices bodies assignBodyAtoms ;;
     forIndices atoms (fun anum =>
                         mm <- get ;;
                         a <- must (at_ (atoms mm) anum) ;;
                         assert (0 <=? atom_bodyId a)) ;;
     forIndices atoms realizeAtomBonds ;;
     modify (set_topologicalCacheValid true)).
Proof. classes_auto. Qed.

Lemma realizeConstruction_vdw s s' u :
  topologicalCacheValid s = false ->
  realizeConstruction s = Return s' u ->
  Forall2 class_base (atomClasses s) (atomClasses s')
  /\ forall i ci, at_ (atomClasses s') i = Some ci ->
       AtomClass_isValid ci = true -> rows_ok (atomClasses s') i ci.
Proof.
  intros Hf H. unfold realizeConstruction in H.
  apply bind_inv in H as (s0 & mm & Hg & H). apply get_inv in Hg as [-> ->].
  rewrite Hf in H.
  apply bind_inv in H as (sa & [] & Hinv & H).
  apply bind_inv in H as (s1 & [] & H1 & H).
  pose proof (realize_tail_keeps_classes s1) as K. destruct u. rewrite H in K.
  unfold keeps_classes in K. rewrite K.
  apply realizeAllVdw_spec in H1 as [F R].
  split; [| exact R].
  eapply Forall2_trans_gen; [apply class_base_trans | | exact F].
  unfold invalidateAllTopologicalCacheEntries in Hinv.
  repeat (apply bind_inv in Hinv as (? & ? & ?Hm & Hinv);
          apply modify_inv in Hm; subst).
  apply modify_inv in Hinv. subst sa. cbn.
  apply Forall2_map_gen. intros a. unfold class_base. cbn. tauto.
Qed.

(** X20. After a realization that had work to do, the van der Waals table
    is filled in for every pair of defined atom classes.  The classes keep
    their ids, elements, radii and well depths; the rows of class [i] have
    one entry for each class from [i] on; and for two defined classes [i]
    and [j], in either order, the lookup of the force kernel -- in the rows
    of the lower-numbered class, at the difference of the numbers -- finds
    the parameters that [applyMixingRule] (Waldman-Hagler) gives for the two
    radii and the two well depths, the radius doubled to [dmin]. *)
Theorem realized_vdw_table fuel mm mm' v :
  topologicalCacheValid mm = false ->
  run fuel RealizeConstruction mm = Return mm' v ->
  (forall i c, at_ (atomClasses mm) i = Some c ->
     exists c', at_ (atomClasses mm') i = Some c'
                /\ atomClassId c' = atomClassId c /\ element c' = element c
                /\ vdwRadius c' = vdwRadius c
                /\ vdwWellDepth c' = vdwWellDepth c
                /\ AtomClass_isValid c' = AtomClass_isValid c)
  /\ (forall i ci, at_ (atomClasses mm') i = Some ci ->
        AtomClass_isValid ci = true ->
        size (vdwDij ci) = size (atomClasses mm') - i
        /\ size (vdwEij ci) = size (atomClasses mm') - i)
  /\ (forall i j ci cj,
        at_ (atomClasses mm') i = Some ci -> AtomClass_isValid ci = true ->
        at_ (atomClasses mm') j = Some cj -> AtomClass_isValid cj = true ->
        mixedEntry vdwDij i ci j cj
        = Some (fst (applyMixingRule (Some (vdwRadius ci)) (Some (vdwRadius cj))
                       (Some (vdwWellDepth ci)) (Some (vdwWellDepth cj))))
        /\ mixedEntry vdwEij i ci j cj
           = Some (snd (applyMixingRule (Some (vdwRadius ci)) (Some (vdwRadius cj))
                          (Some (vdwWellDepth ci)) (Some (vdwWellDepth cj))))).
Proof.
  intros Hf H.
  unfold run, void in H. apply bind_inv in H as (s1 & u & H & Hret).
  apply ret_inv in Hret as [_ ->].
  destruct (realizeConstruction_vdw _ _ _ Hf H) as [F R].
  split; [| split].
  - intros i c Hc.
    destruct (Forall2_at_l _ _ _ _ _ F Hc) as (c' & Hc' & Hb).
    exists c'. split; [exact Hc' |].
    pose proof (class_base_valid _ _ Hb).
    destruct Hb as (H1 & _ & H3 & _ & H5 & H6). auto 10.
  - intros i ci Hci Hv. destruct (R i ci Hci Hv) as (L1 & L2 & _). auto.
  - intros i j ci cj Hci Hvi Hcj Hvj.
    fold (mixOf ci cj). unfold mixedEntry.
    destruct (Z.leb_spec i j) as [Hle | Hgt].
    + destruct (R i ci Hci Hvi) as (_ & _ & Rij).
      apply (Rij j cj Hle Hcj Hvj).
    + destruct (R j cj Hcj Hvj) as (_ & _ & Rji).
      assert (E : mixOf ci cj = mixOf cj ci)
        by (unfold mixOf; apply applyMixingRule_sym).
      rewrite E. apply (Rji i ci); [lia | exact Hci | exact Hvi].
Qed.

(** X20 on the small molecule: the entry for the classes 1 and 0, asked
    in this order, is found in the row of class 0. *)
Lemma realized_vdw_table_witness :
  exists c0 c1,
    at_ (atomClasses (proj1_sig (projT2 demo_runs))) 0 = Some c0
    /\ at_ (atomClasses (proj1_sig (projT2 demo_runs))) 1 = Some c1
    /\ mixedEntry vdwDij 1 c1 0 c0
       = Some (fst (applyMixingRule (Some (vdwRadius c1)) (Some (vdwRadius c0))
                      (Some (vdwWellDepth c1)) (Some (vdwWellDepth c0)))).
Proof.
  assert (A : { c0 & { c1 |
                at_ (atomClasses (proj1_sig (projT2 demo_runs))) 0 = Some c0
                /\ at_ (atomClasses (proj1_sig (projT2 demo_runs))) 1 = Some c1 } })
    by (do 2 eexists; split; rlazy; reflexivity).
  destruct A as (c0 & c1 & H0 & H1).
  destruct (realized_vdw_table
              2%nat (projT1 demo_runs) (proj1_sig (projT2 demo_runs)) 0)
    as (_ & _ & T).
  - rlazy. reflexivity.
  - apply returns_eq. exact (proj2 (proj2_sig (projT2 demo_runs))).
  - exists c0, c1. split; [exact H0 |]. split; [exact H1 |].
    refine (proj1 (T 1 0 c1 c0 H1 _ H0 _)).
    + revert H1. rlazy. intros E. inversion E. repeat rtest. reflexivity.
    + revert H0. rlazy. intros E. inversion E. repeat rtest. reflexivity.
Defined.

(* ================================================================= *)
(** ** What an atom refers to is always there *)

Lemma atom_ref_refl a : atom_ref a a.
Proof. split; reflexivity. Qed.

Lemma atom_ref_trans a b c : atom_ref a b -> atom_ref b c -> atom_ref a c.
Proof. unfold atom_ref. intuition congruence. Qed.

#[export] Instance keeps_refs_frame : FrameRel keeps_refs.
Proof.
  split.
  - intros s. split; [apply Forall2_refl_gen, atom_ref_refl |].
    split; [reflexivity |].
    split; [apply Forall2_refl_gen, class_base_refl | reflexivity].
  - intros a b c (A1 & T1 & C1 & E1) (A2 & T2 & C2 & E2).
    split; [eapply Forall2_trans_gen; eauto using atom_ref_trans |].
    split; [congruence |].
    split; [eapply Forall2_trans_gen; eauto using class_base_trans | congruence].
Qed.

Lemma keeps_refs_same s s' :
  atoms s' = atoms s -> chargedAtomTypes s' = chargedAtomTypes s ->
  atomClasses s' = atomClasses s -> elements s' = elements s ->
  keeps_refs s s'.
Proof.
  intros A T C E. unfold keeps_refs. rewrite A, C.
  split; [apply Forall2_refl_gen, atom_ref_refl |].
  split; [exact T |].
  split; [apply Forall2_refl_gen, class_base_refl | exact E].
Qed.

Lemma keeps_refs_atoms s l :
  Forall2 atom_ref (atoms s) l -> keeps_refs s (set_atoms l s).
Proof.
  intros A. split; [exact A |]. split; [reflexivity |].
  split; [apply Forall2_refl_gen, class_base_refl | reflexivity].
Qed.

Lemma keeps_refs_classes s l :
  Forall2 class_base (atomClasses s) l -> keeps_refs s (set_atomClasses l s).
Proof.
  intros C. split; [apply Forall2_refl_gen, atom_ref_refl |].
  split; [reflexivity |]. split; [exact C | reflexivity].
Qed.

Ltac refs_write :=
  intros ?;
  first
    [ apply keeps_refs_same; reflexivity
    | apply keeps_refs_atoms;
      first [ apply Forall2_upd_at_gen; [apply atom_ref_refl |]
            | apply Forall2_map_gen ];
      intros ?; split; reflexivity
    | apply keeps_refs_classes;
      first [ apply Forall2_upd_at_gen; [apply class_base_refl |]
            | apply Forall2_map_gen ];
      intros ?; unfold class_base; cbn; tauto ].

Ltac refs_auto :=
  repeat first
    [ pres_step
    | apply pres_modify; refs_write
    | progress autounfold with ops_ids ops_atoms ].

Lemma Cluster_attachToBody_keeps_refs fuel :
  forall cid bnum X, pres keeps_refs (Cluster_attachToBody fuel cid bnum X).
Proof.
  induction fuel as [|fuel IH]; intros cid bnum X; simpl.
  - apply pres_abort.
  - pose proof (fun c b x => IH c b x) as IH'. refs_auto. apply IH.
Qed.

(** Only three calls touch what the references lead to. *)
Lemma run_keeps_refs fuel c :
  (forall t, c <> AddAtom t) ->
  (forall id nm e v r w, c <> DefineAtomClass id nm e v r w) ->
  (forall id nm cl q, c <> DefineChargedAtomType id nm cl q) ->
  pres keeps_refs (run fuel c).
Proof.
  intros H1 H2 H3.
  pose proof Cluster_attachToBody_keeps_refs as Hat.
  destruct c; try (exfalso; eapply H1; reflexivity);
    try (exfalso; eapply H2; reflexivity);
    try (exfalso; eapply H3; reflexivity); clear H1 H2 H3;
    unfold run; refs_auto; try apply Hat.
Qed.

Lemma keeps_refs_ok s s' : keeps_refs s s' -> refs_ok s -> refs_ok s'.
Proof.
  intros (A & T & C & E) [Ra Rt Rc].
  assert (Hcl : forall k, isValidAtomClass s k = true ->
                          isValidAtomClass s' k = true).
  { intros k Hk. apply isValidAt_inv in Hk as (c & Hc & Hv).
    destruct (Forall2_at_l _ _ _ _ _ C Hc) as (c' & Hc' & Hb).
    apply (isValidAt_intro _ _ _ c' Hc').
    now rewrite (class_base_valid _ _ Hb). }
  split.
  - intros i a' Ha'.
    destruct (Forall2_at _ _ _ _ _ A Ha') as (a & Ha & E1 & E2).
    destruct (Ra i a Ha) as [I V].
    split; [congruence |].
    unfold isValidChargedAtomType in *. now rewrite T, E2.
  - intros k t Ht Hv. rewrite T in Ht.
    destruct (Rt k t Ht Hv) as [I V]. auto.
  - intros k c' Hc' Hv.
    destruct (Forall2_at _ _ _ _ _ C Hc') as (c & Hc & Hb).
    rewrite (class_base_valid _ _ Hb) in Hv.
    destruct (Rc k c Hc Hv) as [I V].
    destruct Hb as (B1 & _ & B3 & _).
    split; [congruence |].
    unfold isValidElement in *. now rewrite E, B3.
Qed.

Lemma at_nil {A} i : at_ (@nil A) i = None.
Proof. unfold at_. destruct (i <? 0); [reflexivity |]. apply nth_error_nil. Qed.

Lemma refs_ok_new : refs_ok DuMM_new.
Proof.
  split; cbn; intros k x H; rewrite at_nil in H; discriminate.
Qed.

Lemma refs_ok_addAtom t mm mm' v :
  refs_ok mm -> addAtom t mm = Return mm' v -> refs_ok mm'.
Proof.
  intros [Ra Rt Rc] H.
  assert (Hv : isValidChargedAtomType mm t = true).
  { unfold addAtom, addAtom_rep, bind, get, assert in H.
    destruct (isValidChargedAtomType mm t); [reflexivity | discriminate]. }
  apply addAtom_inv in H as (-> & _ & _).
  split.
  - intros i x Hx. cbn [atoms set_atoms] in Hx.
    change (isValidChargedAtomType
              (set_atoms (atoms mm ++ [Atom_new t (size (atoms mm))]) mm))
      with (isValidChargedAtomType mm).
    apply at_app_inv in Hx as [[_ Hx] | [-> ->]].
    + apply Ra, Hx.
    + split; [reflexivity | exact Hv].
  - exact Rt.
  - exact Rc.
Qed.

Lemma refs_ok_defineAtomClass id nm e v r w mm mm' u :
  refs_ok mm -> defineAtomClass id nm e v r w mm = Return mm' u -> refs_ok mm'.
Proof.
  intros [Ra Rt Rc] H.
  destruct (defineAtomClass_cases mm id nm e v r w)
    as [[_ E] | (Hid & He & Hv & Hr & Hw & Hnew & [[_ E] | E])];
    rewrite E in H; [discriminate | discriminate |].
  inversion H; subst mm' u; clear H E.
  destruct (slot_define AtomClass_isValid AtomClass_default
              (AtomClass_new id nm e v r w) (atomClasses mm) id Hid eq_refl)
    as (_ & S2 & S3 & S4 & _).
  cbv zeta in S2, S3, S4.
  set (l' := upd_at _ id _) in *.
  assert (Hnv : AtomClass_isValid (AtomClass_new id nm e v r w) = true)
    by (apply AtomClass_new_valid; auto; eapply isValidElement_pos; eauto).
  assert (Hcl : forall k, isValidAtomClass mm k = true ->
                          isValidAt AtomClass_isValid l' k = true).
  { intros k Hk. destruct (Z.eq_dec k id) as [-> | Hne].
    - eapply isValidAt_intro; eauto.
    - rewrite S3 by exact Hne. exact Hk. }
  split.
  - intros i a Ha. destruct (Ra i a Ha). auto.
  - intros k t Ht Hvt. destruct (Rt k t Ht Hvt) as [I V].
    split; [exact I |]. apply Hcl, V.
  - intros k c Hc Hvc. cbn [atomClasses set_atomClasses] in Hc.
    fold l' in Hc.
    change (isValidElement (set_atomClasses l' mm) (element c))
      with (isValidElement mm (element c)).
    destruct (Z.eq_dec k id) as [-> | Hne].
    + rewrite S2 in Hc. inversion Hc; subst c. cbn. auto.
    + pose proof (isValidAt_intro _ _ _ _ Hc Hvc) as V.
      rewrite S3 in V by exact Hne.
      apply isValidAt_inv in V as (x & Hx & Hvx).
      pose proof (S4 k x Hne Hx) as Hx'. rewrite Hc in Hx'.
      inversion Hx'; subst x. apply Rc; assumption.
Qed.

Lemma refs_ok_defineChargedAtomType id nm cl q mm mm' u :
  refs_ok mm -> defineChargedAtomType id nm cl q mm = Return mm' u ->
  refs_ok mm'.
Proof.
  intros [Ra Rt Rc] H.
  destruct (defineChargedAtomType_cases mm id nm cl q)
    as [[_ E] | (Hid & Hc & Hcv & Hnew & [[_ E] | E])];
    rewrite E in H; [discriminate | discriminate |].
  inversion H; subst mm' u; clear H E.
  destruct (slot_define ChargedAtomType_isValid ChargedAtomType_default
              (mkChargedAtomType id nm cl (Some q)) (chargedAtomTypes mm) id
              Hid eq_refl)
    as (_ & S2 & S3 & S4 & _).
  cbv zeta in S2, S3, S4.
  set (l' := upd_at _ id _) in *.
  assert (Hnv : ChargedAtomType_isValid (mkChargedAtomType id nm cl (Some q))
                = true).
  { unfold ChargedAtomType_isValid. cbn.
    destruct (Z.leb_spec 0 id), (Z.leb_spec 0 cl); try lia; reflexivity. }
  split.
  - intros i a Ha. destruct (Ra i a Ha) as [I V]. split; [exact I |].
    unfold isValidChargedAtomType. cbn [chargedAtomTypes set_chargedAtomTypes].
    fold l'.
    destruct (Z.eq_dec (atom_chargedAtomTypeId a) id) as [-> | Hne].
    + eapply isValidAt_intro; eauto.
    + rewrite S3 by exact Hne. exact V.
  - intros k t Ht Hvt. cbn [chargedAtomTypes set_chargedAtomTypes] in Ht.
    fold l' in Ht.
    change (isValidAtomClass (set_chargedAtomTypes l' mm) (atomClass t))
      with (isValidAtomClass mm (atomClass t)).
    destruct (Z.eq_dec k id) as [-> | Hne].
    + rewrite S2 in Ht. inversion Ht; subst t. cbn. auto.
    + pose proof (isValidAt_intro _ _ _ _ Ht Hvt) as V.
      rewrite S3 in V by exact Hne.
      apply isValidAt_inv in V as (x & Hx & Hvx).
      pose proof (S4 k x Hne Hx) as Hx'. rewrite Ht in Hx'.
      inversion Hx'; subst x. apply Rt; assumption.
  - exact Rc.
Qed.

Lemma refs_ok_return fuel c mm mm' v :
  refs_ok mm -> run fuel c mm = Return mm' v -> refs_ok mm'.
Proof.
  intros R H.
  destruct c as [id nm e v0 r w | id nm cl q | c1 c2 k d | c1 c2 c3 k a
                 | c1 c2 c3 c4 n1 a1 p1 n2 a2 p2 n3 a3 p3
                 | f|f|f|f|f|f|f|f | nm | t | a cl s | ch p x | cl b x
                 | a b s | a1 a2 | ];
    try (match goal with
         | H : run ?f ?c _ = _ |- _ =>
             let P := fresh in
             assert (P : pres keeps_refs (run f c))
               by (apply run_keeps_refs; discriminate);
             specialize (P mm); rewrite H in P;
             exact (keeps_refs_ok _ _ P R)
         end).
  - unfold run, void in H. apply bind_inv in H as (s1 & u & H & Hr).
    apply ret_inv in Hr as [_ ->]. eapply refs_ok_defineAtomClass; eauto.
  - unfold run, void in H. apply bind_inv in H as (s1 & u & H & Hr).
    apply ret_inv in Hr as [_ ->]. eapply refs_ok_defineChargedAtomType; eauto.
  - eapply refs_ok_addAtom; eauto.
Qed.

Lemma reachable_refs_ok mm : reachable mm -> refs_ok mm.
Proof.
  induction 1 as [mm Hnew | fuel c mm mm' v Hr IH Hrun
                  | fuel c mm mm' Hr IH Hrun].
  - rewrite new_is_DuMM_new in Hnew. inversion Hnew. apply refs_ok_new.
  - eapply refs_ok_return; eauto.
  - apply run_throw_same in Hrun as [-> _]. exact IH.
Qed.

Lemma getAtom_at mm i a :
  at_ (atoms mm) i = Some a -> Atom_isValid a = true ->
  getAtom i mm = Return mm a.
Proof.
  intros Ha Hv. unfold getAtom, bind, get, assert, must.
  unfold isValidAtom. rewrite (isValidAt_intro _ _ _ _ Ha Hv), Ha. reflexivity.
Qed.

Lemma at_in_range {A} (l : list A) i :
  0 <= i < size l -> exists x, at_ l i = Some x.
Proof.
  intros H. destruct (at_ l i) eqn:E; [eauto |]. exfalso.
  unfold at_ in E. destruct (Z.ltb_spec i 0); [lia |].
  apply nth_error_None in E. unfold size in *. lia.
Qed.

(** X21. In every state a client can reach, each atom number from 0 to
    [getNAtoms()-1] is the id of the atom stored there, and the chain of
    lookups from it never leaves the vectors: the atom's charged atom type
    is defined and stored under its id, the type's atom class is defined
    and stored under its id, and the class's element is a valid entry of
    the element table.  So [getAtomClassNum], [getAtomElementNum],
    [getAtomMass] and [getAtomRadius] return for every atom, without
    changing the subsystem; the mass is positive and the radius is not
    negative. *)
Theorem atom_lookups_never_fail mm n i :
  reachable mm -> getNAtoms mm = Return mm n -> 0 <= i < n ->
  exists a t c e,
    at_ (atoms mm) i = Some a /\ atomId a = i
    /\ at_ (chargedAtomTypes mm) (atom_chargedAtomTypeId a) = Some t
    /\ ChargedAtomType_isValid t = true
    /\ chargedAtomTypeId t = atom_chargedAtomTypeId a
    /\ at_ (atomClasses mm) (atomClass t) = Some c
    /\ AtomClass_isValid c = true /\ atomClassId c = atomClass t
    /\ at_ (elements mm) (element c) = Some e /\ Element_isValid e = true
    /\ getAtomClassNum i mm = Return mm (atomClass t)
    /\ getAtomElementNum i mm = Return mm (element c)
    /\ getAtomMass i mm = Return mm (mass e)
    /\ getAtomRadius i mm = Return mm (vdwRadius c)
    /\ (0 < mass e)%R /\ (0 <= vdwRadius c)%R.
Proof.
  intros Hr Hn Hi.
  unfold getNAtoms, bind, get, ret in Hn. inversion Hn; subst n; clear Hn.
  destruct (reachable_inv mm Hr) as [[_ _ _ Wv] _].
  destruct (reachable_refs_ok mm Hr) as [Ra Rt Rc].
  destruct (at_in_range _ _ Hi) as [a Ha].
  destruct (Ra i a Ha) as [Ia Vt].
  apply isValidAt_inv in Vt as (t & Ht & Hvt).
  destruct (Rt _ t Ht Hvt) as [It Vc].
  apply isValidAt_inv in Vc as (c & Hc & Hvc).
  destruct (Rc _ c Hc Hvc) as [Ic Ve].
  assert (He : exists e, at_ (elements mm) (element c) = Some e
                         /\ Element_isValid e = true).
  { unfold isValidElement in Ve. apply andb_true_iff in Ve as [_ Ve].
    destruct (at_ (elements mm) (element c)); [eauto | discriminate]. }
  destruct He as (e & He & Hve).
  assert (G1 : getAtomClassNum i mm = Return mm (atomClass t)).
  { unfold getAtomClassNum, getChargedAtomTypeNum, bind.
    rewrite (getAtom_at _ _ _ Ha (Wv i a Ha)). cbn. rewrite Ht. reflexivity. }
  assert (G2 : getAtomElementNum i mm = Return mm (element c)).
  { unfold getAtomElementNum, bind. rewrite G1. cbn. rewrite Hc. reflexivity. }
  exists a, t, c, e.
  repeat (split; [assumption |]).
  split.
  { unfold getAtomMass, bind. rewrite G2. cbn. rewrite He. reflexivity. }
  split.
  { unfold getAtomRadius, bind. rewrite G1. cbn. rewrite Hc. reflexivity. }
  split.
  - unfold Element_isValid in Hve. apply andb_true_iff in Hve as [_ Hm].
    unfold Rltb in Hm. destruct (Rlt_dec 0 (mass e)); [assumption | discriminate].
  - unfold AtomClass_isValid in Hvc.
    apply andb_true_iff in Hvc as [Hvc _]. apply andb_true_iff in Hvc as [_ Hrad].
    unfold Rleb in Hrad.
    destruct (Rle_dec 0 (vdwRadius c)); [assumption | discriminate].
Qed.

(** X21 on the small molecule: the mass of atom 1 is found and is
    positive. *)
Lemma atom_lookups_never_fail_witness :
  exists m, getAtomMass 1 (projT1 demo_runs) = Return (projT1 demo_runs) m
            /\ (0 < m)%R.
Proof.
  destruct (atom_lookups_never_fail (projT1 demo_runs) 4 1 demo_reachable)
    as (a & t & c & e & H).
  - rlazy. reflexivity.
  - lia.
  - exists (mass e).
    destruct H as (_ & _ & _ & _ & _ & _ & _ & _ & _ & _ & _ & _ & Hm & _ & Hp & _).
    split; [exact Hm | exact Hp].
Defined.

(* ================================================================= *)
(** ** Placing an atom in a cluster *)

Lemma set_insert_find {T} (key : T -> Z) (x : T) :
  forall s s',
    set_insert key x s = (s', true) ->
    set_find key (key x) s' = Some x
    /\ forall k, k <> key x -> set_find key k s' = set_find key k s.
Proof.
  induction s as [| y s IH]; intros s' H; simpl in H.
  - inversion H; subst s'. simpl. rewrite Z.eqb_refl.
    split; [reflexivity |]. intros k Hk.
    destruct (Z.eqb_spec (key x) k); [congruence | reflexivity].
  - unfold set_lt in H.
    destruct (Z.ltb_spec (key x) (key y)) as [Hlt | Hge].
    + inversion H; subst s'. simpl. rewrite Z.eqb_refl.
      split; [reflexivity |]. intros k Hk.
      destruct (Z.eqb_spec (key x) k); [congruence | reflexivity].
    + destruct (Z.ltb_spec (key y) (key x)) as [Hlt' | Hge'];
        [| inversion H].
      destruct (set_insert key x s) as [s'' b] eqn:E.
      inversion H; subst s' b.
      destruct (IH s'' eq_refl) as [F1 F2]. simpl.
      destruct (Z.eqb_spec (key y) (key x)); [lia |].
      split; [exact F1 |]. intros k Hk.
      destruct (Z.eqb_spec (key y) k); [reflexivity | apply F2, Hk].
Qed.

Lemma getAtom_inv i mm mm' a :
  getAtom i mm = Return mm' a ->
  mm' = mm /\ at_ (atoms mm) i = Some a /\ Atom_isValid a = true.
Proof.
  unfold getAtom. intros H.
  apply bind_inv in H as (s1 & m & Hg & H). apply get_inv in Hg as [-> ->].
  apply bind_inv in H as (s1 & u & Hv & H). apply assert_inv in Hv as [Hv ->].
  apply must_inv in H as [H ->].
  apply isValidAt_inv in Hv as (x & Hx & Hvx).
  rewrite H in Hx. inversion Hx; subst x. auto.
Qed.

Lemma getCluster_at mm i c :
  at_ (clusters mm) i = Some c -> Cluster_isValid c = true ->
  getCluster i mm = Return mm c.
Proof.
  intros Hc Hv. unfold getCluster, bind, get, assert, must.
  unfold isValidCluster. rewrite (isValidAt_intro _ _ _ _ Hc Hv), Hc. reflexivity.
Qed.

Lemma getCluster_inv i mm mm' c :
  getCluster i mm = Return mm' c ->
  mm' = mm /\ at_ (clusters mm) i = Some c /\ Cluster_isValid c = true.
Proof.
  unfold getCluster. intros H.
  apply bind_inv in H as (s1 & m & Hg & H). apply get_inv in Hg as [-> ->].
  apply bind_inv in H as (s1 & u & Hv & H). apply assert_inv in Hv as [Hv ->].
  apply must_inv in H as [H ->].
  apply isValidAt_inv in Hv as (x & Hx & Hvx).
  rewrite H in Hx. inversion Hx; subst x. auto.
Qed.

Lemma modCluster_inv i f mm mm' u :
  modCluster i f mm = Return mm' u ->
  mm' = set_clusters (upd_at (clusters mm) i f) mm.
Proof.
  unfold modCluster. intros H.
  apply bind_inv in H as (s1 & m & Hg & H). apply get_inv in Hg as [-> ->].
  apply bind_inv in H as (s1 & x & Hx & H). apply must_inv in Hx as [_ ->].
  now apply modify_inv in H.
Qed.

(** What [Cluster::placeAtom] has done when it returns. *)
Lemma Cluster_placeAtom_inv cid i st mm mm' u :
  Cluster_placeAtom cid i st mm = Return mm' u ->
  exists c a d al,
    at_ (clusters mm) cid = Some c /\ Cluster_isTopLevelCluster c = true
    /\ at_ (atoms mm) i = Some a /\ Atom_isValid a = true
    /\ atom_bodyId a < 0
    /\ set_insert ap_atomId (mkAtomPlacement i st) (directAtomPlacements c)
       = (d, true)
    /\ set_insert ap_atomId (mkAtomPlacement i st) (allAtomPlacements c)
       = (al, true)
    /\ let mm1 :=
         set_clusters
           (upd_at (upd_at (clusters mm) cid (Cluster_set_directAtomPlacements d))
                   cid (Cluster_set_allAtomPlacements al)) mm in
       mm' = if 0 <=? cl_bodyId c
             then set_atoms
                    (upd_at (atoms mm) i
                       (fun a => Atom_setBody a (cl_bodyId c)
                                   (Some (xform (placement_B c) st)))) mm1
             else mm1.
Proof.
  unfold Cluster_placeAtom. intros H.
  apply bind_inv in H as (s1 & m & Hg & H). apply get_inv in Hg as [-> ->].
  apply bind_inv in H as (s1 & c & Hc & H). apply must_inv in Hc as [Hc ->].
  apply bind_inv in H as (s1 & u1 & Ht & H). apply assert_inv in Ht as [Ht ->].
  apply bind_inv in H as (s1 & a & Ha & H).
  apply getAtom_inv in Ha as (-> & Ha & Hva).
  apply bind_inv in H as (s1 & u2 & Hb & H). apply assert_inv in Hb as [Hb ->].
  apply bind_inv in H as (s1 & u3 & Hn & H). apply assert_inv in Hn as [Hn ->].
  apply bind_inv in H as (s1 & u4 & Hp & H). apply assert_inv in Hp as [Hp ->].
  destruct (set_insert ap_atomId (mkAtomPlacement i st) (directAtomPlacements c))
    as [d ok1] eqn:Ed.
  apply bind_inv in H as (s1 & u5 & Ho & H). apply assert_inv in Ho as [-> ->].
  apply bind_inv in H as (s1 & u6 & Hm & H). apply modCluster_inv in Hm. subst s1.
  destruct (set_insert ap_atomId (mkAtomPlacement i st) (allAtomPlacements c))
    as [al ok2] eqn:Eal.
  apply bind_inv in H as (s1 & u7 & Ho & H). apply assert_inv in Ho as [-> ->].
  apply bind_inv in H as (s1 & u8 & Hm & H). apply modCluster_inv in Hm. subst s1.
  cbn [clusters set_clusters] in H.
  exists c, a, d, al.
  unfold Atom_isAttachedToBody in Hb. apply negb_true_iff, Z.leb_gt in Hb.
  repeat (split; [assumption || reflexivity |]).
  cbv zeta. unfold Cluster_isAttachedToBody in H.
  destruct (0 <=? cl_bodyId c).
  - apply bind_inv in H as (s1 & a1 & Ha1 & H).
    apply getAtom_inv in Ha1 as (-> & _ & _).
    unfold Atom_attachToBody in H.
    apply bind_inv in H as (s1 & m & Hg & H). apply get_inv in Hg as [-> ->].
    apply bind_inv in H as (s1 & a2 & Ha2 & H). apply must_inv in Ha2 as [_ ->].
    apply bind_inv in H as (s1 & u9 & Hx & H). apply assert_inv in Hx as [_ ->].
    apply modAtom_inv in H as (a3 & _ & H). exact H.
  - apply ret_inv in H as [_ ->]. reflexivity.
Qed.

Lemma getAtomStationInCluster_at mm i cid c ap :
  at_ (clusters mm) cid = Some c -> Cluster_isValid c = true ->
  set_find ap_atomId i (allAtomPlacements c) = Some ap ->
  getAtomStationInCluster i cid mm = Return mm (ap_station ap).
Proof.
  intros Hc Hv Hf. unfold getAtomStationInCluster, bind.
  rewrite (getCluster_at _ _ _ Hc Hv). unfold must. rewrite Hf. reflexivity.
Qed.

Lemma getAtomStationInCluster_inv mm mm' i cid x :
  getAtomStationInCluster i cid mm = Return mm' x ->
  mm' = mm
  /\ exists c ap, at_ (clusters mm) cid = Some c /\ Cluster_isValid c = true
                  /\ set_find ap_atomId i (allAtomPlacements c) = Some ap
                  /\ x = ap_station ap.
Proof.
  unfold getAtomStationInCluster. intros H.
  apply bind_inv in H as (s1 & c & Hc & H).
  apply getCluster_inv in Hc as (-> & Hc & Hv).
  apply bind_inv in H as (s1 & ap & Hf & H). apply must_inv in Hf as [Hf ->].
  apply ret_inv in H as [-> ->]. split; [reflexivity |].
  exists c, ap. auto.
Qed.

Lemma getAtomBody_at mm i a :
  at_ (atoms mm) i = Some a -> Atom_isValid a = true -> 0 <= atom_bodyId a ->
  getAtomBody i mm = Return mm (atom_bodyId a)
  /\ getAtomStationOnBody i mm = Return mm (station_B a).
Proof.
  intros Ha Hv Hb. unfold getAtomBody, getAtomStationOnBody, bind.
  rewrite (getAtom_at _ _ _ Ha Hv). unfold assert, Atom_isAttachedToBody.
  destruct (Z.leb_spec 0 (atom_bodyId a)); [| lia].
  rewrite (getAtom_at _ _ _ Ha Hv). split; reflexivity.
Qed.

Lemma Atom_setBody_valid a b s :
  Atom_isValid (Atom_setBody a b s) = Atom_isValid a.
Proof. reflexivity. Qed.

Lemma placeAtomInCluster_inv i cid st mm mm' u :
  placeAtomInCluster i cid st mm = Return mm' u ->
  isValidAtom mm i = true /\ isValidCluster mm cid = true
  /\ Cluster_placeAtom cid i st mm = Return mm' u.
Proof.
  unfold placeAtomInCluster. intros H.
  apply bind_inv in H as (s1 & m & Hg & H). apply get_inv in Hg as [-> ->].
  apply bind_inv in H as (s1 & u1 & H1 & H). apply apiArgCheck_inv in H1 as [H1 ->].
  apply bind_inv in H as (s1 & u2 & H2 & H). apply apiArgCheck_inv in H2 as [H2 ->].
  apply bind_inv in H as (s1 & c & Hc & H).
  apply getCluster_inv in Hc as (-> & Hc & Hv).
  apply bind_inv in H as (s1 & u3 & H3 & H). apply apiArgCheck_inv in H3 as [H3 ->].
  auto.
Qed.

Lemma placeAtomInCluster_throws i cid st mm mm' :
  placeAtomInCluster i cid st mm = Throw mm' <->
  mm' = mm
  /\ (isValidAtom mm i = false \/ isValidCluster mm cid = false
      \/ exists c, at_ (clusters mm) cid = Some c
                   /\ Cluster_containsAtom c i = true).
Proof.
  unfold placeAtomInCluster.
  unfold bind at 1, get at 1. unfold bind at 1, apiArgCheck at 1.
  destruct (isValidAtom mm i) eqn:Ea;
    [| split; [intros H; inversion H; auto | intros [-> _]; reflexivity]].
  unfold bind at 1, apiArgCheck at 1.
  destruct (isValidCluster mm cid) eqn:Ec;
    [| split; [intros H; inversion H; auto | intros [-> _]; reflexivity]].
  pose proof Ec as Ec'. apply isValidAt_inv in Ec' as (c & Hc & Hv).
  unfold bind at 1. rewrite (getCluster_at _ _ _ Hc Hv).
  unfold bind at 1, apiArgCheck at 1.
  destruct (Cluster_containsAtom c i) eqn:En; cbn [negb].
  - split; [| intros [-> _]; reflexivity].
    intros H; inversion H; subst mm'. split; [reflexivity |].
    right; right. exists c. split; [exact Hc | exact En].
  - split.
    + intros H. exfalso. exact (Cluster_placeAtom_nothrow cid i st mm mm' H).
    + intros (_ & [H | [H | (c' & Hc' & H)]]); try discriminate.
      rewrite Hc in Hc'. inversion Hc'; subst c'. congruence.
Qed.

(** X22. [placeAtomInCluster(atom, cluster, station)] throws, leaving the
    subsystem as it was, exactly when the atom or the cluster is not valid
    or the cluster already contains the atom.  When it returns, the cluster
    contains the atom at the given station ([getAtomStationInCluster]
    returns it), the stations of the other atoms of the cluster are as
    before, and the other clusters, the bodies and the bonds are untouched.
    If the cluster was attached to a body, the atom is now attached to that
    body, at the station carried over by the cluster's placement on the
    body ([getAtomBody], [getAtomStationOnBody]); if not, no atom
    changed. *)
Theorem placeAtomInCluster_outcome i cid st mm :
  (forall mm', placeAtomInCluster i cid st mm = Throw mm' <->
     mm' = mm
     /\ (isValidAtom mm i = false \/ isValidCluster mm cid = false
         \/ exists c, at_ (clusters mm) cid = Some c
                      /\ Cluster_containsAtom c i = true))
  /\ (forall mm' u, placeAtomInCluster i cid st mm = Return mm' u ->
        getAtomStationInCluster i cid mm' = Return mm' st
        /\ (forall j x, j <> i ->
              getAtomStationInCluster j cid mm = Return mm x ->
              getAtomStationInCluster j cid mm' = Return mm' x)
        /\ (forall k, k <> cid -> at_ (clusters mm') k = at_ (clusters mm) k)
        /\ bodies mm' = bodies mm /\ bonds mm' = bonds mm
        /\ (forall j, j <> i -> at_ (atoms mm') j = at_ (atoms mm) j)
        /\ exists c, at_ (clusters mm) cid = Some c
             /\ (cl_bodyId c < 0 -> atoms mm' = atoms mm)
             /\ (0 <= cl_bodyId c ->
                   getAtomBody i mm' = Return mm' (cl_bodyId c)
                   /\ getAtomStationOnBody i mm'
                      = Return mm' (Some (xform (placement_B c) st)))).
Proof.
  split; [intros mm'; apply placeAtomInCluster_throws |].
  intros mm' u H.
  apply placeAtomInCluster_inv in H as (Va & Vc & H).
  apply Cluster_placeAtom_inv in H
    as (c & a & d & al & Hc & Ht & Ha & Hva & Hb & Ed & Eal & E).
  cbv zeta in E.
  set (mm1 := set_clusters _ mm) in E.
  apply isValidAt_inv in Vc as (c0 & Hc0 & Hvc).
  rewrite Hc in Hc0. inversion Hc0; subst c0; clear Hc0.
  destruct (set_insert_find _ _ _ _ Eal) as [F1 F2]. cbn [ap_atomId] in F1, F2.
  assert (Hcl : clusters mm' = clusters mm1)
    by (subst mm'; destruct (0 <=? cl_bodyId c); reflexivity).
  assert (Hc1 : at_ (clusters mm1) cid
                = Some (Cluster_set_allAtomPlacements al
                          (Cluster_set_directAtomPlacements d c))).
  { subst mm1. cbn [clusters set_clusters].
    rewrite !upd_at_eq, Hc. reflexivity. }
  assert (Hoc : forall k, k <> cid -> at_ (clusters mm1) k = at_ (clusters mm) k).
  { intros k Hk. subst mm1. cbn [clusters set_clusters].
    now rewrite !upd_at_neq by exact Hk. }
  split.
  { rewrite <- Hcl in Hc1.
    exact (getAtomStationInCluster_at mm' i cid _ _ Hc1 Hvc F1). }
  split.
  { intros j x Hj Hx.
    apply getAtomStationInCluster_inv in Hx as (_ & c0 & ap & Hc0 & _ & Hf & ->).
    rewrite Hc in Hc0. inversion Hc0; subst c0.
    rewrite <- Hcl in Hc1.
    apply (getAtomStationInCluster_at mm' j cid _ _ Hc1 Hvc).
    cbn. rewrite F2 by exact Hj. exact Hf. }
  split; [intros k Hk; rewrite Hcl; apply Hoc, Hk |].
  split; [subst mm'; destruct (0 <=? cl_bodyId c); reflexivity |].
  split; [subst mm'; destruct (0 <=? cl_bodyId c); reflexivity |].
  split.
  { intros j Hj. subst mm'. destruct (0 <=? cl_bodyId c); [| reflexivity].
    cbn [atoms set_atoms]. now rewrite upd_at_neq by exact Hj. }
  exists c. split; [exact Hc |]. split.
  - intros Hn. subst mm'.
    destruct (Z.leb_spec 0 (cl_bodyId c)); [lia | reflexivity].
  - intros Hp.
    assert (Ha' : at_ (atoms mm') i
                  = Some (Atom_setBody a (cl_bodyId c)
                            (Some (xform (placement_B c) st)))).
    { subst mm'. destruct (Z.leb_spec 0 (cl_bodyId c)); [| lia].
      cbn [atoms set_atoms]. rewrite upd_at_eq. subst mm1.
      cbn [atoms set_clusters]. rewrite Ha. reflexivity. }
    exact (getAtomBody_at mm' i _ Ha' Hva Hp).
Qed.

(* ================================================================= *)
(** ** Attaching an atom to a body *)

Lemma cluster_stable_refl c : cluster_stable c c.
Proof. unfold cluster_stable. tauto. Qed.

Lemma cluster_stable_trans a b c :
  cluster_stable a b -> cluster_stable b c -> cluster_stable a c.
Proof.
  intros (I1 & B1) (I2 & B2). split; [congruence |].
  intros H. destruct (B1 H) as [E1 E2].
  destruct B2 as [E3 E4]; [lia |]. split; congruence.
Qed.

#[export] Instance keeps_bc_frame : FrameRel keeps_bc.
Proof.
  split.
  - intros s. split.
    + intros j c H. exists c. split; [exact H | apply cluster_stable_refl].
    + apply Forall2_refl_gen. reflexivity.
  - intros a b c [C1 B1] [C2 B2]. split.
    + intros j x Hx.
      destruct (C1 j x Hx) as (y & Hy & S1).
      destruct (C2 j y Hy) as (z & Hz & S2).
      exists z. split; [exact Hz | eapply cluster_stable_trans; eauto].
    + eapply Forall2_trans_gen; [| exact B1 | exact B2].
      cbn. intros; congruence.
Qed.

Lemma keeps_bc_same s s' :
  clusters s' = clusters s -> bodies s' = bodies s -> keeps_bc s s'.
Proof.
  intros C B. unfold keeps_bc. rewrite C, B. split.
  - intros j c H. exists c. split; [exact H | apply cluster_stable_refl].
  - apply Forall2_refl_gen. reflexivity.
Qed.

Lemma keeps_bc_clusters s l :
  (forall j c, at_ (clusters s) j = Some c ->
     exists c', at_ l j = Some c' /\ cluster_stable c c') ->
  keeps_bc s (set_clusters l s).
Proof.
  intros H. split; [exact H |]. apply Forall2_refl_gen. reflexivity.
Qed.

Lemma keeps_bc_upd_cluster s i f :
  (forall c, cluster_stable c (f c)) ->
  keeps_bc s (set_clusters (upd_at (clusters s) i f) s).
Proof.
  intros Hf. apply keeps_bc_clusters. intros j c H.
  destruct (Z.eq_dec j i) as [-> | Hne].
  - rewrite upd_at_eq, H. cbn. exists (f c). split; [reflexivity | apply Hf].
  - rewrite upd_at_neq by exact Hne. exists c.
    split; [exact H | apply cluster_stable_refl].
Qed.

Lemma keeps_bc_map_cluster s f :
  (forall c, cluster_stable c (f c)) ->
  keeps_bc s (set_clusters (map f (clusters s)) s).
Proof.
  intros Hf. apply keeps_bc_clusters. intros j c H.
  rewrite at_map, H. cbn. exists (f c). split; [reflexivity | apply Hf].
Qed.

Lemma keeps_bc_bodies s l :
  Forall2 (fun b b' => body_clusterId b' = body_clusterId b) (bodies s) l ->
  keeps_bc s (set_bodies l s).
Proof.
  intros H. split; [| exact H].
  intros j c Hc. exists c. split; [exact Hc | apply cluster_stable_refl].
Qed.

Lemma addCluster_keeps_bc c : pres keeps_bc (addCluster c).
Proof.
  intros s. rewrite addCluster_total. apply keeps_bc_clusters.
  intros j x Hx. rewrite at_app_l by (apply at_length in Hx; lia).
  exists x. split; [exact Hx | apply cluster_stable_refl].
Qed.

Ltac bc_write :=
  intros ?;
  first
    [ apply keeps_bc_same; reflexivity
    | apply keeps_bc_upd_cluster; intros ?;
      unfold cluster_stable; cbn; tauto
    | apply keeps_bc_map_cluster; intros ?;
      unfold cluster_stable; cbn; tauto
    | apply keeps_bc_bodies;
      first [ apply Forall2_upd_at_gen; [reflexivity |]
            | apply Forall2_map_gen ];
      intros ?; reflexivity ].

Ltac bc_auto :=
  repeat first
    [ apply addCluster_keeps_bc
    | pres_step
    | apply pres_modify; bc_write
    | progress autounfold with ops_ids ].

Lemma modCluster_at i f s c :
  at_ (clusters s) i = Some c ->
  modCluster i f s = Return (set_clusters (upd_at (clusters s) i f) s) tt.
Proof.
  intros H. unfold modCluster, bind, get, must, modify. now rewrite H.
Qed.

(** [Cluster::attachToBody] asserts that the cluster has no body yet. *)
Lemma attach_head cid bnum X (k : Cluster -> Sub unit) :
  (forall c, pres keeps_bc (k c)) ->
  pres keeps_bc
    (mm <- get ;;
     c <- must (at_ (clusters mm) cid) ;;
     assert (negb (Cluster_isAttachedToBody c)) ;;
     modCluster cid (Cluster_set_cl_bodyId bnum) ;;
     modCluster cid (Cluster_set_placement_B X) ;;
     k c).
Proof.
  intros Hk s. unfold bind at 1, get. unfold bind at 1, must.
  destruct (at_ (clusters s) cid) as [c |] eqn:E; [| exact I].
  unfold bind at 1, assert.
  destruct (Cluster_isAttachedToBody c) eqn:Eb; cbn [negb]; [exact I |].
  unfold bind at 1. rewrite (modCluster_at _ _ _ _ E). cbv beta iota.
  unfold bind at 1.
  erewrite modCluster_at
    by (cbn [clusters set_clusters]; rewrite upd_at_eq, E; reflexivity).
  cbv beta iota. cbn [clusters set_clusters].
  match goal with |- match k c ?s2 with _ => _ end => set (s2' := s2) end.
  assert (K : keeps_bc s s2').
  { subst s2'. split; cbn [clusters bodies set_clusters];
      [| apply Forall2_refl_gen; reflexivity].
    intros j x Hx.
    destruct (Z.eq_dec j cid) as [-> | Hne].
    - rewrite !upd_at_eq, Hx. cbn. eexists. split; [reflexivity |].
      rewrite E in Hx. inversion Hx; subst x.
      unfold Cluster_isAttachedToBody in Eb. apply Z.leb_gt in Eb.
      split; [reflexivity | intros; lia].
    - rewrite !upd_at_neq by exact Hne. exists x.
      split; [exact Hx | apply cluster_stable_refl]. }
  specialize (Hk c s2').
  destruct (k c s2'); auto; eapply frame_trans; eauto.
Qed.

Lemma Cluster_attachToBody_keeps_bc fuel :
  forall cid bnum X, pres keeps_bc (Cluster_attachToBody fuel cid bnum X).
Proof.
  induction fuel as [|fuel IH]; intros cid bnum X; simpl.
  - apply pres_abort.
  - pose proof (fun c b x => IH c b x) as IH'.
    apply attach_head. intros c. bc_auto. apply IH.
Qed.

Lemma run_keeps_bc fuel c :
  (forall i b s, c <> AttachAtomToBody i b s) ->
  (forall i b x, c <> AttachClusterToBody i b x) ->
  pres keeps_bc (run fuel c).
Proof.
  intros H1 H2.
  pose proof Cluster_attachToBody_keeps_bc as Hat.
  destruct c; try (exfalso; eapply H1; reflexivity);
    try (exfalso; eapply H2; reflexivity); clear H1 H2;
    unfold run; bc_auto; try apply Hat.
Qed.

(** The two attach calls, after they have made sure of the body. *)
Lemma attachAtom_tail_keeps_bc i b st :
  pres keeps_bc
    (mm <- get ;;
     assert (isValidAtom mm i && isValidBody mm b) ;;
     bc <- bodyCluster b ;;
     Cluster_placeAtom bc i st).
Proof. bc_auto. Qed.

Lemma attachCluster_tail_keeps_bc fuel cid b tr :
  pres keeps_bc
    (mm <- get ;;
     assert (isValidCluster mm cid && isValidBody mm b) ;;
     bc <- bodyCluster b ;;
     Cluster_placeCluster fuel bc cid tr).
Proof.
  pose proof Cluster_attachToBody_keeps_bc as Hat.
  bc_auto; try apply Hat.
Qed.

Lemma keeps_bc_ok s s' : keeps_bc s s' -> bodies_ok s -> bodies_ok s'.
Proof.
  intros [C B] Ok k b' Hb' Hv.
  destruct (Forall2_at _ _ _ _ _ B Hb') as (b & Hb & E).
  unfold Body_isValid in *. rewrite E in *.
  destruct (Ok k b Hb Hv) as (c & Hc & Hvc & Hk & Hp).
  destruct (C _ c Hc) as (c' & Hc' & I & S).
  pose proof (at_length _ _ _ Hb) as Hr.
  destruct S as [S1 S2]; [lia |].
  exists c'. unfold Cluster_isValid in *.
  split; [exact Hc' |]. split; [congruence |]. split; congruence.
Qed.

(** [Cluster::attachToBody] on a cluster that holds nothing. *)
Lemma attach_fresh fuel cid bnum X s s' u c :
  Cluster_attachToBody fuel cid bnum X s = Return s' u ->
  at_ (clusters s) cid = Some c ->
  directAtomPlacements c = [] -> directClusterPlacements c = [] ->
  s' = set_clusters
         (upd_at (upd_at (clusters s) cid (Cluster_set_cl_bodyId bnum))
                 cid (Cluster_set_placement_B X)) s.
Proof.
  intros H Hc Hd1 Hd2. destruct fuel as [| fuel]; [discriminate |].
  simpl in H.
  apply bind_inv in H as (s1 & m & Hg & H). apply get_inv in Hg as [-> ->].
  apply bind_inv in H as (s1 & c0 & Hc0 & H). apply must_inv in Hc0 as [Hc0 ->].
  rewrite Hc in Hc0. inversion Hc0; subst c0.
  apply bind_inv in H as (s1 & u1 & Ha & H). apply assert_inv in Ha as [_ ->].
  apply bind_inv in H as (s1 & u2 & Hm & H). apply modCluster_inv in Hm. subst s1.
  apply bind_inv in H as (s1 & u3 & Hm & H). apply modCluster_inv in Hm. subst s1.
  rewrite Hd1, Hd2 in H. simpl in H.
  apply bind_inv in H as (s1 & u4 & Hr & H). apply ret_inv in Hr as [_ ->].
  apply ret_inv in H as [_ ->]. reflexivity.
Qed.

(** [ensureBodyEntryExists] leaves the atoms and the bonds alone, and the
    body is in use when it returns. *)
Lemma ensureBodyEntryExists_ok fuel b s s' u :
  bodies_ok s -> ensureBodyEntryExists fuel b s = Return s' u ->
  bodies_ok s' /\ atoms s' = atoms s /\ bonds s' = bonds s
  /\ (forall j c, at_ (clusters s) j = Some c -> at_ (clusters s') j = Some c).
Proof.
  intros Ok H. unfold ensureBodyEntryExists in H.
  apply bind_inv in H as (s0 & m & Hg & H). apply get_inv in Hg as [-> ->].
  apply bind_inv in H as (s1 & u1 & H1 & H).
  assert (Ok1 : bodies_ok s1 /\ atoms s1 = atoms s /\ bonds s1 = bonds s
                /\ clusters s1 = clusters s).
  { destruct (Z.geb_spec b (size (bodies s))) as [Hge | Hlt].
    - apply bind_inv in H1 as (s0 & n & Hn & H1).
      unfold intAdd in Hn.
      destruct ((- INT_MAX - 1 <=? b + 1) && (b + 1 <=? INT_MAX));
        [| discriminate].
      apply ret_inv in Hn as [-> ->].
      apply modify_inv in H1. subst s1. cbn. repeat split; try reflexivity.
      intros k x Hx Hv. cbn [bodies set_bodies clusters] in *.
      rewrite at_resize_grow in Hx by lia.
      destruct (Z.ltb_spec k (size (bodies s))).
      + apply (Ok k x Hx Hv).
      + destruct (k <? b + 1); [| discriminate].
        inversion Hx; subst x. discriminate.
    - apply ret_inv in H1 as [_ ->]. auto. }
  destruct Ok1 as (Ok1 & A1 & B1 & C1).
  apply bind_inv in H as (s2 & m & Hg & H). apply get_inv in Hg as [-> ->].
  apply bind_inv in H as (s2 & bd & Hbd & H). apply must_inv in Hbd as [Hbd ->].
  destruct (Body_isValid bd) eqn:Ev; cbn [negb] in H.
  - apply ret_inv in H as [_ ->].
    split; [exact Ok1 |]. split; [exact A1 |]. split; [exact B1 |].
    intros j c Hc. rewrite C1. exact Hc.
  - apply bind_inv in H as (s2 & cid & Hadd & H).
    rewrite addCluster_total in Hadd. inversion Hadd; subst s2 cid; clear Hadd.
    set (n := size (clusters s1)) in *.
    set (c0 := Cluster_set_clusterId n (Cluster_new (createClusterNameForBody b)))
      in *.
    apply bind_inv in H as (s3 & u3 & Hat & H).
    apply (attach_fresh _ _ _ _ _ _ _ c0) in Hat;
      [| cbn [clusters set_clusters]; apply at_app_last
       | reflexivity | reflexivity].
    cbn [clusters set_clusters] in Hat.
    apply bind_inv in H as (s4 & u4 & Has & H). apply assert_inv in Has as [Has ->].
    unfold modBody in H.
    apply bind_inv in H as (s4 & m & Hg & H). apply get_inv in Hg as [-> ->].
    apply bind_inv in H as (s4 & x & Hx & H). apply must_inv in Hx as [_ ->].
    apply modify_inv in H. subst s' s3.
    cbn [atoms bonds set_bodies set_clusters bodies clusters].
    assert (Hn : at_ (upd_at (upd_at (clusters s1 ++ [c0]) n
                                 (Cluster_set_cl_bodyId b))
                         n (Cluster_set_placement_B Transform_identity)) n
                 = Some (Cluster_set_placement_B Transform_identity
                           (Cluster_set_cl_bodyId b c0))).
    { rewrite !upd_at_eq. subst n. rewrite at_app_last. reflexivity. }
    assert (Ho : forall j, j <> n ->
                   at_ (upd_at (upd_at (clusters s1 ++ [c0]) n
                                   (Cluster_set_cl_bodyId b))
                           n (Cluster_set_placement_B Transform_identity)) j
                   = at_ (clusters s1 ++ [c0]) j).
    { intros j Hj. now rewrite !upd_at_neq by exact Hj. }
    split; [| split; [assumption | split; [assumption |]]].
    + intros k y Hy Hv. cbn [bodies set_bodies clusters set_clusters] in Hy |- *.
      destruct (Z.eq_dec k b) as [-> | Hne].
      * rewrite upd_at_eq, Hbd in Hy. cbn in Hy. inversion Hy; subst y.
        cbn [body_clusterId]. rewrite Hn. eexists. split; [reflexivity |].
        cbn. split; [| auto].
        unfold Cluster_isValid. cbn. apply Z.leb_le. subst n. unfold size. lia.
      * rewrite upd_at_neq in Hy by exact Hne.
        destruct (Ok1 k y Hy Hv) as (c & Hc & Hvc & Hk & Hp).
        exists c. split; [| auto].
        pose proof (at_length _ _ _ Hc) as Hr. fold n in Hr.
        rewrite Ho by lia. rewrite at_app_l by lia. exact Hc.
    + intros j c Hc. cbn [clusters set_bodies set_clusters].
      rewrite <- C1 in Hc. pose proof (at_length _ _ _ Hc) as Hr. fold n in Hr.
      rewrite Ho by lia. rewrite at_app_l by lia. exact Hc.
Qed.

Lemma bodies_ok_new : bodies_ok DuMM_new.
Proof. intros k b H. cbn in H. rewrite at_nil in H. discriminate. Qed.

Lemma bodies_ok_return fuel c mm mm' v :
  bodies_ok mm -> run fuel c mm = Return mm' v -> bodies_ok mm'.
Proof.
  intros Ok H.
  destruct c as [id nm e v0 r w | id nm cl q | c1 c2 k d | c1 c2 c3 k a
                 | c1 c2 c3 c4 n1 a1 p1 n2 a2 p2 n3 a3 p3
                 | f|f|f|f|f|f|f|f | nm | t | a cl s | ch p x | cl b x
                 | a b s | a1 a2 | ];
    try (match goal with
         | H : run ?f ?c _ = _ |- _ =>
             let P := fresh in
             assert (P : pres keeps_bc (run f c))
               by (apply run_keeps_bc; discriminate);
             specialize (P mm); rewrite H in P;
             exact (keeps_bc_ok _ _ P Ok)
         end).
  - unfold run, void in H. apply bind_inv in H as (s1 & u & H & Hr).
    apply ret_inv in Hr as [_ ->].
    unfold attachClusterToBody, attachClusterToBody_rep in H.
    apply bind_inv in H as (s2 & u2 & He & H).
    apply (ensureBodyEntryExists_ok _ _ _ _ _ Ok) in He as (Ok2 & _).
    pose proof (attachCluster_tail_keeps_bc fuel cl b x s2) as K.
    rewrite H in K. exact (keeps_bc_ok _ _ K Ok2).
  - unfold run, void in H. apply bind_inv in H as (s1 & u & H & Hr).
    apply ret_inv in Hr as [_ ->].
    unfold attachAtomToBody, attachAtomToBody_rep in H.
    apply bind_inv in H as (s2 & u2 & He & H).
    apply (ensureBodyEntryExists_ok _ _ _ _ _ Ok) in He as (Ok2 & _).
    pose proof (attachAtom_tail_keeps_bc a b s s2) as K.
    rewrite H in K. exact (keeps_bc_ok _ _ K Ok2).
Qed.

Lemma reachable_bodies_ok mm : reachable mm -> bodies_ok mm.
Proof.
  induction 1 as [mm Hnew | fuel c mm mm' v Hr IH Hrun
                  | fuel c mm mm' Hr IH Hrun].
  - rewrite new_is_DuMM_new in Hnew. inversion Hnew. apply bodies_ok_new.
  - eapply bodies_ok_return; eauto.
  - apply run_throw_same in Hrun as [-> _]. exact IH.
Qed.

Lemma xform_identity v : xform Transform_identity v = v.
Proof.
  destruct v as [x y z].
  unfold xform, Transform_identity, mvmul, vadd, vdot, mident, vzero. cbn.
  f_equal; ring.
Qed.

Lemma bodyCluster_inv b s s' bc :
  bodyCluster b s = Return s' bc ->
  s' = s /\ exists bd, at_ (bodies s) b = Some bd /\ Body_isValid bd = true
                      /\ bc = body_clusterId bd.
Proof.
  unfold bodyCluster, getBody. intros H.
  apply bind_inv in H as (s1 & bd & Hbd & H).
  apply bind_inv in Hbd as (s2 & m & Hg & Hbd). apply get_inv in Hg as [-> ->].
  apply bind_inv in Hbd as (s2 & u2 & Hv & Hbd). apply assert_inv in Hv as [_ ->].
  apply must_inv in Hbd as [Hbd ->].
  apply bind_inv in H as (s3 & u3 & Hbv & H). apply assert_inv in Hbv as [Hbv ->].
  apply bind_inv in H as (s4 & c & Hc & H).
  apply getCluster_inv in Hc as (-> & _ & _).
  apply ret_inv in H as [-> ->]. split; [reflexivity |].
  exists bd. auto.
Qed.

(** X23. When [attachAtomToBody(atom, body, station)] returns, on a
    subsystem a client can reach, the atom is on that body at that station:
    [getAtomBody] returns the body and [getAtomStationOnBody] the station,
    as given.  The body is in use, and its cluster holds the atom at the
    same station.  No other atom and no bond has changed. *)
Theorem attachAtomToBody_round_trip fuel mm i b st mm' v :
  reachable mm -> run fuel (AttachAtomToBody i b st) mm = Return mm' v ->
  getAtomBody i mm' = Return mm' b
  /\ getAtomStationOnBody i mm' = Return mm' (Some st)
  /\ (exists bd, at_ (bodies mm') b = Some bd /\ Body_isValid bd = true
                 /\ getAtomStationInCluster i (body_clusterId bd) mm'
                    = Return mm' st)
  /\ (forall j, j <> i -> at_ (atoms mm') j = at_ (atoms mm) j)
  /\ bonds mm' = bonds mm.
Proof.
  intros Hr H. pose proof (reachable_bodies_ok mm Hr) as Ok.
  unfold run, void in H. apply bind_inv in H as (s1 & u & H & Hret).
  apply ret_inv in Hret as [_ E]. subst mm'. rename s1 into mm'.
  unfold attachAtomToBody, attachAtomToBody_rep in H.
  apply bind_inv in H as (s2 & u2 & He & H).
  apply (ensureBodyEntryExists_ok _ _ _ _ _ Ok) in He as (Ok2 & A2 & B2 & _).
  apply bind_inv in H as (s3 & m & Hg & H). apply get_inv in Hg as [-> ->].
  apply bind_inv in H as (s3 & u3 & Hv & H). apply assert_inv in Hv as [Hv ->].
  apply andb_true_iff in Hv as [Hva Hvb].
  apply bind_inv in H as (s3 & bc & Hbc & H).
  apply bodyCluster_inv in Hbc as (-> & bd & Hbd & Hbv & ->).
  destruct (Ok2 b bd Hbd Hbv) as (c & Hc & Hvc & Hcb & Hcp).
  apply Cluster_placeAtom_inv in H
    as (c' & a & d & al & Hc' & Ht & Ha & Hvat & Hab & Ed & Eal & E).
  rewrite Hc in Hc'. inversion Hc'; subst c'; clear Hc'.
  cbv zeta in E. pose proof (at_length _ _ _ Hbd) as Hbr.
  rewrite Hcb, Hcp, xform_identity in E.
  destruct (Z.leb_spec 0 b); [| lia].
  destruct (set_insert_find _ _ _ _ Eal) as [F1 _]. cbn [ap_atomId] in F1.
  assert (Ha' : at_ (atoms mm') i = Some (Atom_setBody a b (Some st))).
  { subst mm'. cbn [atoms set_atoms set_clusters]. rewrite upd_at_eq, Ha.
    reflexivity. }
  destruct (getAtomBody_at mm' i _ Ha' Hvat) as [G1 G2]; [cbn; lia |].
  split; [exact G1 |]. split; [exact G2 |]. split.
  - exists bd. split; [subst mm'; exact Hbd |]. split; [exact Hbv |].
    apply (getAtomStationInCluster_at mm' i _
             (Cluster_set_allAtomPlacements al
                (Cluster_set_directAtomPlacements d c))
             (mkAtomPlacement i st)).
    + subst mm'. cbn [clusters set_atoms set_clusters].
      rewrite !upd_at_eq, Hc. reflexivity.
    + exact Hvc.
    + exact F1.
  - split.
    + intros j Hj. subst mm'. cbn [atoms set_atoms set_clusters].
      rewrite upd_at_neq by exact Hj. now rewrite A2.
    + subst mm'. cbn. exact B2.
Qed.

(** The calls of the loose atoms all return. *)
Lemma loose_runs : { mm : DuMM | runAll 2 loose_calls DuMM_new = Some mm }.
Proof. eexists. unfold loose_calls. run_calls. Defined.

Lemma loose_reachable : reachable (proj1_sig loose_runs).
Proof.
  eapply runAll_reachable; [apply reachable_DuMM_new |].
  exact (proj2_sig loose_runs).
Qed.

(** X22 on the loose atoms: atom 0 is placed in the cluster "ligand". *)
Lemma placeAtomInCluster_outcome_witness :
  exists mm',
    placeAtomInCluster 0 1 (mkVec3 1 2 3) (proj1_sig loose_runs) = Return mm' tt
    /\ getAtomStationInCluster 0 1 mm' = Return mm' (mkVec3 1 2 3).
Proof.
  assert (A : { mm' | placeAtomInCluster 0 1 (mkVec3 1 2 3) (proj1_sig loose_runs)
                      = Return mm' tt })
    by (eexists; rlazy; reflexivity).
  destruct A as [mm' H]. exists mm'. split; [exact H |].
  exact (proj1 (proj2 (placeAtomInCluster_outcome
                         0 1 (mkVec3 1 2 3) (proj1_sig loose_runs)) mm' tt H)).
Defined.

(** X23 on the loose atoms: atom 1 is attached to body 3. *)
Lemma attachAtomToBody_round_trip_witness :
  exists mm',
    run 2 (AttachAtomToBody 1 3 (mkVec3 1 2 3)) (proj1_sig loose_runs)
    = Return mm' 0
    /\ getAtomBody 1 mm' = Return mm' 3
    /\ getAtomStationOnBody 1 mm' = Return mm' (Some (mkVec3 1 2 3)).
Proof.
  assert (A : { mm' | run 2 (AttachAtomToBody 1 3 (mkVec3 1 2 3))
                          (proj1_sig loose_runs) = Return mm' 0 })
    by (eexists; rlazy; reflexivity).
  destruct A as [mm' H]. exists mm'. split; [exact H |].
  destruct (attachAtomToBody_round_trip
              2%nat (proj1_sig loose_runs) 1 3 (mkVec3 1 2 3) mm' 0
              loose_reachable H) as (G1 & G2 & _).
  split; [exact G1 | exact G2].
Defined.

(** X24. After a realization that had work to do, two atoms of the same
    defined atom class, of radius greater than 0, meet with the class's own
    parameters: the entry of the van der Waals table for the pair (i, i) is
    twice the radius of the class, and its well depth. *)
Theorem realized_vdw_like_pair fuel mm mm' v i ci :
  topologicalCacheValid mm = false ->
  run fuel RealizeConstruction mm = Return mm' v ->
  at_ (atomClasses mm') i = Some ci -> AtomClass_isValid ci = true ->
  (0 < vdwRadius ci)%R ->
  mixedEntry vdwDij i ci i ci = Some (Some (2 * vdwRadius ci)%R)
  /\ mixedEntry vdwEij i ci i ci = Some (Some (vdwWellDepth ci)).
Proof.
  intros Hf H Hci Hv Hr.
  unfold run, void in H. apply bind_inv in H as (s1 & u & H & Hret).
  apply ret_inv in Hret as [_ E]. subst mm'.
  destruct (realizeConstruction_vdw _ _ _ Hf H) as [_ R].
  destruct (R i ci Hci Hv) as (_ & _ & Rii).
  assert (He : (0 <= vdwWellDepth ci)%R).
  { unfold AtomClass_isValid in Hv. apply andb_true_iff in Hv as [_ Hw].
    unfold Rleb in Hw.
    destruct (Rle_dec 0 (vdwWellDepth ci)); [assumption | discriminate]. }
  assert (Em : mixOf ci ci = (Some (2 * vdwRadius ci)%R, Some (vdwWellDepth ci))).
  { unfold mixOf, applyMixingRule.
    rewrite (WaldmanHagler_like _ _ Hr He). reflexivity. }
  unfold mixedEntry. rewrite Z.leb_refl.
  destruct (Rii i ci (Z.le_refl i) Hci Hv) as [D Ee].
  rewrite Em in D, Ee. auto.
Qed.

(** X24 on the small molecule: class 1 has the radius 2, and its own
    entry of the table is 4. *)
Lemma realized_vdw_like_pair_witness :
  exists c1,
    at_ (atomClasses (proj1_sig (projT2 demo_runs))) 1 = Some c1
    /\ vdwRadius c1 = 2%R
    /\ mixedEntry vdwDij 1 c1 1 c1 = Some (Some (2 * 2)%R).
Proof.
  assert (A : { c1 | at_ (atomClasses (proj1_sig (projT2 demo_runs))) 1 = Some c1
                     /\ vdwRadius c1 = 2%R })
    by (eexists; split; rlazy; reflexivity).
  destruct A as (c1 & H1 & Hrad).
  exists c1. split; [exact H1 |]. split; [exact Hrad |].
  rewrite <- Hrad at 2.
  refine (proj1 (realized_vdw_like_pair
                   2%nat (projT1 demo_runs) (proj1_sig (projT2 demo_runs)) 0
                   1 c1 _ _ H1 _ _)).
  - rlazy. reflexivity.
  - apply returns_eq. exact (proj2 (proj2_sig (projT2 demo_runs))).
  - revert H1. rlazy. intros E. inversion E. repeat rtest. reflexivity.
  - rewrite Hrad. lra.
Defined.

(* ================================================================= *)
(** ** The order of the class tuples *)

Lemma IntPair_lt_spec a b :
  IntPair_lt a b = true <->
  ip0 a < ip0 b \/ (ip0 a = ip0 b /\ ip1 a < ip1 b).
Proof.
  unfold IntPair_lt.
  destruct (Z.ltb_spec (ip0 a) (ip0 b)), (Z.gtb_spec (ip0 a) (ip0 b)),
    (Z.ltb_spec (ip1 a) (ip1 b)); split; intros; try discriminate;
    try reflexivity; lia.
Qed.

Lemma IntTriple_lt_spec a b :
  IntTriple_lt a b = true <->
  it0 a < it0 b
  \/ (it0 a = it0 b
      /\ (it1 a < it1 b \/ (it1 a = it1 b /\ it2 a < it2 b))).
Proof.
  unfold IntTriple_lt.
  destruct (Z.ltb_spec (it0 a) (it0 b)), (Z.gtb_spec (it0 a) (it0 b)),
    (Z.ltb_spec (it1 a) (it1 b)), (Z.gtb_spec (it1 a) (it1 b)),
    (Z.ltb_spec (it2 a) (it2 b)); split; intros; try discriminate;
    try reflexivity; lia.
Qed.

Lemma IntQuad_lt_spec a b :
  IntQuad_lt a b = true <->
  iq0 a < iq0 b
  \/ (iq0 a = iq0 b
      /\ (iq1 a < iq1 b
          \/ (iq1 a = iq1 b
              /\ (iq2 a < iq2 b \/ (iq2 a = iq2 b /\ iq3 a < iq3 b))))).
Proof.
  unfold IntQuad_lt.
  destruct (Z.ltb_spec (iq0 a) (iq0 b)), (Z.gtb_spec (iq0 a) (iq0 b)),
    (Z.ltb_spec (iq1 a) (iq1 b)), (Z.gtb_spec (iq1 a) (iq1 b)),
    (Z.ltb_spec (iq2 a) (iq2 b)), (Z.gtb_spec (iq2 a) (iq2 b)),
    (Z.ltb_spec (iq3 a) (iq3 b)); split; intros; try discriminate;
    try reflexivity; lia.
Qed.

Lemma IntPair_lt_strict : strict_order IntPair_lt.
Proof.
  split; [| split].
  - intros a. destruct (IntPair_lt a a) eqn:E; [| reflexivity].
    apply IntPair_lt_spec in E. lia.
  - intros a b c H1 H2. apply IntPair_lt_spec in H1, H2.
    apply IntPair_lt_spec. lia.
  - intros [a0 a1] [b0 b1] H1 H2.
    assert (N1 : ~ IntPair_lt (mkIntPair a0 a1) (mkIntPair b0 b1) = true)
      by (rewrite H1; discriminate).
    assert (N2 : ~ IntPair_lt (mkIntPair b0 b1) (mkIntPair a0 a1) = true)
      by (rewrite H2; discriminate).
    rewrite IntPair_lt_spec in N1, N2. cbn in N1, N2.
    assert (a0 = b0) by lia. assert (a1 = b1) by lia. congruence.
Qed.

Lemma IntTriple_lt_strict : strict_order IntTriple_lt.
Proof.
  split; [| split].
  - intros a. destruct (IntTriple_lt a a) eqn:E; [| reflexivity].
    apply IntTriple_lt_spec in E. lia.
  - intros a b c H1 H2. apply IntTriple_lt_spec in H1, H2.
    apply IntTriple_lt_spec. lia.
  - intros [a0 a1 a2] [b0 b1 b2] H1 H2.
    assert (N1 : ~ IntTriple_lt (mkIntTriple a0 a1 a2) (mkIntTriple b0 b1 b2)
                 = true) by (rewrite H1; discriminate).
    assert (N2 : ~ IntTriple_lt (mkIntTriple b0 b1 b2) (mkIntTriple a0 a1 a2)
                 = true) by (rewrite H2; discriminate).
    rewrite IntTriple_lt_spec in N1, N2. cbn in N1, N2.
    assert (a0 = b0) by lia. assert (a1 = b1) by lia. assert (a2 = b2) by lia.
    congruence.
Qed.

Lemma IntQuad_lt_strict : strict_order IntQuad_lt.
Proof.
  split; [| split].
  - intros a. destruct (IntQuad_lt a a) eqn:E; [| reflexivity].
    apply IntQuad_lt_spec in E. lia.
  - intros a b c H1 H2. apply IntQuad_lt_spec in H1, H2.
    apply IntQuad_lt_spec. lia.
  - intros [a0 a1 a2 a3] [b0 b1 b2 b3] H1 H2.
    assert (N1 : ~ IntQuad_lt (mkIntQuad a0 a1 a2 a3) (mkIntQuad b0 b1 b2 b3)
                 = true) by (rewrite H1; discriminate).
    assert (N2 : ~ IntQuad_lt (mkIntQuad b0 b1 b2 b3) (mkIntQuad a0 a1 a2 a3)
                 = true) by (rewrite H2; discriminate).
    rewrite IntQuad_lt_spec in N1, N2. cbn in N1, N2.
    assert (a0 = b0) by lia. assert (a1 = b1) by lia. assert (a2 = b2) by lia.
    assert (a3 = b3) by lia. congruence.
Qed.

Lemma strict_order_equivb {K} (lt : K -> K -> bool) a b :
  strict_order lt -> (equivb lt a b = true <-> a = b).
Proof.
  intros (I & _ & T). unfold equivb. split.
  - intros H. apply andb_true_iff in H as [H1 H2].
    apply negb_true_iff in H1, H2. now apply T.
  - intros ->. now rewrite I.
Qed.

(** X25. The [operator<] of the class pairs, triples and quads is a strict
    total order: nothing is less than itself, the order is transitive, and
    two tuples neither of which is less than the other are the same tuple.
    So the maps of the catalog, which take two keys for the same when
    neither is less, keep one entry for each tuple of class numbers and
    never mix up two tuples. *)
Theorem tuple_orders_strict :
  strict_order IntPair_lt /\ strict_order IntTriple_lt
  /\ strict_order IntQuad_lt
  /\ (forall a b, equivb IntPair_lt a b = true <-> a = b)
  /\ (forall a b, equivb IntTriple_lt a b = true <-> a = b)
  /\ (forall a b, equivb IntQuad_lt a b = true <-> a = b).
Proof.
  split; [apply IntPair_lt_strict |].
  split; [apply IntTriple_lt_strict |].
  split; [apply IntQuad_lt_strict |].
  split; [| split]; intros a b; apply strict_order_equivb.
  - apply IntPair_lt_strict.
  - apply IntTriple_lt_strict.
  - apply IntQuad_lt_strict.
Qed.

(* ================================================================= *)
(** ** Attaching a cluster to a body *)

Lemma cluster_core_refl c : cluster_core c c.
Proof. unfold cluster_core. tauto. Qed.

#[export] Instance keeps_core_frame : FrameRel keeps_core.
Proof.
  split.
  - intros s. split; [reflexivity |]. split; [reflexivity |].
    intros j c H. exists c. split; [exact H | apply cluster_core_refl].
  - intros a b c (A1 & B1 & C1) (A2 & B2 & C2).
    split; [congruence |]. split; [congruence |].
    intros j x Hx.
    destruct (C1 j x Hx) as (y & Hy & I1 & D1 & P1 & Q1).
    destruct (C2 j y Hy) as (z & Hz & I2 & D2 & P2 & Q2).
    exists z. split; [exact Hz |]. unfold cluster_core.
    repeat split; congruence.
Qed.

Lemma keeps_core_same s s' :
  atoms s' = atoms s -> bonds s' = bonds s -> clusters s' = clusters s ->
  keeps_core s s'.
Proof.
  intros A B C. split; [exact A |]. split; [exact B |]. rewrite C.
  intros j c H. exists c. split; [exact H | apply cluster_core_refl].
Qed.

Lemma keeps_core_upd_cluster s i f :
  (forall c, cluster_core c (f c)) ->
  keeps_core s (set_clusters (upd_at (clusters s) i f) s).
Proof.
  intros Hf. split; [reflexivity |]. split; [reflexivity |].
  intros j c H. cbn [clusters set_clusters].
  destruct (Z.eq_dec j i) as [-> | Hne].
  - rewrite upd_at_eq, H. cbn. exists (f c). split; [reflexivity | apply Hf].
  - rewrite upd_at_neq by exact Hne. exists c.
    split; [exact H | apply cluster_core_refl].
Qed.

Ltac core_write :=
  intros ?;
  first
    [ apply keeps_core_same; reflexivity
    | apply keeps_core_upd_cluster; intros ?;
      unfold cluster_core; cbn; tauto ].

Ltac core_auto :=
  repeat first
    [ pres_step
    | apply pres_modify; core_write
    | progress autounfold with ops_ids ].

(** The relation [R] holds across the step [H] of a run. *)
Ltac frame_of R H K :=
  match type of H with
  | ?m ?s = Return _ _ =>
      assert (K : pres R m) by core_auto;
      specialize (K s); rewrite H in K
  end.

(** [Cluster::placeCluster], up to the attachment of the child. *)
Lemma Cluster_placeCluster_inv fuel pid cid X s s' u :
  Cluster_placeCluster fuel pid cid X s = Return s' u ->
  exists p s5,
    at_ (clusters s) pid = Some p
    /\ keeps_core s s5
    /\ (if 0 <=? cl_bodyId p
        then Cluster_attachToBody fuel cid (cl_bodyId p)
               (xcompose (placement_B p) X) s5 = Return s' u
        else s' = s5).
Proof.
  unfold Cluster_placeCluster. intros H.
  apply bind_inv in H as (s0 & m & Hg & H). apply get_inv in Hg as [-> ->].
  apply bind_inv in H as (s0 & p & Hp & H). apply must_inv in Hp as [Hp ->].
  apply bind_inv in H as (s0 & u0 & Ht & H). apply assert_inv in Ht as [_ ->].
  apply bind_inv in H as (s0 & ch & Hch & H).
  apply getCluster_inv in Hch as (-> & _ & _).
  apply bind_inv in H as (s0 & u1 & Ha & H). apply assert_inv in Ha as [_ ->].
  apply bind_inv in H as (s1 & has & Hhas & H).
  frame_of keeps_core Hhas K1.
  apply bind_inv in H as (s2 & u2 & Hn & H). apply assert_inv in Hn as [_ ->].
  apply bind_inv in H as (s2 & u3 & Hloop & H).
  frame_of keeps_core Hloop K2.
  apply bind_inv in H as (s3 & u4 & Hv & H). apply assert_inv in Hv as [_ ->].
  apply bind_inv in H as (s3 & m & Hg & H). apply get_inv in Hg as [-> ->].
  apply bind_inv in H as (s3 & p' & Hp' & H). apply must_inv in Hp' as [Hp' ->].
  apply bind_inv in H as (s3 & u5 & Hd & H).
  frame_of keeps_core Hd K3.
  apply bind_inv in H as (s4 & u6 & Hv & H). apply assert_inv in Hv as [_ ->].
  apply bind_inv in H as (s4 & m & Hg & H). apply get_inv in Hg as [-> ->].
  apply bind_inv in H as (s4 & ch' & Hch' & H). apply must_inv in Hch' as [_ ->].
  apply bind_inv in H as (s4 & u7 & Hpc & H).
  frame_of keeps_core Hpc K4.
  exists p, s4. split; [exact Hp |]. split.
  - eapply frame_trans; [exact K1 |]. eapply frame_trans; [exact K2 |].
    eapply frame_trans; [exact K3 | exact K4].
  - assert (K12 : keeps_core s s2) by (eapply frame_trans; eauto).
    destruct (proj2 (proj2 K12) _ _ Hp) as (q & Hq & _ & _ & Eb & Ep).
    rewrite Hp' in Hq. inversion Hq; subst q.
    unfold Cluster_isAttachedToBody in H. rewrite Eb, Ep in H.
    destruct (0 <=? cl_bodyId p); [exact H |].
    apply ret_inv in H as [_ ->]. reflexivity.
Qed.

(** [Cluster::attachToBody]: the cluster gets the body and the placement,
    and the atoms that are placed in it directly get the body, each at its
    station carried over by the placement. *)
Lemma Cluster_attachToBody_spec fuel cid bnum X s s' u c :
  Cluster_attachToBody fuel cid bnum X s = Return s' u ->
  0 <= bnum -> at_ (clusters s) cid = Some c ->
  (exists c', at_ (clusters s') cid = Some c'
              /\ cl_bodyId c' = bnum /\ placement_B c' = X)
  /\ forall ap, In ap (directAtomPlacements c) ->
       exists a', at_ (atoms s') (ap_atomId ap) = Some a'
                  /\ Atom_isValid a' = true
                  /\ atom_bodyId a' = bnum
                  /\ station_B a' = Some (xform X (ap_station ap)).
Proof.
  intros H Hb Hc. destruct fuel as [| fuel]; [discriminate |].
  simpl in H.
  apply bind_inv in H as (s0 & m & Hg & H). apply get_inv in Hg as [-> ->].
  apply bind_inv in H as (s0 & c0 & Hc0 & H). apply must_inv in Hc0 as [Hc0 ->].
  rewrite Hc in Hc0. inversion Hc0; subst c0; clear Hc0.
  apply bind_inv in H as (s0 & u0 & Ha & H). apply assert_inv in Ha as [_ ->].
  apply bind_inv in H as (s1 & u1 & Hm & H). apply modCluster_inv in Hm. subst s1.
  apply bind_inv in H as (s2 & u2 & Hm & H). apply modCluster_inv in Hm.
  cbn [clusters set_clusters] in Hm.
  apply bind_inv in H as (s3 & u3 & L1 & L2).
  assert (Hc2 : at_ (clusters s2) cid
                = Some (Cluster_set_placement_B X (Cluster_set_cl_bodyId bnum c))).
  { subst s2. cbn [clusters set_clusters]. rewrite !upd_at_eq, Hc. reflexivity. }
  assert (K1 : keeps_bc s2 s3 /\ keeps_atoms s2 s3).
  { split.
    - match type of L1 with ?m _ = _ =>
        assert (K : pres keeps_bc m) by bc_auto end.
      specialize (K s2). now rewrite L1 in K.
    - match type of L1 with ?m _ = _ =>
        assert (K : pres keeps_atoms m) by atoms_auto end.
      specialize (K s2). now rewrite L1 in K. }
  assert (K2 : keeps_bc s3 s' /\ keeps_atoms s3 s').
  { split.
    - match type of L2 with ?m _ = _ =>
        assert (K : pres keeps_bc m)
          by (bc_auto; apply Cluster_attachToBody_keeps_bc) end.
      specialize (K s3). now rewrite L2 in K.
    - match type of L2 with ?m _ = _ =>
        assert (K : pres keeps_atoms m)
          by (atoms_auto; apply Cluster_attachToBody_keeps_atoms) end.
      specialize (K s3). now rewrite L2 in K. }
  destruct K1 as [B1 A1]. destruct K2 as [B2 A2].
  split.
  - destruct (proj1 B1 _ _ Hc2) as (c3 & Hc3 & _ & S3). cbn in S3.
    destruct (S3 Hb) as [E1 E2].
    destruct (proj1 B2 _ _ Hc3) as (c4 & Hc4 & _ & S4).
    destruct S4 as [E3 E4]; [lia |].
    exists c4. split; [exact Hc4 |]. split; congruence.
  - intros ap Hin.
    assert (H3 : exists a3, at_ (atoms s3) (ap_atomId ap) = Some a3
                            /\ Atom_isValid a3 = true
                            /\ atom_bodyId a3 = bnum
                            /\ station_B a3 = Some (xform X (ap_station ap))).
    { destruct u3.
      set (Inv := fun (d : list AtomPlacement) (t : DuMM) =>
                    forall ap, In ap d ->
                      exists a3, at_ (atoms t) (ap_atomId ap) = Some a3
                                 /\ Atom_isValid a3 = true
                                 /\ atom_bodyId a3 = bnum
                                 /\ station_B a3
                                    = Some (xform X (ap_station ap))).
      refine (forEach_prefix_inv Inv _ _ _ [] s2 s3 _ L1 ap Hin).
      - intros d x t t' HInv Hstep ap' Hin'.
        apply bind_inv in Hstep as (t0 & a0 & Hg0 & Hstep).
        apply getAtom_inv in Hg0 as (-> & Hg0 & Hv0).
        assert (Kt : keeps_atoms t t').
        { pose proof (Atom_attachToBody_keeps_atoms
                        (ap_atomId x) bnum (xform X (ap_station x)) t) as K.
          now rewrite Hstep in K. }
        apply in_app_or in Hin' as [Hin' | [<- | []]].
        + destruct (HInv ap' Hin') as (a3 & Ha3 & V3 & Bd3 & St3).
          destruct (Kt _ _ Ha3) as (a4 & Ha4 & I4 & T4 & _ & P4).
          destruct P4 as [P4 Q4]; [lia |].
          exists a4. split; [exact Ha4 |].
          split; [unfold Atom_isValid in *; now rewrite I4, T4 |].
          split; congruence.
        + unfold Atom_attachToBody in Hstep.
          apply bind_inv in Hstep as (t1 & m & Hg & Hstep).
          apply get_inv in Hg as [-> ->].
          apply bind_inv in Hstep as (t1 & a1 & Ha1 & Hstep).
          apply must_inv in Ha1 as [Ha1 ->].
          apply bind_inv in Hstep as (t1 & u1' & Hn & Hstep).
          apply assert_inv in Hn as [_ ->].
          apply modAtom_inv in Hstep as (a2 & _ & ->).
          cbn [atoms set_atoms]. rewrite upd_at_eq, Ha1. cbn.
          eexists. split; [reflexivity |].
          split; [| split; reflexivity].
          rewrite Hg0 in Ha1. inversion Ha1; subst a1. exact Hv0.
      - intros ap' []. }
    destruct H3 as (a3 & Ha3 & V3 & Bd3 & St3).
    destruct (A2 _ _ Ha3) as (a4 & Ha4 & I4 & T4 & _ & P4).
    destruct P4 as [P4 Q4]; [lia |].
    exists a4. split; [exact Ha4 |].
    split; [unfold Atom_isValid in *; now rewrite I4, T4 |].
    split; congruence.
Qed.

Lemma mmul_ident_l m : mmul mident m = m.
Proof.
  destruct m as [[a b c] [d e f] [g h i]].
  unfold mmul, mident, mcol, vdot. cbn.
  f_equal; f_equal; ring.
Qed.

Lemma xcompose_identity X : xcompose Transform_identity X = X.
Proof.
  destruct X as [r t]. unfold xcompose. cbn [X_R X_T Transform_identity].
  rewrite xform_identity.
  change (X_R Transform_identity) with mident. now rewrite mmul_ident_l.
Qed.

(** X26. When [attachClusterToBody(cluster, body, placement)] returns, on
    a subsystem a client can reach, the cluster is attached to that body
    with that placement, and every atom that was placed in the cluster
    directly is on that body, at its station in the cluster carried over by
    the placement: [getAtomBody] returns the body and [getAtomStationOnBody]
    the carried-over station.  The bonds are as before. *)
Theorem attachClusterToBody_round_trip fuel mm cid b tr mm' v c :
  reachable mm -> at_ (clusters mm) cid = Some c ->
  run fuel (AttachClusterToBody cid b tr) mm = Return mm' v ->
  (exists c', at_ (clusters mm') cid = Some c'
              /\ cl_bodyId c' = b /\ placement_B c' = tr)
  /\ (forall ap, In ap (directAtomPlacements c) ->
        getAtomBody (ap_atomId ap) mm' = Return mm' b
        /\ getAtomStationOnBody (ap_atomId ap) mm'
           = Return mm' (Some (xform tr (ap_station ap))))
  /\ bonds mm' = bonds mm.
Proof.
  intros Hr Hc H. pose proof (reachable_bodies_ok mm Hr) as Ok.
  unfold run, void in H. apply bind_inv in H as (s1 & u & H & Hret).
  apply ret_inv in Hret as [_ E]. subst mm'. rename s1 into mm'.
  unfold attachClusterToBody, attachClusterToBody_rep in H.
  apply bind_inv in H as (s2 & u2 & He & H).
  apply (ensureBodyEntryExists_ok _ _ _ _ _ Ok) in He as (Ok2 & A2 & B2 & C2).
  apply bind_inv in H as (s3 & m & Hg & H). apply get_inv in Hg as [-> ->].
  apply bind_inv in H as (s3 & u3 & Hv & H). apply assert_inv in Hv as [Hv ->].
  apply bind_inv in H as (s3 & bc & Hbc & H).
  apply bodyCluster_inv in Hbc as (-> & bd & Hbd & Hbv & ->).
  destruct (Ok2 b bd Hbd Hbv) as (p & Hp & Hvp & Hpb & Hpp).
  pose proof (at_length _ _ _ Hbd) as Hbr.
  apply Cluster_placeCluster_inv in H as (p' & s5 & Hp' & K & H).
  rewrite Hp in Hp'. inversion Hp'; subst p'; clear Hp'.
  rewrite Hpb, Hpp, xcompose_identity in H.
  destruct (Z.leb_spec 0 b); [| lia].
  destruct K as (A5 & B5 & C5).
  destruct (C5 _ _ (C2 _ _ Hc)) as (c5 & Hc5 & _ & D5 & _).
  assert (Hb0 : 0 <= b) by lia.
  destruct (Cluster_attachToBody_spec _ _ _ _ _ _ _ c5 H Hb0 Hc5) as [R1 R2].
  split; [exact R1 |]. split.
  - intros ap Hin. rewrite <- D5 in Hin.
    destruct (R2 ap Hin) as (a' & Ha' & Va' & Ba' & Sa').
    destruct (getAtomBody_at mm' _ _ Ha' Va') as [G1 G2]; [lia |].
    rewrite Ba' in G1. rewrite Sa' in G2. auto.
  - assert (Kb : keeps_graph s5 mm').
    { pose proof (Cluster_attachToBody_keeps fuel cid b tr s5) as Kg.
      now rewrite H in Kg. }
    destruct Kb as (_ & Bm & _). congruence.
Qed.

(** The calls of the ligand all return. *)
Lemma ligand_runs : { mm : DuMM | runAll 2 ligand_calls DuMM_new = Some mm }.
Proof. eexists. unfold ligand_calls, loose_calls, app. run_calls. Defined.

Lemma ligand_reachable : reachable (proj1_sig ligand_runs).
Proof.
  eapply runAll_reachable; [apply reachable_DuMM_new |].
  exact (proj2_sig ligand_runs).
Qed.

(** X26 on the ligand: the cluster goes on body 0, shifted by 10 along x,
    and takes its atom along. *)
Lemma attachClusterToBody_round_trip_witness :
  exists mm',
    run 2 (AttachClusterToBody 1 0 (mkTransform mident (mkVec3 10 0 0)))
        (proj1_sig ligand_runs) = Return mm' 0
    /\ getAtomBody 0 mm' = Return mm' 0
    /\ getAtomStationOnBody 0 mm'
       = Return mm' (Some (xform (mkTransform mident (mkVec3 10 0 0))
                                 (mkVec3 1 2 3))).
Proof.
  assert (A : { mm' | run 2 (AttachClusterToBody 1 0
                               (mkTransform mident (mkVec3 10 0 0)))
                          (proj1_sig ligand_runs) = Return mm' 0 })
    by (eexists; rlazy; reflexivity).
  assert (C : { c | at_ (clusters (proj1_sig ligand_runs)) 1 = Some c
                    /\ In (mkAtomPlacement 0 (mkVec3 1 2 3))
                          (directAtomPlacements c) })
    by (eexists; split; [rlazy; reflexivity | rlazy; left; reflexivity]).
  destruct A as [mm' H]. destruct C as (c & Hc & Hin).
  exists mm'. split; [exact H |].
  destruct (attachClusterToBody_round_trip
              2%nat (proj1_sig ligand_runs) 1 0
              (mkTransform mident (mkVec3 10 0 0)) mm' 0 c
              ligand_reachable Hc H) as (_ & G & _).
  exact (G (mkAtomPlacement 0 (mkVec3 1 2 3)) Hin).
Defined.

(* ================================================================= *)
(** ** An atom can only be on one body *)

(** [Cluster::attachToBody] on a cluster that has no body and holds
    nothing: one level of recursion is enough. *)
Lemma Cluster_attachToBody_fresh f cid bnum X s c :
  at_ (clusters s) cid = Some c -> cl_bodyId c < 0 ->
  directAtomPlacements c = [] -> directClusterPlacements c = [] ->
  Cluster_attachToBody (S f) cid bnum X s
  = Return (set_clusters
              (upd_at (upd_at (clusters s) cid (Cluster_set_cl_bodyId bnum))
                      cid (Cluster_set_placement_B X)) s) tt.
Proof.
  intros Hc Hb Hd1 Hd2. simpl.
  unfold bind at 1, get. unfold bind at 1, must. rewrite Hc.
  unfold bind at 1, assert. unfold Cluster_isAttachedToBody.
  destruct (Z.leb_spec 0 (cl_bodyId c)); [lia |]. cbn [negb].
  unfold bind at 1. rewrite (modCluster_at _ _ _ _ Hc). cbv beta iota.
  unfold bind at 1.
  erewrite modCluster_at
    by (cbn [clusters set_clusters]; rewrite upd_at_eq, Hc; reflexivity).
  cbv beta iota. cbn [clusters set_clusters].
  rewrite Hd1, Hd2. reflexivity.
Qed.

(** [ensureBodyEntryExists] returns for a body number that is not negative
    and below [INT_MAX], and the body is in use afterwards. *)
Lemma ensureBodyEntryExists_returns f b s :
  0 <= b < INT_MAX ->
  exists s', ensureBodyEntryExists (S f) b s = Return s' tt
             /\ isValidBody s' b = true.
Proof.
  intros Hb. unfold ensureBodyEntryExists.
  unfold bind at 1, get.
  set (l1 := if b >=? size (bodies s)
             then resize (b + 1) Body_default (bodies s) else bodies s).
  assert (Hstep :
            (if b >=? size (bodies s)
             then n <- intAdd b 1 ;;
                  modify (fun mm =>
                            set_bodies (resize n Body_default (bodies mm)) mm)
             else ret tt) s
            = Return (set_bodies l1 s) tt).
  { subst l1. destruct (b >=? size (bodies s)).
    - unfold bind. rewrite intAdd_fits by (unfold INT_MAX in *; lia).
      reflexivity.
    - unfold ret. destruct s; reflexivity. }
  rewrite (bind_Return _ _ _ _ _ Hstep).
  unfold bind at 1, get. cbn [bodies set_bodies].
  set (n := size (clusters s)).
  destruct (slot_define Body_isValid Body_default (mkBody n []) (bodies s) b
              (proj1 Hb) eq_refl)
    as ((old & Hold & _) & Hnew & _).
  cbv zeta in Hold, Hnew. fold l1 in Hold, Hnew.
  unfold bind at 1, must. rewrite Hold.
  destruct (Body_isValid old) eqn:Ev; cbn [negb].
  - eexists. split; [reflexivity |].
    unfold isValidBody. cbn [bodies set_bodies].
    exact (isValidAt_intro _ _ _ _ Hold Ev).
  - unfold bind at 1. rewrite addCluster_total. cbv beta iota.
    cbn [clusters set_clusters set_bodies]. fold n.
    unfold bind at 1.
    erewrite Cluster_attachToBody_fresh;
      [| cbn [clusters set_clusters]; apply at_app_last
       | cbn; lia | reflexivity | reflexivity].
    cbv beta iota. cbn [clusters set_clusters set_bodies].
    unfold bind at 1, assert.
    assert (Hn : Body_isValid (mkBody n []) = true).
    { unfold Body_isValid. cbn. apply Z.leb_le. subst n. unfold size. lia. }
    rewrite Hn.
    unfold modBody, bind, get, must, modify. cbn [bodies set_clusters set_bodies].
    rewrite Hold.
    eexists. split; [reflexivity |].
    unfold isValidBody. cbn [bodies set_bodies].
    exact (isValidAt_intro _ _ _ _ Hnew Hn).
Qed.

Lemma bodyCluster_at b s bd c :
  at_ (bodies s) b = Some bd -> Body_isValid bd = true ->
  at_ (clusters s) (body_clusterId bd) = Some c -> Cluster_isValid c = true ->
  bodyCluster b s = Return s (body_clusterId bd).
Proof.
  intros Hbd Hv Hc Hvc. unfold bodyCluster, getBody, bind, get, assert, must.
  unfold isValidBody. rewrite (isValidAt_intro _ _ _ _ Hbd Hv), Hbd, Hv.
  now rewrite (getCluster_at _ _ _ Hc Hvc).
Qed.

(** [Cluster::placeAtom] stops at one of its assertions when the atom has
    a body. *)
Lemma Cluster_placeAtom_attached cid i st s c a :
  at_ (clusters s) cid = Some c ->
  getAtom i s = Return s a -> Atom_isAttachedToBody a = true ->
  Cluster_placeAtom cid i st s = Abort.
Proof.
  intros Hc Ha Hb. unfold Cluster_placeAtom.
  unfold bind at 1, get. unfold bind at 1, must. rewrite Hc.
  unfold bind at 1, assert.
  destruct (Cluster_isTopLevelCluster c); [| reflexivity].
  unfold bind at 1. rewrite Ha.
  unfold bind at 1, assert. now rewrite Hb.
Qed.

(** X8. An atom that is attached to a body keeps its body and its station
    across every call but [realizeConstruction], whether the call returns or
    throws.  [attachAtomToBody] on such an atom never returns and never
    throws, whatever the body and the station: an atom can only be on one
    body.  On a subsystem a client can reach and for a body number from 0
    up to [INT_MAX - 1], the call gets as far as [Cluster::placeAtom] on
    the cluster of the body -- [ensureBodyEntryExists] returns, the atom and
    the body pass the test of their validity, the cluster of the body is
    found -- and stops there at an assertion: [placeAtom] finds the atom
    attached, so its [assert(!isAttachedToBody())] fails if its
    [assert(isTopLevelCluster())] has not failed before. *)
Theorem attached_atom_keeps_body fuel mm i a :
  at_ (atoms mm) i = Some a -> 0 <= atom_bodyId a ->
  (forall c mm', c <> RealizeConstruction ->
     (exists v, run fuel c mm = Return mm' v) \/ run fuel c mm = Throw mm' ->
     exists a', at_ (atoms mm') i = Some a'
                /\ atom_bodyId a' = atom_bodyId a
                /\ station_B a' = station_B a)
  /\ (forall b st mm' v, run fuel (AttachAtomToBody i b st) mm <> Return mm' v)
  /\ (forall b st mm', run fuel (AttachAtomToBody i b st) mm <> Throw mm')
  /\ (forall b st, reachable mm -> 0 <= b < INT_MAX -> (0 < fuel)%nat ->
        exists s1 bd c,
          ensureBodyEntryExists fuel b mm = Return s1 tt
          /\ isValidAtom s1 i && isValidBody s1 b = true
          /\ at_ (bodies s1) b = Some bd
          /\ bodyCluster b s1 = Return s1 (body_clusterId bd)
          /\ at_ (clusters s1) (body_clusterId bd) = Some c
          /\ getAtom i s1 = Return s1 a
          /\ Atom_isAttachedToBody a = true
          /\ Cluster_placeAtom (body_clusterId bd) i st s1 = Abort).
Proof.
  intros Ha Hb. split; [| split; [| split]].
  - intros c mm' Hc Hrun.
    pose proof (run_keeps_atoms fuel c Hc mm) as K.
    assert (K' : keeps_atoms mm mm').
    { destruct Hrun as [[v E] | E]; rewrite E in K; exact K. }
    destruct (K' i a Ha) as (a' & Ha' & _ & _ & _ & B).
    exists a'. split; [exact Ha' | exact (B Hb)].
  - intros b st mm' v E.
    unfold run, void in E.
    apply bind_inv in E as (s' & u & E & _).
    unfold attachAtomToBody, attachAtomToBody_rep in E.
    apply bind_inv in E as (s1 & u1 & E1 & E).
    pose proof (ensureBodyEntryExists_keeps_atoms fuel b mm) as K1.
    rewrite E1 in K1.
    apply bind_inv in E as (s2 & x & Eg & E). apply get_inv in Eg as [-> ->].
    apply bind_inv in E as (s3 & u3 & Ea & E). apply assert_inv in Ea as [_ ->].
    apply bind_inv in E as (s4 & bc & Ebc & E).
    pose proof (bodyCluster_keeps_atoms b s1) as K2. rewrite Ebc in K2.
    destruct (K1 i a Ha) as (a1 & Ha1 & _ & _ & _ & B1).
    destruct (K2 i a1 Ha1) as (a2 & Ha2 & _ & _ & _ & B2).
    destruct (B1 Hb) as [B1' _]. destruct B2 as [B2' _]; [lia |].
    apply Cluster_placeAtom_inv in E
      as (c & a3 & d & al & _ & _ & Ha3 & _ & Hn & _).
    rewrite Ha2 in Ha3. inversion Ha3; subst a3. lia.
  - intros b st mm' E.
    pose proof (run_nothrow fuel (AttachAtomToBody i b st)) as N.
    exact (N mm mm' E).
  - intros b st Hr Hbr Hf.
    destruct fuel as [| f]; [lia |].
    destruct (ensureBodyEntryExists_returns f b mm Hbr) as (s1 & E1 & Vb).
    destruct (ensureBodyEntryExists_ok _ _ _ _ _ (reachable_bodies_ok mm Hr) E1)
      as (Ok1 & A1 & _).
    destruct (reachable_inv mm Hr) as [[_ _ _ Wv] _].
    assert (Ha1 : at_ (atoms s1) i = Some a) by (now rewrite A1).
    pose proof (Wv i a Ha) as Hva.
    pose proof Vb as Vb'. apply isValidAt_inv in Vb' as (bd & Hbd & Hbv).
    destruct (Ok1 b bd Hbd Hbv) as (c & Hc & Hvc & _).
    exists s1, bd, c.
    assert (Hg : getAtom i s1 = Return s1 a) by (apply getAtom_at; assumption).
    assert (Hat : Atom_isAttachedToBody a = true)
      by (unfold Atom_isAttachedToBody; now apply Z.leb_le).
    split; [exact E1 |]. split.
    { unfold isValidAtom. rewrite (isValidAt_intro _ _ _ _ Ha1 Hva). exact Vb. }
    split; [exact Hbd |].
    split; [exact (bodyCluster_at _ _ _ _ Hbd Hbv Hc Hvc) |].
    split; [exact Hc |]. split; [exact Hg |]. split; [exact Hat |].
    exact (Cluster_placeAtom_attached _ _ _ _ _ _ Hc Hg Hat).
Qed.

(** X8 on the small molecule, before the realization: atom 0 is on body 0;
    attaching it to body 1 gets to [Cluster::placeAtom] on the cluster of
    body 1 and stops there. *)
Lemma attached_atom_keeps_body_witness :
  exists s1 bd,
    ensureBodyEntryExists 2 1 (projT1 demo_runs) = Return s1 tt
    /\ at_ (bodies s1) 1 = Some bd
    /\ Cluster_placeAtom (body_clusterId bd) 0 vzero s1 = Abort.
Proof.
  assert (A : { a | at_ (atoms (projT1 demo_runs)) 0 = Some a
                    /\ atom_bodyId a = 0 })
    by (eexists; split; rlazy; reflexivity).
  destruct A as [a [Ha Hb]].
  assert (Hb0 : 0 <= atom_bodyId a) by (rewrite Hb; lia).
  destruct (attached_atom_keeps_body 2%nat (projT1 demo_runs) 0 a Ha Hb0)
    as (_ & _ & _ & H).
  destruct (H 1 vzero demo_reachable) as (s1 & bd & c & E1 & _ & Hbd & _ & _ & _ & _ & P).
  - unfold INT_MAX. lia.
  - lia.
  - exists s1, bd. auto.
Defined.

(* ================================================================= *)
(** ** The neighbour lists after a bond is added to a realized molecule *)

(** C2, on a molecule that is changed after its realization.  [addBond]
    does not clear [topologicalCacheValid] (only the constructor and
    [realizeConstruction] itself write the flag), so the next
    [realizeConstruction] returns at once and the derived lists are those of
    the molecule as it was.  On the chain 0-1-2-3: after the realization,
    [addBond(0,2)] and one more realization, atom 2 is a direct bond of
    atom 0 and still the tail of its 1-3 path (1,2); two of the four
    neighbour lists of atom 0 hold it. *)
Theorem stale_paths_after_addBond :
  exists mm1 mm2 a,
    reachable mm1
    /\ run 2 RealizeConstruction (projT1 demo_runs) = Return mm1 0
    /\ run 2 (AddBond 0 2) mm1 = Return mm2 3
    /\ topologicalCacheValid mm2 = true
    /\ run 2 RealizeConstruction mm2 = Return mm2 0
    /\ at_ (atoms mm2) 0 = Some a
    /\ bond12 a = [1; 2]
    /\ bond13 a = [mkIntPair 1 2]
    /\ listsHolding a 2 = 2%nat.
Proof.
  pose proof (returns_eq _ _ _ (proj2 (proj2_sig (projT2 demo_runs)))) as R1.
  exists (proj1_sig (projT2 demo_runs)).
  assert (E : { mm2 & { a |
                  run 2 (AddBond 0 2) (proj1_sig (projT2 demo_runs))
                  = Return mm2 3
                  /\ topologicalCacheValid mm2 = true
                  /\ run 2 RealizeConstruction mm2 = Return mm2 0
                  /\ at_ (atoms mm2) 0 = Some a
                  /\ bond12 a = [1; 2]
                  /\ bond13 a = [mkIntPair 1 2]
                  /\ listsHolding a 2 = 2%nat } }).
  { eexists. eexists.
    split; [rlazy; reflexivity |]. split; [rlazy; reflexivity |].
    split; [rlazy; reflexivity |]. split; [rlazy; reflexivity |].
    split; [rlazy; reflexivity |]. split; rlazy; reflexivity. }
  destruct E as (mm2 & a & E).
  exists mm2, a.
  split; [exact (reachable_return _ _ _ _ _ demo_reachable R1) |].
  split; [exact R1 | exact E].
Qed.

Local Open Scope R_scope.

Lemma norm_ez : norm (mkVec3 0 0 1) = 1.
Proof.
  unfold norm, normSqr, vdot. cbn.
  replace (0 * 0 + 0 * 0 + 1 * 1) with 1 by lra. apply sqrt_1.
Qed.

Lemma overlap_axis :
  torsion_axis unitOf perpOf (mkVec3 1 0 0) (mkVec3 0 1 0) vzero
  = mkVec3 0 0 1.
Proof.
  unfold torsion_axis. rewrite torsion_oov_overlap.
  rewrite Reqb_true by reflexivity. cbn [negb].
  assert (Hc : vcross (mkVec3 1 0 0) (mkVec3 0 1 0) = mkVec3 0 0 1)
    by (unfold vcross; cbn; f_equal; lra).
  rewrite Hc, norm_ez, Reqb_false by lra. cbn [negb].
  unfold unitOf. rewrite norm_ez. unfold vscale. cbn. f_equal; lra.
Qed.

Lemma periodic_overlap_example :
  BondTorsion_periodic unitOf perpOf (mkBondTorsion [mkTorsionTerm 1 1 0])
    (mkVec3 (-1) 0 0) vzero vzero (mkVec3 0 1 0)
  = mkTorsionResult (Some (- PI / 2)) 1
      (mkVec3 0 (-1) 0) (mkVec3 0 1 0) (mkVec3 (-1) 0 0) (mkVec3 1 0 0).
Proof.
  unfold BondTorsion_periodic. cbv zeta.
  replace (vsub vzero (mkVec3 (-1) 0 0)) with (mkVec3 1 0 0)
    by (unfold vsub, vzero; cbn; f_equal; lra).
  replace (vsub (mkVec3 0 1 0) vzero) with (mkVec3 0 1 0)
    by (unfold vsub, vzero; cbn; f_equal; lra).
  rewrite vsub_self, overlap_axis, torsion_oov_overlap.
  replace (vcross (mkVec3 1 0 0) (mkVec3 0 0 1)) with (mkVec3 0 (-1) 0)
    by (unfold vcross; cbn; f_equal; lra).
  replace (vcross (mkVec3 0 0 1) (mkVec3 0 1 0)) with (mkVec3 (-1) 0 0)
    by (unfold vcross; cbn; f_equal; lra).
  replace (vdot (mkVec3 0 (-1) 0) (mkVec3 0 (-1) 0)) with 1
    by (unfold vdot; cbn; lra).
  replace (vdot (mkVec3 (-1) 0 0) (mkVec3 (-1) 0 0)) with 1
    by (unfold vdot; cbn; lra).
  replace (vdot (mkVec3 0 (-1) 0) (mkVec3 (-1) 0 0)) with 0
    by (unfold vdot; cbn; lra).
  replace (vcross (mkVec3 0 (-1) 0) (mkVec3 (-1) 0 0)) with (mkVec3 0 0 (-1))
    by (unfold vcross; cbn; f_equal; lra).
  replace (vdot (mkVec3 0 0 1) (mkVec3 0 0 (-1))) with (-1)
    by (unfold vdot; cbn; lra).
  rewrite (Reqb_false 1 0) by lra. rewrite (Reqb_true 0 0) by reflexivity.
  cbn [orb].
  replace (1 * 1) with 1 by lra. rewrite sqrt_1.
  replace (-1 * (1 / 1)) with (-1) by lra.
  replace (0 * (1 / 1)) with 0 by lra.
  assert (Hth : atan2 (-1) 0 = - PI / 2).
  { unfold atan2. rewrite (Rltb_false 0 0) by lra.
    rewrite (Rltb_false 0 (-1)) by lra. rewrite (Rltb_true (-1) 0) by lra.
    reflexivity. }
  rewrite Hth.
  assert (Hsin : sin (IZR 1 * (- PI / 2) - 0) = -1).
  { replace (IZR 1 * (- PI / 2) - 0) with (- (PI / 2)) by lra.
    rewrite sin_neg, sin_PI2. reflexivity. }
  assert (Hcos : cos (IZR 1 * (- PI / 2) - 0) = 0).
  { replace (IZR 1 * (- PI / 2) - 0) with (- (PI / 2)) by lra.
    rewrite cos_neg, cos_PI2. reflexivity. }
  cbn [terms fold_left]. unfold TorsionTerm_energy, TorsionTerm_torque.
  cbn [periodicity amplitude tt_theta0]. rewrite Hsin, Hcos.
  unfold vcross, vscale, vneg. cbn [vx vy vz].
  f_equal; try (f_equal; lra); lra.
Qed.

Lemma aligned_axis :
  torsion_axis unitOf perpOf (mkVec3 1 0 0) (mkVec3 0 1 0) (mkVec3 1 0 0)
  = mkVec3 1 0 0.
Proof.
  assert (Hoov : torsion_oov (mkVec3 1 0 0) = 1).
  { unfold torsion_oov, vdot. cbn.
    replace (1 * 1 + 0 * 0 + 0 * 0) with 1 by lra.
    rewrite Reqb_false by lra. rewrite sqrt_1. lra. }
  unfold torsion_axis. rewrite Hoov, Reqb_false by lra. cbn [negb].
  unfold vscale. cbn. f_equal; lra.
Qed.

(** C8 at two inputs with a torsion of one term, a normalization for
    [UnitVec3] and a perpendicular for [perp].  First the atoms r = (-1,0,0),
    x = y = (0,0,0), s = (0,1,0): x and y coincide, the plane normals are not
    zero, and the kernel returns the forces (0,-1,0), (0,1,0), (-1,0,0) and
    (1,0,0) by its branch for a missing axis.  Then the atoms r = (-1,0,0),
    x = (0,0,0), y = (1,0,0), s = (1,1,0): r lies on the axis, the first
    plane normal is zero, and the kernel returns early. *)
Lemma periodic_degenerate_cases_witness :
  let bt := mkBondTorsion [mkTorsionTerm 1 1 0] in
  let res := BondTorsion_periodic unitOf perpOf bt
               (mkVec3 (-1) 0 0) vzero vzero (mkVec3 0 1 0) in
  let res' := BondTorsion_periodic unitOf perpOf bt
                (mkVec3 (-1) 0 0) vzero (mkVec3 1 0 0) (mkVec3 1 1 0) in
  (tr_theta res = Some (- PI / 2)
   /\ tr_rf res = mkVec3 0 (-1) 0 /\ tr_sf res = mkVec3 1 0 0
   /\ tr_xf res = vneg (tr_rf res) /\ tr_yf res = vneg (tr_sf res)
   /\ vadd (vadd (vadd (tr_rf res) (tr_xf res)) (tr_yf res)) (tr_sf res)
      = vzero)
  /\ (tr_pe res' = 0 /\ tr_rf res' = vzero /\ tr_xf res' = vzero
      /\ tr_yf res' = vzero /\ tr_sf res' = vzero).
Proof.
  intros bt res res'.
  destruct (periodic_degenerate_cases unitOf perpOf bt
              (mkVec3 (-1) 0 0) vzero vzero (mkVec3 0 1 0)) as [_ H2].
  destruct (periodic_degenerate_cases unitOf perpOf bt
              (mkVec3 (-1) 0 0) vzero (mkVec3 1 0 0) (mkVec3 1 1 0))
    as [H1 _].
  split.
  - destruct (H2 eq_refl) as (Hx & Hy & Hsum).
    split; [unfold res, bt; now rewrite periodic_overlap_example |].
    split; [unfold res, bt; now rewrite periodic_overlap_example |].
    split; [unfold res, bt; now rewrite periodic_overlap_example |].
    split; [exact Hx |]. split; [exact Hy | exact Hsum].
  - apply H1. left.
    replace (vsub vzero (mkVec3 (-1) 0 0)) with (mkVec3 1 0 0)
      by (unfold vsub, vzero; cbn; f_equal; lra).
    replace (vsub (mkVec3 1 1 0) (mkVec3 1 0 0)) with (mkVec3 0 1 0)
      by (unfold vsub; cbn; f_equal; lra).
    replace (vsub (mkVec3 1 0 0) vzero) with (mkVec3 1 0 0)
      by (unfold vsub, vzero; cbn; f_equal; lra).
    rewrite aligned_axis. apply norm_zero_iff.
    unfold vdot, vcross. cbn. ring.
Defined.

Local Close Scope R_scope.
